(* ===== verification/_CoqProject ===== *)
-Q . S2P
Prelude.v
Effects.v
Bytes.v
Json.v
Store.v
Consumed.v
ConsumedPool.v
ChargeReplay.v
ChargePool.v
Channel.v
Authorization.v
ChannelStore.v
RedisStore.v
RedisPool.v
Voucher.v
BatchVerify.v
Session.v
SessionPool.v
Tx.v
Build.v
Policy.v
Settlement.v
Units.v
ChannelTx.v
Signing.v
Deployments.v
ChannelProgram.v
ChannelHooks.v
X402Batch.v
X402BatchTx.v
PayerRefund.v
X402Upto.v
MppBase.v
X402Open.v
MppBinding.v
MppSession.v
MppDelivery.v
MppOpen.v
MppPool.v
MppDemo.v
MppCharges.v
MppReserve.v
MppLedger.v
MppAdopt.v
X402Exact.v
MppTransfers.v
Broadcast.v
X402Offer.v
X402Settle.v
