(* ===== verification/Prelude.v ===== *)
(** * Verification of the Rust payment kit

    The crate [src/rust/crates/kit] lets a server take payments on Solana over
    two HTTP protocols (MPP and x402). Its core, [src/core], keeps the money
    safe: every signature and every challenge is spent once, a channel's
    watermark only grows and is always backed by a signed voucher, what a
    sponsor co-signs is bounded, and what was earned is settled. On top of it
    the MPP session server [src/mpp/server/session.rs] charges requests against
    a channel, and the x402 servers [src/x402] sponsor channel opens, meter a
    request up to an authorized maximum and settle it. This development models
    that core, the handlers of the session server, the wire forms of the
    payment-channels program, and the two channel schemes of x402, and proves
    them.

    ** Parts and files (paths under src/rust/crates/kit/src/core)

    - [Prelude.v], [Effects.v], [Bytes.v], [Json.v]: results with errors, wide
      integers, shared list and map lemmas; programs as sequences of atomic
      operations, run alone or interleaved with any others ([pool_step]), with
      the proof methods for both ([certified], [pool_winners],
      [pool_payments], [traces]);
      little-endian encodings; the interface of serde_json with a concrete
      instance.
    - [Store.v]: [Store] and [MemoryStore] of store.rs, the key-value store as
      atomic operations that may fail before or after they took effect.
    - [Consumed.v], [ConsumedPool.v]: [ConsumedSignatures] of store.rs, alone
      and under concurrency, replicas of the previous release included.
    - [ChargeReplay.v], [ChargePool.v]: [ChargeReplayStore] of store.rs, the
      append-only record of what a challenge's charge came to.
    - [Channel.v]: [ChannelState] of store.rs, its binding to a deployment and
      the onchain observations. [Authorization.v]: its payment authorizations,
      reserve - run the handler - commit.
    - [ChannelStore.v]: the [ChannelStore] contract and its in-memory store.
      [RedisStore.v], [RedisPool.v]: the Redis store, its Lua scripts over the
      record text and its compare-and-set operations, alone and interleaved with
      each other, with faults and with the expiry of finalized records.
    - [Voucher.v]: voucher.rs and the voucher bytes of payment_channel/v1.rs.
      [BatchVerify.v]: batch_verify.rs. [Session.v], [SessionPool.v]:
      session.rs, acceptance of a voucher, alone and interleaved.
    - [Tx.v], [Build.v], [Policy.v]: tx/version.rs and tx/budget.rs; tx/build.rs
      and tx/wire.rs; tx/policy.rs.
    - [Settlement.v]: settlement/packing.rs and settlement/worker.rs.
    - [Units.v]: units.rs.
    - [ChannelTx.v]: the scan of payment_channel/v1.rs over a transaction a client
      built and a sponsor is asked to co-sign. [Signing.v]: signing.rs.
    - [Deployments.v]: the hooks and deployments of payment_channel/v2.rs, over any
      representation of a key ([PubkeyRep]: its bytes in the session server, its
      text elsewhere). [ChannelProgram.v]: the rest of payment_channel/v1.rs and the generated types
      it encodes: addresses, Borsh, every instruction builder, the open
      transaction, the scans of a message. [ChannelHooks.v]:
      payment_channel/v2.rs, channels with callback hooks. [PayerRefund.v]:
      payment_channel/payer_refund.rs and token_account.rs.
    - [X402Batch.v], [X402BatchTx.v]: errors.rs, types.rs, verify.rs and
      tx_policy.rs of ../x402/protocol/schemes/batch_settlement.
    - [X402Upto.v]: types.rs and verify.rs of ../x402/protocol/schemes/upto, and
      the validation of an open in ../x402/server/upto.rs. [X402Open.v]: that
      server: its challenge, the open it verifies under an in-flight slot, its
      settlement, and any number of requests at once.
    - The exact scheme: [X402Exact.v], verify.rs of
      ../x402/protocol/schemes/exact, over the transaction a client signs and over a
      transaction the node reports as confirmed; [X402Offer.v], types.rs of that
      scheme (requirements as JSON objects and back) and the offers and
      credentials of ../x402/server/exact.rs; [Broadcast.v], rpc.rs, what a node's
      answers prove of a transaction; [X402Settle.v], the settlement of
      ../x402/server/exact.rs over the ledger of [Consumed.v] and the exchange of
      [Broadcast.v] ([plift] runs each inside one program).
    - [MppBase.v]: the payloads of ../mpp/protocol/intents/session.rs,
      ../mpp/error.rs, the networks and stablecoins of ../mpp/protocol/solana.rs
      and mints.rs, and the cryptography the server is given. [MppBinding.v]:
      ../mpp/server/session_binding.rs, with the deployments of
      payment_channel/v2.rs: the policy a record is bound to, and the store that
      guards every record by it ([bound] around a closure, [bound_call] for the
      whole trait).
    - The session server of ../mpp/server/session.rs: [MppSession.v], vouchers
      that pay for a request, operator-signed uses, metered charges, top-ups and
      the onchain snapshot each of them needs; [MppDelivery.v], reserved
      deliveries, their commits, the close and the record of a seal; [MppOpen.v],
      the open of a channel, its recovery and its retirement. Each closure given
      to the store is a definition of its own ([use_locked], [charge_locked],
      [commit_locked], [reserve_locked], [activate_locked], ...).
    - [MppTransfers.v]: the charge of ../mpp/server/charge.rs and
      ../mpp/protocol/solana.rs: method details and splits, and what the server
      checks of the transaction a client signed before it co-signs it.
    - [MppPool.v]: any of these handlers at once, and the rules for an account of
      one channel that all of them keep ([kept_covered]); [MppDemo.v]: concrete
      servers and runs. On them: [MppCharges.v] (what answers say was paid),
      [MppReserve.v] (deliveries), [MppLedger.v] (the life of a record),
      [MppAdopt.v] (the log of an open).

    Where a theorem speaks of what was sent, read or recorded along the way, the
    model keeps it: the upto server's state is the in-flight set and a journal of
    its exchanges ([upto_state]), an open of the session server has its log
    ([open_event]), and the specifications over them ([opened_channel], [authorized],
    [open_terms], [opened_as], [adoption], [committed_as]) list the fields
    themselves instead of calling the checks they are about.

    State and operations keep the code's names. A handler is a [prog]: one
    [Vis] node per [.await] on a store, a clock or a network, so whatever may
    happen between two awaits may happen between two nodes; a store error is a
    fault the environment chooses at each operation.

    ** What the theorems show

    - Exactly once: no signature is claimed twice ([ConsumedPool]), a challenge
      has one creator and one outcome ([ChargePool]), an authorization's handler
      runs once - for a request of zero amount, once while it is remembered - and
      its charge is applied once ([Authorization]), a voucher is
      accepted once ([SessionPool]), a top-up is credited once and a metered
      request is charged its total once ([MppCharges]).
    - Money: the watermark stays backed and within the deposit
      ([SessionPool.watermark_backed]), what the session server answers as paid
      was spent from the channel ([MppCharges.answers_paid]), what a delivery
      reserved stays reserved and payable, whatever else is committed
      ([MppReserve.deliveries_reserved]), a charge's
      transaction pays every leg of it from one account that is not the sponsor's
      ([MppTransfers.charge_pays]), a channel holds
      money only on the deposit of its own open ([MppLedger.opened_backed]), a
      frozen watermark never moves, a sponsored fee is bounded
      ([Policy.sponsor_bound]), amounts convert exactly ([Units]).
    - Sponsorship: the layout scan accepts exactly the transactions a sponsor means
      to pay for ([ChannelTx.layout_iff]); the opens, top-ups and close requests
      it accepts give its signature no other effect
      ([X402Upto.upto_open_exact], [X402BatchTx.top_up_fee_only],
      [open_sponsored], [request_close_only]), and what the client's builder
      makes is accepted ([built_open_accepted]).
    - The upto server: under any interleaving two requests never hold one channel,
      the channel of a verified open was read back with every field the challenge
      asks for, and every sponsored transaction answers a challenge of this
      server for a call it got ([one_open_per_channel]); no request leaks its slot
      ([slots_released]); an echoed challenge is matched ([challenge_matches]); a
      settlement charges at most the authorized maximum and pays out unless a
      refund must wait ([settlement_bundle], [refund_decision]).
    - The exact server: a transaction is accepted exactly when it has the layout of
      a sponsored transfer ([exact_accepts_iff]) and a confirmed one when exactly
      one of its transfers settles the terms ([confirmed_accepts_iff]), the same in
      both encodings of the node ([encodings_agree]); every failure of a broadcast
      is the one its exchange with the node proves ([outcome_evidence]); an echoed
      challenge is matched ([echo_accepted]); a credential that is answered as paid
      was one of those payments for an offered requirement
      ([processed_payment_paid]); and whatever the interleaving of servers and
      other users of the ledger, a payment serves one request
      ([payment_serves_once], [settlement_outcome]).
    - The program's wire forms: the open arguments, the channel account of either
      version and the hooks it carries decode exactly from their encodings
      ([open_args_roundtrip], [channel_account_layout],
      [account_v2_roundtrip]), under the owning program only
      ([decode_account_fails_closed]); hook accounts never sign
      ([append_hooks_unprivileged]); the precompile reads the voucher
      ([ed25519_reads_voucher]).
    - Scope: a record of another policy, or of a retired open, is left alone by
      every handler ([MppLedger.refused_untouched]); a server adopts only a
      channel whose account reads as its open and whose own broadcast it saw
      land, and writes its reservation before it broadcasts
      ([MppAdopt.open_adopts_own]); a configuration restored from a
      channel's snapshot is bound to the same records ([snapshot_restores]).
    - Refinement: the replay ledger of a list of records ([charge_refines]), the
      two channel stores of one contract ([memory_refines_contract],
      [redis_refines_contract]), any interleaving of Redis calls, with faults
      and expiry, of one history of atomic calls on the texts
      ([redis_pool_serializable]) - the contract's on records of the current schema
      that read like no set flag but their own ([history_contract]) - the guarded store of the
      contract for its own records ([bound_store_contract]).
    - Functional behaviour of each operation on every branch ([claim_spec],
      [commit_spec], [reserve_iff], [accept_voucher_spec], [verify_voucher_iff],
      [presigned_iff], [parse_units_iff] and others), round trips of the
      encodings, and termination with an answer ([flush_answers],
      [extension_walk_ends]).

    Defects that modelling showed are theorems or examples on the model:
    [ChargePool.stalled_reserve_drops_pending],
    [ChargeReplay.last_generation_unusable], [memory_reserve_refused],
    [VoucherRace.charged_twice], [Policy.absent_server], [Units.parse_plus],
    [X402BatchTx.header_underflow], [X402Open.solana_devnet_mint].

    ** Bounds and fuel

    Loops of the code that stop at a constant keep that constant (64 generations
    of a charge record, the retry counts of [reserve], [record_confirmed], the
    lifecycle touch and an operator's charge). [Settlement.drain_full] has the number of pending
    units as fuel, enough since every batch takes at least one;
    [PayerRefund.extension_walk] has the length of the extension list, enough by
    [extension_walk_ends]. [Broadcast.poll] counts the turns of the status
    loop, which the code does not bound: [None] is a settlement still polling, and
    its theorems hold for every count. Integers are Z
    with the width's wrap-around, saturation or checked operation written out
    where the code has it (u64, i64, u128, and the [as] casts).

    ** Parameters

    serde_json, Redis, ed25519, SHA-256, base58, base64, wincode, message
    compilation, the derivation of program addresses, the keychain and the
    version-1 limits are other crates: each is a class or section variable
    with the documented behaviour as laws, and each property over them has a
    witness at a concrete instance. Redis expiry has no clock: a key with a time
    to live may lapse at any moment, and no other ever does ([RedisLaws]).

    ** Not modelled

    Network access and key storage (the RPC configurations and simulation of rpc.rs,
    tx_pipeline.rs, blockhash.rs, the settlement worker's RPC adapter), metrics and
    tracing, the Redis SCAN behind [list_channels], web glue, the conformance suite
    and the SDKs in other languages. The settlement semaphore bounds how many transactions are
    in flight and changes no outcome. Of
    mpp/server/session.rs: the challenge request, receipts, and the checks on the
    wire transaction of an open or a top-up (their outcome, and what the RPC
    pipeline reports of a broadcast, are answers of the environment). Of
    x402/server/upto.rs: header and JSON text and the deferred settlement. Of
    mpp/server/charge.rs: issuing a challenge, credentials by signature, the
    confidential bundles and the settlement over the replay ledger. A key
    is its 32 bytes in the session server's files and its base58 text in the
    transaction and x402 files, as the code at hand compares it. The other
    protocol servers (mpp/server, the stateful part of
    x402/server/batch_settlement.rs), the clients, gate.rs and select.rs
    use this core and are not modelled yet. Left for later, in this order: the settlement
    of a charge and its credentials by signature, the checks of
    the session server on wire transactions, the charge over a channel, the
    challenge and header text of mpp/protocol/core, the batch server's state,
    tx_pipeline.rs. *)
From Stdlib Require Import Ascii.
From stdpp Require Import base numbers option list gmap strings pretty relations.
Open Scope Z_scope.

(** * Results *)

(** Rust's [Result<A, E>]. *)
Inductive result (A E : Type) : Type :=
| Ok (a : A)
| Err (e : E).
Arguments Ok {A E} a.
Arguments Err {A E} e.

#[export] Instance result_eq_dec `{EqDecision A, EqDecision E} : EqDecision (result A E).
Proof. solve_decision. Defined.

Definition rbind {A B E} (m : result A E) (f : A -> result B E) : result B E :=
  match m with Ok a => f a | Err e => Err e end.
Definition rmap {A B E} (f : A -> B) (m : result A E) : result B E :=
  match m with Ok a => Ok (f a) | Err e => Err e end.
Definition rmap_err {A E F} (f : E -> F) (m : result A E) : result A F :=
  match m with Ok a => Ok a | Err e => Err (f e) end.
Definition is_ok {A E} (m : result A E) : bool :=
  match m with Ok _ => true | Err _ => false end.
Definition ok_or {A E} (o : option A) (e : E) : result A E :=
  match o with Some a => Ok a | None => Err e end.

Declare Scope paykit_scope.
Delimit Scope paykit_scope with paykit.
(** The [?] operator. *)
Notation "'let?' x := m 'in' k" := (rbind m (fun x => k))
  (at level 10, x pattern, m at level 100, k at level 200) : paykit_scope.
Open Scope paykit_scope.

Lemma rbind_ok {A B E} (m : result A E) (f : A -> result B E) b :
  rbind m f = Ok b <-> exists a, m = Ok a /\ f a = Ok b.
Proof. destruct m; simpl; naive_solver. Qed.

(** [Iterator::collect] into a [Result]. *)
Fixpoint collect {A B Er} (f : A -> result B Er) (l : list A) : result (list B) Er :=
  match l with
  | [] => Ok []
  | x :: l => let? y := f x in let? ys := collect f l in Ok (y :: ys)
  end.

Lemma collect_ok {A B Er} (f : A -> result B Er) l ys :
  collect f l = Ok ys <-> Forall2 (fun x y => f x = Ok y) l ys.
Proof.
  revert ys. induction l as [|x l IH]; intros ys; simpl.
  - split; [intros [= <-]; constructor|]. by intros Hn%Forall2_nil_inv_l; subst.
  - rewrite rbind_ok. split.
    + intros (y & Hy & (ys' & Hys & [= <-])%rbind_ok). constructor; [done|by apply IH].
    + intros (y & ys' & Hy & Hys & ->)%Forall2_cons_inv_l. exists y. split; [done|].
      by rewrite (proj2 (IH ys') Hys).
Qed.

Lemma ok_inj {A E} (a b : A) : @Ok A E a = Ok b -> a = b.
Proof. congruence. Qed.

Lemma ok_or_ok {A E} (o : option A) (e : E) a : ok_or o e = Ok a <-> o = Some a.
Proof. destruct o; simpl; naive_solver. Qed.

Lemma rmap_err_ok {A E F} (f : E -> F) (m : result A E) a : rmap_err f m = Ok a -> m = Ok a.
Proof. destruct m; simpl; congruence. Qed.

(** * Machine integers *)

Definition u64_max : Z := 18446744073709551615.
Definition u32_max : Z := 4294967295.
Definition i64_max : Z := 9223372036854775807.
Definition i64_min : Z := -9223372036854775808.

Definition in_u64 (z : Z) : Prop := 0 <= z <= u64_max.
Definition in_u32 (z : Z) : Prop := 0 <= z <= u32_max.
Definition in_i64 (z : Z) : Prop := i64_min <= z <= i64_max.

#[export] Instance in_u64_dec z : Decision (in_u64 z).
Proof. unfold in_u64. apply _. Defined.
#[export] Instance in_u32_dec z : Decision (in_u32 z).
Proof. unfold in_u32. apply _. Defined.
#[export] Instance in_i64_dec z : Decision (in_i64 z).
Proof. unfold in_i64. apply _. Defined.

(** [u64::checked_add], [u64::saturating_add], [u64::saturating_sub]. *)
Definition u64_checked_add (a b : Z) : option Z :=
  if decide (a + b <= u64_max) then Some (a + b) else None.
Definition u64_saturating_add (a b : Z) : Z := Z.min (a + b) u64_max.
Definition u64_saturating_sub (a b : Z) : Z := Z.max 0 (a - b).
Definition u64_saturating_mul (a b : Z) : Z := Z.min (a * b) u64_max.
(** Reinterpretation as an unsigned 64-bit integer: a cast [as u64], and what an
    unchecked [+] leaves in a release build. *)
Definition u64_wrap (z : Z) : Z := z `mod` 2 ^ 64.
(** [i64::saturating_add], [i64::saturating_mul]. *)
Definition i64_saturating_mul (a b : Z) : Z := Z.max i64_min (Z.min (a * b) i64_max).
Definition i64_saturating_add (a b : Z) : Z := Z.max i64_min (Z.min (a + b) i64_max).
(** Two's complement reinterpretation as a 64-bit signed integer: a cast
    [as i64], and what an unchecked [+] leaves in a release build. *)
Definition i64_wrap (z : Z) : Z := (z - i64_min) `mod` 2 ^ 64 + i64_min.

(** * Record update *)

(** [build_update eta r f v] is the record [r] with field [f] set to [v], where
    [eta] rebuilds the record from its projections. *)
Ltac build_update eta r f v :=
  let t := eval cbv beta delta [eta] in (eta r) in
  let fr := constr:(f r) in
  lazymatch eval pattern fr in t with
  | ?g _ => let res := eval cbv beta in (g v) in exact res
  end.

(** * Automation *)

Create HintDb paykit.

(** Unfolds the machine-integer predicates and calls [lia]. *)
Ltac zlia :=
  unfold in_u64, in_u32, in_i64, u64_saturating_add, u64_saturating_sub,
    i64_saturating_add, u64_max, u32_max, i64_max, i64_min in *; lia.

(** Case analysis on every [match] and [if] of the goal, dropping the
    impossible branches. *)
Ltac split_cases := repeat (case_match; simplify_eq/=; try done).

Lemma u64_checked_add_some a b c :
  u64_checked_add a b = Some c <-> a + b = c /\ a + b <= u64_max.
Proof. unfold u64_checked_add. case_decide; naive_solver. Qed.

Lemma i64_wrap_range z : in_i64 (i64_wrap z).
Proof.
  unfold i64_wrap. pose proof (Z.mod_pos_bound (z - i64_min) (2 ^ 64)). zlia.
Qed.

Lemma i64_wrap_id z : in_i64 z -> i64_wrap z = z.
Proof.
  intros. unfold i64_wrap. rewrite Z.mod_small; zlia.
Qed.

#[export] Hint Resolve i64_wrap_range : paykit.
#[export] Hint Rewrite i64_wrap_id using (zlia || done) : paykit.

(** * Lists *)

(** [Iterator::position]. *)
Fixpoint position {A} (f : A -> bool) (l : list A) : option nat :=
  match l with
  | [] => None
  | x :: l => if f x then Some 0%nat else S <$> position f l
  end.

(** [Vec::remove] at an index in range. *)
Definition vec_remove {A} (i : nat) (l : list A) : list A := take i l ++ drop (S i) l.

Definition zsum (l : list Z) : Z := foldr Z.add 0 l.

Lemma position_some {A} (f : A -> bool) l i :
  position f l = Some i -> exists x, l !! i = Some x /\ f x = true.
Proof.
  revert i. induction l as [|y l IH]; intros i; simpl; [done|].
  case_match; intros; simplify_eq/=; [eauto|].
  destruct (position f l); simplify_eq/=. eauto.
Qed.

Lemma position_none {A} (f : A -> bool) l :
  position f l = None <-> Forall (fun x => f x = false) l.
Proof.
  induction l as [|y l IH]; simpl; [by split|].
  case_match; rewrite Forall_cons.
  - naive_solver congruence.
  - rewrite fmap_None, IH. naive_solver.
Qed.

Lemma vec_remove_delete {A} i (l : list A) : vec_remove i l = delete i l.
Proof. unfold vec_remove. by rewrite delete_take_drop. Qed.

Lemma zsum_app l k : zsum (l ++ k) = zsum l + zsum k.
Proof. induction l; simpl; lia. Qed.

Lemma zsum_insert l i x y :
  l !! i = Some x -> zsum (<[i:=y]> l) = zsum l - x + y.
Proof.
  revert i. induction l as [|z l IH]; intros [|i] ?; simplify_eq/=; [lia|].
  rewrite (IH i) by done. lia.
Qed.

Lemma zsum_nonneg l : Forall (fun z => 0 <= z) l -> 0 <= zsum l.
Proof. induction 1; simpl; lia. Qed.

Lemma zsum_two l i j x y :
  Forall (fun z => 0 <= z) l -> i <> j -> l !! i = Some x -> l !! j = Some y -> x + y <= zsum l.
Proof.
  intros Hl Hij Hi Hj. pose proof (zsum_insert l i x 0 Hi) as H1.
  assert (Hj0 : <[i := 0]> l !! j = Some y) by (by rewrite list_lookup_insert_ne).
  pose proof (zsum_insert _ j y 0 Hj0) as H2.
  assert (0 <= zsum (<[j := 0]> (<[i := 0]> l))); [|lia].
  apply zsum_nonneg. by apply Forall_insert; [apply Forall_insert|].
Qed.

(** Two positions of a sum of nonnegative terms. *)
Lemma zsum_zip_two {A B} (f : A -> B -> Z) k l i j a b c d :
  i <> j -> k !! i = Some a -> k !! j = Some b -> l !! i = Some c -> l !! j = Some d ->
  (forall x y, 0 <= f x y) -> f a c + f b d <= zsum (zip_with f k l).
Proof.
  intros Hij Ha Hb Hc Hd Hpos. apply (zsum_two _ i j); [|done|..].
  - apply Forall_lookup. intros n z Hz. by apply lookup_zip_with_Some in Hz as (x & y & -> & _ & _).
  - by rewrite lookup_zip_with, Ha, Hc.
  - by rewrite lookup_zip_with, Hb, Hd.
Qed.

Lemma zsum_le {A} (f g : A -> Z) l :
  Forall (fun x => f x <= g x) l -> zsum (f <$> l) <= zsum (g <$> l).
Proof. induction 1; csimpl; lia. Qed.

(** * Strings *)

Fixpoint no_colon (s : string) : bool :=
  match s with
  | EmptyString => true
  | String c s => negb (Ascii.eqb c ":"%char) && no_colon s
  end.

Lemma append_nil_inv s t : s = s +:+ t -> t = "".
Proof. induction s as [|c s IH]; simpl; [done|]. intros [= Heq]. auto. Qed.

Lemma append_colon_inv s s' t t' :
  no_colon s = true -> no_colon s' = true ->
  s +:+ ":" +:+ t = s' +:+ ":" +:+ t' -> s = s'.
Proof.
  revert s'. induction s as [|c s IH]; intros [|c' s'] Hs Hs' Heq; simpl in *;
    simplify_eq; try done.
  apply andb_prop in Hs as [_ ?]. apply andb_prop in Hs' as [_ ?]. f_equal. eauto.
Qed.

Lemma append_colon_not s s' t : no_colon s = true -> s <> s' +:+ ":" +:+ t.
Proof.
  revert s. induction s' as [|c' s' IH]; intros [|c s] Hs Heq; simpl in *.
  1-3: try discriminate Heq. 1: by injection Heq as -> ->.
  injection Heq as -> Heq. apply andb_prop in Hs as [_ Hs]. by apply (IH s).
Qed.

Lemma pretty_N_go_no_colon x s : no_colon s = true -> no_colon (pretty_N_go x s) = true.
Proof.
  revert s. induction (N.lt_wf_0 x) as [x _ IH]. intros s Hs.
  destruct (decide (x = 0)%N) as [->|]; [by rewrite pretty_N_go_0|].
  rewrite pretty_N_go_step by lia. apply IH; [by apply N.div_lt; lia|].
  simpl. rewrite Hs. unfold pretty_N_char. by repeat case_match.
Qed.

Lemma pretty_nat_no_colon (n : nat) : no_colon (pretty n) = true.
Proof.
  unfold pretty, pretty_nat, pretty, pretty_N. case_decide; [done|].
  by apply pretty_N_go_no_colon.
Qed.

Lemma append_assoc s t u : (s +:+ t) +:+ u = s +:+ t +:+ u.
Proof. induction s as [|c s IH]; [done|]. change (String c ((s +:+ t) +:+ u) = String c (s +:+ t +:+ u)). by rewrite IH. Qed.

Lemma append_length_inj s s' t t' :
  String.length s = String.length s' -> s +:+ t = s' +:+ t' -> s = s' /\ t = t'.
Proof.
  revert s'. induction s as [|c s IH]; intros [|c' s'] Hl Heq; try done.
  injection Heq as -> Heq. injection Hl as Hl. destruct (IH _ Hl Heq) as [-> ->]. done.
Qed.
