(* ===== verification/Effects.v ===== *)
(** Effectful code as programs over atomic operations. Each [.await] on a store
    is one [Vis] node; between two nodes any other task may run. [run] executes
    one program alone, [pool_step] interleaves many over one shared state, and
    [certified] is the proof method for interleaved runs. *)
From stdpp Require Import base numbers option list relations.
From S2P Require Import Prelude.

Section programs.
Context {E : Type -> Type}.

Inductive prog (A : Type) : Type :=
| Ret (a : A)
| Vis (X : Type) (e : E X) (k : X -> prog A).
Arguments Ret {A} a.
Arguments Vis {A X} e k.

Fixpoint pbind {A B} (f : A -> prog B) (p : prog A) : prog B :=
  match p with
  | Ret a => f a
  | Vis e k => Vis e (fun x => pbind f (k x))
  end.

Definition perform {X} (e : E X) : prog X := Vis e Ret.

(** [m.await?]: continue on [Ok], return the error otherwise. *)
Definition ptry {A B Er} (f : A -> prog (result B Er)) (p : prog (result A Er)) :
    prog (result B Er) :=
  pbind (fun r => match r with Ok a => f a | Err e => Ret (Err e) end) p.
End programs.
Arguments prog E A : clear implicits.
Arguments Ret {E A} a.
Arguments Vis {E A X} e k.

#[export] Instance prog_ret {E} : MRet (prog E) := fun A a => Ret a.
#[export] Instance prog_bind {E} : MBind (prog E) := fun A B f p => pbind f p.

Notation "'await?' x := p 'in' k" := (ptry (fun x => k) p)
  (at level 10, x pattern, p at level 100, k at level 200) : paykit_scope.
Notation "'await' x := p 'in' k" := (pbind (fun x => k) p)
  (at level 10, x pattern, p at level 100, k at level 200) : paykit_scope.

(** * Sequential runs *)

Section run.
Context {E : Type -> Type} {S : Type} (exec : forall X, E X -> S -> X * S).

Fixpoint run {A} (p : prog E A) (s : S) : A * S :=
  match p with
  | Ret a => (a, s)
  | Vis e k => let '(x, s') := exec _ e s in run (k x) s'
  end.

Lemma run_pbind {A B} (f : A -> prog E B) p s :
  run (pbind f p) s = let '(a, s') := run p s in run (f a) s'.
Proof.
  revert s. induction p as [a|X e k IH]; intros s; simpl; [done|].
  destruct (exec X e s) as [x s']. apply IH.
Qed.

Lemma run_ptry {A B Er} (f : A -> prog E (result B Er)) p s :
  run (ptry f p) s =
  let '(r, s') := run p s in
  match r with Ok a => run (f a) s' | Err e => (Err e, s') end.
Proof.
  unfold ptry. rewrite run_pbind. destruct (run p s) as [[a|e] s']; done.
Qed.

Lemma run_perform {X} (e : E X) s : run (perform e) s = exec X e s.
Proof. simpl. by destruct (exec X e s). Qed.
End run.

(** * Interleaved runs *)

Section pool.
Context {E : Type -> Type} {S F A : Type}.
(** [F] is what the environment decides about one step: the clock, whether
    the operation fails. *)
Context (exec : forall X, F -> E X -> S -> X * S).

Definition pstep (f : F) (p : prog E A) (s : S) : option (prog E A * S) :=
  match p with
  | Ret _ => None
  | Vis e k => let '(x, s') := exec _ f e s in Some (k x, s')
  end.

Inductive pool_step : relation (list (prog E A) * S) :=
| pool_step_at i f p p' ps s s' :
    ps !! i = Some p ->
    pstep f p s = Some (p', s') ->
    pool_step (ps, s) (<[i := p']> ps, s').

(** A scheduler: which task runs next and under which environment choice. *)
Fixpoint run_pool (sched : list (nat * F)) (c : list (prog E A) * S) :
    list (prog E A) * S :=
  match sched with
  | [] => c
  | (i, f) :: sched =>
      match c.1 !! i with
      | Some p =>
          match pstep f p c.2 with
          | Some (p', s') => run_pool sched (<[i := p']> c.1, s')
          | None => run_pool sched c
          end
      | None => run_pool sched c
      end
  end.

Definition returned (p : prog E A) : option A :=
  match p with Ret a => Some a | Vis _ _ => None end.

Lemma run_pool_rtc sched c : rtc pool_step c (run_pool sched c).
Proof.
  revert c. induction sched as [|[i f] sched IH]; intros [ps s]; simpl; [done|].
  destruct (ps !! i) as [p|] eqn:Hp; [|apply IH].
  destruct (pstep f p s) as [[p' s']|] eqn:Hs; [|apply IH].
  eapply rtc_l; [|apply IH]. by econstructor.
Qed.

Lemma run_pool_steps sched c : rtc pool_step c ((run_pool sched c).1, (run_pool sched c).2).
Proof. rewrite <-surjective_pairing. apply run_pool_rtc. Qed.
End pool.

(** * Certificates

    A task carries a ghost value [g : G]. [certified post g p] says that
    whatever the shared state answers, every operation [p] performs is
    [allowed] at the ghost value reached so far, and its result satisfies
    [post]. If each allowed operation keeps the global invariant [I], every
    interleaving of certified tasks does. *)
Section certified.
Context {E : Type -> Type} {S F A G : Type}.
Context (exec : forall X, F -> E X -> S -> X * S).
Context (allowed : forall X, G -> E X -> Prop).
Context (upd : forall X, G -> E X -> X -> G).

Fixpoint certified {B} (post : G -> B -> Prop) (g : G) (p : prog E B) : Prop :=
  match p with
  | Ret a => post g a
  | Vis e k => allowed _ g e /\ forall x, certified post (upd _ g e x) (k x)
  end.

Lemma certified_pbind {B C} (post : G -> C -> Prop) (f : B -> prog E C) p g :
  certified (fun g' b => certified post g' (f b)) g p ->
  certified post g (pbind f p).
Proof.
  revert g. induction p as [b|X e k IH]; intros g; simpl; [done|].
  intros [Ha Hk]. split; [done|]. intros x. apply IH, Hk.
Qed.

Lemma certified_ptry {B C Er} (post : G -> result C Er -> Prop) f
    (p : prog E (result B Er)) g :
  certified (fun g' r => match r with
                         | Ok b => certified post g' (f b)
                         | Err e => post g' (Err e)
                         end) g p ->
  certified post g (ptry f p).
Proof.
  intros H. apply certified_pbind. revert g H.
  induction p as [[b|e]|X e k IH]; intros g; simpl; [done|done|].
  intros [Ha Hk]. split; [done|]. intros x. apply IH, Hk.
Qed.

Lemma certified_mono {B} (post post' : G -> B -> Prop) p g :
  (forall g b, post g b -> post' g b) ->
  certified post g p -> certified post' g p.
Proof.
  intros Hp. revert g. induction p as [b|X e k IH]; intros g; simpl; [auto|].
  intros [Ha Hk]. split; [done|]. intros x. apply IH, Hk.
Qed.

Context (I : S -> list G -> Prop).
Context (I_step : forall X f (e : E X) x s s' gs i g,
  I s gs -> gs !! i = Some g -> allowed X g e ->
  exec X f e s = (x, s') -> I s' (<[i := upd X g e x]> gs)).

(** Task [i] is certified with the post-condition [post i]. *)
Definition tasks_certified (post : nat -> G -> A -> Prop) (gs : list G) (ps : list (prog E A)) :=
  length gs = length ps /\
  forall i g p, gs !! i = Some g -> ps !! i = Some p -> certified (post i) g p.

Lemma tasks_certified_Forall2 (post : G -> A -> Prop) gs ps :
  tasks_certified (fun _ => post) gs ps <-> Forall2 (certified post) gs ps.
Proof.
  split.
  - intros [Hl Hall]. apply Forall2_same_length_lookup. eauto.
  - intros Hall. by apply Forall2_same_length_lookup in Hall as [? ?].
Qed.

Lemma pool_step_certified (post : nat -> G -> A -> Prop) ps s ps' s' gs :
  pool_step exec (ps, s) (ps', s') ->
  tasks_certified post gs ps -> I s gs ->
  exists gs', tasks_certified post gs' ps' /\ I s' gs' /\ length gs' = length gs.
Proof.
  inversion 1 as [i f p p' ? ? ? Hp Hst]; subst. intros [Hl Hall] HI.
  destruct (lookup_lt_is_Some_2 gs i) as [g Hg].
  { rewrite Hl. by eapply lookup_lt_Some. }
  pose proof (Hall _ _ _ Hg Hp) as Hc.
  destruct p as [a|X e k]; simplify_eq/=.
  destruct (exec X f e s) as [x s''] eqn:He. simplify_eq. destruct Hc as [Ha Hk].
  exists (<[i := upd X g e x]> gs). split_and!; [|by eapply I_step|apply length_insert].
  split; [by rewrite !length_insert|]. intros j g' p' Hg' Hp'.
  destruct (decide (i = j)) as [<-|Hne].
  - rewrite list_lookup_insert_eq in Hg' by (by eapply lookup_lt_Some).
    rewrite list_lookup_insert_eq in Hp' by (by eapply lookup_lt_Some). by simplify_eq.
  - rewrite list_lookup_insert_ne in Hg' by done.
    rewrite list_lookup_insert_ne in Hp' by done. eauto.
Qed.

Theorem pool_certified (post : nat -> G -> A -> Prop) ps s ps' s' gs :
  rtc (pool_step exec) (ps, s) (ps', s') ->
  tasks_certified post gs ps -> I s gs ->
  exists gs', tasks_certified post gs' ps' /\ I s' gs' /\ length gs' = length gs.
Proof.
  intros Hr. remember (ps, s) as c eqn:Ec. remember (ps', s') as c' eqn:Ec'.
  revert ps s gs Ec. induction Hr as [|? [ps1 s1] ? Hs _ IH];
    intros ps s gs -> Hall HI; simplify_eq.
  - eauto.
  - edestruct pool_step_certified as (gs1 & Hall1 & HI1 & Hl1); [done..|].
    edestruct IH as (gs2 & ? & ? & ?); [done..|].
    exists gs2. split_and!; [done..|congruence].
Qed.
End certified.

(** * Accounting

    Every operation has a [gain] that is at most what it adds to a potential of
    the shared state. A task starts with a [budget]; each operation adds its
    gain to it, the budget never goes below zero, and a task that wins ends
    with at least one unit. Then the number of winners is bounded by the
    potential the run added plus the initial budgets, whatever the
    interleaving. *)
Section accounting.
Context {E : Type -> Type} {S F A T : Type}.
Context (exec : forall X, F -> E X -> S -> X * S).
Context (ok_op : forall X, E X -> Prop).
Context (gain : forall X, E X -> X -> Z).
Context (potential : S -> Z).
Context (exec_gain : forall X f (e : E X) x s s',
  ok_op X e -> exec X f e s = (x, s') -> gain X e x <= potential s' - potential s).
Context (task : T -> prog E A) (budget : T -> Z) (wins : T -> A -> bool).

Definition may_perform (X : Type) (g : T * Z) (e : E X) : Prop := 0 <= g.2 /\ ok_op X e.
Definition earn (X : Type) (g : T * Z) (e : E X) (x : X) : T * Z := (g.1, g.2 + gain X e x).
Definition solvent (g : T * Z) (a : A) : Prop := (if wins g.1 a then 1 else 0) <= g.2.

Definition funded (t : T) : Prop := certified may_perform earn solvent (t, budget t) (task t).

Definition winner (t : T) (p : prog E A) : Z :=
  match p with Ret a => if wins t a then 1 else 0 | Vis _ _ => 0 end.
Definition count_winners (ts : list T) (ps : list (prog E A)) : Z :=
  zsum (zip_with winner ts ps).

Theorem pool_winners ts s ps' s' :
  rtc (pool_step exec) (task <$> ts, s) (ps', s') ->
  Forall funded ts ->
  count_winners ts ps' <= potential s' - potential s + zsum (budget <$> ts).
Proof.
  intros Hr Hall.
  set (I := fun (s1 : S) (gs : list (T * Z)) =>
    zsum gs.*2 <= potential s1 - potential s + zsum (budget <$> ts) /\ gs.*1 = ts).
  edestruct (pool_certified (A:=A) exec may_perform earn I) with
    (post := fun _ : nat => solvent) (gs := (fun t => (t, budget t)) <$> ts)
    as (gs' & Hall'%tasks_certified_Forall2 & [HI Hts] & _); [|exact Hr|..].
  - intros X f e x s1 s1' gs i g [Hsum Hf] Hg [_ Hok] He. split.
    + rewrite list_fmap_insert. simpl.
      rewrite (zsum_insert _ _ g.2); [|by rewrite list_lookup_fmap, Hg].
      pose proof (exec_gain _ _ _ _ _ _ Hok He). lia.
    + rewrite list_fmap_insert. simpl. rewrite list_insert_id; [done|].
      by rewrite list_lookup_fmap, Hg.
  - apply tasks_certified_Forall2, Forall2_fmap, Forall_Forall2_diag. exact Hall.
  - split.
    + rewrite <-list_fmap_compose.
      change (snd ∘ _ <$> ts) with (budget <$> ts). lia.
    + rewrite <-list_fmap_compose. apply list_fmap_id.
  - etrans; [|exact HI]. rewrite <-Hts. unfold count_winners. clear -Hall'.
    induction Hall' as [|[t acc] p gs ps Hp _ IH]; simpl in *; [done|].
    apply Z.add_le_mono; [|exact IH].
    destruct p as [a|X e k]; simpl in *; [done|]. by destruct Hp as [[? _] _].
Qed.

(** The winners of the finished tasks, as a count of positions. *)
Lemma count_winners_two ts ps i j ti tj ai aj :
  i <> j -> ts !! i = Some ti -> ts !! j = Some tj ->
  ps !! i = Some (Ret ai) -> ps !! j = Some (Ret aj) ->
  wins ti ai = true -> wins tj aj = true -> 2 <= count_winners ts ps.
Proof.
  intros Hij Hti Htj Hpi Hpj Hwi Hwj.
  pose proof (zsum_zip_two winner ts ps i j ti tj _ _ Hij Hti Htj Hpi Hpj) as Htwo.
  simpl in Htwo. rewrite Hwi, Hwj in Htwo. apply Htwo.
  intros t [a|X e k]; simpl; repeat case_match; lia.
Qed.
End accounting.

#[export] Instance prog_fmap {E} : FMap (prog E) := fun A B f p => pbind (fun a => Ret (f a)) p.

(** * Traces

    What a program may do whatever its operations answer: [entry] says what an
    operation and its answer leave in the log. *)
Section traces.
Context {E : Type -> Type} {Log : Type} (entry : forall X, E X -> X -> list Log).

Fixpoint traces {A} (p : prog E A) (l : list Log) (a : A) : Prop :=
  match p with
  | Ret a' => l = [] /\ a = a'
  | Vis e k => exists x l', l = entry _ e x ++ l' /\ traces (k x) l' a
  end.

Lemma traces_pbind {A B} (f : A -> prog E B) p l b :
  traces (pbind f p) l b <->
  exists a l1 l2, l = l1 ++ l2 /\ traces p l1 a /\ traces (f a) l2 b.
Proof.
  revert l. induction p as [a|X e k IH]; intros l; simpl.
  - split; [intros Hl; by exists a, [], l|]. by intros (? & ? & ? & -> & [-> ->] & ?).
  - split.
    + intros (x & l' & -> & (a & l1 & l2 & -> & H1 & H2)%IH).
      exists a, (entry X e x ++ l1), l2. rewrite app_assoc. split_and!; eauto.
    + intros (a & l1 & l2 & -> & (x & l' & -> & H1) & H2).
      exists x, (l' ++ l2). rewrite app_assoc. split; [done|]. apply IH. eauto 6.
Qed.

Lemma traces_ptry {A B Er} (f : A -> prog E (result B Er)) p l b :
  traces (ptry f p) l b <->
  (exists a l1 l2, l = l1 ++ l2 /\ traces p l1 (Ok a) /\ traces (f a) l2 b) \/
  (exists e, b = Err e /\ traces p l (Err e)).
Proof.
  unfold ptry. rewrite traces_pbind. split.
  - intros ([a|e] & l1 & l2 & -> & H1 & H2); [left; eauto 6|].
    destruct H2 as [-> ->]. right. rewrite app_nil_r. eauto.
  - intros [(a & l1 & l2 & -> & ? & ?)|(e & -> & ?)]; [by exists (Ok a), l1, l2|].
    exists (Err e), l, []. by rewrite app_nil_r.
Qed.

Lemma traces_perform {X} (e : E X) l x : traces (perform e) l x <-> l = entry X e x.
Proof.
  simpl. split.
  - intros (y & l' & -> & -> & ->). by rewrite app_nil_r.
  - intros ->. exists x, []. by rewrite app_nil_r.
Qed.

(** The log of a sequential run. *)
Fixpoint log_of {S A} (exec : forall X, E X -> S -> X * S) (p : prog E A) (s : S) : list Log :=
  match p with
  | Ret _ => []
  | Vis e k => let '(x, s') := exec _ e s in entry _ e x ++ log_of exec (k x) s'
  end.

Lemma run_traces {S A} (exec : forall X, E X -> S -> X * S) (p : prog E A) s :
  traces p (log_of exec p s) (run exec p s).1.
Proof.
  revert s. induction p as [a|X e k IH]; intros s; simpl; [done|].
  destruct (exec X e s) as [x s']. exists x, (log_of exec (k x) s'). split; [done|apply IH].
Qed.
End traces.

(** * Payments

    [owes post b p]: a task with [b] credits, earning at each operation no more
    than what the operation adds to the [potential] of the shared state, ends
    with credits and an answer that satisfy [post]. What finished tasks claim to
    have been paid is then covered by the potential their run added, whatever
    the interleaving. *)
Section payments.
Context {E : Type -> Type} {S F : Type}.
Context (exec : forall X, F -> E X -> S -> X * S).
Context (I : S -> Prop) (potential : S -> Z).

Definition earns (X : Type) (e : E X) (g : X -> Z) : Prop :=
  forall f s x s', I s -> exec X f e s = (x, s') -> I s' /\ g x <= potential s' - potential s.

Fixpoint owes {B} (post : Z -> B -> Prop) (b : Z) (p : prog E B) : Prop :=
  match p with
  | Ret a => post b a
  | Vis e k => 0 <= b /\ exists g, earns _ e g /\ forall x, owes post (b + g x) (k x)
  end.

Lemma owes_mono {B} (post post' : Z -> B -> Prop) b p :
  (forall b a, post b a -> post' b a) -> owes post b p -> owes post' b p.
Proof.
  intros Hp. revert b. induction p as [a|X e k IH]; intros b; simpl; [auto|].
  intros (Hb & g & Hg & Hk). split; [done|]. exists g. split; [done|]. intros x. apply IH, Hk.
Qed.

Lemma owes_pbind {B C} (post : Z -> C -> Prop) (f : B -> prog E C) b p :
  owes (fun b' a => owes post b' (f a)) b p -> owes post b (pbind f p).
Proof.
  revert b. induction p as [a|X e k IH]; intros b; simpl; [done|].
  intros (Hb & g & Hg & Hk). split; [done|]. exists g. split; [done|]. intros x. apply IH, Hk.
Qed.

Lemma owes_ptry {B C Er} (post : Z -> result C Er -> Prop) f (p : prog E (result B Er)) b :
  owes (fun b' r => match r with
                    | Ok a => owes post b' (f a)
                    | Err e => post b' (Err e)
                    end) b p ->
  owes post b (ptry f p).
Proof.
  intros Ho. apply owes_pbind. eapply owes_mono; [|exact Ho]. by intros b' [a|e].
Qed.

(** An operation that keeps the invariant and the potential. *)
Definition quiet (X : Type) (e : E X) : Prop := earns X e (fun _ => 0).

Lemma owes_quiet {X B} (post : Z -> B -> Prop) b (e : E X) k :
  quiet X e -> 0 <= b -> (forall x, owes post b (k x)) -> owes post b (Vis e k).
Proof.
  intros Hq Hb Hk. split; [done|]. exists (fun _ => 0). split; [done|].
  intros x. rewrite Z.add_0_r. apply Hk.
Qed.

Context {A T : Type} (task : T -> prog E A) (pays : T -> A -> Z).

Definition covered (t : T) (b : Z) (p : prog E A) : Prop := owes (fun b a => pays t a <= b) b p.
Definition paid (t : T) (p : prog E A) : Z :=
  match p with Ret a => pays t a | Vis _ _ => 0 end.

Lemma covered_paid t b p : covered t b p -> paid t p <= b.
Proof. destruct p; simpl; [done|by intros []]. Qed.

Lemma covered_step ts ps bs s ps' s' :
  pool_step exec (ps, s) (ps', s') -> I s ->
  length ts = length ps -> length bs = length ps ->
  (forall i t b p, ts !! i = Some t -> bs !! i = Some b -> ps !! i = Some p -> covered t b p) ->
  exists bs', I s' /\ length ts = length ps' /\ length bs' = length ps' /\
    (forall i t b p, ts !! i = Some t -> bs' !! i = Some b -> ps' !! i = Some p -> covered t b p) /\
    zsum bs' - potential s' <= zsum bs - potential s.
Proof.
  inversion 1 as [i f p p' ? ? ? Hp Hst]; subst. intros HI Hts Hbs Hall.
  destruct (lookup_lt_is_Some_2 ts i) as [t Ht]; [rewrite Hts; by eapply lookup_lt_Some|].
  destruct (lookup_lt_is_Some_2 bs i) as [b Hb]; [rewrite Hbs; by eapply lookup_lt_Some|].
  pose proof (Hall _ _ _ _ Ht Hb Hp) as Hc. destruct p as [a|X e k]; [done|]. simpl in Hst.
  destruct (exec X f e s) as [x s''] eqn:He. simplify_eq. destruct Hc as (_ & g & Hg & Hk).
  destruct (Hg _ _ _ _ HI He) as [HI' Hgain].
  exists (<[i := b + g x]> bs). rewrite !length_insert. split_and!; [done..| |].
  - intros j t' b' p' Ht' Hb' Hp'. destruct (decide (i = j)) as [<-|Hne].
    + rewrite list_lookup_insert_eq in Hb' by (by eapply lookup_lt_Some).
      rewrite list_lookup_insert_eq in Hp' by (by eapply lookup_lt_Some). simplify_eq. apply Hk.
    + rewrite list_lookup_insert_ne in Hb' by done. rewrite list_lookup_insert_ne in Hp' by done. eauto.
  - rewrite (zsum_insert _ _ b) by done. lia.
Qed.

Lemma zsum_paid_le ts ps bs :
  length ts = length ps -> length bs = length ps ->
  (forall i t b p, ts !! i = Some t -> bs !! i = Some b -> ps !! i = Some p -> covered t b p) ->
  zsum (zip_with paid ts ps) <= zsum bs.
Proof.
  revert ts bs. induction ps as [|p ps IH]; intros [|t ts] [|b bs] ? ? Hall; simplify_eq/=; [done|].
  pose proof (covered_paid _ _ _ (Hall 0%nat t b p eq_refl eq_refl eq_refl)).
  enough (zsum (zip_with paid ts ps) <= zsum bs) by lia. apply IH; [done..|].
  intros i. apply (Hall (Datatypes.S i)).
Qed.

(** Coverage is a property of the code that is left to run, whatever the state. *)
Lemma covered_left ts ps s ps' s' :
  rtc (pool_step exec) (ps, s) (ps', s') -> length ts = length ps ->
  (forall i t p, ts !! i = Some t -> ps !! i = Some p -> exists b, covered t b p) ->
  length ts = length ps' /\ forall i t p, ts !! i = Some t -> ps' !! i = Some p -> exists b, covered t b p.
Proof.
  intros Hr. remember (ps, s) as c eqn:Ec. remember (ps', s') as c' eqn:Ec'.
  revert ps s Ec. induction Hr as [|? [ps1 s1] ? Hs _ IH]; intros ps s -> Hl Hall; simplify_eq; [done|].
  inversion Hs as [i f p p' ? ? ? Hp Hst]; subst. eapply IH; [done|done|by rewrite length_insert|].
  intros j t q Ht Hq. destruct (decide (i = j)) as [<-|Hne].
  - rewrite list_lookup_insert_eq in Hq by (by eapply lookup_lt_Some). simplify_eq.
    destruct (Hall _ _ _ Ht Hp) as [b Hb]. destruct p as [a|X e k]; [done|]. simpl in Hst.
    destruct (exec X f e s) as [x s'']. simplify_eq. destruct Hb as (_ & g & _ & Hk). exists (b + g x). apply Hk.
  - rewrite list_lookup_insert_ne in Hq by done. eauto.
Qed.

Lemma covered_run ts bs s ps s' ps' :
  rtc (pool_step exec) (ps, s) (ps', s') -> I s -> length ts = length ps -> length bs = length ps ->
  (forall i t b p, ts !! i = Some t -> bs !! i = Some b -> ps !! i = Some p -> covered t b p) ->
  exists bs', I s' /\ length ts = length ps' /\ length bs' = length ps' /\
    (forall i t b p, ts !! i = Some t -> bs' !! i = Some b -> ps' !! i = Some p -> covered t b p) /\
    zsum bs' - potential s' <= zsum bs - potential s.
Proof.
  intros Hr. remember (ps, s) as c eqn:Ec. remember (ps', s') as c' eqn:Ec'.
  revert ps s bs Ec. induction Hr as [|? [ps1 s1] ? Hs _ IH]; intros ps s bs -> HI Hl1 Hl2 Hall; simplify_eq.
  - exists bs. split_and!; [done..|lia].
  - edestruct covered_step as (bs1 & HI1 & ? & ? & ? & ?); [done..|].
    edestruct IH as (bs2 & ? & ? & ? & ? & ?); [done..|].
    exists bs2. split_and!; [done..|lia].
Qed.

(** An invariant that holds at some point of a run of covered tasks holds from
    then on, whatever the tasks were doing. *)
Theorem pool_kept_from ts s ps1 s1 ps' s' :
  rtc (pool_step exec) (task <$> ts, s) (ps1, s1) -> rtc (pool_step exec) (ps1, s1) (ps', s') ->
  Forall (fun t => covered t 0 (task t)) ts -> I s1 -> I s'.
Proof.
  intros Hr1 Hr2 Hts HI.
  destruct (covered_left ts _ _ _ _ Hr1) as [Hl Hall]; [by rewrite length_fmap| |].
  { intros i t p Ht Hp. rewrite list_lookup_fmap, Ht in Hp. simplify_eq/=. exists 0. by eapply Forall_lookup_1 in Hts. }
  assert (exists bs, length bs = length ps1 /\
    forall i t b p, ts !! i = Some t -> bs !! i = Some b -> ps1 !! i = Some p -> covered t b p) as (bs & Hbs & Hcov).
  { clear -Hl Hall. revert ps1 Hl Hall. induction ts as [|t ts IH]; intros [|p ps] Hl Hall; simplify_eq/=; [by exists []|].
    destruct (IH ps Hl) as (bs & Hbs & Hcov); [intros i; apply (Hall (Datatypes.S i))|].
    destruct (Hall 0%nat t p eq_refl eq_refl) as [b Hb]. exists (b :: bs). split; [by simpl; f_equal|].
    intros [|i] t' b' p' Ht Hb' Hp; simplify_eq/=; [done|]. by eapply Hcov. }
  by destruct (covered_run _ _ _ _ _ _ Hr2 HI Hl Hbs Hcov) as (? & ? & _).
Qed.

Theorem pool_payments ts s ps' s' :
  rtc (pool_step exec) (task <$> ts, s) (ps', s') -> I s ->
  Forall (fun t => covered t 0 (task t)) ts ->
  I s' /\ zsum (zip_with paid ts ps') <= potential s' - potential s.
Proof.
  intros Hr HI Hts.
  destruct (covered_run ts ((fun _ => 0) <$> ts) _ _ _ _ Hr HI) as (bs & HI' & Hl1 & Hl2 & Hall & Hsum);
    [by rewrite length_fmap|by rewrite !length_fmap| |].
  { intros i t b p Ht Hb Hp. rewrite list_lookup_fmap, Ht in Hb. rewrite list_lookup_fmap, Ht in Hp. simplify_eq/=.
    by eapply Forall_lookup_1 in Hts. }
  assert (Hzero : zsum ((fun _ => 0) <$> ts) = 0) by (clear; induction ts; csimpl; lia).
  split; [done|]. pose proof (zsum_paid_le _ _ _ Hl1 Hl2 Hall). lia.
Qed.

Lemma paid_two ts ps i j ti tj ai aj :
  (forall t a, 0 <= pays t a) -> i <> j -> ts !! i = Some ti -> ts !! j = Some tj ->
  ps !! i = Some (Ret ai) -> ps !! j = Some (Ret aj) ->
  pays ti ai + pays tj aj <= zsum (zip_with paid ts ps).
Proof.
  intros Hpos Hij Hti Htj Hpi Hpj.
  apply (zsum_zip_two paid ts ps i j ti tj (Ret ai) (Ret aj)); [done..|].
  intros t [a|X e k]; simpl; [apply Hpos|lia].
Qed.
End payments.

(** * Lifting

    A program over some of the effects of a larger one. *)
Section lifting.
Context {E E' : Type -> Type} (inject : forall X, E X -> E' X).

Fixpoint plift {A} (p : prog E A) : prog E' A :=
  match p with
  | Ret a => Ret a
  | Vis e k => Vis (inject _ e) (fun x => plift (k x))
  end.

Lemma certified_plift {G B} allowed upd allowed' upd' (post : G -> B -> Prop) g p :
  (forall X g (e : E X), allowed X g e -> allowed' X g (inject X e)) ->
  (forall X g (e : E X) x, upd' X g (inject X e) x = upd X g e x) ->
  certified allowed upd post g p -> certified allowed' upd' post g (plift p).
Proof.
  intros Ha Hu. revert g. induction p as [b|X e k IH]; intros g; simpl; [done|].
  intros [He Hk]. split; [auto|]. intros x. rewrite Hu. apply IH, Hk.
Qed.

Lemma run_plift {S A} (exec : forall X, E X -> S -> X * S) (exec' : forall X, E' X -> S -> X * S) (p : prog E A) s :
  (forall X (e : E X) s, exec' X (inject X e) s = exec X e s) -> run exec' (plift p) s = run exec p s.
Proof.
  intros He. revert s. induction p as [a|X e k IH]; intros s; simpl; [done|].
  rewrite He. destruct (exec X e s) as [x s']. apply IH.
Qed.
End lifting.
