(* ===== verification/Bytes.v ===== *)
(** Little-endian integer encodings ([to_le_bytes], [from_le_bytes]) and byte
    sequences, shared by the voucher bytes and the ComputeBudget instructions. *)
From Stdlib Require Strings.Byte Strings.String.
From stdpp Require Import base numbers option list.
From S2P Require Import Prelude.

Abbreviation byte := Byte.byte.

Definition byte_to_Z (b : byte) : Z := Z.of_N (Byte.to_N b).
Definition byte_of_Z (z : Z) : byte := default Byte.x00 (Byte.of_N (Z.to_N (z `mod` 256))).

#[export] Instance byte_eq_dec : EqDecision byte.
Proof. intros a b. apply Byte.byte_eq_dec. Defined.

Lemma byte_to_of_Z z : byte_to_Z (byte_of_Z z) = z `mod` 256.
Proof.
  unfold byte_to_Z, byte_of_Z. pose proof (Z.mod_pos_bound z 256 ltac:(lia)) as Hr.
  destruct (Byte.of_N (Z.to_N (z `mod` 256))) as [b|] eqn:Hb; simpl.
  - apply Byte.to_of_N in Hb. rewrite Hb. lia.
  - apply Byte.of_N_None_iff in Hb. lia.
Qed.

Lemma byte_to_Z_range b : 0 <= byte_to_Z b < 256.
Proof. unfold byte_to_Z. pose proof (Byte.to_N_bounded b). lia. Qed.

Lemma byte_to_Z_inj a b : byte_to_Z a = byte_to_Z b -> a = b.
Proof.
  unfold byte_to_Z. intros Heq%(inj Z.of_N).
  pose proof (Byte.of_to_N a) as Ha. rewrite Heq, Byte.of_to_N in Ha. congruence.
Qed.

Lemma byte_of_to_Z b : byte_of_Z (byte_to_Z b) = b.
Proof.
  apply byte_to_Z_inj. rewrite byte_to_of_Z. apply Z.mod_small, byte_to_Z_range.
Qed.

(** [to_le_bytes] of an unsigned integer of [n] bytes. *)
Fixpoint le_bytes (n : nat) (z : Z) : list byte :=
  match n with
  | O => []
  | S n => byte_of_Z z :: le_bytes n (z `div` 256)
  end.

(** [from_le_bytes], unsigned. *)
Fixpoint from_le (l : list byte) : Z :=
  match l with
  | [] => 0
  | b :: l => byte_to_Z b + 256 * from_le l
  end.

Lemma length_le_bytes n z : length (le_bytes n z) = n.
Proof. revert z. induction n as [|n IH]; intros z; simpl; [done|by rewrite IH]. Qed.

Lemma from_le_bytes n z : from_le (le_bytes n z) = z `mod` 256 ^ Z.of_nat n.
Proof.
  revert z. induction n as [|n IH]; intros z; cbn [le_bytes from_le].
  - by rewrite Z.mod_1_r.
  - rewrite IH, byte_to_of_Z. replace (Z.of_nat (S n)) with (1 + Z.of_nat n) by lia.
    rewrite Z.pow_add_r, Z.pow_1_r by lia. by rewrite Z.rem_mul_r by lia.
Qed.

Lemma from_le_bytes_small n z : 0 <= z < 256 ^ Z.of_nat n -> from_le (le_bytes n z) = z.
Proof. intros. rewrite from_le_bytes. by apply Z.mod_small. Qed.

Lemma from_le_range l : 0 <= from_le l < 256 ^ Z.of_nat (length l).
Proof.
  induction l as [|b l IH]; cbn [from_le length]; [lia|].
  pose proof (byte_to_Z_range b). replace (Z.of_nat (S (length l))) with (1 + Z.of_nat (length l)) by lia.
  rewrite Z.pow_add_r, Z.pow_1_r by lia. lia.
Qed.

Lemma le_bytes_from_le l : le_bytes (length l) (from_le l) = l.
Proof.
  induction l as [|b l IH]; cbn [from_le length le_bytes]; [done|].
  pose proof (byte_to_Z_range b). f_equal.
  - apply byte_to_Z_inj. rewrite byte_to_of_Z, Z.mul_comm, Z.mod_add by lia. by apply Z.mod_small.
  - replace ((byte_to_Z b + 256 * from_le l) `div` 256) with (from_le l); [done|].
    rewrite Z.mul_comm, Z.div_add by lia. rewrite Z.div_small by lia. lia.
Qed.

Lemma le_bytes_inj n z z' :
  0 <= z < 256 ^ Z.of_nat n -> 0 <= z' < 256 ^ Z.of_nat n -> le_bytes n z = le_bytes n z' -> z = z'.
Proof.
  intros Hz Hz' Heq. rewrite <-(from_le_bytes_small n z), <-(from_le_bytes_small n z') by done.
  by rewrite Heq.
Qed.

(** [u32] and [u64] as bytes. *)
Definition u32_bytes (z : Z) : list byte := le_bytes 4 z.
Definition u64_bytes (z : Z) : list byte := le_bytes 8 z.
(** [i64::to_le_bytes]: two's complement. *)
Definition i64_bytes (z : Z) : list byte := le_bytes 8 (z `mod` 2 ^ 64).
Definition i64_from_le (l : list byte) : Z := i64_wrap (from_le l).

Lemma from_le_u32 z : in_u32 z -> from_le (u32_bytes z) = z.
Proof. intros. apply from_le_bytes_small. change (256 ^ Z.of_nat 4) with 4294967296. zlia. Qed.

Lemma from_le_u64 z : in_u64 z -> from_le (u64_bytes z) = z.
Proof.
  intros. apply from_le_bytes_small. change (256 ^ Z.of_nat 8) with 18446744073709551616. zlia.
Qed.

Lemma from_le_in_u32 l : length l = 4%nat -> in_u32 (from_le l).
Proof.
  intros Hl. pose proof (from_le_range l) as Hr. rewrite Hl in Hr.
  change (256 ^ Z.of_nat 4) with 4294967296 in Hr. zlia.
Qed.

Lemma from_le_in_u64 l : length l = 8%nat -> in_u64 (from_le l).
Proof.
  intros Hl. pose proof (from_le_range l) as Hr. rewrite Hl in Hr.
  change (256 ^ Z.of_nat 8) with 18446744073709551616 in Hr. zlia.
Qed.

Lemma i64_from_le_bytes z : in_i64 z -> i64_from_le (i64_bytes z) = z.
Proof.
  intros Hz. unfold i64_from_le, i64_bytes. rewrite from_le_bytes.
  change (256 ^ Z.of_nat 8) with (2 ^ 64). rewrite Zmod_mod. unfold i64_wrap.
  rewrite Zminus_mod_idemp_l. fold (i64_wrap z). by apply i64_wrap_id.
Qed.

Lemma i64_from_le_range l : in_i64 (i64_from_le l).
Proof. apply i64_wrap_range. Qed.

(** ** Text *)

(** [str::as_bytes]. *)
Definition str_bytes (s : String.string) : list byte := String.list_byte_of_string s.

(** A byte within bounds, as a continuation byte must be. *)
Definition between (lo hi : Z) (b : byte) : bool :=
  bool_decide (lo <= byte_to_Z b) && bool_decide (byte_to_Z b <= hi).
Abbreviation continues := (between 128 191).

(** [str::from_utf8]: well-formed sequences of one to four bytes, without
    overlong forms, surrogates or values above U+10FFFF. *)
Fixpoint utf8_valid (l : list byte) : bool :=
  match l with
  | [] => true
  | b0 :: l =>
      if between 0 127 b0 then utf8_valid l else
      match l with
      | [] => false
      | b1 :: l =>
          if between 194 223 b0 then continues b1 && utf8_valid l else
          match l with
          | [] => false
          | b2 :: l =>
              let three := (between 224 224 b0 && between 160 191 b1)
                || (between 225 236 b0 && continues b1)
                || (between 237 237 b0 && between 128 159 b1)
                || (between 238 239 b0 && continues b1) in
              if three then continues b2 && utf8_valid l else
              match l with
              | [] => false
              | b3 :: l =>
                  let four := (between 240 240 b0 && between 144 191 b1)
                    || (between 241 243 b0 && continues b1)
                    || (between 244 244 b0 && between 128 143 b1) in
                  four && continues b2 && continues b3 && utf8_valid l
              end
          end
      end
  end.

(** [u8::is_ascii_hexdigit]. *)
Definition is_ascii_hexdigit (b : byte) : bool :=
  between 48 57 b || between 65 70 b || between 97 102 b.

Lemma utf8_ascii_app p l :
  Forall (fun b => between 0 127 b = true) p -> utf8_valid (p ++ l) = utf8_valid l.
Proof. induction 1 as [|b p Hb _ IH]; [done|]. simpl. by rewrite Hb. Qed.

Example utf8_snowman : utf8_valid [Byte.xe2; Byte.x98; Byte.x83; Byte.x41] = true.
Proof. vm_compute. reflexivity. Qed.
Example utf8_overlong : utf8_valid [Byte.xc0; Byte.x80] = false.
Proof. vm_compute. reflexivity. Qed.

#[export] Hint Rewrite length_le_bytes @length_app : paykit.
