(* ===== verification/Json.v ===== *)
(** The JSON layer ([serde_json], a third-party crate) as an interface: the
    type of values, the operations the code performs on them, and the laws of
    their documented behaviour. [Demo] is a concrete instance the witnesses
    compute with. *)
From Stdlib Require Import Ascii.
From stdpp Require Import base numbers option list strings countable.
From S2P Require Import Prelude.

(** [serde_json::Value] and the operations the code uses. *)
Class SerdeJson (Value : Type) := {
  #[global] value_eq_dec :: EqDecision Value;
  (** [json!(b)], [Value::from(s)] *)
  json_bool : bool -> Value;
  json_str : string -> Value;
  (** [json!({ k : v })] *)
  json_obj1 : string -> Value -> Value;
  (** [json!({ k : v, ... })] *)
  json_obj : list (string * Value) -> Value;
  (** [Value::from(n)] for an unsigned integer, [Value::as_u64] *)
  json_u64 : Z -> Value;
  as_u64 : Value -> option Z;
  (** [Value::Null]; [Value::from(n)] for a signed integer, [Value::as_i64] *)
  json_null : Value;
  json_i64 : Z -> Value;
  as_i64 : Value -> option Z;
  (** [serde_json::to_string], [serde_json::from_str]; an error is its message *)
  value_to_string : Value -> result string string;
  value_from_str : string -> result Value string;
}.

Class SerdeJsonLaws (Value : Type) `{SerdeJson Value} := {
  json_str_inj : Inj (=) (=) json_str;
  json_obj1_inj : Inj2 (=) (=) (=) json_obj1;
  json_bool_obj1 : forall b k v, json_bool b <> json_obj1 k v;
  as_u64_json_u64 : forall n, in_u64 n -> as_u64 (json_u64 n) = Some n;
}.

(** [#[derive(Serialize, Deserialize)]] of one type: [serde_json::to_value] and
    [serde_json::from_value]. *)
Class Serde (Value T : Type) := {
  to_value : T -> result Value string;
  from_value : Value -> result T string;
}.

(** The derived implementations never fail to serialize and read back what they
    wrote. *)
Class SerdeLaws (Value T : Type) `{Serde Value T} := {
  to_value_total : forall x : T, exists v : Value, to_value x = Ok v;
  from_to_value : forall (x : T) (v : Value), to_value x = Ok v -> from_value v = Ok x;
}.

Section serde.
Context {Value T : Type} `{SerdeLaws Value T}.

Lemma to_value_inj (x y : T) (v : Value) : to_value x = Ok v -> to_value y = Ok v -> x = y.
Proof. intros Hx%from_to_value Hy%from_to_value. congruence. Qed.
End serde.

Section text.
Context {Value : Type} `{SerdeJson Value}.

(** A value whose text form reads back as itself. *)
Definition textual (v : Value) : Prop :=
  exists raw, value_to_string v = Ok raw /\ value_from_str raw = Ok v.
End text.

(** * A concrete instance *)
Module Demo.
Definition value : Type := gen_tree (bool + Z + string).

Fixpoint pos_text (p : positive) : string :=
  match p with
  | xH => ""
  | xO p => String "0" (pos_text p)
  | xI p => String "1" (pos_text p)
  end.

Fixpoint text_pos (s : string) : positive :=
  match s with
  | EmptyString => xH
  | String c s => if Ascii.eqb c "1"%char then xI (text_pos s) else xO (text_pos s)
  end.

Lemma text_pos_text p : text_pos (pos_text p) = p.
Proof. induction p as [p IH|p IH|]; simpl; rewrite ?IH; done. Qed.

#[global] Instance json : SerdeJson value := {
  json_bool b := GenLeaf (inl (inl b));
  json_str s := GenLeaf (inr s);
  json_obj1 k v := GenNode 1 [GenLeaf (inr k); v];
  json_obj fields := GenNode 2 (mjoin ((fun '(k, v) => [GenLeaf (inr k); v]) <$> fields));
  json_u64 n := GenLeaf (inl (inr n));
  as_u64 v := match v with
              | GenLeaf (inl (inr n)) => if decide (in_u64 n) then Some n else None
              | _ => None
              end;
  json_null := GenNode 0 [];
  json_i64 n := GenLeaf (inl (inr n));
  as_i64 v := match v with
              | GenLeaf (inl (inr n)) => if decide (in_i64 n) then Some n else None
              | _ => None
              end;
  value_to_string v := Ok (pos_text (encode v));
  value_from_str s := ok_or (decode (text_pos s)) "invalid JSON";
}.

#[global] Instance json_laws : SerdeJsonLaws value.
Proof.
  split; try (repeat intro; naive_solver congruence).
  intros n Hn. simpl. by rewrite decide_True.
Qed.

Lemma textual_all (v : value) : textual v.
Proof.
  exists (pos_text (encode v)). split; [done|]. simpl.
  by rewrite text_pos_text, decode_encode.
Qed.

(** Every countable type has a codec into [value]. *)
Definition encode_value `{Countable T} (x : T) : value := GenLeaf (inr (pos_text (encode x))).
Definition decode_value `{Countable T} (v : value) : result T string :=
  match v with
  | GenLeaf (inr s) => ok_or (decode (text_pos s)) "invalid record"
  | _ => Err "invalid type"
  end.

Definition serde `{Countable T} : Serde value T :=
  {| to_value x := Ok (encode_value x); from_value := decode_value |}.

Lemma serde_laws `{Countable T} : @SerdeLaws value T serde.
Proof.
  split; simpl; [eauto|]. intros x v [= <-]. unfold decode_value, encode_value.
  by rewrite text_pos_text, decode_encode.
Qed.
End Demo.
