(* ===== verification/Store.v ===== *)
(** The replay-protection key-value store ([Store], [MemoryStore] of
    src/rust/crates/kit/src/core/store.rs): the trait as atomic operations over
    a map of JSON values, and the in-memory implementation over a map of
    serialized text, with its refinement of the trait. *)
From stdpp Require Import base numbers option list gmap strings.
From S2P Require Import Prelude Effects Json.

Inductive StoreError : Type :=
| Internal (message : string)
| Serialization (message : string).

#[export] Instance StoreError_eq_dec : EqDecision StoreError.
Proof. solve_decision. Defined.

(** How long replay records are retained, in seconds. *)
Definition DEFAULT_CHARGE_RECORD_RETENTION : Z := 24 * 60 * 60.

Section store.
Context {Value : Type} `{SerdeJson Value}.

(** The operations of the [Store] trait, each one atomic, and the clock. *)
Inductive storeE : Type -> Type :=
| Get (key : string) : storeE (result (option Value) StoreError)
| Put (key : string) (value : Value) : storeE (result unit StoreError)
| Delete (key : string) : storeE (result unit StoreError)
| PutIfAbsent (key : string) (value : Value) : storeE (result bool StoreError)
| PutIfEq (key : string) (expected : option Value) (value : Value) :
    storeE (result bool StoreError)
| NowUnix : storeE Z.

(** What the environment decides about a step: the clock, and whether a store
    operation reports an error, before ([false]) or after ([true]) it took
    effect. *)
Record env := {
  env_now : Z;
  env_fault : option (StoreError * bool);
}.

Definition calm (now : Z) : env := {| env_now := now; env_fault := None |}.

Definition faulty {A S} (f : env) (s s' : S) (r : result A StoreError) :
    result A StoreError * S :=
  match env_fault f with
  | None => (r, s')
  | Some (e, false) => (Err e, s)
  | Some (e, true) => (Err e, s')
  end.

(** The trait's contract over a map of values. *)
Definition store_exec (X : Type) (f : env) (e : storeE X) (m : gmap string Value) :
    X * gmap string Value :=
  match e with
  | Get k => faulty f m m (Ok (m !! k))
  | Put k v => faulty f m (<[k := v]> m) (Ok tt)
  | Delete k => faulty f m (delete k m) (Ok tt)
  | PutIfAbsent k v =>
      match m !! k with
      | Some _ => faulty f m m (Ok false)
      | None => faulty f m (<[k := v]> m) (Ok true)
      end
  | PutIfEq k expected v =>
      if decide (m !! k = expected) then faulty f m (<[k := v]> m) (Ok true)
      else faulty f m m (Ok false)
  | NowUnix => (env_now f, m)
  end.

Definition store_run {A} (now : Z) (p : prog storeE A) (m : gmap string Value) :
    A * gmap string Value :=
  run (fun X => store_exec X (calm now)) p m.

(** ** [MemoryStore]: a mutex around a map of serialized values *)

Definition ser {A} (r : result A string) : result A StoreError := rmap_err Serialization r.

Definition mem_get (k : string) (data : gmap string string) :
    result (option Value) StoreError * gmap string string :=
  (match data !! k with
   | Some raw => let? value := ser (value_from_str raw) in Ok (Some value)
   | None => Ok None
   end, data).

Definition mem_put (k : string) (value : Value) (data : gmap string string) :
    result unit StoreError * gmap string string :=
  match ser (value_to_string value) with
  | Ok serialized => (Ok tt, <[k := serialized]> data)
  | Err e => (Err e, data)
  end.

Definition mem_delete (k : string) (data : gmap string string) :
    result unit StoreError * gmap string string :=
  (Ok tt, delete k data).

Definition mem_put_if_absent (k : string) (value : Value) (data : gmap string string) :
    result bool StoreError * gmap string string :=
  match ser (value_to_string value) with
  | Ok serialized =>
      match data !! k with
      | Some _ => (Ok false, data)
      | None => (Ok true, <[k := serialized]> data)
      end
  | Err e => (Err e, data)
  end.

Definition mem_put_if_eq (k : string) (expected : option Value) (value : Value)
    (data : gmap string string) : result bool StoreError * gmap string string :=
  match ser (value_to_string value) with
  | Err e => (Err e, data)
  | Ok serialized =>
      match data !! k with
      | Some raw =>
          match ser (value_from_str raw) with
          | Err e => (Err e, data)
          | Ok current =>
              if decide (Some current = expected) then (Ok true, <[k := serialized]> data)
              else (Ok false, data)
          end
      | None =>
          if decide (None = expected) then (Ok true, <[k := serialized]> data)
          else (Ok false, data)
      end
  end.

Definition mem_exec (now : Z) (X : Type) (e : storeE X) (data : gmap string string) :
    X * gmap string string :=
  match e with
  | Get k => mem_get k data
  | Put k v => mem_put k v data
  | Delete k => mem_delete k data
  | PutIfAbsent k v => mem_put_if_absent k v data
  | PutIfEq k expected v => mem_put_if_eq k expected v data
  | NowUnix => (now, data)
  end.
End store.
Arguments storeE Value X : clear implicits.

(** * Refinement: the in-memory store implements the contract *)
Section refinement.
Context {Value : Type} `{SerdeJson Value}.
Implicit Types (m : gmap string Value) (data : gmap string string).

(** The serialized map [data] represents the value map [m]. *)
Definition mem_rep data m : Prop :=
  forall k, match data !! k, m !! k with
            | Some raw, Some v => value_from_str raw = Ok v
            | None, None => True
            | _, _ => False
            end.

Definition written {X} (e : storeE Value X) : option Value :=
  match e with
  | Put _ v | PutIfAbsent _ v | PutIfEq _ _ v => Some v
  | _ => None
  end.

(** Every value the program can write, whatever it reads, is textual. *)
Fixpoint writes_textual {A} (p : prog (storeE Value) A) : Prop :=
  match p with
  | Ret _ => True
  | Vis e k => (forall v, written e = Some v -> textual v) /\ forall x, writes_textual (k x)
  end.

Lemma mem_rep_empty : mem_rep ∅ ∅.
Proof. intros k. by rewrite !lookup_empty. Qed.

Lemma mem_rep_insert data m k raw v :
  mem_rep data m -> value_from_str raw = Ok v -> mem_rep (<[k := raw]> data) (<[k := v]> m).
Proof.
  intros Hrep Hraw k'. specialize (Hrep k'). destruct (decide (k = k')) as [->|];
    by simplify_map_eq.
Qed.

Lemma mem_rep_delete data m k : mem_rep data m -> mem_rep (delete k data) (delete k m).
Proof.
  intros Hrep k'. specialize (Hrep k'). destruct (decide (k = k')) as [->|];
    by simplify_map_eq.
Qed.

Lemma mem_rep_lookup data m k :
  mem_rep data m ->
  match data !! k with
  | Some raw => exists v, m !! k = Some v /\ value_from_str raw = Ok v
  | None => m !! k = None
  end.
Proof. intros Hrep. specialize (Hrep k). repeat case_match; naive_solver. Qed.

Lemma mem_exec_refines now X (e : storeE Value X) data m :
  mem_rep data m -> (forall v, written e = Some v -> textual v) ->
  (mem_exec now X e data).1 = (store_exec X (calm now) e m).1 /\
  mem_rep (mem_exec now X e data).2 (store_exec X (calm now) e m).2.
Proof.
  intros Hrep Hw. destruct e as [k|k v|k|k v|k expected v|]; simpl in *; try done;
    try (destruct (Hw v) as (raw & Hto & Hfrom); [done|]);
    try pose proof (mem_rep_lookup _ _ k Hrep) as Hk;
    unfold mem_get, mem_put, mem_delete, mem_put_if_absent, mem_put_if_eq, ser, faulty;
    rewrite ?Hto; simpl.
  - destruct (data !! k) as [raw'|]; [|by rewrite Hk].
    destruct Hk as (v' & -> & ->). done.
  - split; [done|]. by apply mem_rep_insert.
  - split; [done|]. by apply mem_rep_delete.
  - destruct (data !! k) as [raw'|]; [destruct Hk as (v' & -> & ?); done|].
    rewrite Hk. split; [done|]. by apply mem_rep_insert.
  - destruct (data !! k) as [raw'|]; [destruct Hk as (v' & -> & ->)|rewrite Hk];
      simpl; repeat case_decide; simpl; try congruence; split; try done; by apply mem_rep_insert.
Qed.

(** A program run against [MemoryStore] answers what the contract answers,
    and leaves a map representing the contract's. *)
Lemma mem_run_refines {A} now (p : prog (storeE Value) A) data m :
  mem_rep data m -> writes_textual p ->
  (run (mem_exec now) p data).1 = (store_run now p m).1 /\
  mem_rep (run (mem_exec now) p data).2 (store_run now p m).2.
Proof.
  unfold store_run. revert data m. induction p as [a|X e k IH]; intros data m Hrep Hw;
    simpl in *; [done|]. destruct Hw as [Hw Hk].
  destruct (mem_exec_refines now X e data m Hrep Hw) as [Heq Hrep'].
  destruct (mem_exec now X e data) as [x d'], (store_exec X (calm now) e m) as [x' m'].
  simpl in *. subst. auto.
Qed.
End refinement.

(** * Accounting on one key

    [val] values what one key holds, between 0 and 1; an operation's gain is
    the least it can add to the value of the key, given its reply. *)
Section key_account.
Context {Value : Type} `{SerdeJson Value}.
Context (key : string) (val : option Value -> Z).
Context (val_range : forall o, 0 <= val o <= 1).

Definition key_potential (m : gmap string Value) : Z := val (m !! key).

(** The gain of a conditional write of value difference [d] to [k]. *)
Definition write_gain (k : string) (d : Z) (r : result bool StoreError) : Z :=
  if decide (k = key) then
    match r with Ok true => d | Ok false => 0 | Err _ => Z.min 0 d end
  else 0.

Definition key_gain (X : Type) (e : storeE Value X) : X -> Z :=
  match e with
  | PutIfAbsent k v => write_gain k (val (Some v) - val None)
  | PutIfEq k expected v => write_gain k (val (Some v) - val expected)
  | Put k v => fun _ => if decide (k = key) then val (Some v) - 1 else 0
  | Delete k => fun _ => if decide (k = key) then val None - 1 else 0
  | Get _ => fun _ => 0
  | NowUnix => fun _ => 0
  end.

Lemma write_gain_other k d r : k <> key -> write_gain k d r = 0.
Proof. intros. unfold write_gain. by rewrite decide_False. Qed.

Lemma key_gain_sound X f (e : storeE Value X) x m m' :
  True -> store_exec X f e m = (x, m') -> key_gain X e x <= key_potential m' - key_potential m.
Proof.
  intros _ He. pose proof (val_range (m !! key)) as Hr. unfold key_potential.
  destruct f as [now [[err [|]]|]], e as [k|k v|k|k v|k expected v|];
    simpl in He; unfold faulty in He; simpl in *; unfold write_gain;
    pose proof (val_range None); try pose proof (val_range (Some v));
    repeat case_match; simplify_map_eq; try lia;
    match goal with Hk : _ !! key = None |- _ => rewrite Hk; lia end.
Qed.
End key_account.

(** The account of a key's presence. *)
Definition taken {Value} (o : option Value) : Z := match o with Some _ => 1 | None => 0 end.

Lemma taken_range {Value} (o : option Value) : 0 <= taken o <= 1.
Proof. unfold taken. case_match; lia. Qed.

(** * Knowledge of an append-only part of the store

    A task remembers what it read and wrote. While no task changes a key of
    [scope] that is present, what it remembers of those keys stays true, and a
    write may be justified by it. [possible] collects what the replies rule
    out: a key known to be present is never reported absent. *)
Section knowledge.
Context {Value : Type} `{SerdeJson Value}.
Context (scope : string -> Prop) (Inv : gmap string Value -> Prop).
Implicit Types (m : gmap string Value).

Record knowledge := {
  known : string -> Value -> Prop;
  possible : Prop;
}.

Definition also (g : knowledge) (k : string) (v : Value) : string -> Value -> Prop :=
  fun k' v' => known g k' v' \/ (k' = k /\ v' = v).
Definition absent (g : knowledge) (k : string) : Prop :=
  possible g /\ ~ exists v, scope k /\ known g k v.

Definition learn (X : Type) (g : knowledge) (e : storeE Value X) : X -> knowledge :=
  match e with
  | Get k => fun r =>
      match r with
      | Ok (Some v) => {| known := also g k v; possible := possible g |}
      | Ok None => {| known := known g; possible := absent g k |}
      | Err _ => g
      end
  | PutIfAbsent k v => fun r =>
      match r with
      | Ok true => {| known := also g k v; possible := absent g k |}
      | _ => g
      end
  | _ => fun _ => g
  end.

Definition grows m m' : Prop := forall k v, scope k -> m !! k = Some v -> m' !! k = Some v.
Definition agrees (g : knowledge) m : Prop :=
  forall k v, scope k -> known g k v -> m !! k = Some v.

(** The operation keeps the invariant and every present key of the scope, in
    every store that agrees with what is known. *)
Definition justified (X : Type) (g : knowledge) (e : storeE Value X) : Prop :=
  possible g -> forall f m, Inv m -> agrees g m ->
  Inv (store_exec X f e m).2 /\ grows m (store_exec X f e m).2.

(** [g'] knows at least what [g] knows. *)
Definition extends (g g' : knowledge) : Prop :=
  (forall k v, known g k v -> known g' k v) /\ (possible g' -> possible g).

Lemma extends_refl g : extends g g.
Proof. done. Qed.
Lemma extends_trans g1 g2 g3 : extends g1 g2 -> extends g2 g3 -> extends g1 g3.
Proof. intros [] []. split; auto. Qed.
Lemma extends_learn X g (e : storeE Value X) x : extends g (learn X g e x).
Proof.
  destruct e; simpl; try apply extends_refl;
    repeat case_match; try apply extends_refl; split; simpl; unfold also, absent; tauto.
Qed.

Lemma agrees_learn X f g (e : storeE Value X) x m m' :
  possible g -> agrees g m -> grows m m' -> store_exec X f e m = (x, m') ->
  possible (learn X g e x) /\ agrees (learn X g e x) m'.
Proof.
  intros Hp Ha Hg He.
  assert (Ha' : agrees g m') by (intros k v Hk Hv; apply Hg; auto).
  destruct e as [k|k v|k|k v|k expected v|]; simpl in *; try done;
    unfold faulty in He; destruct f as [now [[err [|]]|]]; simpl in *.
  all: repeat case_match; simplify_eq; try done.
  all: unfold absent, also; simpl; split; try done.
  all: try (split; [done|]; intros (v' & Hk & Hv); specialize (Ha _ _ Hk Hv); congruence).
  all: intros k' v' Hk [Hv|[-> ->]]; simpl in *; auto; by simplify_map_eq.
Qed.

Context {A : Type}.

(** Every interleaving of certified tasks keeps the invariant and the present
    keys, and each finished task's result is what its certificate says, of a
    knowledge that is true. *)
Lemma knowledge_pool (post : nat -> knowledge -> A -> Prop) gs ps m ps' m' :
  rtc (pool_step store_exec) (ps, m) (ps', m') ->
  tasks_certified justified learn post gs ps ->
  Inv m -> Forall (fun g => possible g /\ agrees g m) gs ->
  Inv m' /\ grows m m' /\
  exists gs', Forall (fun g => possible g /\ agrees g m') gs' /\
    tasks_certified justified learn post gs' ps'.
Proof.
  intros Hr Hall Hi Hgs.
  edestruct (pool_certified (A:=A) store_exec justified learn
    (fun m1 gs => Inv m1 /\ grows m m1 /\ Forall (fun g => possible g /\ agrees g m1) gs))
    with (post := post) (gs := gs) as (gs' & ? & (? & ? & ?) & _);
    [|exact Hr|exact Hall|split_and!; [done|by intros ???|done]|eauto 6].
  intros X f e x s s' gs1 i g (Hi1 & Hg1 & Hf) Hg Hj He.
  rewrite Forall_lookup in Hf. destruct (Hf _ _ Hg) as [Hp Ha].
  destruct (Hj Hp f s Hi1 Ha) as [Hi2 Hg2]. rewrite He in Hi2, Hg2. simpl in *.
  split_and!; [done|intros k v Hk Hv; auto|].
  apply Forall_insert; [|by eapply agrees_learn].
  rewrite Forall_lookup. intros j g' Hj'. destruct (Hf _ _ Hj') as [? Ha'].
  split; [done|]. intros k v Hk Hv. auto.
Qed.
End knowledge.
