(* ===== verification/Consumed.v ===== *)
(** The consumed-signature ledger ([ConsumedSignatures] of
    src/rust/crates/kit/src/core/store.rs): claims, pending claims, their
    confirmation and release, as programs over the store. *)
From stdpp Require Import base numbers option list gmap strings.
From S2P Require Import Prelude Effects Json Store.

Definition consumed_signature_key (signature : string) : string :=
  "solana:consumed-signature:" +:+ signature.

Definition LEGACY_X402_NETWORKS : list string :=
  [ "solana:5eykt4UsFv8P8NJdTREpY1vzqKqZKvdp";
    "solana:EtWTRABZaYq6iMfeYKouRu166VU2xqa1";
    "solana:4uhcVJyU9pJkvQyS88uRDiswHXSCkY3z" ].

Definition legacy_consumed_signature_keys (signature : string) : list string :=
  ("solana-charge:consumed:" +:+ signature) ::
  ((fun network => "x402-exact:consumed:" +:+ network +:+ ":" +:+ signature)
     <$> LEGACY_X402_NETWORKS).

Inductive PendingClaim := Fresh | ResumePending | Consumed.

#[export] Instance PendingClaim_eq_dec : EqDecision PendingClaim.
Proof. solve_decision. Defined.

Section consumed.
Context {Value : Type} `{SerdeJson Value}.
Abbreviation store_prog := (prog (storeE Value)).

Definition released_marker : Value := json_obj1 "state" (json_str "released").
Definition pending_marker : Value := json_obj1 "state" (json_str "pending").

Fixpoint give_back (keys : list string) : store_prog unit :=
  match keys with
  | [] => Ret tt
  | key :: keys => await _ := perform (Delete key) in give_back keys
  end.

(** The loop over the legacy keys; [k] is the code after it. *)
Fixpoint take_legacy (taken keys : list string)
    (k : list string -> store_prog (result bool StoreError)) :
    store_prog (result bool StoreError) :=
  match keys with
  | [] => k taken
  | key :: keys =>
      await outcome := perform (PutIfAbsent key (json_bool true)) in
      match outcome with
      | Ok true => take_legacy (taken ++ [key]) keys k
      | _ => await _ := give_back taken in Ret outcome
      end
  end.

Definition claim_with (signature : string) (value : Value) :
    store_prog (result bool StoreError) :=
  take_legacy [] (legacy_consumed_signature_keys signature) (fun taken =>
    let key := consumed_signature_key signature in
    await first := perform (PutIfAbsent key value) in
    await outcome := match first with
                     | Ok false => perform (PutIfEq key (Some released_marker) value)
                     | outcome => Ret outcome
                     end in
    match outcome with
    | Ok true => Ret outcome
    | _ => await _ := give_back taken in Ret outcome
    end).

Definition claim (signature : string) : store_prog (result bool StoreError) :=
  claim_with signature (json_bool true).

Definition claim_pending (signature : string) :
    store_prog (result PendingClaim StoreError) :=
  await? fresh := claim_with signature pending_marker in
  if fresh : bool then Ret (Ok Fresh) else
  await? current := perform (Get (consumed_signature_key signature)) in
  Ret (Ok (if decide (current = Some pending_marker) then ResumePending else Consumed)).

Definition confirm (signature : string) : store_prog (result bool StoreError) :=
  perform (PutIfEq (consumed_signature_key signature) (Some pending_marker) (json_bool true)).

Fixpoint delete_all (keys : list string) : store_prog (result bool StoreError) :=
  match keys with
  | [] => Ret (Ok true)
  | key :: keys => await? _ := perform (Delete key) in delete_all keys
  end.

Definition release_holding (signature : string) (held : Value) :
    store_prog (result bool StoreError) :=
  await? swapped := perform (PutIfEq (consumed_signature_key signature) (Some held)
                               released_marker) in
  if swapped : bool then delete_all (legacy_consumed_signature_keys signature)
  else Ret (Ok false).

Definition release (signature : string) : store_prog (result bool StoreError) :=
  release_holding signature (json_bool true).

Definition release_pending (signature : string) : store_prog (result bool StoreError) :=
  release_holding signature pending_marker.
End consumed.

(** * Keys *)
Section keys.
Lemma consumed_signature_key_inj s s' :
  consumed_signature_key s = consumed_signature_key s' -> s = s'.
Proof. unfold consumed_signature_key. by intros ?%(inj _). Qed.

Lemma legacy_key_not_ledger s s' k :
  k ∈ legacy_consumed_signature_keys s -> k <> consumed_signature_key s'.
Proof.
  unfold legacy_consumed_signature_keys, consumed_signature_key. cbn.
  rewrite !elem_of_cons. intros [->|[->|[->|[->|[]%elem_of_nil]]]]; discriminate.
Qed.

Lemma ledger_key_not_legacy s s' :
  consumed_signature_key s' ∉ legacy_consumed_signature_keys s.
Proof. intros Hin. by eapply legacy_key_not_ledger. Qed.

Lemma legacy_keys_NoDup s : NoDup (legacy_consumed_signature_keys s).
Proof.
  unfold legacy_consumed_signature_keys. cbn.
  repeat constructor; rewrite ?elem_of_cons, ?elem_of_nil; intuition discriminate.
Qed.

Lemma legacy_key_signature s s' k :
  k ∈ legacy_consumed_signature_keys s -> k ∈ legacy_consumed_signature_keys s' -> s = s'.
Proof.
  unfold legacy_consumed_signature_keys. cbn. rewrite !elem_of_cons.
  intros [->|[->|[->|[->|[]%elem_of_nil]]]] [Hk|[Hk|[Hk|[Hk|[]%elem_of_nil]]]];
    try discriminate; by injection Hk.
Qed.
End keys.

#[global] Arguments consumed_signature_key : simpl never.
#[global] Arguments legacy_consumed_signature_keys : simpl never.

(** * One caller at a time *)
Section sequential.
Context {Value : Type} `{SerdeJsonLaws Value}.
Implicit Types (m : gmap string Value) (keys : list string).

Definition insert_all keys (v : Value) m : gmap string Value :=
  foldl (fun m k => <[k := v]> m) m keys.
Definition remove_all keys m : gmap string Value :=
  foldl (fun m k => delete k m) m keys.

#[local] Arguments insert_all : simpl never.
#[local] Arguments remove_all : simpl never.

Lemma lookup_insert_all keys v m k :
  insert_all keys v m !! k = if decide (k ∈ keys) then Some v else m !! k.
Proof.
  revert m. induction keys as [|k' keys IH]; intros m.
  - rewrite decide_False by set_solver. done.
  - etrans; [apply IH|].
    destruct (decide (k ∈ keys)), (decide (k ∈ k' :: keys)); try set_solver.
    + assert (k = k') as -> by set_solver. by simplify_map_eq.
    + rewrite lookup_insert_ne; set_solver.
Qed.

Lemma lookup_remove_all keys m k :
  remove_all keys m !! k = if decide (k ∈ keys) then None else m !! k.
Proof.
  revert m. induction keys as [|k' keys IH]; intros m.
  - rewrite decide_False by set_solver. done.
  - etrans; [apply IH|].
    destruct (decide (k ∈ keys)), (decide (k ∈ k' :: keys)); try set_solver.
    + assert (k = k') as -> by set_solver. by simplify_map_eq.
    + rewrite lookup_delete_ne; set_solver.
Qed.

Lemma remove_insert_all keys v m :
  Forall (fun k => m !! k = None) keys -> remove_all keys (insert_all keys v m) = m.
Proof.
  intros Hfree. apply map_eq. intros k. rewrite lookup_remove_all, lookup_insert_all.
  rewrite Forall_forall in Hfree. case_decide; [by rewrite Hfree|done].
Qed.

Lemma run_give_back now keys m :
  store_run now (give_back keys) m = (tt, remove_all keys m).
Proof.
  revert m. induction keys as [|k keys IH]; intros m; simpl; [done|].
  unfold store_run in *. simpl. apply IH.
Qed.

Lemma run_delete_all now keys m :
  store_run now (delete_all keys) m = (Ok true, remove_all keys m).
Proof.
  revert m. induction keys as [|k keys IH]; intros m; simpl; [done|].
  unfold store_run in *. simpl. apply IH.
Qed.

Lemma run_take_legacy now taken keys k m :
  NoDup keys ->
  Forall (fun k => m !! k = None) keys ->
  store_run now (take_legacy taken keys k) m =
  store_run now (k (taken ++ keys)) (insert_all keys (json_bool true) m).
Proof.
  revert taken m. induction keys as [|key keys IH]; intros taken m Hnd Hfree; simpl.
  { by rewrite app_nil_r. }
  apply NoDup_cons in Hnd as [Hni Hnd]. apply Forall_cons in Hfree as [Hk Hfree].
  unfold store_run in *. simpl. rewrite Hk. simpl. rewrite IH; [|done|].
  - by rewrite <-(assoc_L (++)).
  - rewrite Forall_forall in *. intros k' Hk'. rewrite lookup_insert_ne; set_solver.
Qed.

Lemma run_take_legacy_refused now taken keys k m :
  NoDup keys -> Forall (fun k => m !! k = None) taken ->
  (forall key, key ∈ taken -> key ∉ keys) ->
  Exists (fun k => is_Some (m !! k)) keys ->
  store_run now (take_legacy taken keys k) (insert_all taken (json_bool true) m) =
  (Ok false, m).
Proof.
  revert taken. induction keys as [|key keys IH]; intros taken Hnd Hfree Hdis Hex; simpl.
  { by apply Exists_nil in Hex. }
  apply NoDup_cons in Hnd as [Hni Hnd]. unfold store_run in *. simpl.
  rewrite lookup_insert_all, decide_False by set_solver.
  destruct (m !! key) as [v|] eqn:Hkey; simpl.
  - rewrite run_pbind. pose proof (run_give_back now taken) as Hgb. unfold store_run in Hgb.
    by rewrite Hgb, remove_insert_all.
  - replace (<[key:=_]> (insert_all taken _ m))
      with (insert_all (taken ++ [key]) (json_bool true) m)
      by (unfold insert_all; by rewrite foldl_app).
    apply IH; [done| | |].
    + rewrite Forall_app, Forall_singleton. done.
    + set_solver.
    + apply Exists_cons in Hex as [[? ?]|?]; [congruence|done].
Qed.

(** The signature can be claimed: no legacy key is taken, and the ledger key
    is absent or holds a released claim. *)
Definition claimable (signature : string) m : Prop :=
  Forall (fun k => m !! k = None) (legacy_consumed_signature_keys signature) /\
  (m !! consumed_signature_key signature = None \/
   m !! consumed_signature_key signature = Some released_marker).

#[export] Instance claimable_dec signature m : Decision (claimable signature m).
Proof. unfold claimable. apply _. Defined.

Definition claimed (signature : string) (v : Value) m : gmap string Value :=
  <[consumed_signature_key signature := v]>
    (insert_all (legacy_consumed_signature_keys signature) (json_bool true) m).

Lemma claimed_ledger signature v m :
  claimed signature v m !! consumed_signature_key signature = Some v.
Proof. unfold claimed. by simplify_map_eq. Qed.

Lemma insert_all_ledger signature v m :
  insert_all (legacy_consumed_signature_keys signature) v m
    !! consumed_signature_key signature = m !! consumed_signature_key signature.
Proof.
  rewrite lookup_insert_all, decide_False; [done|].
  apply ledger_key_not_legacy.
Qed.

Lemma run_claim_with now signature v m :
  store_run now (claim_with signature v) m =
  if decide (claimable signature m) then (Ok true, claimed signature v m) else (Ok false, m).
Proof.
  pose proof (legacy_keys_NoDup signature) as Hnd. unfold claim_with.
  destruct (decide (Forall (fun k => m !! k = None)
    (legacy_consumed_signature_keys signature))) as [Hfree|Hheld]; cycle 1.
  { rewrite decide_False by (unfold claimable; tauto).
    apply (run_take_legacy_refused now [] _ _ m Hnd); [constructor|set_solver|].
    apply not_Forall_Exists in Hheld; [|apply _].
    eapply Exists_impl; [exact Hheld|]. intros k Hk. simpl in Hk.
    by destruct (m !! k); [eexists|]. }
  rewrite run_take_legacy by done. unfold store_run. cbn.
  rewrite insert_all_ledger.
  destruct (m !! consumed_signature_key signature) as [held|] eqn:Hm; simpl.
  - rewrite insert_all_ledger, Hm. case_decide as Heq; simpl.
    + rewrite decide_True; [done|]. unfold claimable. rewrite Hm. simplify_eq. auto.
    + rewrite decide_False by (unfold claimable; rewrite Hm; naive_solver).
      f_equal. by apply (remove_insert_all (legacy_consumed_signature_keys signature)).
  - rewrite decide_True; [done|]. unfold claimable. auto.
Qed.
End sequential.

(** * What each operation does, one caller at a time *)
Section specifications.
#[local] Opaque consumed_signature_key legacy_consumed_signature_keys.
Context {Value : Type} `{SerdeJsonLaws Value}.
Implicit Types (m : gmap string Value).

(** [release_holding] swaps the ledger key and gives the legacy keys back. *)
Lemma run_release_holding now signature held m :
  store_run now (release_holding signature held) m =
  if decide (m !! consumed_signature_key signature = Some held)
  then (Ok true, remove_all (legacy_consumed_signature_keys signature)
                   (<[consumed_signature_key signature := released_marker]> m))
  else (Ok false, m).
Proof.
  unfold release_holding, store_run. rewrite run_ptry. cbn [perform run store_exec].
  case_decide; cbn [faulty calm env_fault]; [|done]. apply run_delete_all.
Qed.

Lemma remove_claimed signature v w m :
  claimable signature m ->
  remove_all (legacy_consumed_signature_keys signature)
    (<[consumed_signature_key signature := w]> (claimed signature v m)) =
  <[consumed_signature_key signature := w]> m.
Proof.
  intros [Hfree _]. rewrite Forall_forall in Hfree.
  apply map_eq. intros k. rewrite lookup_remove_all. unfold claimed.
  rewrite insert_insert_eq. case_decide as Hk.
  - rewrite lookup_insert_ne by (intros <-; by eapply ledger_key_not_legacy).
    by rewrite Hfree.
  - destruct (decide (k = consumed_signature_key signature)) as [->|]; [by simplify_map_eq|].
    by rewrite !lookup_insert_ne, lookup_insert_all, decide_False by done.
Qed.

Lemma claimed_not_claimable signature v m : ~ claimable signature (claimed signature v m).
Proof.
  intros [Hfree _]. rewrite Forall_forall in Hfree.
  destruct (legacy_consumed_signature_keys signature) as [|key keys] eqn:Hkeys; [done|].
  assert (Hin : key ∈ legacy_consumed_signature_keys signature) by (rewrite Hkeys; set_solver).
  rewrite <-Hkeys in Hfree. specialize (Hfree key Hin). revert Hfree. unfold claimed.
  rewrite lookup_insert_ne by (intros <-; by eapply ledger_key_not_legacy).
  by rewrite lookup_insert_all, decide_True.
Qed.

Lemma released_claimable signature m :
  claimable signature m ->
  claimable signature (<[consumed_signature_key signature := released_marker]> m).
Proof.
  intros [Hfree _]. split; [|right; by simplify_map_eq].
  rewrite Forall_forall in *. intros k Hk.
  rewrite lookup_insert_ne by (by intros <-; eapply ledger_key_not_legacy). auto.
Qed.

Lemma run_claim_pending now signature m :
  store_run now (claim_pending signature) m =
  if decide (claimable signature m) then (Ok Fresh, claimed signature pending_marker m)
  else (Ok (if decide (m !! consumed_signature_key signature = Some pending_marker)
            then ResumePending else Consumed), m).
Proof.
  unfold claim_pending, store_run. rewrite run_ptry.
  pose proof (run_claim_with now signature pending_marker m) as Hc. unfold store_run in Hc.
  rewrite Hc. case_decide; [done|]. cbn [run ptry pbind perform store_exec].
  cbn [faulty calm env_fault]. done.
Qed.

Lemma run_confirm now signature m :
  store_run now (confirm signature) m =
  if decide (m !! consumed_signature_key signature = Some pending_marker)
  then (Ok true, <[consumed_signature_key signature := json_bool true]> m)
  else (Ok false, m).
Proof. unfold confirm, store_run. cbn. by case_decide. Qed.

(** A claim succeeds exactly when no legacy key is taken and the ledger
    key is absent or released; it then takes all of them. A refused claim
    gives back whatever it took: the store is exactly as it was. *)
Theorem claim_spec now signature m :
  store_run now (claim signature) m =
  if decide (claimable signature m)
  then (Ok true, claimed signature (json_bool true) m) else (Ok false, m).
Proof. apply run_claim_with. Qed.

(** A claim that is released can be made again: after [claim] and
    [release] the only trace is the released marker on the ledger key, and
    the signature is claimable. *)
Theorem release_reopens now signature m :
  claimable signature m ->
  let m1 := (store_run now (claim signature) m).2 in
  let m2 := <[consumed_signature_key signature := released_marker]> m in
  store_run now (release signature) m1 = (Ok true, m2) /\ claimable signature m2.
Proof.
  intros Hc m1 m2. subst m1 m2. unfold claim, release.
  rewrite run_claim_with, decide_True by done. cbn [snd].
  rewrite run_release_holding, decide_True by apply claimed_ledger.
  rewrite remove_claimed by done. auto using released_claimable.
Qed.

(** The life of a pending claim: taken once as [Fresh], reported as
    [ResumePending] until it is confirmed, closed to a plain claim, confirmed
    once, and after that neither released nor confirmed again. *)
Theorem pending_lifecycle now signature m :
  claimable signature m ->
  let m1 := (store_run now (claim_pending signature) m).2 in
  let m2 := (store_run now (confirm signature) m1).2 in
  store_run now (claim_pending signature) m = (Ok Fresh, m1) /\
  store_run now (claim_pending signature) m1 = (Ok ResumePending, m1) /\
  store_run now (claim signature) m1 = (Ok false, m1) /\
  store_run now (confirm signature) m1 = (Ok true, m2) /\
  store_run now (claim_pending signature) m2 = (Ok Consumed, m2) /\
  store_run now (release_pending signature) m2 = (Ok false, m2) /\
  store_run now (confirm signature) m2 = (Ok false, m2).
Proof.
  intros Hc m1 m2. subst m1 m2. rewrite run_claim_pending, decide_True by done. cbn [snd].
  rewrite run_confirm, decide_True by apply claimed_ledger. cbn [snd].
  assert (Hne : Some (json_bool true) <> Some pending_marker)
    by (intros [= Heq]; by apply json_bool_obj1 in Heq).
  assert (Hm2 : <[consumed_signature_key signature := json_bool true]>
    (claimed signature pending_marker m) = claimed signature (json_bool true) m)
    by (unfold claimed; by rewrite insert_insert_eq).
  unfold claim, release_pending. rewrite Hm2, !run_claim_pending, run_claim_with.
  rewrite run_release_holding, run_confirm.
  rewrite !(decide_False (P:=claimable _ _)) by apply claimed_not_claimable.
  rewrite !claimed_ledger. rewrite (decide_True (P:=Some pending_marker = _)) by done.
  by rewrite !(decide_False (P:=Some (json_bool true) = _)) by done.
Qed.
End specifications.

Lemma release_reopens_witness :
  claimable "sig" (∅ : gmap string Demo.value) /\
  claimable "sig" (<[consumed_signature_key "sig" := released_marker]>
    (∅ : gmap string Demo.value)).
Proof.
  assert (Hc : claimable "sig" (∅ : gmap string Demo.value)) by by (apply (bool_decide_unpack _); vm_compute; exact I).
  split; [exact Hc|]. exact (proj2 (release_reopens 0 "sig" ∅ Hc)).
Defined.

Lemma pending_lifecycle_witness :
  claimable "sig" (∅ : gmap string Demo.value) /\
  (store_run 0 (claim_pending "sig") (∅ : gmap string Demo.value)).1 = Ok Fresh.
Proof.
  assert (Hc : claimable "sig" (∅ : gmap string Demo.value)) by by (apply (bool_decide_unpack _); vm_compute; exact I).
  split; [exact Hc|]. pose proof (pending_lifecycle 0 "sig" ∅ Hc) as [-> _]. done.
Defined.

Lemma claim_spec_witness :
  store_run 0 (claim "sig") (∅ : gmap string Demo.value) =
    (Ok true, claimed "sig" (json_bool true) ∅).
Proof.
  exact (claim_spec 0 "sig" (∅ : gmap string Demo.value)).
Defined.
