(* ===== verification/ConsumedPool.v ===== *)
(** Interleaved callers of the consumed-signature ledger: any number of tasks,
    any interleaving of their store operations, store errors before or after an
    operation took effect, and replicas on the previous release. Three accounts
    ([held], [taken], [resolved]) bound how many of them can win. *)
From stdpp Require Import base numbers option list gmap strings.
From S2P Require Import Prelude Effects Json Store Consumed.

Section interleaved.
Context {Value : Type} `{SerdeJsonLaws Value}.
Implicit Types (m : gmap string Value).

(** A task of the process: one call of a ledger operation, on its signature,
    or a claim by a replica on the previous release, which takes only the
    legacy key it knows. *)
Inductive ledger_call :=
| CallClaim | CallClaimPending | CallConfirm | CallRelease | CallReleasePending
| CallPrevious (legacy : nat).

Inductive ledger_reply :=
| ReplyBool (r : result bool StoreError)
| ReplyPending (r : result PendingClaim StoreError).

#[export] Instance ledger_call_eq_dec : EqDecision ledger_call.
Proof. solve_decision. Defined.

Definition call_prog (c : string * ledger_call) : prog (storeE Value) ledger_reply :=
  match c.2 with
  | CallClaim => ReplyBool <$> claim c.1
  | CallClaimPending => ReplyPending <$> claim_pending c.1
  | CallConfirm => ReplyBool <$> confirm c.1
  | CallRelease => ReplyBool <$> release c.1
  | CallReleasePending => ReplyBool <$> release_pending c.1
  | CallPrevious i =>
      match legacy_consumed_signature_keys c.1 !! i with
      | Some key => ReplyBool <$> perform (PutIfAbsent key (json_bool true))
      | None => Ret (ReplyBool (Ok false))
      end
  end.

Definition ledger_won (c : ledger_call) (r : ledger_reply) : bool :=
  match c, r with
  | (CallClaim | CallPrevious _), ReplyBool (Ok b) => b
  | CallClaimPending, ReplyPending (Ok Fresh) => true
  | _, _ => false
  end.

Definition is_release (c : ledger_call) : bool :=
  match c with CallRelease | CallReleasePending => true | _ => false end.

Section accounts.
Context (key : string) (val : option Value -> Z).
Context {T : Type}.
Abbreviation funded_at post t b p :=
  (certified (may_perform (T:=T) (fun _ _ => True)) (earn (key_gain key val)) post (t, b) p).

(** What taking the legacy keys of a signature is worth. *)
Definition legacy_worth (keys : list string) : Z := if decide (key ∈ keys) then 1 else 0.

Lemma legacy_worth_nil : legacy_worth [] = 0.
Proof. unfold legacy_worth. by rewrite decide_False by set_solver. Qed.

Lemma legacy_worth_cons k keys :
  k ∉ keys ->
  legacy_worth (k :: keys) = (if decide (k = key) then 1 else 0) + legacy_worth keys.
Proof.
  unfold legacy_worth. intros. destruct (decide (k = key)) as [->|].
  - by rewrite decide_True, decide_False by set_solver.
  - destruct (decide (key ∈ keys)); [by rewrite decide_True by set_solver|].
    by rewrite decide_False by set_solver.
Qed.

Lemma legacy_worth_snoc k keys :
  k ∉ keys ->
  legacy_worth (keys ++ [k]) = legacy_worth keys + (if decide (k = key) then 1 else 0).
Proof.
  unfold legacy_worth. intros. destruct (decide (k = key)) as [->|].
  - by rewrite decide_True, decide_False by set_solver.
  - destruct (decide (key ∈ keys)); [by rewrite decide_True by set_solver|].
    by rewrite decide_False by set_solver.
Qed.

Lemma legacy_worth_range keys : 0 <= legacy_worth keys <= 1.
Proof. unfold legacy_worth. case_decide; lia. Qed.

Lemma certified_give_back {B} (post : T * Z -> B -> Prop) t b keys p :
  (key ∈ keys -> val None = 0) -> NoDup keys -> 0 <= b - legacy_worth keys ->
  funded_at post t (b - legacy_worth keys) p ->
  funded_at post t b (await _ := give_back keys in p).
Proof.
  revert b. induction keys as [|k keys IH]; intros b Hval Hnd Hb Hp; simpl.
  { rewrite legacy_worth_nil, Z.sub_0_r in Hp. done. }
  apply NoDup_cons in Hnd as [Hni Hnd]. rewrite legacy_worth_cons in Hb, Hp by done.
  pose proof (legacy_worth_range keys). split.
  { unfold may_perform. simpl. case_decide; lia || (split; [lia|done]). }
  intros r. unfold earn. simpl. apply IH; [set_solver|done|..].
  - case_decide; [rewrite Hval by set_solver|]; lia.
  - revert Hp. case_decide; [rewrite Hval by set_solver|];
      (match goal with |- certified _ _ _ (_, ?x) _ -> certified _ _ _ (_, ?y) _ =>
         replace y with x by lia end; done).
Qed.

Lemma certified_take_legacy (post : T * Z -> result bool StoreError -> Prop) t b taken keys k :
  (key ∈ taken ++ keys -> val None = 0 /\ val (Some (json_bool true)) = 1) ->
  NoDup (taken ++ keys) -> 0 <= b ->
  (forall o, o <> Ok true -> post (t, b) o) ->
  funded_at post t (b + legacy_worth (taken ++ keys)) (k (taken ++ keys)) ->
  funded_at post t (b + legacy_worth taken) (take_legacy taken keys k).
Proof.
  revert taken. induction keys as [|key' keys IH]; intros taken Hval Hnd Hb Hpost Hk; simpl.
  { by rewrite app_nil_r in Hk. }
  pose proof (legacy_worth_range taken).
  assert (Hnd' : NoDup ((taken ++ [key']) ++ keys)) by (by rewrite <-(assoc_L (++))).
  assert (key' ∉ taken) by (apply NoDup_app in Hnd as (_ & Hd & _); set_solver).
  split; [split; [simpl; lia|done]|]. intros r. unfold earn. simpl.
  destruct (decide (r = Ok true)) as [->|Hr].
  - pose proof (IH (taken ++ [key'])) as IH'.
    rewrite <-(assoc_L (++)) in IH'. rewrite legacy_worth_snoc in IH' by done.
    unfold write_gain. revert IH'. case_decide as Heq; intros IH'.
    + destruct (Hval ltac:(set_solver)) as [-> ->].
      replace (b + legacy_worth taken + (1 - 0)) with (b + (legacy_worth taken + 1)) by lia.
      exact (IH' Hval Hnd Hb Hpost Hk).
    + replace (b + legacy_worth taken + 0) with (b + (legacy_worth taken + 0)) by lia.
      exact (IH' Hval Hnd Hb Hpost Hk).
  - assert (Hg : write_gain key key' (val (Some (json_bool true)) - val None) r = 0).
    { unfold write_gain. case_decide; [|done].
      destruct Hval as [-> ->]; [set_solver|]. by destruct r as [[|]|]. }
    rewrite Hg, Z.add_0_r.
    assert (funded_at post t (b + legacy_worth taken)
              (await _ := give_back taken in Ret r)).
    { apply certified_give_back.
      - intros. destruct Hval as [-> _]; [set_solver|done].
      - by apply NoDup_app in Hnd as (? & _).
      - lia.
      - rewrite Z.add_simpl_r. simpl. by apply Hpost. }
    by destruct r as [[|]|].
Qed.

(** What one claim can end with, given the gains of its ledger writes. *)
Lemma certified_claim_with (post : T * Z -> result bool StoreError -> Prop) t b sig v :
  let worth := legacy_worth (legacy_consumed_signature_keys sig) in
  let write expected :=
    write_gain key (consumed_signature_key sig) (val (Some v) - val expected) in
  (key ∈ legacy_consumed_signature_keys sig ->
    val None = 0 /\ val (Some (json_bool true)) = 1) ->
  0 <= b ->
  (forall o, o <> Ok true -> post (t, b) o) ->
  (forall expected, expected = None \/ expected = Some released_marker ->
    post (t, b + worth + write expected (Ok true)) (Ok true) /\
    forall e, 0 <= b + write expected (Err e) /\
         post (t, b + write expected (Err e)) (Err e)) ->
  funded_at post t b (claim_with sig v).
Proof.
  intros worth write Hval Hb Hpost Hwrite. unfold claim_with.
  pose proof (legacy_keys_NoDup sig) as Hnd.
  rewrite <-(Z.add_0_r b), <-legacy_worth_nil.
  apply certified_take_legacy; [done|done|done|done|]. simpl. fold worth.
  pose proof (legacy_worth_range (legacy_consumed_signature_keys sig)) as Hw. fold worth in Hw.
  assert (Hback : forall c r, 0 <= c -> post (t, c) r ->
    funded_at post t (c + worth)
      (await _ := give_back (legacy_consumed_signature_keys sig) in Ret r)).
  { intros c r Hc Hr. apply certified_give_back; [by intros; apply Hval|done| |];
      fold worth; rewrite Z.add_simpl_r; done. }
  assert (Hswap : forall r, write_gain key (consumed_signature_key sig) r (Ok false) = 0).
  { intros r. unfold write_gain. by case_decide. }
  split; [split; [simpl; lia|done]|]. intros first. unfold earn. simpl.
  destruct (Hwrite None) as [Hok Herr]; [by left|].
  destruct (Hwrite (Some released_marker)) as [Hok' Herr']; [by right|].
  destruct first as [[|]|e]; simpl.
  - exact Hok.
  - rewrite Hswap, Z.add_0_r. split; [split; [simpl; lia|done]|].
    intros second. unfold earn. simpl. destruct second as [[|]|e]; simpl.
    + exact Hok'.
    + rewrite Hswap, Z.add_0_r. by apply Hback, Hpost.
    + destruct (Herr' e) as [? ?].
      replace (b + worth + _) with (b + write (Some released_marker) (Err e) + worth)
        by (unfold write; lia). by apply Hback.
  - destruct (Herr e) as [? ?].
    replace (b + worth + _) with (b + write None (Err e) + worth) by (unfold write; lia).
    by apply Hback.
Qed.

Lemma certified_claim (post : T * Z -> result bool StoreError -> Prop) t b sig v d :
  (key ∈ legacy_consumed_signature_keys sig ->
    val None = 0 /\ val (Some (json_bool true)) = 1) ->
  (consumed_signature_key sig = key -> forall expected,
    expected = None \/ expected = Some released_marker -> val (Some v) - val expected = d) ->
  let gain := if decide (consumed_signature_key sig = key) then d else 0 in
  0 <= b + Z.min 0 gain ->
  (forall o b', o <> Ok true -> b + Z.min 0 gain <= b' -> post (t, b') o) ->
  post (t, b + legacy_worth (legacy_consumed_signature_keys sig) + gain) (Ok true) ->
  funded_at post t b (claim_with sig v).
Proof.
  intros Hval Hd gain Hb Hno Hyes. apply certified_claim_with; [done|lia| |].
  { intros o Ho. apply Hno; [done|lia]. }
  intros expected Hexp. unfold write_gain, gain in *.
  case_decide as Heq; [rewrite Hd by done|]; (split; [done|]); intros e;
    (split; [lia|]); apply Hno; [done|lia|done|lia].
Qed.

Lemma certified_delete_all (post : T * Z -> result bool StoreError -> Prop) t b keys :
  (key ∈ keys -> val None = 0) -> NoDup keys -> 0 <= b - legacy_worth keys ->
  (forall r b', b - legacy_worth keys <= b' -> post (t, b') r) ->
  funded_at post t b (delete_all keys).
Proof.
  revert b. induction keys as [|k keys IH]; intros b Hval Hnd Hb Hp; simpl.
  { apply Hp. rewrite legacy_worth_nil. lia. }
  apply NoDup_cons in Hnd as [Hni Hnd]. rewrite legacy_worth_cons in Hb, Hp by done.
  pose proof (legacy_worth_range keys). split.
  { unfold may_perform. simpl. case_decide; lia || (split; [lia|done]). }
  assert (Hd : val None - 1 = -1 \/ k <> key).
  { destruct (decide (k = key)) as [->|]; [left; rewrite Hval by set_solver; done|by right]. }
  intros [r|e]; unfold earn; simpl.
  - apply IH; [set_solver|done|..].
    + revert Hb. case_decide; lia || naive_solver lia.
    + intros r' b' Hb'. apply Hp. revert Hb'. case_decide; lia || naive_solver lia.
  - apply Hp. case_decide; lia || naive_solver lia.
Qed.

Lemma certified_release (post : T * Z -> result bool StoreError -> Prop) t b sig v :
  let worth := legacy_worth (legacy_consumed_signature_keys sig) in
  let gain :=
    write_gain key (consumed_signature_key sig) (val (Some released_marker) - val (Some v)) in
  (key ∈ legacy_consumed_signature_keys sig -> val None = 0) ->
  0 <= b -> 0 <= b + gain (Ok true) - worth ->
  (forall r b', b + gain (Ok true) - worth <= b' -> post (t, b') r) ->
  post (t, b) (Ok false) ->
  (forall e, post (t, b + gain (Err e)) (Err e)) ->
  funded_at post t b (release_holding sig v).
Proof.
  intros worth gain Hval Hb Hw Hyes Hno Herr. apply certified_ptry.
  split; [split; [simpl; lia|done]|]. intros [[|]|e]; unfold earn; cbn [key_gain fst snd].
  - apply certified_delete_all; [done|apply legacy_keys_NoDup|done|exact Hyes].
  - simpl. replace (write_gain _ _ _ _) with 0 by (unfold write_gain; by case_decide).
    by rewrite Z.add_0_r.
  - apply Herr.
Qed.
End accounts.

(** The accounts: whether the ledger key is held, whether it is not pending,
    and ([taken]) whether a legacy key is present. *)
Definition held (o : option Value) : Z :=
  match o with Some v => if decide (v = released_marker) then 0 else 1 | None => 0 end.
Definition resolved (o : option Value) : Z := if decide (o = Some pending_marker) then 0 else 1.

Lemma held_range o : 0 <= held o <= 1.
Proof. unfold held. repeat case_match; lia. Qed.
Lemma resolved_range o : 0 <= resolved o <= 1.
Proof. unfold resolved. case_decide; lia. Qed.

Lemma true_not_released : json_bool true <> released_marker.
Proof. apply json_bool_obj1. Qed.
Lemma true_not_pending : json_bool true <> pending_marker.
Proof. apply json_bool_obj1. Qed.
Lemma pending_not_released : pending_marker <> released_marker.
Proof.
  intros [_ Heq]%(inj2 (R1:=(=)) (R2:=(=)) json_obj1 (Inj2:=json_obj1_inj)).
  apply (inj json_str (Inj:=json_str_inj)) in Heq. done.
Qed.

Lemma held_true : held (Some (json_bool true)) = 1.
Proof. unfold held. rewrite decide_False; [done|apply true_not_released]. Qed.
Lemma held_pending : held (Some pending_marker) = 1.
Proof. unfold held. rewrite decide_False; [done|apply pending_not_released]. Qed.
Lemma held_released : held (Some released_marker) = 0.
Proof. unfold held. by rewrite decide_True. Qed.
Lemma resolved_true : resolved (Some (json_bool true)) = 1.
Proof. unfold resolved. rewrite decide_False; [done|]. intros [= Heq]. by apply true_not_pending. Qed.
Lemma resolved_released : resolved (Some released_marker) = 1.
Proof.
  unfold resolved. rewrite decide_False; [done|]. intros [= Heq]. by apply pending_not_released.
Qed.
Lemma resolved_pending : resolved (Some pending_marker) = 0.
Proof. unfold resolved. by rewrite decide_True. Qed.
End interleaved.

#[export] Hint Rewrite @held_true @held_pending @held_released @resolved_true @resolved_released
  @resolved_pending using typeclasses eauto : ledger.

Section exclusion.
#[local] Opaque consumed_signature_key legacy_consumed_signature_keys.
Context {Value : Type} `{SerdeJsonLaws Value}.
Implicit Types (m : gmap string Value) (calls : list (string * ledger_call)).

Definition is_previous (c : ledger_call) : bool :=
  match c with CallPrevious _ => true | _ => false end.

(** A call of this release claimed [sig]. *)
Definition claims_now (sig : string) (t : string * ledger_call) (r : ledger_reply) : bool :=
  bool_decide (t.1 = sig) && negb (is_previous t.2) && ledger_won t.2 r.

(** A call of this release, or one of the previous release on its [i]-th
    legacy key, claimed [sig]. *)
Definition claims_any (sig : string) (i : nat) (t : string * ledger_call)
    (r : ledger_reply) : bool :=
  bool_decide (t.1 = sig) && bool_decide (is_previous t.2 = false \/ t.2 = CallPrevious i) &&
  ledger_won t.2 r.

(** The call settled a pending claim of [sig]: confirmed it or released it. *)
Definition settles (sig : string) (t : string * ledger_call) (r : ledger_reply) : bool :=
  bool_decide (t.1 = sig) &&
  match t.2, r with
  | (CallConfirm | CallReleasePending), ReplyBool (Ok b) => b
  | _, _ => false
  end.

Definition releases (sig : string) (t : string * ledger_call) : Z :=
  if bool_decide (t.1 = sig) && is_release t.2 then 1 else 0.
Definition pending_claims (sig : string) (t : string * ledger_call) : Z :=
  if bool_decide (t.1 = sig /\ t.2 = CallClaimPending) then 1 else 0.


Lemma ledger_key_decide {B} s sig (x y : B) :
  (if decide (consumed_signature_key s = consumed_signature_key sig) then x else y) =
  (if decide (s = sig) then x else y).
Proof.
  apply decide_ext. split; [apply consumed_signature_key_inj|by intros ->].
Qed.

Lemma legacy_worth_ledger s sig :
  legacy_worth (consumed_signature_key sig) (legacy_consumed_signature_keys s) = 0.
Proof.
  unfold legacy_worth. rewrite decide_False; [done|]. apply ledger_key_not_legacy.
Qed.

(** Evaluates gains and balances at the markers. *)
Lemma held_none : held (Value:=Value) None = 0.
Proof. done. Qed.
Lemma taken_none : taken (Value:=Value) None = 0.
Proof. done. Qed.
Lemma taken_some (v : Value) : taken (Some v) = 1.
Proof. done. Qed.
Lemma resolved_none : resolved (Value:=Value) None = 1.
Proof. done. Qed.
#[local] Arguments held : simpl never.
#[local] Arguments taken : simpl never.
#[local] Arguments resolved : simpl never.

Ltac settle :=
  unfold solvent, may_perform, earn, releases, claims_now, claims_any, settles,
    pending_claims in *;
  simpl in *; unfold write_gain in *;
  rewrite ?ledger_key_decide, ?legacy_worth_ledger, ?held_true, ?held_pending,
    ?held_released, ?held_none, ?taken_some, ?taken_none, ?resolved_none, ?resolved_true,
    ?resolved_pending, ?resolved_released in *;
  repeat first [case_bool_decide | case_decide]; subst; simpl in *; try congruence; try lia;
  try tauto; try (case_match; lia).

Lemma funded_held sig t :
  funded (fun _ _ => True) (key_gain (consumed_signature_key sig) held)
    call_prog (releases sig) (claims_now sig) t.
Proof.
  destruct t as [s c]. unfold funded, call_prog. cbn [fst snd].
  destruct c; try apply certified_pbind.
  - apply certified_claim with (d := 1); try intros []%ledger_key_not_legacy.
    + intros _ expected [->| ->]; settle.
    + settle.
    + intros [[]|] b ?; settle.
    + settle.
  - apply certified_ptry, certified_claim with (d := 1); try intros []%ledger_key_not_legacy.
    + intros _ expected [->| ->]; settle.
    + settle.
    + intros [[]|] b ? Hb; [done| |settle].
      split; [split; settle|]. intros [cur|e]; settle.
    + settle.
  - split; [split; settle|]. intros [[]|]; settle.
  - apply certified_release; try intros []%ledger_key_not_legacy; try intros; settle.
  - apply certified_release; try intros []%ledger_key_not_legacy; try intros; settle.
  - destruct (_ !! _); [|settle]. apply certified_pbind.
    split; [split; settle|]. intros [[]|]; settle.
Qed.

Lemma funded_resolved sig t :
  funded (fun _ _ => True) (key_gain (consumed_signature_key sig) resolved)
    call_prog (pending_claims sig) (settles sig) t.
Proof.
  destruct t as [s c]. unfold funded, call_prog. cbn [fst snd].
  destruct c; try apply certified_pbind.
  - apply certified_claim with (d := 0); try intros []%ledger_key_not_legacy.
    + intros _ expected [->| ->]; settle.
    + settle.
    + intros [[]|] b ?; settle.
    + settle.
  - apply certified_ptry, certified_claim with (d := -1); try intros []%ledger_key_not_legacy.
    + intros _ expected [->| ->]; settle.
    + settle.
    + intros [[]|] b ? Hb; [done| |settle].
      split; [split; settle|]. intros [cur|e]; settle.
    + settle.
  - split; [split; settle|]. intros [[]|]; settle.
  - apply certified_release; try intros []%ledger_key_not_legacy; try intros; settle.
  - apply certified_release; try intros []%ledger_key_not_legacy; try intros; settle.
  - destruct (_ !! _); [|settle]. apply certified_pbind.
    split; [split; settle|]. intros [[]|]; settle.
Qed.

(** The legacy keys of other signatures are other keys. *)
Lemma legacy_worth_of sig i key s :
  legacy_consumed_signature_keys sig !! i = Some key ->
  legacy_worth key (legacy_consumed_signature_keys s) = if decide (s = sig) then 1 else 0.
Proof.
  intros Hi%list_elem_of_lookup_2. unfold legacy_worth. apply decide_ext. split.
  - intros Hs. by eapply legacy_key_signature.
  - by intros ->.
Qed.

Lemma legacy_key_decide sig i key s {B} (x y : B) :
  legacy_consumed_signature_keys sig !! i = Some key ->
  (if decide (consumed_signature_key s = key) then x else y) = y.
Proof.
  intros Hi%list_elem_of_lookup_2. rewrite decide_False; [done|].
  intros <-. by eapply ledger_key_not_legacy.
Qed.

Lemma legacy_index_decide sig i key s j key' :
  legacy_consumed_signature_keys sig !! i = Some key ->
  legacy_consumed_signature_keys s !! j = Some key' ->
  key' = key <-> s = sig /\ j = i.
Proof.
  intros Hi Hj. split.
  - intros ->. assert (s = sig) as -> by (eapply legacy_key_signature;
      eapply list_elem_of_lookup_2; done). split; [done|].
    eapply NoDup_lookup; [apply legacy_keys_NoDup|done|done].
  - intros [-> ->]. congruence.
Qed.

Lemma write_gain_ledger sig i key s d r :
  legacy_consumed_signature_keys sig !! i = Some key ->
  write_gain key (consumed_signature_key s) d r = 0.
Proof. intros Hi. unfold write_gain. by rewrite (legacy_key_decide _ _ _ _ _ _ Hi). Qed.

Lemma funded_taken sig i key t :
  legacy_consumed_signature_keys sig !! i = Some key ->
  funded (fun _ _ => True) (key_gain key taken) call_prog (releases sig) (claims_any sig i) t.
Proof.
  intros Hi. destruct t as [s c]. unfold funded, call_prog. cbn [fst snd].
  assert (Hs : consumed_signature_key s = key -> forall P : Prop, P).
  { intros Hs. exfalso. eapply ledger_key_not_legacy. rewrite Hs.
    by eapply list_elem_of_lookup_2. }
  assert (Hrelease : forall c v, is_release c = true ->
    certified (may_perform (fun _ _ => True)) (earn (key_gain key taken))
      (fun g r => solvent (claims_any sig i) g (ReplyBool r))
      ((s, c), releases sig (s, c)) (release_holding s v)).
  { intros c' v Hc. destruct c'; try done; apply certified_release;
      rewrite ?(legacy_worth_of _ _ _ _ Hi), ?(write_gain_ledger _ _ _ _ _ _ Hi);
      try intros; rewrite ?(write_gain_ledger _ _ _ _ _ _ Hi); settle. }
  destruct c; try apply certified_pbind.
  - apply certified_claim with (d := 0);
      rewrite ?(legacy_worth_of _ _ _ _ Hi), ?(legacy_key_decide _ _ _ _ _ _ Hi);
      [settle|intros Hk; apply (Hs Hk)|settle|intros [[]|] b ?; settle|settle].
  - apply certified_ptry, certified_claim with (d := 0);
      rewrite ?(legacy_worth_of _ _ _ _ Hi), ?(legacy_key_decide _ _ _ _ _ _ Hi);
      [settle|intros Hk; apply (Hs Hk)|settle| |settle].
    intros [[]|] b ? Hb; [done| |settle].
    split; [split; settle|]. intros [cur|e]; settle.
  - split; [split; settle|]. intros r. unfold earn. cbn [key_gain].
    rewrite (write_gain_ledger _ _ _ _ _ _ Hi). destruct r as [[]|]; settle.
  - by apply Hrelease.
  - by apply Hrelease.
  - destruct (legacy_consumed_signature_keys s !! legacy) as [key'|] eqn:Hj; [|settle].
    apply certified_pbind. split; [split; settle|]. intros r.
    unfold earn. cbn [key_gain]. unfold write_gain.
    rewrite (decide_ext _ _ _ _ (legacy_index_decide _ _ _ _ _ _ Hi Hj)).
    clear Hs Hrelease. destruct r as [[]|]; settle; naive_solver.
Qed.

(** ** The theorems *)
Abbreviation calls_run calls m ps m' :=
  (rtc (pool_step (A:=ledger_reply) store_exec) (call_prog <$> calls, m) (ps, m')).

Lemma claims_any_bounded sig i key m calls ps m' :
  legacy_consumed_signature_keys sig !! i = Some key ->
  calls_run calls m ps m' ->
  count_winners (claims_any sig i) calls ps <=
    1 - taken (m !! key) + zsum (releases sig <$> calls).
Proof.
  intros Hi Hr. pose proof (pool_winners store_exec (fun _ _ => True)
    (key_gain key taken) (key_potential key taken)
    (key_gain_sound _ _ taken_range) call_prog (releases sig) (claims_any sig i) _ _ _ _ Hr) as Hw.
  pose proof (taken_range (m' !! key)).
  unfold key_potential in Hw.
  specialize (Hw ltac:(apply Forall_true; intros; by apply funded_taken)). lia.
Qed.


(** C24. Whatever the interleaving and whichever operations fail (before or
    after they took effect), of all the calls of this release on a signature
    and the claims a previous release makes on one of its legacy keys, two
    never both win, as long as no call releases the signature. *)
Theorem one_claim_wins sig n calls ps m m' i j ti tj ri rj :
  (n < length (legacy_consumed_signature_keys sig))%nat ->
  calls_run calls m ps m' ->
  Forall (fun t => t.1 = sig -> is_release t.2 = false) calls ->
  i <> j -> calls !! i = Some ti -> calls !! j = Some tj ->
  ps !! i = Some (Ret ri) -> ps !! j = Some (Ret rj) ->
  claims_any sig n ti ri = true -> claims_any sig n tj rj = false.
Proof.
  intros Hn Hr Hrel Hij Hti Htj Hri Hrj Hwi. apply not_true_is_false. intros Hwj.
  destruct (lookup_lt_is_Some_2 _ _ Hn) as [key Hkey].
  pose proof (claims_any_bounded _ _ _ _ _ _ _ Hkey Hr) as Hle.
  pose proof (count_winners_two (claims_any sig n) calls ps i j ti tj ri rj
    Hij Hti Htj Hri Hrj Hwi Hwj).
  assert (zsum (releases sig <$> calls) = 0).
  { clear -Hrel. induction Hrel as [|t calls Ht _ IH]; csimpl; [done|]. rewrite IH.
    unfold releases. case_bool_decide as Hs; [by rewrite Ht|done]. }
  pose proof (taken_range (m !! key)). lia.
Qed.

(** A signature is claimed at most once more than it is released: the
    claims that win never exceed the calls that release it, plus one if the
    ledger did not already hold it. *)
Theorem claims_bounded sig m calls ps m' :
  calls_run calls m ps m' ->
  count_winners (claims_now sig) calls ps <=
    1 - held (m !! consumed_signature_key sig) + zsum (releases sig <$> calls).
Proof.
  intros Hr. pose proof (pool_winners store_exec (fun _ _ => True)
    (key_gain (consumed_signature_key sig) held) (key_potential (consumed_signature_key sig) held)
    (key_gain_sound _ _ held_range) call_prog (releases sig) (claims_now sig) _ _ _ _ Hr) as Hw.
  pose proof (held_range (m' !! consumed_signature_key sig)).
  unfold key_potential in Hw. specialize (Hw ltac:(apply Forall_true, funded_held)). lia.
Qed.

(** A pending claim is settled once: the confirmations and releases of a
    pending claim that report success never exceed the pending claims that
    were started, plus one if one was there. *)
Theorem settlements_bounded sig m calls ps m' :
  calls_run calls m ps m' ->
  count_winners (settles sig) calls ps <=
    1 - resolved (m !! consumed_signature_key sig) + zsum (pending_claims sig <$> calls).
Proof.
  intros Hr. pose proof (pool_winners store_exec (fun _ _ => True)
    (key_gain (consumed_signature_key sig) resolved)
    (key_potential (consumed_signature_key sig) resolved)
    (key_gain_sound _ _ resolved_range) call_prog (pending_claims sig) (settles sig)
    _ _ _ _ Hr) as Hw.
  pose proof (resolved_range (m' !! consumed_signature_key sig)).
  unfold key_potential in Hw. specialize (Hw ltac:(apply Forall_true, funded_resolved)). lia.
Qed.
End exclusion.

(** * Witnesses: three claims race, then a pending claim is settled *)
Module Race.
Definition calls : list (string * ledger_call) :=
  [("sig", CallClaim); ("sig", CallPrevious 2); ("sig", CallClaimPending)].
Definition rounds (n : nat) (i : nat) : list (nat * env) := replicate n (i, calm 7).
Definition start (calls : list (string * ledger_call)) :=
  (call_prog (Value:=Demo.value) <$> calls, ∅ : gmap string Demo.value).
Definition final (calls : list (string * ledger_call)) (sched : list (nat * env)) :=
  run_pool store_exec sched (start calls).

Definition race := final calls
  (rounds 1 0 ++ rounds 1 1 ++ rounds 1 2 ++ rounds 12 0 ++ rounds 12 2).
Definition settling := final
  [("sig", CallClaimPending); ("sig", CallConfirm); ("sig", CallReleasePending)]
  (rounds 9 0 ++ rounds 1 1 ++ rounds 9 2).
End Race.

Lemma one_claim_wins_witness :
  Race.race.1 !! 1%nat = Some (Ret (ReplyBool (Ok true))) /\
  claims_any "sig" 2 ("sig", CallClaim) (ReplyBool (Ok false)) = false.
Proof.
  split; [vm_compute; reflexivity|].
  apply (one_claim_wins "sig" 2 Race.calls Race.race.1 ∅ Race.race.2 1 0 ("sig", CallPrevious 2)
    ("sig", CallClaim) (ReplyBool (Ok true)) (ReplyBool (Ok false)));
    try (vm_compute; reflexivity); try (vm_compute; lia).
  - apply run_pool_steps.
  - repeat constructor.
Defined.

Lemma claims_bounded_witness :
  count_winners (claims_now "sig") Race.calls Race.race.1 <= 1.
Proof.
  exact (claims_bounded "sig" ∅ Race.calls Race.race.1 Race.race.2 (run_pool_steps _ _ _)).
Defined.

Lemma settlements_bounded_witness :
  count_winners (settles "sig")
    [("sig", CallClaimPending); ("sig", CallConfirm); ("sig", CallReleasePending)]
    Race.settling.1 = 1 /\
  count_winners (settles "sig")
    [("sig", CallClaimPending); ("sig", CallConfirm); ("sig", CallReleasePending)]
    Race.settling.1 <= 1.
Proof.
  split; [vm_compute; reflexivity|].
  exact (settlements_bounded "sig" ∅ _ Race.settling.1 Race.settling.2 (run_pool_steps _ _ _)).
Defined.
