(* ===== verification/ChargeReplay.v ===== *)
(** The charge replay ledger ([ChargeReplayStore] of
    src/rust/crates/kit/src/core/store.rs): a settlement record per challenge,
    kept as an append-only chain of generations in the key-value store. *)
From Stdlib Require Import Ascii.
From stdpp Require Import base numbers option list gmap strings pretty.
From S2P Require Import Prelude Effects Json Store.

(** [CHARGE_RESERVATION_LEASE], in seconds. *)
Definition CHARGE_RESERVATION_LEASE : Z := 2 * 60.
Definition MAX_CHARGE_RECORD_GENERATIONS : nat := 64.

Inductive ChargeRecordState := StateReserved | StateConfirmed | StateFailed | StatePending.

#[export] Instance ChargeRecordState_eq_dec : EqDecision ChargeRecordState.
Proof. solve_decision. Defined.

Record ChargeRecord := {
  challenge_id : string;
  normalized_request_digest : string;
  final_signature : option string;
  failure_reason : option string;
  state : ChargeRecordState;
  updated_at : Z;
  expires_at : Z;
}.

#[export] Instance ChargeRecord_eq_dec : EqDecision ChargeRecord.
Proof. solve_decision. Defined.

Inductive ChargeReservation :=
| Reserved (generation : nat)
| AlreadyConfirmed (final_signature : string)
| AlreadyFailed (reason : string)
| PendingConfirmation (generation : nat) (final_signature : string)
| InProgress
| Conflict.

#[export] Instance ChargeReservation_eq_dec : EqDecision ChargeReservation.
Proof. solve_decision. Defined.

Definition charge_record_key (challenge_id : string) (generation : nat) : string :=
  if decide (generation = 0%nat) then "solana-charge:record:" +:+ challenge_id
  else "solana-charge:record:" +:+ challenge_id +:+ ":" +:+ pretty generation.

Section charge.
Context {Value : Type} `{SerdeJson Value, !Serde Value ChargeRecord}.
Abbreviation store_prog := (prog (storeE Value)).

(** The four error messages. *)
Definition err_generations (id : string) : StoreError :=
  Internal ("charge record `" +:+ id +:+ "` exceeds "
    +:+ pretty MAX_CHARGE_RECORD_GENERATIONS +:+ " generations").
Definition err_orphaned (id : string) : StoreError :=
  Internal ("charge record `" +:+ id +:+ "` lost its root while later generations remain; "
    +:+ "the store must expire a record's generations together").
Definition err_vanished : StoreError :=
  Internal "charge record vanished after put_if_absent conflict".
Definition err_contended (id : string) : StoreError :=
  Internal ("charge record `" +:+ id +:+ "` is contended").
Definition err_no_reservation (id : string) : StoreError :=
  Internal ("cannot settle charge record `" +:+ id +:+ "`: no reservation found").

Definition read (id : string) (generation : nat) :
    store_prog (result (option ChargeRecord) StoreError) :=
  await? found := perform (Get (charge_record_key id generation)) in
  match found with
  | None => Ret (Ok None)
  | Some value => Ret (rmap Some (rmap_err Serialization (from_value value)))
  end.

(** The [while let] loop of [tip]; [fuel] counts down with the generations
    left below the bound, which the code checks itself. *)
Fixpoint tip_loop (id : string) (fuel generation : nat) (record : ChargeRecord) :
    store_prog (result (option (nat * ChargeRecord)) StoreError) :=
  match fuel with
  | O => Ret (Err (err_generations id))
  | S fuel =>
      await? next := read id (S generation) in
      match next with
      | None => Ret (Ok (Some (generation, record)))
      | Some next =>
          if decide (MAX_CHARGE_RECORD_GENERATIONS <= S generation)%nat
          then Ret (Err (err_generations id))
          else tip_loop id fuel (S generation) next
      end
  end.

Definition tip (id : string) :
    store_prog (result (option (nat * ChargeRecord)) StoreError) :=
  await? root := read id 0 in
  match root with
  | None => Ret (Ok None)
  | Some record => tip_loop id MAX_CHARGE_RECORD_GENERATIONS 0 record
  end.

Definition append (id : string) (generation : nat) (record : ChargeRecord) :
    store_prog (result bool StoreError) :=
  match rmap_err Serialization (to_value record) with
  | Ok value => perform (PutIfAbsent (charge_record_key id generation) value)
  | Err e => Ret (Err e)
  end.

Definition fresh_record (id digest : string) (lease now : Z) : ChargeRecord := {|
  challenge_id := id;
  normalized_request_digest := digest;
  final_signature := None;
  failure_reason := None;
  state := StateReserved;
  updated_at := now;
  expires_at := i64_wrap (now + i64_wrap lease);
|}.

(** The classification loop of [reserve]. *)
Fixpoint reserve_loop (attempts : nat) (id digest : string) (now : Z) (fresh : ChargeRecord) :
    store_prog (result ChargeReservation StoreError) :=
  match attempts with
  | O => Ret (Err (err_contended id))
  | S attempts =>
      await? latest := tip id in
      match latest with
      | None => Ret (Err err_vanished)
      | Some (generation, existing) =>
          if decide (normalized_request_digest existing = digest) then
            match state existing with
            | StateConfirmed =>
                Ret (Ok (AlreadyConfirmed (default "" (final_signature existing))))
            | StateFailed => Ret (Ok (AlreadyFailed (default "" (failure_reason existing))))
            | StatePending =>
                Ret (Ok (PendingConfirmation generation
                           (default "" (final_signature existing))))
            | StateReserved =>
                if decide (now < expires_at existing) then Ret (Ok InProgress) else
                await? won := append id (S generation) fresh in
                if won : bool then Ret (Ok (Reserved (S generation)))
                else reserve_loop attempts id digest now fresh
            end
          else Ret (Ok Conflict)
      end
  end.

Definition reserve (id digest : string) (lease : Z) :
    store_prog (result ChargeReservation StoreError) :=
  await now := perform NowUnix in
  let fresh := fresh_record id digest lease now in
  await? next := read id 1 in
  await? lost := match next with
                 | None => Ret (Ok false)
                 | Some _ => await? root := read id 0 in Ret (Ok (bool_decide (root = None)))
                 end in
  if lost : bool then Ret (Err (err_orphaned id)) else
  await? created := append id 0 fresh in
  if created : bool then
    await? next := read id 1 in
    match next with
    | Some _ =>
        await? _ := perform (Delete (charge_record_key id 0)) in Ret (Err (err_orphaned id))
    | None => Ret (Ok (Reserved 0))
    end
  else reserve_loop MAX_CHARGE_RECORD_GENERATIONS id digest now fresh.

Definition terminal (record : ChargeRecord) (st : ChargeRecordState)
    (signature reason : option string) : store_prog ChargeRecord :=
  await now := perform NowUnix in
  Ret {|
    challenge_id := challenge_id record;
    normalized_request_digest := normalized_request_digest record;
    final_signature := signature;
    failure_reason := reason;
    state := st;
    updated_at := now;
    expires_at := i64_wrap (now + DEFAULT_CHARGE_RECORD_RETENTION);
  |}.

Definition tip_or_missing (id : string) :
    store_prog (result (nat * ChargeRecord) StoreError) :=
  await? latest := tip id in Ret (ok_or latest (err_no_reservation id)).

Definition mark_confirmed (id : string) (generation : nat) (signature : string) :
    store_prog (result bool StoreError) :=
  await? (latest, record) := tip_or_missing id in
  let owned := match state record with
               | StateReserved => true
               | StatePending => bool_decide (final_signature record = Some signature)
               | StateConfirmed | StateFailed => false
               end in
  if bool_decide (latest = generation) && owned then
    await confirmed := terminal record StateConfirmed (Some signature) None in
    append id (S generation) confirmed
  else Ret (Ok false).

Fixpoint record_confirmed_loop (attempts : nat) (id signature : string) :
    store_prog (result bool StoreError) :=
  match attempts with
  | O => Ret (Err (err_contended id))
  | S attempts =>
      await? (generation, record) := tip_or_missing id in
      match state record with
      | StateConfirmed => Ret (Ok true)
      | StateFailed => Ret (Ok false)
      | StateReserved | StatePending =>
          await confirmed := terminal record StateConfirmed (Some signature) None in
          await? won := append id (S generation) confirmed in
          if won : bool then Ret (Ok true) else record_confirmed_loop attempts id signature
      end
  end.

Definition record_confirmed (id signature : string) : store_prog (result bool StoreError) :=
  record_confirmed_loop MAX_CHARGE_RECORD_GENERATIONS id signature.

(** The guard [release_pending] and [confirm_pending] share. *)
Definition pending_at (latest generation : nat) (record : ChargeRecord) (signature : string) :
    bool :=
  bool_decide (latest = generation) && bool_decide (state record = StatePending) &&
  bool_decide (final_signature record = Some signature).

Definition release_pending (id : string) (generation : nat) (signature : string) :
    store_prog (result bool StoreError) :=
  await? (latest, record) := tip_or_missing id in
  if pending_at latest generation record signature then
    await now := perform NowUnix in
    append id (S generation) {|
      challenge_id := challenge_id record;
      normalized_request_digest := normalized_request_digest record;
      final_signature := None;
      failure_reason := failure_reason record;
      state := StateReserved;
      updated_at := now;
      expires_at := now;
    |}
  else Ret (Ok false).

Definition confirm_pending (id : string) (generation : nat) (signature : string) :
    store_prog (result bool StoreError) :=
  await? (latest, record) := tip_or_missing id in
  if pending_at latest generation record signature then
    await confirmed := terminal record StateConfirmed (Some signature) None in
    append id (S generation) confirmed
  else Ret (Ok false).

Definition pending (id digest : string) :
    store_prog (result (option (nat * string)) StoreError) :=
  await? latest := tip id in
  Ret (Ok (match latest with
           | Some (generation, record) =>
               if decide (state record = StatePending /\
                          normalized_request_digest record = digest)
               then (fun signature => (generation, signature)) <$> final_signature record
               else None
           | None => None
           end)).

Definition mark_pending (id : string) (generation : nat) (signature : string) :
    store_prog (result bool StoreError) :=
  await? (latest, record) := tip_or_missing id in
  if bool_decide (latest = generation) && bool_decide (state record = StateReserved) then
    await pending := terminal record StatePending (Some signature) None in
    append id (S generation) pending
  else Ret (Ok false).

Definition mark_failed (id : string) (generation : nat) (reason : string) :
    store_prog (result bool StoreError) :=
  await? (latest, record) := tip_or_missing id in
  if bool_decide (latest = generation) &&
     bool_decide (state record = StateReserved \/ state record = StatePending) then
    await failed := terminal record StateFailed None (Some reason) in
    append id (S generation) failed
  else Ret (Ok false).
End charge.

(** * Keys *)
Section keys.
(** The generations of one challenge have different keys. *)
Lemma charge_record_key_inj id g g' :
  charge_record_key id g = charge_record_key id g' -> g = g'.
Proof.
  unfold charge_record_key. repeat case_decide; subst; try done.
  - intros Heq%(inj _). by apply append_nil_inv in Heq.
  - intros Heq%(inj _). symmetry in Heq. by apply append_nil_inv in Heq.
  - intros Heq%(inj _)%(inj _)%(inj _). by apply (inj pretty) in Heq.
Qed.

(** Challenges without a colon in their id have disjoint keys. *)
Lemma charge_record_key_id id id' g g' :
  no_colon id = true -> no_colon id' = true ->
  charge_record_key id g = charge_record_key id' g' -> id = id'.
Proof.
  intros Hid Hid'. unfold charge_record_key. repeat case_decide; intros Heq%(inj _).
  - done.
  - by apply append_colon_not in Heq.
  - symmetry in Heq. by apply append_colon_not in Heq.
  - by apply append_colon_inv in Heq.
Qed.
End keys.

#[global] Arguments charge_record_key : simpl never.

(** * The ledger as a list of records *)

(** One call of the ledger's interface on a challenge. *)
Inductive charge_call :=
| CallReserve (digest : string) (lease : Z)
| CallMarkConfirmed (generation : nat) (signature : string)
| CallRecordConfirmed (signature : string)
| CallReleasePending (generation : nat) (signature : string)
| CallConfirmPending (generation : nat) (signature : string)
| CallMarkPending (generation : nat) (signature : string)
| CallMarkFailed (generation : nat) (reason : string).

Inductive charge_reply :=
| ReplyReservation (r : result ChargeReservation StoreError)
| ReplyApplied (r : result bool StoreError).

#[export] Instance charge_call_eq_dec : EqDecision charge_call.
Proof. solve_decision. Defined.

Definition charge_prog {Value} `{SerdeJson Value, !Serde Value ChargeRecord}
    (c : string * charge_call) : prog (storeE Value) charge_reply :=
  match c.2 with
  | CallReserve digest lease => ReplyReservation <$> reserve c.1 digest lease
  | CallMarkConfirmed g signature => ReplyApplied <$> mark_confirmed c.1 g signature
  | CallRecordConfirmed signature => ReplyApplied <$> record_confirmed c.1 signature
  | CallReleasePending g signature => ReplyApplied <$> release_pending c.1 g signature
  | CallConfirmPending g signature => ReplyApplied <$> confirm_pending c.1 g signature
  | CallMarkPending g signature => ReplyApplied <$> mark_pending c.1 g signature
  | CallMarkFailed g reason => ReplyApplied <$> mark_failed c.1 g reason
  end.

(** What [terminal] writes at time [now]. *)
Definition settled_record (record : ChargeRecord) (st : ChargeRecordState)
    (signature reason : option string) (now : Z) : ChargeRecord := {|
  challenge_id := challenge_id record;
  normalized_request_digest := normalized_request_digest record;
  final_signature := signature;
  failure_reason := reason;
  state := st;
  updated_at := now;
  expires_at := i64_wrap (now + DEFAULT_CHARGE_RECORD_RETENTION);
|}.

(** What [release_pending] writes at time [now]. *)
Definition released_record (record : ChargeRecord) (now : Z) : ChargeRecord := {|
  challenge_id := challenge_id record;
  normalized_request_digest := normalized_request_digest record;
  final_signature := None;
  failure_reason := failure_reason record;
  state := StateReserved;
  updated_at := now;
  expires_at := now;
|}.

(** ** The specification: the challenge's history, oldest record first *)

(** The transitions out of a record: a takeover waits for the lease, a pending
    record is confirmed, failed, or released to an expired reservation, and
    nothing follows a terminal record. *)
Definition charge_next (r r' : ChargeRecord) : bool :=
  bool_decide (challenge_id r' = challenge_id r) &&
  bool_decide (normalized_request_digest r' = normalized_request_digest r) &&
  match state r, state r' with
  | StateReserved, StateReserved => expires_at r <=? updated_at r'
  | StateReserved, _ => true
  | StatePending, StateReserved => bool_decide (expires_at r' = updated_at r')
  | StatePending, StatePending => false
  | StatePending, _ => true
  | StateConfirmed, _ | StateFailed, _ => false
  end.

(** What a record of each state carries. *)
Definition record_ok (id digest : string) (r : ChargeRecord) : bool :=
  bool_decide (challenge_id r = id) && bool_decide (normalized_request_digest r = digest) &&
  match state r with
  | StateReserved => bool_decide (final_signature r = None)
  | StateConfirmed | StatePending => bool_decide (is_Some (final_signature r))
  | StateFailed => bool_decide (is_Some (failure_reason r) /\ final_signature r = None)
  end.

(** A history of the challenge [id] under [digest]. *)
Fixpoint transitions (r : ChargeRecord) (l : list ChargeRecord) : bool :=
  match l with
  | [] => true
  | r' :: l => charge_next r r' && transitions r' l
  end.

Definition history (id digest : string) (l : list ChargeRecord) : bool :=
  match l with
  | [] => true
  | r :: l' => bool_decide (state r = StateReserved) && transitions r l' &&
      forallb (record_ok id digest) l
  end.

(** What a call answers and appends when [record] is the latest of [n] records. *)
Definition charge_spec_at (now : Z) (id : string) (c : charge_call) (n : nat)
    (record : ChargeRecord) : charge_reply * option ChargeRecord :=
  let applied b next := (ReplyApplied (Ok b), next) in
  let at_tip g := bool_decide (pred n = g) in
  match c with
  | CallReserve digest lease =>
      let reply r next := (ReplyReservation (Ok r), next) in
      if decide (normalized_request_digest record = digest) then
        match state record with
        | StateConfirmed => reply (AlreadyConfirmed (default "" (final_signature record))) None
        | StateFailed => reply (AlreadyFailed (default "" (failure_reason record))) None
        | StatePending =>
            reply (PendingConfirmation (pred n) (default "" (final_signature record))) None
        | StateReserved =>
            if decide (now < expires_at record) then reply InProgress None
            else reply (Reserved n) (Some (fresh_record id digest lease now))
        end
      else reply Conflict None
  | CallMarkConfirmed g signature =>
      if at_tip g && bool_decide (state record = StateReserved \/
           state record = StatePending /\ final_signature record = Some signature)
      then applied true (Some (settled_record record StateConfirmed (Some signature) None now))
      else applied false None
  | CallRecordConfirmed signature =>
      match state record with
      | StateConfirmed => applied true None
      | StateFailed => applied false None
      | StateReserved | StatePending =>
          applied true (Some (settled_record record StateConfirmed (Some signature) None now))
      end
  | CallReleasePending g signature =>
      if pending_at (pred n) g record signature
      then applied true (Some (released_record record now)) else applied false None
  | CallConfirmPending g signature =>
      if pending_at (pred n) g record signature
      then applied true (Some (settled_record record StateConfirmed (Some signature) None now))
      else applied false None
  | CallMarkPending g signature =>
      if at_tip g && bool_decide (state record = StateReserved)
      then applied true (Some (settled_record record StatePending (Some signature) None now))
      else applied false None
  | CallMarkFailed g reason =>
      if at_tip g && bool_decide (state record = StateReserved \/ state record = StatePending)
      then applied true (Some (settled_record record StateFailed None (Some reason) now))
      else applied false None
  end.

Definition charge_spec (now : Z) (id : string) (c : charge_call) (l : list ChargeRecord) :
    charge_reply * option ChargeRecord :=
  match last l with
  | None =>
      match c with
      | CallReserve digest lease =>
          (ReplyReservation (Ok (Reserved 0)), Some (fresh_record id digest lease now))
      | _ => (ReplyApplied (Err (err_no_reservation id)), None)
      end
  | Some record =>
      if decide (length l <= MAX_CHARGE_RECORD_GENERATIONS)%nat
      then charge_spec_at now id c (length l) record
      else (match c with
            | CallReserve _ _ => ReplyReservation (Err (err_generations id))
            | _ => ReplyApplied (Err (err_generations id))
            end, None)
  end.

(** * The store implements the specification *)
Section refinement.
#[local] Opaque charge_record_key.
Context {Value : Type} `{SerdeJson Value, !Serde Value ChargeRecord,
  !SerdeLaws Value ChargeRecord}.
Implicit Types (m : gmap string Value) (l : list ChargeRecord).

(** The store holds exactly the records [l] as the generations of [id]. *)
Definition chain (id : string) l m : Prop :=
  forall g, match l !! g, m !! charge_record_key id g with
            | Some r, Some v => to_value r = Ok v
            | None, None => True
            | _, _ => False
            end.

Lemma chain_some id l m g r :
  chain id l m -> l !! g = Some r ->
  exists v, m !! charge_record_key id g = Some v /\ to_value r = Ok v.
Proof. intros Hc Hl. specialize (Hc g). rewrite Hl in Hc. case_match; naive_solver. Qed.

Lemma chain_none id l m g :
  chain id l m -> l !! g = None <-> m !! charge_record_key id g = None.
Proof. intros Hc. specialize (Hc g). repeat case_match; naive_solver. Qed.

Lemma chain_insert id l m r v :
  chain id l m -> to_value r = Ok v ->
  chain id (l ++ [r]) (<[charge_record_key id (length l) := v]> m).
Proof.
  intros Hc Hv g. specialize (Hc g). destruct (decide (g = length l)) as [->|Hne].
  - by rewrite list_lookup_middle, lookup_insert_eq by done.
  - rewrite lookup_insert_ne by (by intros ?%charge_record_key_inj).
    destruct (decide (g < length l)%nat).
    + by rewrite lookup_app_l by lia.
    + rewrite lookup_app_r, (lookup_ge_None_2 l g) in * by lia.
      rewrite (lookup_ge_None_2 [r]) by (simpl; lia). done.
Qed.

(** The store after appending [next] to the history [l]. *)
Definition appended (id : string) l (next : option ChargeRecord) m m' : Prop :=
  match next with
  | None => m' = m
  | Some r => exists v, to_value r = Ok v /\
      m' = <[charge_record_key id (length l) := v]> m
  end.

Lemma appended_chain id l next m m' :
  chain id l m -> appended id l next m m' -> chain id (l ++ option_list next) m'.
Proof.
  destruct next as [r|]; simpl.
  - intros ? (v & ? & ->). by apply chain_insert.
  - intros ? ->. by rewrite app_nil_r.
Qed.

Lemma run_read now id l m g :
  chain id l m -> store_run now (read id g) m = (Ok (l !! g), m).
Proof.
  intros Hc. unfold read, store_run. simpl. unfold faulty. simpl.
  destruct (l !! g) as [r|] eqn:Hl.
  - destruct (chain_some _ _ _ _ _ Hc Hl) as (v & -> & Hv). simpl.
    by rewrite (from_to_value _ _ Hv).
  - by rewrite (proj1 (chain_none _ _ _ _ Hc) Hl).
Qed.

Lemma run_append now id l m g r :
  chain id l m ->
  exists v, to_value r = Ok v /\
  store_run now (append id g r) m =
    match l !! g with
    | Some _ => (Ok false, m)
    | None => (Ok true, <[charge_record_key id g := v]> m)
    end.
Proof.
  intros Hc. unfold append, store_run. destruct (to_value_total (Value:=Value) r) as [v Hv].
  exists v. split; [done|]. rewrite Hv. simpl. unfold faulty. simpl.
  destruct (l !! g) as [r'|] eqn:Hl.
  - by destruct (chain_some _ _ _ _ _ Hc Hl) as (v' & -> & _).
  - by rewrite (proj1 (chain_none _ _ _ _ Hc) Hl).
Qed.

Lemma run_ptry_store {A B} now (f : A -> prog (storeE Value) (result B StoreError)) p m :
  store_run now (ptry f p) m =
  let '(r, m') := store_run now p m in
  match r with Ok a => store_run now (f a) m' | Err e => (Err e, m') end.
Proof. apply run_ptry. Qed.

Lemma run_pbind_store {A B} now (f : A -> prog (storeE Value) B) p m :
  store_run now (pbind f p) m =
  let '(r, m') := store_run now p m in store_run now (f r) m'.
Proof. apply run_pbind. Qed.

Lemma run_ret now {A} (a : A) m : store_run now (Ret a) m = (a, m).
Proof. done. Qed.

Lemma run_now now m : store_run now (perform NowUnix) m = (now, m).
Proof. done. Qed.

(** What [tip] finds. *)
Definition tip_of (id : string) l : result (option (nat * ChargeRecord)) StoreError :=
  match last l with
  | None => Ok None
  | Some r => if decide (length l <= MAX_CHARGE_RECORD_GENERATIONS)%nat
              then Ok (Some (pred (length l), r)) else Err (err_generations id)
  end.

Lemma run_tip_loop now id l m fuel g r :
  chain id l m -> l !! g = Some r -> (fuel + g = MAX_CHARGE_RECORD_GENERATIONS)%nat ->
  store_run now (tip_loop id fuel g r) m = (tip_of id l, m).
Proof.
  intros Hc. revert g r. induction fuel as [|fuel IH]; intros g r Hg Hf.
  - simpl. unfold tip_of. pose proof (lookup_lt_Some _ _ _ Hg) as Hlt.
    destruct (last l) eqn:Hlast; [|by apply last_None in Hlast as ->].
    rewrite decide_False by lia. done.
  - cbn [tip_loop]. rewrite run_ptry_store, (run_read _ _ l) by done.
    pose proof (lookup_lt_Some _ _ _ Hg) as Hlt.
    destruct (l !! S g) as [next|] eqn:Hn.
    + case_decide as Hmax; [|apply IH; [done|lia]]. pose proof (lookup_lt_Some _ _ _ Hn).
      unfold tip_of. destruct (last l) eqn:Hlast; [|by apply last_None in Hlast as ->].
      by rewrite decide_False by lia.
    + apply lookup_ge_None in Hn. unfold tip_of. rewrite last_lookup.
      assert (length l = S g) as -> by lia. simpl. rewrite Hg.
      rewrite decide_True by lia. done.
Qed.

Lemma run_tip now id l m : chain id l m -> store_run now (tip id) m = (tip_of id l, m).
Proof.
  intros Hc. unfold tip. rewrite run_ptry_store, (run_read _ _ l) by done.
  destruct (l !! 0%nat) as [r|] eqn:Hl.
  - apply run_tip_loop; [done|done|lia].
  - apply lookup_ge_None in Hl. destruct l; [done|simpl in *; lia].
Qed.

Lemma run_tip_or_missing now id l m :
  chain id l m ->
  store_run now (tip_or_missing id) m =
    (let? t := tip_of id l in ok_or t (err_no_reservation id), m).
Proof.
  intros Hc. unfold tip_or_missing. rewrite run_ptry_store, (run_tip _ _ l) by done.
  by destruct (tip_of id l).
Qed.

Lemma run_append_next now id l m r :
  chain id l m ->
  exists m', store_run now (append id (length l) r) m = (Ok true, m') /\
    appended id l (Some r) m m'.
Proof.
  intros Hc. destruct (run_append now id l m (length l) r Hc) as (v & Hv & Hrun).
  rewrite (lookup_ge_None_2 l) in Hrun by lia. eexists. split; [done|]. by exists v.
Qed.

Lemma tip_of_last id l r :
  last l = Some r -> (length l <= MAX_CHARGE_RECORD_GENERATIONS)%nat ->
  tip_of id l = Ok (Some (pred (length l), r)).
Proof. intros Hr Hle. unfold tip_of. by rewrite Hr, decide_True. Qed.

Lemma last_length l r : last l = Some r -> S (pred (length l)) = length l.
Proof. destruct l; [done|]. simpl. lia. Qed.

(** A settling operation: reads the tip, then either answers [false] or
    appends the next generation. *)
Lemma run_settle now id l m (guard : nat -> ChargeRecord -> bool) g
    (write : ChargeRecord -> prog (storeE Value) ChargeRecord) (next : ChargeRecord -> ChargeRecord) :
  chain id l m ->
  (forall r m, store_run now (write r) m = (next r, m)) ->
  (forall latest r, guard latest r = true -> latest = g) ->
  exists m',
    store_run now
      (await? (latest, record) := tip_or_missing id in
       if guard latest record then
         await w := write record in append id (S g) w
       else Ret (Ok false)) m =
      (match last l with
       | None => Err (err_no_reservation id)
       | Some r => if decide (length l <= MAX_CHARGE_RECORD_GENERATIONS)%nat
                   then Ok (guard (pred (length l)) r) else Err (err_generations id)
       end, m') /\
    appended id l
      (match last l with
       | None => None
       | Some r => if decide (length l <= MAX_CHARGE_RECORD_GENERATIONS)%nat
                   then if guard (pred (length l)) r then Some (next r) else None
                   else None
       end) m m'.
Proof.
  intros Hc Hw Hg. rewrite run_ptry_store, (run_tip_or_missing _ _ l) by done.
  unfold tip_of. destruct (last l) as [r|] eqn:Hr; [|by exists m].
  case_decide as Hle; [|by exists m]. cbn [rbind ok_or].
  destruct (guard _ r) eqn:Hgd; [|by exists m].
  apply Hg in Hgd as <-. rewrite run_pbind_store, Hw, (last_length _ _ Hr).
  by apply run_append_next.
Qed.

Lemma run_terminal now record st signature reason m :
  store_run now (terminal record st signature reason) m =
  (settled_record record st signature reason now, m).
Proof. done. Qed.

Lemma run_reserve_loop now id digest lease l m r attempts :
  chain id l m -> last l = Some r -> (length l <= MAX_CHARGE_RECORD_GENERATIONS)%nat ->
  exists m',
    ReplyReservation
      (store_run now (reserve_loop (S attempts) id digest now
         (fresh_record id digest lease now)) m).1 =
      (charge_spec_at now id (CallReserve digest lease) (length l) r).1 /\
    (store_run now (reserve_loop (S attempts) id digest now
       (fresh_record id digest lease now)) m).2 = m' /\
    appended id l (charge_spec_at now id (CallReserve digest lease) (length l) r).2 m m'.
Proof.
  intros Hc Hr Hle. cbn [reserve_loop]. rewrite run_ptry_store, (run_tip _ _ l) by done.
  rewrite (tip_of_last _ _ r) by done. unfold charge_spec_at.
  case_decide as Hd; [|by exists m].
  destruct (state r); try by exists m.
  case_decide as He; [by exists m|].
  rewrite run_ptry_store, (last_length _ _ Hr).
  destruct (run_append_next now id l m (fresh_record id digest lease now) Hc)
    as (m' & -> & Ha). by exists m'.
Qed.

Lemma run_reserve now id digest lease l m :
  chain id l m ->
  exists m',
    ReplyReservation (store_run now (reserve id digest lease) m).1 =
      (charge_spec now id (CallReserve digest lease) l).1 /\
    (store_run now (reserve id digest lease) m).2 = m' /\
    appended id l (charge_spec now id (CallReserve digest lease) l).2 m m'.
Proof.
  intros Hc. unfold reserve. rewrite run_pbind_store, run_now.
  rewrite run_ptry_store, (run_read _ _ l) by done.
  rewrite run_ptry_store.
  assert (Hlost : store_run now
    match l !! 1%nat with
    | Some _ => await? root := read id 0 in Ret (Ok (bool_decide (root = None)))
    | None => Ret (Ok false)
    end m = (Ok false, m)).
  { destruct (l !! 1%nat) as [r1|] eqn:H1; [|done].
    rewrite run_ptry_store, (run_read _ _ l) by done. by destruct l. }
  rewrite Hlost. cbn iota. rewrite run_ptry_store.
  destruct (run_append now id l m 0 (fresh_record id digest lease now) Hc) as (v & Hv & ->).
  destruct l as [|r0 l'].
  - cbn [lookup list_lookup]. rewrite run_ptry_store.
    pose proof (chain_insert id [] m _ v Hc Hv) as Hc'.
    rewrite (run_read _ _ _ _ _ Hc'). simpl. eexists. split_and!; [done..|]. by exists v.
  - cbn [lookup list_lookup]. unfold charge_spec.
    destruct (last (r0 :: l')) as [r|] eqn:Hr; [|by apply last_None in Hr].
    case_decide as Hle; [by apply run_reserve_loop|].
    assert (Htip : tip_of id (r0 :: l') = Err (err_generations id))
      by (unfold tip_of; by rewrite Hr, decide_False).
    change (reserve_loop MAX_CHARGE_RECORD_GENERATIONS) with (reserve_loop (Value:=Value) (S 63)).
    cbn [reserve_loop]. rewrite run_ptry_store, (run_tip _ _ (r0 :: l')), Htip by done. by exists m.
Qed.

Lemma run_record_confirmed_loop now id signature l m attempts :
  chain id l m ->
  exists m',
    ReplyApplied (store_run now (record_confirmed_loop (S attempts) id signature) m).1 =
      (charge_spec now id (CallRecordConfirmed signature) l).1 /\
    (store_run now (record_confirmed_loop (S attempts) id signature) m).2 = m' /\
    appended id l (charge_spec now id (CallRecordConfirmed signature) l).2 m m'.
Proof.
  intros Hc. cbn [record_confirmed_loop].
  rewrite run_ptry_store, (run_tip_or_missing _ _ l) by done. unfold tip_of, charge_spec.
  destruct (last l) as [r|] eqn:Hr; [|by exists m].
  case_decide as Hle; [|by exists m]. unfold charge_spec_at. cbn [rbind ok_or].
  destruct (state r); try by exists m.
  all: rewrite run_pbind_store, run_terminal, run_ptry_store, (last_length _ _ Hr);
    edestruct run_append_next as (m' & -> & Ha); [done|by exists m'].
Qed.

Lemma run_record_confirmed now id signature l m :
  chain id l m ->
  exists m',
    ReplyApplied (store_run now (record_confirmed id signature) m).1 =
      (charge_spec now id (CallRecordConfirmed signature) l).1 /\
    (store_run now (record_confirmed id signature) m).2 = m' /\
    appended id l (charge_spec now id (CallRecordConfirmed signature) l).2 m m'.
Proof. exact (run_record_confirmed_loop now id signature l m 63). Qed.

Lemma run_fmap now {A B} (f : A -> B) (p : prog (storeE Value) A) m :
  store_run now (f <$> p) m = let '(a, m') := store_run now p m in (f a, m').
Proof. unfold fmap, prog_fmap. by rewrite run_pbind_store. Qed.

(** The settling operations meet the specification. *)
Lemma run_settle_call now id c l m g (guard : nat -> ChargeRecord -> bool)
    (write : ChargeRecord -> prog (storeE Value) ChargeRecord) next
    (p : prog (storeE Value) (result bool StoreError)) :
  chain id l m ->
  p = (await? (latest, record) := tip_or_missing id in
       if guard latest record then await w := write record in append id (S g) w
       else Ret (Ok false)) ->
  (forall r m, store_run now (write r) m = (next r, m)) ->
  (forall latest r, guard latest r = true -> latest = g) ->
  match c with CallReserve _ _ => False | _ => True end ->
  (forall n r, charge_spec_at now id c n r =
     if guard (pred n) r then (ReplyApplied (Ok true), Some (next r))
     else (ReplyApplied (Ok false), None)) ->
  exists m', store_run now (ReplyApplied <$> p) m = ((charge_spec now id c l).1, m') /\
    appended id l (charge_spec now id c l).2 m m'.
Proof.
  intros Hc -> Hw Hg Hnot Hspec.
  destruct (run_settle now id l m guard g write next Hc Hw Hg) as (m' & Hrun & Ha).
  exists m'. rewrite run_fmap, Hrun. unfold charge_spec.
  destruct (last l) as [r|]; [|by destruct c].
  case_decide; [|by destruct c]. rewrite Hspec. by destruct (guard _ r).
Qed.

Ltac at_generation :=
  intros; unfold pending_at in *; repeat case_bool_decide; simpl in *; naive_solver.

Lemma run_charge now id c l m :
  chain id l m ->
  exists m', store_run now (charge_prog (id, c)) m = ((charge_spec now id c l).1, m') /\
    appended id l (charge_spec now id c l).2 m m'.
Proof.
  intros Hc. unfold charge_prog. cbn [fst snd].
  destruct c as [digest lease|g sig|sig|g sig|g sig|g sig|g reason].
  - edestruct (run_reserve now id digest lease) as (m' & Hr & Hm & Ha); [done|]. exists m'.
    rewrite run_fmap. destruct (store_run _ (reserve _ _ _) _) as [a m1]. simpl in Hr, Hm.
    subst. split; [f_equal; exact Hr|done].
  - apply (run_settle_call now id _ l m g
      (fun latest record => bool_decide (latest = g) &&
         match state record with
         | StateReserved => true
         | StatePending => bool_decide (final_signature record = Some sig)
         | StateConfirmed | StateFailed => false
         end)
      (fun r => terminal r StateConfirmed (Some sig) None)
      (fun r => settled_record r StateConfirmed (Some sig) None now));
      [done|done|done|at_generation|done|].
    intros n r. unfold charge_spec_at. destruct (state r); at_generation.
  - destruct (run_record_confirmed now id sig l m Hc) as (m' & Hr & Hm & Ha).
    exists m'. rewrite run_fmap.
    destruct (store_run now (record_confirmed id sig) m) as [a m1]. simpl in Hr, Hm.
    subst. split; [f_equal; exact Hr|done].
  - apply (run_settle_call now id _ l m g (fun latest r => pending_at latest g r sig)
      (fun r => await now := perform NowUnix in Ret (released_record r now))
      (fun r => released_record r now)); [done|done|done|at_generation|done|done].
  - apply (run_settle_call now id _ l m g (fun latest r => pending_at latest g r sig)
      (fun r => terminal r StateConfirmed (Some sig) None)
      (fun r => settled_record r StateConfirmed (Some sig) None now));
      [done|done|done|at_generation|done|done].
  - apply (run_settle_call now id _ l m g (fun latest r => bool_decide (latest = g) &&
        bool_decide (state r = StateReserved))
      (fun r => terminal r StatePending (Some sig) None)
      (fun r => settled_record r StatePending (Some sig) None now));
      [done|done|done|at_generation|done|done].
  - apply (run_settle_call now id _ l m g (fun latest r => bool_decide (latest = g) &&
        bool_decide (state r = StateReserved \/ state r = StatePending))
      (fun r => terminal r StateFailed None (Some reason))
      (fun r => settled_record r StateFailed None (Some reason) now));
      [done|done|done|at_generation|done|done].
Qed.
End refinement.

(** * Histories *)
Section histories.
Implicit Types (l : list ChargeRecord) (r : ChargeRecord).

Lemma transitions_snoc r l r1 r' :
  transitions r l = true -> last (r :: l) = Some r1 -> charge_next r1 r' = true ->
  transitions r (l ++ [r']) = true.
Proof.
  revert r. induction l as [|r2 l IH]; intros r; simpl.
  - intros _ [= <-] ->. done.
  - rewrite andb_true_iff. intros [-> Ht] Hl Hn. simpl. by apply IH.
Qed.

Lemma history_snoc id digest l r r' :
  history id digest l = true -> last l = Some r ->
  charge_next r r' = true -> record_ok id digest r' = true ->
  history id digest (l ++ [r']) = true.
Proof.
  destruct l as [|r0 l]; [done|]. cbn [history app].
  rewrite !andb_true_iff. intros [[Hs Ht] Hf] Hl Hn Hok.
  change (r0 :: l ++ [r']) with ((r0 :: l) ++ [r']).
  rewrite forallb_app, andb_true_iff. split_and!; [done| |done|by simpl; rewrite Hok].
  by eapply transitions_snoc.
Qed.

Lemma history_last id digest l r :
  history id digest l = true -> last l = Some r -> record_ok id digest r = true.
Proof.
  destruct l as [|r0 l]; [done|]. cbn [history]. rewrite !andb_true_iff, forallb_forall.
  intros [_ Hf] Hl. apply Hf. rewrite <-list_elem_of_In. by apply last_Some_elem_of.
Qed.

(** Every record a call appends is a legal transition. *)
Lemma charge_spec_next now id digest c n r r' :
  record_ok id digest r = true -> (charge_spec_at now id c n r).2 = Some r' ->
  charge_next r r' = true /\ record_ok id digest r' = true.
Proof.
  unfold record_ok. rewrite !andb_true_iff, !bool_decide_eq_true. intros [[Hid Hd] _] Hc.
  unfold charge_next, record_ok. destruct c; unfold charge_spec_at, pending_at in Hc; simpl in Hc;
    repeat case_match; simplify_eq/=; unfold settled_record, released_record, fresh_record; simpl;
    repeat match goal with H : _ && _ = true |- _ => apply andb_prop in H as [? ?] end;
    repeat match goal with H : bool_decide _ = true |- _ => apply bool_decide_eq_true in H end;
    rewrite ?bool_decide_true by done; simpl; try done; try congruence.
  all: try (split; [|done]; try (apply Z.leb_le; lia); naive_solver congruence).
Qed.

Lemma charge_spec_history now id digest c l :
  history id digest l = true ->
  (l = [] -> match c with CallReserve d _ => d = digest | _ => True end) ->
  history id digest (l ++ option_list (charge_spec now id c l).2) = true.
Proof.
  intros Hh Hfirst. unfold charge_spec. destruct (last l) as [r|] eqn:Hl.
  - case_decide; [|by rewrite app_nil_r].
    destruct (charge_spec_at now id c (length l) r).2 as [r'|] eqn:Hs; [|by rewrite app_nil_r].
    apply charge_spec_next with (digest := digest) in Hs as [Hn Hok];
      [|by eapply history_last]. by eapply history_snoc.
  - apply last_None in Hl as ->. destruct c as [d lease| | | | | |]; try done.
    specialize (Hfirst eq_refl) as ->. simpl. unfold record_ok. simpl.
    by rewrite !bool_decide_true.
Qed.
End histories.

Section ledger.
Context {Value : Type} `{SerdeJson Value, !Serde Value ChargeRecord,
  !SerdeLaws Value ChargeRecord}.
Implicit Types (m : gmap string Value) (l : list ChargeRecord).

(** C39. Called one at a time, the ledger is the list of records it stands
    for: every operation answers what the specification says for the list,
    appends the record it says (at most one), and writes nothing else. The
    list stays a legal history of one challenge and one digest. *)
Theorem charge_refines now id digest c l m :
  chain id l m -> history id digest l = true ->
  (l = [] -> match c with CallReserve d _ => d = digest | _ => True end) ->
  exists m', store_run now (charge_prog (id, c)) m = ((charge_spec now id c l).1, m') /\
    chain id (l ++ option_list (charge_spec now id c l).2) m' /\
    history id digest (l ++ option_list (charge_spec now id c l).2) = true /\
    forall k, (forall g, k <> charge_record_key id g) -> m' !! k = m !! k.
Proof.
  intros Hc Hh Hfirst. destruct (run_charge now id c l m Hc) as (m' & Hr & Ha).
  exists m'. split_and!; [done|by eapply appended_chain|by apply charge_spec_history|].
  intros k Hk. destruct (charge_spec now id c l).2 as [r|]; simpl in Ha; [|by subst].
  destruct Ha as (v & _ & ->). rewrite lookup_insert_ne; [done|]. intros Heq. by eapply Hk.
Qed.

(** A record that lost its root while a later generation survives is
    never reserved again: [reserve] refuses and writes nothing. *)
Theorem reserve_orphaned now id digest lease m v r :
  m !! charge_record_key id 0 = None ->
  m !! charge_record_key id 1 = Some v -> from_value v = Ok r ->
  store_run now (reserve id digest lease) m = (Err (err_orphaned id), m).
Proof.
  intros H0 H1 Hv. unfold reserve. rewrite run_pbind_store, run_now.
  unfold read, store_run. simpl. unfold faulty. simpl. rewrite H1. simpl. rewrite Hv. simpl.
  by rewrite H0.
Qed.
End ledger.

(** * A concrete codec of the records, and the witnesses *)
Module ChargeDemo.
Definition state_code (st : ChargeRecordState) : nat :=
  match st with
  | StateReserved => 0 | StateConfirmed => 1 | StateFailed => 2 | StatePending => 3
  end.
Definition code_state (n : nat) : ChargeRecordState :=
  match n with 0 => StateReserved | 1 => StateConfirmed | 2 => StateFailed | _ => StatePending end%nat.

#[global] Instance state_countable : Countable ChargeRecordState.
Proof. apply (inj_countable' state_code code_state). by intros []. Defined.

Definition to_tuple (r : ChargeRecord) :=
  (challenge_id r, normalized_request_digest r, final_signature r, failure_reason r,
   state r, updated_at r, expires_at r).
Definition of_tuple (t : string * string * option string * option string *
    ChargeRecordState * Z * Z) : ChargeRecord :=
  let '(a, b, c, d, e, f, g) := t in
  {| challenge_id := a; normalized_request_digest := b; final_signature := c;
     failure_reason := d; state := e; updated_at := f; expires_at := g |}.

#[global] Instance record_countable : Countable ChargeRecord.
Proof. apply (inj_countable' to_tuple of_tuple). by intros []. Defined.

#[global] Instance record_serde : Serde Demo.value ChargeRecord := Demo.serde.
#[global] Instance record_serde_laws : SerdeLaws Demo.value ChargeRecord.
Proof. apply Demo.serde_laws. Qed.

Definition start : gmap string Demo.value := ∅.
(** The store after the calls, made one after the other at time [now]. *)
Fixpoint after (now : Z) (calls : list charge_call) (m : gmap string Demo.value) :=
  match calls with
  | [] => m
  | c :: calls => after now calls (store_run now (charge_prog ("c", c)) m).2
  end.

(** A store where generation 1 outlived generation 0. *)
Definition orphaned : gmap string Demo.value :=
  delete (charge_record_key "c" 0)
    (after 5 [CallReserve "d" 120; CallMarkPending 0 "sig"] start).
Definition orphan : ChargeRecord :=
  settled_record (fresh_record "c" "d" 120 5) StatePending (Some "sig") None 5.
End ChargeDemo.

Lemma chain_empty {Value} `{SerdeJson Value, !Serde Value ChargeRecord} id :
  chain id [] (∅ : gmap string Value).
Proof. intros g. by rewrite lookup_empty. Qed.

Lemma charge_refines_witness :
  exists m', store_run 5 (charge_prog ("c", CallReserve "d" 120)) ChargeDemo.start =
    (ReplyReservation (Ok (Reserved 0)), m') /\
  chain "c" [fresh_record "c" "d" 120 5] m'.
Proof.
  destruct (charge_refines 5 "c" "d" (CallReserve "d" 120) [] ChargeDemo.start)
    as (m' & Hr & Hc & _).
  - apply chain_empty.
  - reflexivity.
  - reflexivity.
  - exists m'. split; [exact Hr|exact Hc].
Defined.

Lemma reserve_orphaned_witness :
  store_run 9 (reserve "c" "d" 120) ChargeDemo.orphaned = (Err (err_orphaned "c"), ChargeDemo.orphaned).
Proof.
  apply (reserve_orphaned 9 "c" "d" 120 ChargeDemo.orphaned
    (Demo.encode_value ChargeDemo.orphan) ChargeDemo.orphan); vm_compute; reflexivity.
Defined.

(** The bound on generations: a takeover of generation 63 is granted generation
    64, and from then on every call on the challenge is an error. *)
Lemma last_generation_unusable now id digest lease l r :
  length l = MAX_CHARGE_RECORD_GENERATIONS -> last l = Some r ->
  state r = StateReserved -> normalized_request_digest r = digest -> expires_at r <= now ->
  let fresh := fresh_record id digest lease now in
  charge_spec now id (CallReserve digest lease) l =
    (ReplyReservation (Ok (Reserved 64)), Some fresh) /\
  forall now' c, (charge_spec now' id c (l ++ [fresh])).1 =
    match c with
    | CallReserve _ _ => ReplyReservation (Err (err_generations id))
    | _ => ReplyApplied (Err (err_generations id))
    end.
Proof.
  intros Hlen Hlast Hs Hd He fresh. split.
  - unfold charge_spec. rewrite Hlast, Hlen, decide_True by done. unfold charge_spec_at.
    rewrite decide_True, Hs, decide_False by (done || lia). done.
  - intros now' c. unfold charge_spec. rewrite last_snoc, length_app, Hlen.
    rewrite decide_False by (unfold MAX_CHARGE_RECORD_GENERATIONS; simpl; lia). by destruct c.
Qed.
