(* ===== verification/ChargePool.v ===== *)
(** Interleaved callers of the charge replay ledger: any number of calls on any
    challenges, any interleaving of their store operations, any clock, store
    errors before or after an operation took effect. *)
From stdpp Require Import base numbers option list gmap strings.
From S2P Require Import Prelude Effects Json Store ChargeReplay.

(** * What a reply says about the history *)

(** [reply_says c reply] is what the reply of the call [c] claims about one
    generation of the challenge's history, if it claims something. *)
Definition reply_says (c : charge_call) (reply : charge_reply) :
    option (nat -> ChargeRecord -> Prop) :=
  match c, reply with
  | CallReserve digest _, ReplyReservation (Ok reservation) =>
      Some (fun n r =>
        match reservation with
        | Reserved g => n = g /\ state r = StateReserved /\ normalized_request_digest r = digest
        | AlreadyConfirmed s => state r = StateConfirmed /\ default "" (final_signature r) = s
        | AlreadyFailed reason => state r = StateFailed /\ default "" (failure_reason r) = reason
        | PendingConfirmation g s =>
            n = g /\ state r = StatePending /\ default "" (final_signature r) = s
        | InProgress => state r = StateReserved
        | Conflict => normalized_request_digest r <> digest
        end)
  | CallMarkConfirmed g s, ReplyApplied (Ok true) | CallConfirmPending g s, ReplyApplied (Ok true) =>
      Some (fun n r => n = S g /\ state r = StateConfirmed /\ final_signature r = Some s)
  | CallRecordConfirmed _, ReplyApplied (Ok b) =>
      Some (fun n r => state r = if b then StateConfirmed else StateFailed)
  | CallReleasePending g _, ReplyApplied (Ok true) =>
      Some (fun n r => n = S g /\ state r = StateReserved)
  | CallMarkPending g s, ReplyApplied (Ok true) =>
      Some (fun n r => n = S g /\ state r = StatePending /\ final_signature r = Some s)
  | CallMarkFailed g reason, ReplyApplied (Ok true) =>
      Some (fun n r => n = S g /\ state r = StateFailed /\ failure_reason r = Some reason)
  | _, _ => None
  end.

(** The transitions the settling operations write are legal. *)
Lemma settled_next id digest r st sig reason now :
  state r = StateReserved \/ state r = StatePending /\ st <> StatePending ->
  match st with
  | StateReserved => False
  | StateFailed => sig = None /\ is_Some reason
  | StateConfirmed | StatePending => is_Some sig
  end ->
  record_ok id digest r = true ->
  charge_next r (settled_record r st sig reason now) = true /\
  record_ok id digest (settled_record r st sig reason now) = true.
Proof.
  unfold record_ok, charge_next. rewrite !andb_true_iff, !bool_decide_eq_true. simpl.
  intros [->|[-> ?]] Hst [[Hid Hd] _]; destruct st; try done; split_and!; try done;
    try (apply bool_decide_true); destruct_and?; subst; try done.
Qed.

Lemma released_next id digest r now :
  state r = StatePending -> record_ok id digest r = true ->
  charge_next r (released_record r now) = true /\
  record_ok id digest (released_record r now) = true.
Proof.
  unfold record_ok, charge_next. rewrite !andb_true_iff, !bool_decide_eq_true. simpl.
  intros -> [[Hid Hd] _]. split_and!; try done; by apply bool_decide_true.
Qed.

Section pool.
#[local] Opaque charge_record_key MAX_CHARGE_RECORD_GENERATIONS.
Context {Value : Type} `{SerdeJson Value, !Serde Value ChargeRecord,
  !SerdeLaws Value ChargeRecord}.
Implicit Types (m : gmap string Value) (l : list ChargeRecord).

Context (id digest : string) (l0 : list ChargeRecord).

Definition in_scope (k : string) : Prop := exists n, k = charge_record_key id n.
Definition extends_history m : Prop :=
  exists l, l0 `prefix_of` l /\ chain id l m /\ history id digest l = true.

Abbreviation certified_charge :=
  (certified (justified in_scope extends_history) (learn (Value:=Value) in_scope)).
Implicit Types (g : knowledge (Value:=Value)).

Definition knows_record g (i : string) (n : nat) (r : ChargeRecord) : Prop :=
  exists v, known g (charge_record_key i n) v /\ from_value v = Ok r.

Lemma knows_record_mono g g' i n r :
  extends g g' -> knows_record g i n r -> knows_record g' i n r.
Proof. intros [Hk _] (v & ? & ?). exists v. auto. Qed.

(** A known record of [id] is a record of the history. *)
Lemma knows_record_lookup l m g n r :
  chain id l m -> agrees in_scope g m -> knows_record g id n r -> l !! n = Some r.
Proof.
  intros Hc Ha (v & Hk & Hv). specialize (Ha _ _ ltac:(by eexists) Hk).
  specialize (Hc n). rewrite Ha in Hc. destruct (l !! n) as [r'|]; [|done].
  apply from_to_value in Hc. congruence.
Qed.

(** ** The writes a task may make *)

(** The calls on one challenge, which is [id] or shares no key with it. *)
Section calls.
Context (i : string) (separate : i = id \/ forall n, ~ in_scope (charge_record_key i n)).

(** The root of [id] is known to be present. *)
Definition rooted g : Prop := i = id -> exists r, knows_record g id 0 r.

Lemma rooted_mono g g' : extends g g' -> rooted g -> rooted g'.
Proof. intros He Hr Hi. destruct (Hr Hi) as [r ?]. exists r. by eapply knows_record_mono. Qed.

(** A transition from a known record to [r]. *)
Definition may_append g (n : nat) (r : ChargeRecord) : Prop :=
  i = id -> exists r0, knows_record g id n r0 /\
    (record_ok id digest r0 = true ->
     charge_next r0 r = true /\ record_ok id digest r = true).

Lemma may_append_mono g g' n r : extends g g' -> may_append g n r -> may_append g' n r.
Proof.
  intros He Hr Hi. destruct (Hr Hi) as (r0 & Hk & Hn). exists r0.
  split; [by eapply knows_record_mono|done].
Qed.

Lemma justified_harmless X g (e : storeE Value X) :
  (forall f m, (store_exec X f e m).2 = m) -> justified in_scope extends_history X g e.
Proof. intros He _ f m Hi _. rewrite He. split; [done|by intros ???]. Qed.

Lemma justified_get g k : justified in_scope extends_history _ g (Get k).
Proof. apply justified_harmless. intros [now [[e []]|]] m; done. Qed.

Lemma justified_now g : justified in_scope extends_history _ g NowUnix.
Proof. by apply justified_harmless. Qed.

(** A write to a key outside the scope. *)
Lemma extends_history_other m m' :
  (forall k, in_scope k -> m' !! k = m !! k) ->
  extends_history m -> extends_history m' /\ grows in_scope m m'.
Proof.
  intros Hm (l & ? & Hc & ?). split.
  - exists l. split_and!; [done| |done]. intros n. rewrite Hm by by eexists. apply Hc.
  - intros k v Hk. by rewrite Hm.
Qed.

Lemma in_scope_key n k : in_scope k -> i <> id -> charge_record_key i n <> k.
Proof. intros Hk Hi <-. by destruct separate as [|Hs]; [|eapply Hs]. Qed.

Lemma put_if_absent_cases f k v m :
  (store_exec _ f (PutIfAbsent k v) m).2 = m \/
  m !! k = None /\ (store_exec _ f (PutIfAbsent k v) m).2 = <[k := v]> m.
Proof.
  simpl. destruct (m !! k); unfold faulty; destruct f as [now [[e []]|]]; simpl; auto.
Qed.

Lemma justified_append g n r v :
  to_value r = Ok v -> may_append g n r ->
  justified in_scope extends_history _ g (PutIfAbsent (charge_record_key i (S n)) v).
Proof.
  intros Hv Hmay Hp f m Hi Ha.
  destruct (put_if_absent_cases f (charge_record_key i (S n)) v m) as [->|[Hnone ->]];
    [split; [done|by intros ???]|].
  destruct (decide (i = id)) as [Heq|Hne]; cycle 1.
  { apply extends_history_other; [|done]. intros k Hk.
    rewrite lookup_insert_ne; [done|]. by apply in_scope_key. }
  rewrite Heq in Hnone |- *. destruct (Hmay Heq) as (r0 & Hk & Hnext). destruct Hi as (l & Hl & Hc & Hh).
  pose proof (knows_record_lookup _ _ _ _ _ Hc Ha Hk) as Hr0.
  apply (chain_none id l m) in Hnone; [|done].
  pose proof (lookup_lt_Some _ _ _ Hr0). apply lookup_ge_None in Hnone.
  assert (Hlen : length l = S n) by lia.
  assert (Hlast : last l = Some r0) by (rewrite last_lookup, Hlen; done).
  split.
  - exists (l ++ [r]). destruct Hnext; [by eapply history_last|]. split_and!.
    + by apply prefix_app_r.
    + rewrite <-Hlen. by apply chain_insert.
    + by eapply history_snoc.
  - intros k v' [g' ->] Hk'. rewrite lookup_insert_ne; [done|].
    intros ?%charge_record_key_inj. subst g'. apply (lookup_ge_None_2 l (S n)) in Hnone.
    apply (chain_none id l m) in Hnone; [congruence|done].
Qed.

Lemma justified_root g v :
  rooted g -> justified in_scope extends_history _ g (PutIfAbsent (charge_record_key i 0) v).
Proof.
  intros Hroot Hp f m Hi Ha.
  destruct (put_if_absent_cases f (charge_record_key i 0) v m) as [->|[Hnone ->]];
    [split; [done|by intros ???]|].
  destruct (decide (i = id)) as [Heq|Hne]; cycle 1.
  { apply extends_history_other; [|done]. intros k Hk.
    rewrite lookup_insert_ne; [done|]. by apply in_scope_key. }
  rewrite Heq in Hnone. destruct (Hroot Heq) as (r & v' & Hk & _).
  specialize (Ha _ _ ltac:(by eexists) Hk). congruence.
Qed.

Lemma justified_delete g n :
  (i = id -> ~ possible g) ->
  justified in_scope extends_history _ g (Delete (charge_record_key i n)).
Proof.
  intros Hnot Hp f m Hi Ha. destruct (decide (i = id)) as [Heq|Hne]; [by destruct (Hnot Heq)|].
  apply extends_history_other; [|done]. intros k Hk.
  destruct f as [now [[e []]|]]; simpl; rewrite ?lookup_delete_ne; try done;
    by apply in_scope_key.
Qed.

(** ** Certificates of the operations *)

Definition read_fact g (n : nat) (o : result (option ChargeRecord) StoreError) : Prop :=
  match o with
  | Ok (Some r) => knows_record g i n r
  | Ok None => i = id -> possible g -> forall r, ~ knows_record g id n r
  | Err _ => True
  end.

Lemma certified_read {post : _ -> _ -> Prop} g n :
  (forall g' o, extends g g' -> read_fact g' n o -> post g' o) ->
  certified_charge post g (read i n).
Proof.
  intros Hpost. apply certified_ptry. split; [apply justified_get|].
  intros [[v|]|e]; simpl; apply Hpost; try done.
  - split; simpl; unfold also; tauto.
  - destruct (from_value v) as [r|] eqn:Hr; simpl; [|done].
    exists v. split; [simpl; unfold also; auto|done].
  - split; simpl; unfold absent; tauto.
  - intros Hi [Hp Hno] r (v & Hk & _). apply Hno. exists v. rewrite Hi. split; [by eexists|done].
Qed.

Definition tip_fact g (o : result (option (nat * ChargeRecord)) StoreError) : Prop :=
  match o with
  | Ok (Some (n, r)) => knows_record g i n r
  | Ok None => i = id -> possible g -> forall r, ~ knows_record g id 0 r
  | Err _ => True
  end.

Lemma certified_tip_loop {post : _ -> _ -> Prop} fuel g n r :
  knows_record g i n r ->
  (forall g' o, extends g g' -> tip_fact g' o -> post g' o) ->
  certified_charge post g (tip_loop i fuel n r).
Proof.
  revert g n r. induction fuel as [|fuel IH]; intros g n r Hk Hpost; cbn [tip_loop].
  { by apply Hpost. }
  apply certified_ptry, certified_read. intros g' [[next|]|e] He Hf; simpl; [|auto|auto].
  - case_decide; [by apply Hpost|]. apply IH; [done|]. intros g2 o He2. apply Hpost.
    by eapply extends_trans.
  - apply Hpost; [done|]. by eapply knows_record_mono.
Qed.

Lemma certified_tip {post : _ -> _ -> Prop} g :
  (forall g' o, extends g g' -> tip_fact g' o -> post g' o) ->
  certified_charge post g (tip i).
Proof.
  intros Hpost. apply certified_ptry, certified_read.
  intros g' [[r|]|e] He Hf; simpl; [|auto|auto].
  apply certified_tip_loop; [done|]. intros g2 o He2. apply Hpost.
  by eapply extends_trans.
Qed.

Lemma certified_append {post : _ -> _ -> Prop} g n r :
  may_append g n r ->
  (forall g' o, extends g g' -> (o = Ok true -> knows_record g' i (S n) r) -> post g' o) ->
  certified_charge post g (append i (S n) r).
Proof.
  intros Hmay Hpost. unfold append.
  destruct (to_value_total (Value:=Value) r) as [v Hv]. rewrite Hv.
  split; [by apply justified_append with (r := r)|]. intros o. apply Hpost.
  - apply extends_learn.
  - intros ->. exists v. split; [simpl; unfold also; auto|by apply from_to_value].
Qed.

(** The post-condition of a call: what the reply says is known. *)
Definition charge_post (c : charge_call) g (reply : charge_reply) : Prop :=
  i = id -> possible g ->
  match reply_says c reply with
  | Some says => exists n r, knows_record g id n r /\ says n r
  | None => True
  end.

Lemma certified_now {B} (post : _ -> B -> Prop) g f :
  (forall now, certified_charge post g (f now)) ->
  certified_charge post g (await now := perform NowUnix in f now).
Proof. intros Hf. split; [apply justified_now|]. exact Hf. Qed.

(** The settling operations: read the tip, then append a transition of it. *)
Lemma certified_settle (post : _ -> result bool StoreError -> Prop) g gen
    (guard : nat -> ChargeRecord -> bool) (next : ChargeRecord -> Z -> ChargeRecord) :
  (forall g' b, b <> Ok true -> post g' b) ->
  (forall r g' now, guard gen r = true -> (i = id -> knows_record g' id (S gen) (next r now)) ->
    post g' (Ok true)) ->
  (forall latest r, guard latest r = true -> latest = gen) ->
  (forall r now, guard gen r = true -> record_ok id digest r = true ->
    charge_next r (next r now) = true /\ record_ok id digest (next r now) = true) ->
  certified_charge post g
    (await? (latest, record) := tip_or_missing i in
     if guard latest record then
       await w := (await now := perform NowUnix in Ret (next record now)) in
       append i (S gen) w
     else Ret (Ok false)).
Proof.
  intros Hno Hyes Hgen Hnext. apply certified_ptry, certified_ptry, certified_tip.
  intros g' [[[latest r]|]|e] He Hf; cbn -[append]; [|by apply Hno..].
  destruct (guard latest r) eqn:Hg; [|by apply Hno].
  pose proof (Hgen _ _ Hg) as ->. apply certified_now. intros now. cbn -[append].
  apply certified_append.
  - intros Hi. exists r. simpl in Hf. rewrite Hi in Hf. split; [done|]. auto.
  - intros g2 [[|]|e] He2 Hk; [|by apply Hno..]. apply (Hyes r g2 now Hg). intros Hi.
    rewrite <-Hi. auto.
Qed.

Lemma certified_reserve_loop attempts digest' lease now g :
  rooted g ->
  certified_charge
    (fun g r => charge_post (CallReserve digest' lease) g (ReplyReservation r)) g
    (reserve_loop attempts i digest' now (fresh_record i digest' lease now)).
Proof.
  revert g. induction attempts as [|attempts IH]; intros g Hroot; cbn [reserve_loop]; [done|].
  apply certified_ptry, certified_tip. intros g' [[[n r]|]|e] He Hf; [|done..].
  simpl in Hf. assert (Hsay : forall says : nat -> ChargeRecord -> Prop, says n r ->
    i = id -> exists n r, knows_record g' id n r /\ says n r).
  { intros says Hsays <-. eauto. }
  case_decide as Hd; cycle 1.
  { intros Hi _. simpl. apply Hsay; done. }
  destruct (state r) eqn:Hs; cbn -[append reserve_loop]; try (intros Hi _; by apply Hsay).
  case_decide as Hexp; [intros Hi _; by apply Hsay|].
  apply certified_ptry, certified_append.
  - intros Hi. exists r. rewrite Hi in Hf |- *. split; [done|]. unfold record_ok, charge_next.
    rewrite !andb_true_iff, !bool_decide_eq_true, Hs. simpl. intros [[Hid Hdig] _].
    split_and!; try congruence. apply Z.leb_le. lia.
  - intros g2 [[|]|e] He2 Hk; cbn -[reserve_loop]; [|apply IH|done].
    + intros Hi _. simpl. exists (S n), (fresh_record i digest' lease now).
      rewrite <-Hi. split; [by apply Hk|done].
    + by eapply rooted_mono; [|eapply rooted_mono].
Qed.

Lemma certified_reserve digest' lease g :
  rooted g ->
  certified_charge
    (fun g r => charge_post (CallReserve digest' lease) g (ReplyReservation r)) g
    (reserve i digest' lease).
Proof.
  intros Hroot. unfold reserve. apply certified_now. intros now.
  apply certified_ptry, certified_read. intros g1 [next|e] He1 _; [|done].
  pose proof (rooted_mono _ _ He1 Hroot) as Hroot1. apply certified_ptry.
  assert (Hgo : forall g', rooted g' -> certified_charge
    (fun g r => charge_post (CallReserve digest' lease) g (ReplyReservation r)) g'
    (let fresh := fresh_record i digest' lease now in
     await? created := append i 0 fresh in
     if created : bool then
       await? next := read i 1 in
       match next with
       | Some _ => await? _ := perform (Delete (charge_record_key i 0)) in
                   Ret (Err (err_orphaned i))
       | None => Ret (Ok (Reserved 0))
       end
     else reserve_loop MAX_CHARGE_RECORD_GENERATIONS i digest' now fresh)).
  { clear g Hroot g1 He1 Hroot1 next. intros g Hroot. cbn zeta. unfold append at 1.
    destruct (to_value_total (Value:=Value) (fresh_record i digest' lease now)) as [v Hv].
    rewrite Hv. apply certified_ptry. split; [by apply justified_root|].
    intros [[|]|e]; cbn -[read reserve_loop];
      [|by apply certified_reserve_loop|done].
    assert (Hnot : i = id -> ~ possible (learn in_scope _ g
      (PutIfAbsent (charge_record_key i 0) v) (Ok true))).
    { intros Hi [_ Hno]. destruct (Hroot Hi) as (r & v' & Hk & _). apply Hno.
      exists v'. rewrite Hi. split; [by eexists|done]. }
    apply certified_ptry, certified_read. intros g2 [[r|]|e] He Hf; [| |done].
    - split; [|intros [|]; done]. apply justified_delete. intros Hi Hp.
      apply (Hnot Hi). by apply He.
    - intros Hi Hp. destruct (Hnot Hi). by apply He. }
  destruct next as [r1|]; [|by apply Hgo].
  apply certified_ptry, certified_read. intros g2 [root|e] He2 _; [|done].
  cbn -[append read reserve_loop]. case_bool_decide; [done|]. apply Hgo.
  by eapply rooted_mono.
Qed.

Lemma certified_record_confirmed_loop attempts sig g :
  certified_charge
    (fun g r => charge_post (CallRecordConfirmed sig) g (ReplyApplied r)) g
    (record_confirmed_loop attempts i sig).
Proof.
  revert g. induction attempts as [|attempts IH]; intros g; cbn [record_confirmed_loop];
    [done|].
  apply certified_ptry, certified_ptry, certified_tip.
  intros g' [[[n r]|]|e] He Hf; [|done..]. simpl in Hf. cbn -[append record_confirmed_loop].
  assert (Hstep : state r = StateReserved \/ state r = StatePending -> certified_charge
    (fun g r => charge_post (CallRecordConfirmed sig) g (ReplyApplied r)) g'
    (await confirmed := terminal r StateConfirmed (Some sig) None in
     await? won := append i (S n) confirmed in
     if won : bool then Ret (Ok true) else record_confirmed_loop attempts i sig)).
  { intros Hst. apply certified_now. intros now. cbn -[append record_confirmed_loop].
    apply certified_ptry, certified_append.
    - intros Hi. exists r. rewrite Hi in Hf. split; [done|]. apply settled_next; [|done].
      by destruct Hst; [left|right].
    - intros g2 [[|]|e] He2 Hk; [|apply IH|done]. intros Hi _. simpl.
      eexists _, _. rewrite <-Hi. split; [by apply Hk|done]. }
  destruct (state r) eqn:Hs; [by auto| | |by auto];
    intros Hi _; exists n, r; rewrite <-Hi; done.
Qed.

#[local] Ltac at_tip :=
  intros; unfold pending_at in *; repeat case_bool_decide; simpl in *; naive_solver.
#[local] Ltac legal :=
  intros r now; intros;
  match goal with
  | |- charge_next _ (released_record _ _) = _ /\ _ => apply released_next
  | _ => apply settled_next
  end; try done; unfold pending_at in *; destruct (state r) eqn:?;
  repeat case_bool_decide; naive_solver.

Lemma certified_call c g :
  rooted g -> certified_charge (charge_post c) g (charge_prog (i, c)).
Proof.
  intros Hroot. unfold charge_prog. cbn [fst snd].
  assert (Hno : forall g' b, b <> Ok true ->
    match c with
    | CallReserve _ _ | CallRecordConfirmed _ => True
    | _ => charge_post c g' (ReplyApplied b)
    end).
  { intros g' [[|]|] ?; by destruct c. }
  assert (Hsay : forall g' n r, (i = id -> knows_record g' id n r) ->
    match reply_says c (ReplyApplied (Ok true)) with Some says => says n r | None => True end ->
    charge_post c g' (ReplyApplied (Ok true))).
  { intros g' n r Hk Hs Hi _. destruct (reply_says c _); [|done]. eauto. }
  destruct c as [d lease|gen sig|sig|gen sig|gen sig|gen sig|gen reason];
    apply certified_pbind; cbn [certified].
  - by apply certified_reserve.
  - apply (certified_settle _ g gen (fun latest record => bool_decide (latest = gen) &&
       match state record with
       | StateReserved => true
       | StatePending => bool_decide (final_signature record = Some sig)
       | StateConfirmed | StateFailed => false
       end)
       (fun r now => settled_record r StateConfirmed (Some sig) None now));
      [done| |at_tip|].
    + intros r g' now _ Hk. by eapply Hsay.
    + legal.
  - by apply certified_record_confirmed_loop.
  - apply (certified_settle _ g gen (fun latest r => pending_at latest gen r sig)
       released_record); [done| |at_tip|].
    + intros r g' now _ Hk. by eapply Hsay.
    + legal.
  - apply (certified_settle _ g gen (fun latest r => pending_at latest gen r sig)
       (fun r now => settled_record r StateConfirmed (Some sig) None now));
      [done| |at_tip|].
    + intros r g' now _ Hk. by eapply Hsay.
    + legal.
  - apply (certified_settle _ g gen (fun latest r => bool_decide (latest = gen) &&
        bool_decide (state r = StateReserved))
       (fun r now => settled_record r StatePending (Some sig) None now));
      [done| |at_tip|].
    + intros r g' now _ Hk. by eapply Hsay.
    + legal.
  - apply (certified_settle _ g gen (fun latest r => bool_decide (latest = gen) &&
        bool_decide (state r = StateReserved \/ state r = StatePending))
       (fun r now => settled_record r StateFailed None (Some reason) now));
      [done| |at_tip|].
    + intros r g' now _ Hk. by eapply Hsay.
    + legal.
Qed.
End calls.
End pool.

(** * Who created a generation *)

(** The call reports that it created the generation [g] of [id]. *)
Definition creates (id : string) (g : nat) (t : string * charge_call) (reply : charge_reply) :
    bool :=
  bool_decide (t.1 = id) &&
  match t.2, reply with
  | CallReserve _ _, ReplyReservation (Ok (Reserved n)) => bool_decide (n = g)
  | (CallMarkConfirmed n _ | CallReleasePending n _ | CallConfirmPending n _
     | CallMarkPending n _ | CallMarkFailed n _), ReplyApplied (Ok true) => bool_decide (S n = g)
  | _, _ => false
  end.

Section creation.
#[local] Opaque charge_record_key MAX_CHARGE_RECORD_GENERATIONS.
Context {Value : Type} `{SerdeJson Value, !Serde Value ChargeRecord}.
Implicit Types (m : gmap string Value) (calls : list (string * charge_call)).
Context (id : string) (gen : nat).
Abbreviation key := (charge_record_key id gen).
Abbreviation funded_at post t b p :=
  (certified (may_perform (E:=storeE Value) (T:=string * charge_call) (fun _ _ => True))
    (earn (key_gain key taken)) post (t, b) p).

(** What creating the generation [n] of [i] is worth. *)
Definition creation (i : string) (n : nat) : Z :=
  if decide (charge_record_key i n = key) then 1 else 0.

Lemma creation_range i n : 0 <= creation i n <= 1.
Proof. unfold creation. case_decide; lia. Qed.

Lemma funded_free {X B} (post : _ -> B -> Prop) t b (e : storeE Value X) k :
  (forall r, key_gain key taken X e r = 0) -> 0 <= b ->
  (forall x, funded_at post t b (k x)) -> funded_at post t b (Vis e k).
Proof.
  intros Hg Hb Hk. split; [by split|]. intros x. unfold earn. simpl. rewrite Hg, Z.add_0_r.
  apply Hk.
Qed.

Lemma funded_read (post : _ -> _ -> Prop) t b i n :
  0 <= b -> (forall o, post (t, b) o) -> funded_at post t b (read i n).
Proof.
  intros Hb Hp. apply certified_ptry, funded_free; [done|done|]. intros [[v|]|e]; apply Hp.
Qed.

Lemma funded_tip_loop (post : _ -> _ -> Prop) t b i fuel n r :
  0 <= b -> (forall o, post (t, b) o) -> funded_at post t b (tip_loop i fuel n r).
Proof.
  intros Hb Hp. revert n r. induction fuel as [|fuel IH]; intros n r; cbn [tip_loop];
    [apply Hp|].
  apply certified_ptry, funded_read; [done|]. intros [[next|]|e]; [|apply Hp..].
  case_decide; [apply Hp|apply IH].
Qed.

Lemma funded_tip (post : _ -> _ -> Prop) t b i :
  0 <= b -> (forall o, post (t, b) o) -> funded_at post t b (tip i).
Proof.
  intros Hb Hp. apply certified_ptry, funded_read; [done|]. intros [[r|]|e]; [|apply Hp..].
  by apply funded_tip_loop.
Qed.

Lemma funded_append (post : _ -> _ -> Prop) t b i n r :
  0 <= b -> (forall o, o <> Ok true -> post (t, b) o) -> post (t, b + creation i n) (Ok true) ->
  funded_at post t b (append i n r).
Proof.
  intros Hb Hno Hyes. unfold append.
  destruct (rmap_err Serialization (to_value r)) as [v|e]; [|by apply Hno].
  split; [by split|]. intros o. unfold earn. cbn -[charge_record_key write_gain].
  unfold creation, write_gain in *.
  destruct o as [[|]|e]; case_decide; simpl; rewrite ?Z.add_0_r in *; auto; by apply Hno.
Qed.

Lemma funded_now {B} (post : _ -> B -> Prop) t b f :
  0 <= b -> (forall now, funded_at post t b (f now)) ->
  funded_at post t b (await now := perform NowUnix in f now).
Proof. intros Hb Hf. by apply funded_free. Qed.

Lemma funded_settle (post : _ -> result bool StoreError -> Prop) t b i n
    (guard : nat -> ChargeRecord -> bool) (next : ChargeRecord -> Z -> ChargeRecord) :
  0 <= b -> (forall o, o <> Ok true -> post (t, b) o) ->
  post (t, b + creation i (S n)) (Ok true) ->
  funded_at post t b
    (await? (latest, record) := tip_or_missing i in
     if guard latest record then
       await w := (await now := perform NowUnix in Ret (next record now)) in
       append i (S n) w
     else Ret (Ok false)).
Proof.
  intros Hb Hno Hyes. apply certified_ptry, certified_ptry, funded_tip; [done|].
  intros [[[latest r]|]|e]; cbn -[append]; [|by apply Hno..].
  destruct (guard latest r); [|by apply Hno].
  apply funded_now; [done|]. intros now. by apply funded_append.
Qed.

Lemma funded_reserve_loop (post : _ -> _ -> Prop) t i digest now fresh attempts :
  (forall b o, 0 <= b -> match o with Ok (Reserved _) => False | _ => True end -> post (t, b) o) ->
  (forall n, post (t, creation i n) (Ok (Reserved n))) ->
  funded_at post t 0 (reserve_loop attempts i digest now fresh).
Proof.
  intros Hno Hyes. induction attempts as [|attempts IH]; cbn [reserve_loop]; [by apply Hno|].
  apply certified_ptry, funded_tip; [done|].
  intros [[[n r]|]|e]; cbn -[append reserve_loop]; [|by apply Hno..].
  case_decide; [|by apply Hno].
  destruct (state r); cbn -[append reserve_loop]; try by apply Hno.
  case_decide; [by apply Hno|]. apply certified_ptry, funded_append; [done| |].
  - intros [[|]|e] ?; cbn -[reserve_loop]; [done|done|by apply Hno].
  - rewrite Z.add_0_l. apply Hyes.
Qed.

Lemma funded_reserve (post : _ -> _ -> Prop) t i digest lease :
  (forall b o, 0 <= b -> match o with Ok (Reserved _) => False | _ => True end -> post (t, b) o) ->
  (forall n, post (t, creation i n) (Ok (Reserved n))) ->
  funded_at post t 0 (reserve i digest lease).
Proof.
  intros Hno Hyes. apply funded_now; [done|]. intros now.
  apply certified_ptry, funded_read; [done|]. intros [next|e]; [|by apply Hno].
  apply certified_ptry.
  assert (Hgo : forall lost, funded_at post t 0
    (if lost : bool then Ret (Err (err_orphaned i)) else
     await? created := append i 0 (fresh_record i digest lease now) in
     if created : bool then
       await? next := read i 1 in
       match next with
       | Some _ => await? _ := perform (Delete (charge_record_key i 0)) in
                   Ret (Err (err_orphaned i))
       | None => Ret (Ok (Reserved 0))
       end
     else reserve_loop MAX_CHARGE_RECORD_GENERATIONS i digest now
            (fresh_record i digest lease now))).
  { intros [|]; [by apply Hno|]. apply certified_ptry, funded_append; [done| |].
    - intros [[|]|e] ?; cbn -[reserve_loop]; [done|by apply funded_reserve_loop|by apply Hno].
    - pose proof (creation_range i 0). rewrite Z.add_0_l.
      apply certified_ptry, funded_read; [lia|]. intros [[r|]|e]; cbn -[charge_record_key].
      + split; [split; [simpl; lia|done]|]. intros o. unfold earn. cbn [key_gain snd fst].
        replace (if decide _ then _ else 0) with (- creation i 0)
          by (unfold creation; case_decide; done).
        rewrite Z.add_opp_diag_r. destruct o; by apply Hno.
      + apply Hyes.
      + apply Hno; [lia|done]. }
  destruct next as [r1|]; [|apply (Hgo false)].
  apply certified_ptry, funded_read; [done|]. intros [root|e]; [apply Hgo|by apply Hno].
Qed.

Lemma funded_record_confirmed_loop (post : _ -> result bool StoreError -> Prop) t i sig attempts :
  (forall b o, 0 <= b -> post (t, b) o) ->
  funded_at post t 0 (record_confirmed_loop attempts i sig).
Proof.
  intros Hp. induction attempts as [|attempts IH]; cbn [record_confirmed_loop]; [by apply Hp|].
  apply certified_ptry, certified_ptry, funded_tip; [done|].
  intros [[[n r]|]|e]; cbn -[append record_confirmed_loop]; [|by apply Hp..].
  assert (Hstep : funded_at post t 0
    (await confirmed := terminal r StateConfirmed (Some sig) None in
     await? won := append i (S n) confirmed in
     if won : bool then Ret (Ok true) else record_confirmed_loop attempts i sig)).
  { apply funded_now; [done|]. intros now. cbn -[append record_confirmed_loop].
    apply certified_ptry, funded_append; [done| |].
    - intros [[|]|e] ?; cbn -[record_confirmed_loop]; [done|done|by apply Hp].
    - pose proof (creation_range i (S n)). apply Hp. lia. }
  destruct (state r); [done|by apply Hp..|done].
Qed.

#[local] Ltac creation_reported :=
  intros [[|]|]; unfold creates; simpl; repeat case_bool_decide; naive_solver.

Lemma funded_call t :
  funded (E:=storeE Value) (fun _ _ => True) (key_gain key taken) charge_prog (fun _ => 0)
    (creates id gen) t.
Proof.
  destruct t as [i c]. unfold funded, charge_prog. cbn [fst snd].
  assert (Hzero : forall b o, 0 <= b -> creates id gen (i, c) o = false ->
    solvent (creates id gen) ((i, c), b) o).
  { intros b o Hb Ho. unfold solvent. simpl. by rewrite Ho. }
  assert (Hone : forall n o, (creates id gen (i, c) o = true -> i = id /\ n = gen) ->
    solvent (creates id gen) ((i, c), creation i n) o).
  { intros n o Ho. unfold solvent, creation. simpl.
    destruct (creates id gen (i, c) o); [|case_decide; lia].
    destruct Ho as [-> ->]; [done|]. by rewrite decide_True. }
  assert (Hsettle : forall n guard next,
    (forall r, creates id gen (i, c) (ReplyApplied r) = true ->
       r = Ok true /\ i = id /\ S n = gen) ->
    funded_at (fun g r => solvent (creates id gen) g (ReplyApplied r)) (i, c) 0
      (await? (latest, record) := tip_or_missing i in
       if guard latest record : bool then
         await w := (await now := perform NowUnix in Ret (next record now)) in
         append i (S n) w
       else Ret (Ok false))).
  { intros n guard next Hc. apply funded_settle; [done| |].
    - intros o Ho. apply Hzero; [done|]. apply not_true_is_false. by intros [? _]%Hc.
    - rewrite Z.add_0_l. apply Hone. by intros [_ ?]%Hc. }
  destruct c as [d lease|n sig|sig|n sig|n sig|n sig|n reason]; apply certified_pbind;
    cbn [certified].
  - apply funded_reserve.
    + intros b o Hb Ho. apply Hzero; [done|]. unfold creates. simpl.
      destruct o as [[]|]; by rewrite ?andb_false_r.
    + intros n. apply Hone. unfold creates. simpl. repeat case_bool_decide; naive_solver.
  - apply (Hsettle n (fun latest record => bool_decide (latest = n) &&
         match state record with
         | StateReserved => true
         | StatePending => bool_decide (final_signature record = Some sig)
         | StateConfirmed | StateFailed => false
         end)
         (fun r now => settled_record r StateConfirmed (Some sig) None now)). creation_reported.
  - apply funded_record_confirmed_loop. intros b o Hb. apply Hzero; [done|].
    unfold creates. simpl. by rewrite andb_false_r.
  - apply (Hsettle n (fun latest r => pending_at latest n r sig) released_record).
    creation_reported.
  - apply (Hsettle n (fun latest r => pending_at latest n r sig)
         (fun r now => settled_record r StateConfirmed (Some sig) None now)). creation_reported.
  - apply (Hsettle n (fun latest r => bool_decide (latest = n) &&
          bool_decide (state r = StateReserved))
         (fun r now => settled_record r StatePending (Some sig) None now)). creation_reported.
  - apply (Hsettle n (fun latest r => bool_decide (latest = n) &&
          bool_decide (state r = StateReserved \/ state r = StatePending))
         (fun r now => settled_record r StateFailed None (Some reason) now)). creation_reported.
Qed.
End creation.

(** * The theorems *)
Section theorems.
#[local] Opaque charge_record_key MAX_CHARGE_RECORD_GENERATIONS.
Context {Value : Type} `{SerdeJson Value, !Serde Value ChargeRecord,
  !SerdeLaws Value ChargeRecord}.
Implicit Types (m : gmap string Value) (l : list ChargeRecord)
  (calls : list (string * charge_call)).

Abbreviation charges_run calls m ps m' :=
  (rtc (pool_step (A:=charge_reply) store_exec) (charge_prog <$> calls, m) (ps, m')).

(** What the run of a pool leaves: a longer history, in which every reply's
    claim about [id] holds. *)
Lemma pool_history id digest l m calls ps m' :
  chain id l m -> history id digest l = true -> l <> [] ->
  Forall (fun t => no_colon t.1 = true) calls -> no_colon id = true ->
  charges_run calls m ps m' ->
  exists l', l `prefix_of` l' /\ chain id l' m' /\ history id digest l' = true /\
    forall i c reply, calls !! i = Some (id, c) -> ps !! i = Some (Ret reply) ->
      match reply_says c reply with
      | Some says => exists n r, l' !! n = Some r /\ says n r
      | None => True
      end.
Proof.
  intros Hc Hh Hne Hcolon Hid Hr.
  set (g0 := {| known := fun k v => m !! k = Some v; possible := True |}).
  assert (Hroot : forall i, rooted id i g0).
  { intros i ->. destruct l as [|r l]; [done|]. exists r.
    destruct (chain_some id (r :: l) m 0 r Hc eq_refl) as (v & Hm & Hv).
    exists v. split; [exact Hm|by apply from_to_value]. }
  assert (Hcert : Forall (fun c => certified (justified (in_scope id)
    (extends_history id digest l)) (learn (in_scope id)) (charge_post id c.1 c.2) g0
    (charge_prog c)) calls).
  { eapply Forall_impl; [exact Hcolon|]. intros [i c] Hi. simpl in Hi.
    apply certified_call; [|apply Hroot].
    destruct (decide (i = id)) as [->|Hne']; [by left|right].
    intros n [n' Hn]. by apply charge_record_key_id in Hn. }
  destruct (knowledge_pool (A:=charge_reply) (in_scope id) (extends_history id digest l)
    (fun i g reply => match calls !! i with
                      | Some c => charge_post id c.1 c.2 g reply | None => True end)
    (replicate (length calls) g0) (charge_prog <$> calls) m ps m')
    as ((l' & Hpre & Hc' & Hh') & _ & gs & Hgs & Hlen & Hpost); [done| | | |].
  - split; [by rewrite length_replicate, length_fmap|].
    intros i g p [-> _]%lookup_replicate Hp.
    rewrite list_lookup_fmap, fmap_Some in Hp. destruct Hp as (c & Hi & ->). rewrite Hi.
    rewrite Forall_lookup in Hcert. by eapply Hcert.
  - by exists l.
  - apply Forall_replicate. split; [done|]. by intros k v _.
  - exists l'. split_and!; [done..|]. intros i c reply Hi Hp.
    destruct (lookup_lt_is_Some_2 gs i) as [g Hg]; [rewrite Hlen; by eapply lookup_lt_Some|].
    pose proof (Hpost i g _ Hg Hp) as Hsay. rewrite Hi in Hsay.
    rewrite Forall_lookup in Hgs. destruct (Hgs _ _ Hg) as [Hposs Ha].
    specialize (Hsay eq_refl Hposs). cbn [fst snd] in Hsay.
    destruct (reply_says c reply); [|done]. destruct Hsay as (n & r & Hk & Hs).
    exists n, r. split; [|done]. by eapply knows_record_lookup.
Qed.

(** Under any interleaving of calls, clocks and store errors, a reserved
    challenge's history only grows, by legal transitions of its one digest;
    and what each call reported about the challenge is in that history. *)
Theorem charge_history id digest l m calls ps m' :
  chain id l m -> history id digest l = true -> l <> [] ->
  Forall (fun t => no_colon t.1 = true) calls -> no_colon id = true ->
  charges_run calls m ps m' ->
  exists l', l `prefix_of` l' /\ chain id l' m' /\ history id digest l' = true /\
    forall i c reply, calls !! i = Some (id, c) -> ps !! i = Some (Ret reply) ->
      match reply_says c reply with
      | Some says => exists n r, l' !! n = Some r /\ says n r
      | None => True
      end.
Proof. apply pool_history. Qed.

(** Each generation has one creator: of all the calls of a pool, whatever
    the interleaving and the store errors, at most one reports that it created
    the generation, by reserving it or by settling the one before; none does if
    it was there at the start. *)
Theorem one_creator id g m calls ps m' :
  charges_run calls m ps m' ->
  count_winners (creates id g) calls ps <= 1 - taken (m !! charge_record_key id g).
Proof.
  intros Hr. pose proof (pool_winners store_exec (fun _ _ => True)
    (key_gain (charge_record_key id g) taken) (key_potential (charge_record_key id g) taken)
    (key_gain_sound _ _ taken_range) charge_prog (fun _ => 0) (creates id g)
    _ _ _ _ Hr ltac:(apply Forall_true, funded_call)) as Hw.
  pose proof (taken_range (m' !! charge_record_key id g)). unfold key_potential in Hw.
  assert (zsum ((fun _ => 0) <$> calls) = 0) by (clear; induction calls; csimpl; lia). lia.
Qed.

(** ** The outcome of a challenge *)

(** The outcome a reply reports: the signature that settled the challenge, or
    the reason it failed. *)
Definition outcome (c : charge_call) (reply : charge_reply) : option (string + string) :=
  match c, reply with
  | CallReserve _ _, ReplyReservation (Ok (AlreadyConfirmed s)) => Some (inl s)
  | CallReserve _ _, ReplyReservation (Ok (AlreadyFailed reason)) => Some (inr reason)
  | (CallMarkConfirmed _ s | CallConfirmPending _ s), ReplyApplied (Ok true) => Some (inl s)
  | CallMarkFailed _ reason, ReplyApplied (Ok true) => Some (inr reason)
  | _, _ => None
  end.

Lemma transitions_terminal r l n :
  transitions r l = true -> (state r = StateConfirmed \/ state r = StateFailed) ->
  l !! n = None.
Proof.
  intros Ht Hr. destruct l as [|r' l]; [done|]. simpl in Ht. apply andb_prop in Ht as [Hn _].
  unfold charge_next in Hn. destruct Hr as [Hr|Hr]; rewrite Hr in Hn;
    by rewrite andb_false_r in Hn.
Qed.

(** A terminal record is the last of its history. *)
Lemma terminal_last id digest l n r :
  history id digest l = true -> l !! n = Some r ->
  (state r = StateConfirmed \/ state r = StateFailed) -> S n = length l.
Proof.
  destruct l as [|r0 l]; [done|]. cbn [history]. rewrite !andb_true_iff.
  intros [[_ Ht] _]. revert n r0 Ht. induction l as [|r1 l IH]; intros n r0 Ht Hn Hr.
  - destruct n; [done|]. by destruct n.
  - destruct n as [|n]; simpl in Hn.
    + simplify_eq. by apply (transitions_terminal _ _ 0) in Ht.
    + simpl in Ht. apply andb_prop in Ht as [_ Ht]. simpl. f_equal. by eapply IH.
Qed.

Definition record_outcome (r : ChargeRecord) : option (string + string) :=
  match state r with
  | StateConfirmed => Some (inl (default "" (final_signature r)))
  | StateFailed => Some (inr (default "" (failure_reason r)))
  | _ => None
  end.

Lemma outcome_says c reply o :
  outcome c reply = Some o ->
  exists says, reply_says c reply = Some says /\
    forall n r, says n r -> record_outcome r = Some o.
Proof.
  unfold record_outcome. destruct c, reply as [[[]|]|[[]|]]; simpl; intros; simplify_eq;
    eexists; (split; [reflexivity|]); simpl; intros n r; intros; destruct_and?;
    repeat match goal with H : _ = _ |- _ => rewrite H end; simpl; congruence.
Qed.

(** C23. A reserved challenge has one outcome: whatever the interleaving, all
    the calls that report an outcome, by recording it or by reading it, report
    the same one. *)
Theorem one_outcome id digest l m calls ps m' i j ci cj ri rj oi oj :
  chain id l m -> history id digest l = true -> l <> [] ->
  Forall (fun t => no_colon t.1 = true) calls -> no_colon id = true ->
  charges_run calls m ps m' ->
  calls !! i = Some (id, ci) -> ps !! i = Some (Ret ri) -> outcome ci ri = Some oi ->
  calls !! j = Some (id, cj) -> ps !! j = Some (Ret rj) -> outcome cj rj = Some oj ->
  oi = oj.
Proof.
  intros Hc Hh Hne Hcolon Hid Hr Hi Hpi Hoi Hj Hpj Hoj.
  destruct (pool_history id digest l m calls ps m') as (l' & _ & _ & Hh' & Hsay); [done..|].
  pose proof (Hsay _ _ _ Hi Hpi) as Hsi. pose proof (Hsay _ _ _ Hj Hpj) as Hsj.
  destruct (outcome_says _ _ _ Hoi) as (si & Hi' & Hsayi). rewrite Hi' in Hsi.
  destruct (outcome_says _ _ _ Hoj) as (sj & Hj' & Hsayj). rewrite Hj' in Hsj.
  destruct Hsi as (ni & r & Hni & Hri%Hsayi). destruct Hsj as (nj & r' & Hnj & Hrj%Hsayj).
  assert (Hterm : forall r o, record_outcome r = Some o ->
    state r = StateConfirmed \/ state r = StateFailed).
  { unfold record_outcome. intros r1 o Ho. destruct (state r1); naive_solver. }
  pose proof (terminal_last _ _ _ _ _ Hh' Hni (Hterm _ _ Hri)).
  pose proof (terminal_last _ _ _ _ _ Hh' Hnj (Hterm _ _ Hrj)).
  assert (ni = nj) as -> by lia. congruence.
Qed.
End theorems.

(** * Witnesses *)
Module ChargeRace.
Import ChargeDemo.
Definition first : ChargeRecord := fresh_record "c" "d" 120 0.
Definition reserved : gmap string Demo.value :=
  <[charge_record_key "c" 0 := Demo.encode_value first]> ∅.

Lemma reserved_chain : chain "c" [first] reserved.
Proof. by apply (chain_insert "c" [] ∅ first); [apply chain_empty|]. Qed.

Definition final (calls : list (string * charge_call)) (sched : list (nat * env))
    (m : gmap string Demo.value) :=
  run_pool store_exec sched (charge_prog (Value:=Demo.value) <$> calls, m).
Definition turns (n i : nat) (now : Z) : list (nat * env) := replicate n (i, calm now).

(** The owner confirms while another presentation of the challenge reads. *)
Definition calls : list (string * charge_call) :=
  [("c", CallMarkConfirmed 0 "sig"); ("c", CallReserve "d" 120)].
Definition run := final calls (turns 2 0 5 ++ turns 3 1 6 ++ turns 2 0 7 ++ turns 9 1 8) reserved.

(** [reserve] of a first caller stalls after it claimed the root; when its
    lease is over a second caller takes the challenge over and records its
    broadcast as pending; then the first caller goes on. *)
Definition stalled : list (string * charge_call) :=
  [("c", CallReserve "d" 120); ("c", CallReserve "d" 120); ("c", CallMarkPending 1 "sig")].
Definition stalled_run :=
  final stalled (turns 3 0 0 ++ turns 9 1 500 ++ turns 9 2 501 ++ turns 9 0 502) start.
End ChargeRace.

Lemma charge_history_witness :
  exists l', [ChargeRace.first] `prefix_of` l' /\ chain "c" l' ChargeRace.run.2 /\
    history "c" "d" l' = true.
Proof.
  destruct (charge_history "c" "d" [ChargeRace.first] ChargeRace.reserved ChargeRace.calls
    ChargeRace.run.1 ChargeRace.run.2) as (l' & Hp & Hc & Hh & _).
  - exact ChargeRace.reserved_chain.
  - vm_compute; reflexivity.
  - discriminate.
  - repeat constructor.
  - vm_compute; reflexivity.
  - apply run_pool_steps.
  - exists l'. split; [exact Hp|]. split; [exact Hc|exact Hh].
Defined.

Lemma one_outcome_witness :
  ChargeRace.run.1 !! 1%nat = Some (Ret (ReplyReservation (Ok (AlreadyConfirmed "sig")))) /\
  inl "sig" = (inl "sig" : string + string).
Proof.
  split; [vm_compute; reflexivity|].
  apply (one_outcome "c" "d" [ChargeRace.first] ChargeRace.reserved ChargeRace.calls
    ChargeRace.run.1 ChargeRace.run.2 0 1 (CallMarkConfirmed 0 "sig") (CallReserve "d" 120)
    (ReplyApplied (Ok true)) (ReplyReservation (Ok (AlreadyConfirmed "sig"))));
    [exact ChargeRace.reserved_chain|vm_compute; reflexivity|discriminate|repeat constructor
    |vm_compute; reflexivity|apply run_pool_steps|vm_compute; reflexivity..].
Defined.

Lemma one_creator_witness :
  count_winners (creates "c" 1) ChargeRace.calls ChargeRace.run.1 = 1 /\
  count_winners (creates "c" 1) ChargeRace.calls ChargeRace.run.1 <= 1.
Proof.
  split; [vm_compute; reflexivity|].
  exact (one_creator "c" 1 ChargeRace.reserved ChargeRace.calls ChargeRace.run.1
    ChargeRace.run.2 (run_pool_steps _ _ _)).
Defined.

(** The limit of the ledger: a first caller that stalls inside [reserve] past its
    lease deletes the root under the caller that took over. The second caller
    holds generation 1 and recorded a pending broadcast; afterwards the ledger
    answers that nothing was reserved, and the broadcast cannot be confirmed. *)
Theorem stalled_reserve_drops_pending :
  ChargeRace.stalled_run.1 =
    [ Ret (ReplyReservation (Err (err_orphaned "c")));
      Ret (ReplyReservation (Ok (Reserved 1)));
      Ret (ReplyApplied (Ok true)) ] /\
  (store_run 503 (pending "c" "d") ChargeRace.stalled_run.2).1 = Ok None /\
  (store_run 503 (confirm_pending "c" 2 "sig") ChargeRace.stalled_run.2).1 =
    Err (err_no_reservation "c").
Proof. vm_compute. auto. Qed.
