(* ===== verification/Channel.v ===== *)
(** The persisted state of a payment channel ([ChannelState] of
    src/rust/crates/kit/src/core/store.rs) and what is recorded in it besides
    authorizations: the deployment binding, the grace period and the onchain
    observations. *)
From stdpp Require Import base numbers option list gmap strings pretty.
From S2P Require Import Prelude Json Store.

(** * The records *)

Record PendingDelivery := {
  pd_delivery_id : string;
  pd_amount : Z;
  pd_sequence : Z;
  pd_expires_at : Z;
  pd_request_fingerprint : option string;
  pd_handler_succeeded : bool;
}.

(** Whether a close at [now] must charge this reservation. *)
Definition owed_at_close (p : PendingDelivery) (now : Z) : bool :=
  bool_decide (pd_request_fingerprint p = None) || pd_handler_succeeded p ||
  bool_decide (now < pd_expires_at p).

Record CachedUpstreamResponse := {
  status : Z;
  content_type : option string;
  headers : list (string * string);
  body : list Byte.byte;
}.

Record CommittedDelivery {Value : Type} := {
  cd_delivery_id : string;
  cd_amount : Z;
  cd_cumulative : Z;
  cd_voucher_signature : string;
  cd_request_fingerprint : option string;
  cd_settlement_response : option Value;
  cd_retain_until : Z;
  cd_cached_response : option CachedUpstreamResponse;
}.
Arguments CommittedDelivery : clear implicits.

Record PendingSetup := {
  payer_signature : string;
  ps_deposit : Z;
  opens_channel : bool;
  ps_expires_at : Z;
}.

Record ChannelLifecycle := {
  owner : string;
  close_after : Z;
}.

Record ProcessedUse := {
  pu_challenge_id : string;
  pu_idempotency_key : string;
  pu_cumulative : Z;
  pu_voucher_signature : string;
  pu_amount : option Z;
}.

Definition CHANNEL_STATE_SCHEMA_VERSION : Z := 2.

Record ChannelState {Value : Type} := {
  channel_id : string;
  authorized_signer : string;
  deposit : Z;
  cumulative : Z;
  sealed : bool;
  highest_voucher_signature : option string;
  highest_voucher_expires_at : option Z;
  close_requested_at : option Z;
  final_cumulative : option Z;
  open_slot : option Z;
  payer : string;
  rent_payer : string;
  opening_challenge_id : string;
  authentication : option string;
  voucher_signer : string;
  idle_timeout_seconds : option Z;
  last_activity_at : Z;
  spent_amount : Z;
  settled_on_chain : Z;
  distributed_on_chain : Z;
  processed_uses : list ProcessedUse;
  processed_topup_signatures : list string;
  next_delivery_sequence : Z;
  pending_deliveries : list PendingDelivery;
  committed_deliveries : list (CommittedDelivery Value);
  pending_setup : option PendingSetup;
  onchain_checked_at : Z;
  lifecycle : option ChannelLifecycle;
  schema_version : Z;
  extra : gmap string Value;
}.
Arguments ChannelState : clear implicits.

#[export] Instance PendingDelivery_eq_dec : EqDecision PendingDelivery.
Proof. solve_decision. Defined.
#[export] Instance byte_eq_dec : EqDecision Byte.byte.
Proof. intros a b. destruct (Byte.byte_eq_dec a b); [by left|by right]. Defined.
#[export] Instance CachedUpstreamResponse_eq_dec : EqDecision CachedUpstreamResponse.
Proof. solve_decision. Defined.
#[export] Instance CommittedDelivery_eq_dec `{EqDecision Value} :
  EqDecision (CommittedDelivery Value).
Proof. solve_decision. Defined.
#[export] Instance PendingSetup_eq_dec : EqDecision PendingSetup.
Proof. solve_decision. Defined.
#[export] Instance ChannelLifecycle_eq_dec : EqDecision ChannelLifecycle.
Proof. solve_decision. Defined.
#[export] Instance ProcessedUse_eq_dec : EqDecision ProcessedUse.
Proof. solve_decision. Defined.

(** * Field assignment *)
Section setters.
Context {Value : Type}.
Implicit Types (s : ChannelState Value).

Definition ChannelState_eta s : ChannelState Value := {|
  channel_id := channel_id s;
  authorized_signer := authorized_signer s;
  deposit := deposit s;
  cumulative := cumulative s;
  sealed := sealed s;
  highest_voucher_signature := highest_voucher_signature s;
  highest_voucher_expires_at := highest_voucher_expires_at s;
  close_requested_at := close_requested_at s;
  final_cumulative := final_cumulative s;
  open_slot := open_slot s;
  payer := payer s;
  rent_payer := rent_payer s;
  opening_challenge_id := opening_challenge_id s;
  authentication := authentication s;
  voucher_signer := voucher_signer s;
  idle_timeout_seconds := idle_timeout_seconds s;
  last_activity_at := last_activity_at s;
  spent_amount := spent_amount s;
  settled_on_chain := settled_on_chain s;
  distributed_on_chain := distributed_on_chain s;
  processed_uses := processed_uses s;
  processed_topup_signatures := processed_topup_signatures s;
  next_delivery_sequence := next_delivery_sequence s;
  pending_deliveries := pending_deliveries s;
  committed_deliveries := committed_deliveries s;
  pending_setup := pending_setup s;
  onchain_checked_at := onchain_checked_at s;
  lifecycle := lifecycle s;
  schema_version := schema_version s;
  extra := extra s;
|}.

Definition with_deposit v s : ChannelState Value :=
  ltac:(build_update ChannelState_eta s (@deposit Value) v).
Definition with_cumulative v s : ChannelState Value :=
  ltac:(build_update ChannelState_eta s (@cumulative Value) v).
Definition with_sealed v s : ChannelState Value :=
  ltac:(build_update ChannelState_eta s (@sealed Value) v).
Definition with_highest_voucher_signature v s : ChannelState Value :=
  ltac:(build_update ChannelState_eta s (@highest_voucher_signature Value) v).
Definition with_highest_voucher_expires_at v s : ChannelState Value :=
  ltac:(build_update ChannelState_eta s (@highest_voucher_expires_at Value) v).
Definition with_close_requested_at v s : ChannelState Value :=
  ltac:(build_update ChannelState_eta s (@close_requested_at Value) v).
Definition with_final_cumulative v s : ChannelState Value :=
  ltac:(build_update ChannelState_eta s (@final_cumulative Value) v).
Definition with_last_activity_at v s : ChannelState Value :=
  ltac:(build_update ChannelState_eta s (@last_activity_at Value) v).
Definition with_spent_amount v s : ChannelState Value :=
  ltac:(build_update ChannelState_eta s (@spent_amount Value) v).
Definition with_settled_on_chain v s : ChannelState Value :=
  ltac:(build_update ChannelState_eta s (@settled_on_chain Value) v).
Definition with_processed_uses v s : ChannelState Value :=
  ltac:(build_update ChannelState_eta s (@processed_uses Value) v).
Definition with_processed_topup_signatures v s : ChannelState Value :=
  ltac:(build_update ChannelState_eta s (@processed_topup_signatures Value) v).
Definition with_next_delivery_sequence v s : ChannelState Value :=
  ltac:(build_update ChannelState_eta s (@next_delivery_sequence Value) v).
Definition with_pending_deliveries v s : ChannelState Value :=
  ltac:(build_update ChannelState_eta s (@pending_deliveries Value) v).
Definition with_committed_deliveries v s : ChannelState Value :=
  ltac:(build_update ChannelState_eta s (@committed_deliveries Value) v).
Definition with_pending_setup v s : ChannelState Value :=
  ltac:(build_update ChannelState_eta s (@pending_setup Value) v).
Definition with_onchain_checked_at v s : ChannelState Value :=
  ltac:(build_update ChannelState_eta s (@onchain_checked_at Value) v).
Definition with_lifecycle v s : ChannelState Value :=
  ltac:(build_update ChannelState_eta s (@lifecycle Value) v).
Definition with_schema_version v s : ChannelState Value :=
  ltac:(build_update ChannelState_eta s (@schema_version Value) v).
Definition with_extra v s : ChannelState Value :=
  ltac:(build_update ChannelState_eta s (@extra Value) v).
End setters.

(** * The deployment binding *)

Record ChannelBinding := {
  scheme : string;
  pay_to : option string;
  network : option string;
  program_id : option string;
}.

#[export] Instance ChannelBinding_eq_dec : EqDecision ChannelBinding.
Proof. solve_decision. Defined.

Definition differs (recorded current : option string) : bool :=
  match recorded, current with
  | Some a, Some b => bool_decide (a <> b)
  | _, _ => false
  end.

(** The first recorded field [current] disagrees with, if any. *)
Definition mismatch (self current : ChannelBinding) : option string :=
  if decide (scheme self <> scheme current) then Some "scheme"
  else if differs (pay_to self) (pay_to current) then Some "payTo"
  else if differs (network self) (network current) then Some "network"
  else if differs (program_id self) (program_id current) then Some "programId"
  else None.

Definition is_complete (self : ChannelBinding) : bool :=
  bool_decide (is_Some (pay_to self)) && bool_decide (is_Some (network self)) &&
  bool_decide (is_Some (program_id self)).

Definition or_else {A} (o o' : option A) : option A :=
  match o with Some a => Some a | None => o' end.

Definition filled_from (self current : ChannelBinding) : ChannelBinding := {|
  scheme := scheme self;
  pay_to := or_else (pay_to self) (pay_to current);
  network := or_else (network self) (network current);
  program_id := or_else (program_id self) (program_id current);
|}.

Definition CHANNEL_BINDING_KEY : string := "channelBinding".
Definition GRACE_PERIOD_KEY : string := "gracePeriod".
Definition ONCHAIN_OBSERVED_SLOT_KEY : string := "onchainObservedSlot".
Definition ONCHAIN_OBSERVED_AT_KEY : string := "onchainObservedAt".

(** * Onchain observations *)

(** The lifecycle an onchain read showed. *)
Inductive ObservedLifecycle :=
| LifecycleOpen
| LifecycleClosing (started_at : Z)
| LifecycleTerminal (started_at : option Z).

#[export] Instance ObservedLifecycle_eq_dec : EqDecision ObservedLifecycle.
Proof. solve_decision. Defined.

Definition STATUS_OPEN : Z := 0.
Definition STATUS_CLOSING : Z := 2.

(** [u64::try_from] of a signed value. *)
Definition u64_try_from (z : Z) : option Z := if decide (in_u64 z) then Some z else None.

Definition of_channel (st closure_started_at now : Z) : ObservedLifecycle :=
  let started_at :=
    if bool_decide (closure_started_at <> 0) || bool_decide (st <> STATUS_OPEN)
    then Some (Z.max (default now (u64_try_from closure_started_at)) 1) else None in
  match started_at with
  | Some started =>
      if bool_decide (st = STATUS_OPEN) || bool_decide (st = STATUS_CLOSING)
      then LifecycleClosing started else LifecycleTerminal (Some started)
  | None => if decide (st = STATUS_OPEN) then LifecycleOpen else LifecycleTerminal None
  end.

Record OnchainObservation := {
  slot : option Z;
  observed : ObservedLifecycle;
}.

Inductive ObservationOutcome := ObservationFresh | ObservationBehind (recorded : Z).

#[export] Instance ObservationOutcome_eq_dec : EqDecision ObservationOutcome.
Proof. solve_decision. Defined.

(** * Operations *)
Section operations.
Context {Value : Type} `{SerdeJson Value, !Serde Value ChannelBinding}.
Implicit Types (s : ChannelState Value).

Definition binding s : result (option ChannelBinding) StoreError :=
  match extra s !! CHANNEL_BINDING_KEY with
  | None => Ok None
  | Some value =>
      rmap Some (rmap_err (fun e => Internal ("channel " +:+ channel_id s
        +:+ " has an unreadable binding: " +:+ e)) (from_value value))
  end.

Definition set_binding (b : ChannelBinding) s : ChannelState Value :=
  match to_value b with
  | Ok value => with_extra (<[CHANNEL_BINDING_KEY := value]> (extra s)) s
  | Err _ => s
  end.

Definition adopt_binding (current : ChannelBinding) s :
    result unit StoreError * ChannelState Value :=
  match binding s with
  | Err e => (Err e, s)
  | Ok recorded =>
      let adopted := match recorded with
                     | None => current
                     | Some recorded => filled_from recorded current
                     end in
      (Ok tt, if decide (recorded <> Some adopted) then set_binding adopted s else s)
  end.

Definition check_binding (current : ChannelBinding) s : result unit StoreError :=
  let? recorded := binding s in
  match recorded with
  | None => Ok tt
  | Some recorded =>
      match mismatch recorded current with
      | Some field => Err (Internal ("channel " +:+ channel_id s
          +:+ " belongs to another deployment (" +:+ field +:+ " differs)"))
      | None => Ok tt
      end
  end.

Definition check_binding_complete (current : ChannelBinding) s : result unit StoreError :=
  let? _ := check_binding current s in
  let? recorded := binding s in
  match recorded with
  | Some recorded =>
      if decide (recorded = current /\ is_complete recorded = true) then Ok tt
      else Err (Internal ("channel " +:+ channel_id s +:+ " has no complete deployment binding"))
  | None => Err (Internal ("channel " +:+ channel_id s +:+ " has no complete deployment binding"))
  end.

Definition u32_try_from (z : Z) : option Z := if decide (in_u32 z) then Some z else None.

Definition extra_u64 (key : string) s : option Z := extra s !! key ≫= as_u64.

Definition grace_period s : option Z := extra_u64 GRACE_PERIOD_KEY s ≫= u32_try_from.

Definition set_grace_period (grace : Z) s : ChannelState Value :=
  with_extra (<[GRACE_PERIOD_KEY := json_u64 grace]> (extra s)) s.

Definition check_grace_period (withdraw_delay : Z) s : result unit StoreError :=
  match grace_period s with
  | Some recorded =>
      if decide (recorded = withdraw_delay) then Ok tt
      else Err (Internal ("channel " +:+ channel_id s +:+ " has a " +:+ pretty recorded
        +:+ "s grace period, not the " +:+ pretty withdraw_delay +:+ "s this server requires"))
  | None => Err (Internal ("channel " +:+ channel_id s +:+ " has no recorded grace period"))
  end.

Definition onchain_observed_slot s : Z := default 0 (extra_u64 ONCHAIN_OBSERVED_SLOT_KEY s).
Definition onchain_observed_at s : Z := default 0 (extra_u64 ONCHAIN_OBSERVED_AT_KEY s).

(** The fences an observation carries. *)
Definition apply_fences (observed : ObservedLifecycle) s : ChannelState Value :=
  match observed with
  | LifecycleOpen => s
  | LifecycleClosing started_at =>
      with_close_requested_at (Some (default started_at (close_requested_at s))) s
  | LifecycleTerminal started_at =>
      let s := with_sealed true s in
      match started_at with
      | Some started_at =>
          with_close_requested_at (Some (default started_at (close_requested_at s))) s
      | None => s
      end
  end.

Definition record_onchain_observation (observation : OnchainObservation) (now : Z) s :
    ObservationOutcome * ChannelState Value :=
  let s := apply_fences (observed observation) s in
  let recorded := onchain_observed_slot s in
  let renew s :=
    (ObservationFresh,
     with_onchain_checked_at now
       (with_extra (<[ONCHAIN_OBSERVED_AT_KEY := json_u64 now]> (extra s)) s)) in
  match slot observation with
  | Some slot =>
      if decide (slot < recorded) then (ObservationBehind recorded, s)
      else renew (with_extra (<[ONCHAIN_OBSERVED_SLOT_KEY := json_u64 slot]> (extra s)) s)
  | None => renew s
  end.
End operations.

(** * The binding and the observations, verified *)
Section bindings.
Context {Value : Type} `{SerdeJson Value, !Serde Value ChannelBinding,
  !SerdeLaws Value ChannelBinding}.
Implicit Types (s : ChannelState Value) (b : ChannelBinding).

Lemma differs_false a c : differs a c = false <-> forall x y, a = Some x -> c = Some y -> x = y.
Proof.
  destruct a, c; simpl; try naive_solver. case_bool_decide; naive_solver.
Qed.

Lemma mismatch_none b b' :
  mismatch b b' = None <->
  scheme b = scheme b' /\ differs (pay_to b) (pay_to b') = false /\
  differs (network b) (network b') = false /\ differs (program_id b) (program_id b') = false.
Proof.
  unfold mismatch. case_decide; [naive_solver|]. repeat case_match; naive_solver.
Qed.

Lemma or_else_agrees {A} (a : option A) c :
  (forall x y, a = Some x -> Some c = Some y -> x = y) -> or_else a (Some c) = Some c.
Proof. destruct a; simpl; [|done]. intros Hac. f_equal. by apply Hac. Qed.

(** Filling a compatible binding from a complete one gives the complete one. *)
Lemma filled_from_complete b b' :
  mismatch b b' = None -> is_complete b' = true -> filled_from b b' = b'.
Proof.
  rewrite mismatch_none, !differs_false. unfold is_complete.
  rewrite !andb_true_iff, !bool_decide_eq_true. destruct b as [sc p n g], b' as [sc' p' n' g'].
  simpl. intros (-> & Hp & Hn & Hg) [[[? ->] [? ->]] [? ->]]. unfold filled_from. simpl.
  rewrite !or_else_agrees by done. done.
Qed.

Lemma mismatch_refl b : mismatch b b = None.
Proof. rewrite mismatch_none, !differs_false. naive_solver. Qed.

Lemma binding_set b s : binding (set_binding b s) = Ok (Some b).
Proof.
  unfold set_binding. destruct (to_value_total (Value:=Value) b) as [v Hv]. rewrite Hv.
  unfold binding. simpl. rewrite lookup_insert_eq. by rewrite (from_to_value _ _ Hv).
Qed.

Lemma check_binding_complete_ok b s :
  check_binding_complete b s = Ok tt <-> binding s = Ok (Some b) /\ is_complete b = true.
Proof.
  unfold check_binding_complete, check_binding. split.
  - destruct (binding s) as [[r|]|] eqn:Hb; simpl; try done.
    destruct (mismatch r b); simpl; [done|]. case_decide as Hd; [|done].
    destruct Hd as [-> ?]. done.
  - intros [Hb Hc]. rewrite Hb. simpl. rewrite mismatch_refl. simpl. by rewrite decide_True.
Qed.

(** Adopting a deployment: a record no field of which disagrees with a
    complete binding passes the admission check for it afterwards, and for no
    other binding; nothing else in the record changes. *)
Theorem adopt_binding_admits b s :
  check_binding b s = Ok tt -> is_complete b = true ->
  exists s', adopt_binding b s = (Ok tt, s') /\
    (forall b', check_binding_complete b' s' = Ok tt <-> b' = b) /\
    s' = with_extra (extra s') s /\
    forall k, k <> CHANNEL_BINDING_KEY -> extra s' !! k = extra s !! k.
Proof.
  intros Hcheck Hc. unfold check_binding in Hcheck. unfold adopt_binding.
  destruct (binding s) as [r|] eqn:Hb; [|done]. simpl in Hcheck.
  set (adopted := match r with None => b | Some r => filled_from r b end).
  assert (adopted = b) as ->.
  { destruct r as [r|]; [|done]. apply filled_from_complete; [|done].
    by destruct (mismatch r b). }
  eexists. split; [reflexivity|].
  assert (Hbind : binding (if decide (r <> Some b) then set_binding b s else s) = Ok (Some b)).
  { case_decide as Hd; [apply binding_set|]. congruence. }
  split_and!.
  - intros b'. rewrite check_binding_complete_ok, Hbind. naive_solver.
  - case_decide; [|by destruct s]. unfold set_binding. by destruct (to_value b); destruct s.
  - intros k Hk. case_decide; [|done]. unfold set_binding. destruct (to_value b); [|done].
    simpl. by rewrite lookup_insert_ne.
Qed.
End bindings.

Section observations.
Context {Value : Type} `{SerdeJsonLaws Value}.
Implicit Types (s : ChannelState Value) (o : OnchainObservation).

Definition started (l : ObservedLifecycle) : option Z :=
  match l with
  | LifecycleOpen => None | LifecycleClosing t => Some t | LifecycleTerminal t => t
  end.
Definition is_terminal (l : ObservedLifecycle) : bool :=
  match l with LifecycleTerminal _ => true | _ => false end.

Lemma sealed_fences l s : sealed (apply_fences l s) = sealed s || is_terminal l.
Proof. destruct l as [| |[|]]; simpl; by rewrite ?orb_false_r, ?orb_true_r. Qed.

Lemma close_fences l s :
  close_requested_at (apply_fences l s) = or_else (close_requested_at s) (started l).
Proof. destruct l as [| |[|]]; simpl; by destruct (close_requested_at s). Qed.

Lemma extra_fences l s : extra (apply_fences l s) = extra s.
Proof. by destruct l as [| |[|]]. Qed.

Lemma slot_fences l s : onchain_observed_slot (apply_fences l s) = onchain_observed_slot s.
Proof. unfold onchain_observed_slot, extra_u64. by rewrite extra_fences. Qed.

Lemma extra_u64_insert k n s :
  in_u64 n -> extra_u64 k (with_extra (<[k := json_u64 n]> (extra s)) s) = Some n.
Proof. intros. unfold extra_u64. simpl. rewrite lookup_insert_eq. simpl. by apply as_u64_json_u64. Qed.

(** What a confirmed account read shows: open exactly for an open
    account without a close time, closing (since a positive time) for an open
    or closing account otherwise, terminal for every other status. *)
Theorem of_channel_spec st closure now :
  match of_channel st closure now with
  | LifecycleOpen => st = STATUS_OPEN /\ closure = 0
  | LifecycleClosing t =>
      (st = STATUS_OPEN /\ closure <> 0 \/ st = STATUS_CLOSING) /\ 1 <= t /\
      (1 <= closure <= u64_max -> t = closure)
  | LifecycleTerminal t =>
      st <> STATUS_OPEN /\ st <> STATUS_CLOSING /\ exists t', t = Some t' /\ 1 <= t'
  end.
Proof.
  unfold of_channel, u64_try_from, STATUS_OPEN, STATUS_CLOSING.
  repeat (case_bool_decide || case_decide); simpl; try lia; split_and!; try lia; try zlia.
  all: eexists; split; [reflexivity|lia].
Qed.

Definition observe (p : OnchainObservation * Z) s : ChannelState Value :=
  (record_onchain_observation p.1 p.2 s).2.

Definition newest (sl : option Z) (recorded : Z) : Z :=
  match sl with Some n => Z.max recorded n | None => recorded end.

Lemma observe_one o now s :
  (forall n, slot o = Some n -> in_u64 n) -> in_u64 now ->
  let s' := observe (o, now) s in
  sealed s' = sealed s || is_terminal (observed o) /\
  close_requested_at s' = or_else (close_requested_at s) (started (observed o)) /\
  onchain_observed_slot s' = newest (slot o) (onchain_observed_slot s) /\
  match (record_onchain_observation o now s).1 with
  | ObservationFresh =>
      (forall n, slot o = Some n -> onchain_observed_slot s <= n) /\
      onchain_observed_at s' = now /\ onchain_checked_at s' = now
  | ObservationBehind recorded =>
      recorded = onchain_observed_slot s /\
      (exists n, slot o = Some n /\ n < recorded) /\
      extra s' = extra s /\ onchain_checked_at s' = onchain_checked_at s
  end.
Proof.
  intros Hslot Hnow s'. subst s'. unfold observe, record_onchain_observation. simpl.
  rewrite slot_fences. destruct (slot o) as [n|] eqn:Hn; [specialize (Hslot n eq_refl)|].
  - case_decide as Hlt; simpl; rewrite ?sealed_fences, ?close_fences, ?extra_fences, ?slot_fences.
    + split_and!; try done; try lia; [eauto|].
      by destruct (observed o) as [| |[|]].
    + unfold onchain_observed_slot, onchain_observed_at, extra_u64. simpl.
      rewrite lookup_insert_ne by done. rewrite !lookup_insert_eq. simpl.
      rewrite !as_u64_json_u64 by done. simpl.
      unfold onchain_observed_slot, extra_u64 in Hlt. simpl in *.
      split_and!; try done; try lia. intros n0 [= <-]. lia.
  - simpl. rewrite ?sealed_fences, ?close_fences.
    unfold onchain_observed_slot, onchain_observed_at, extra_u64. simpl.
    rewrite lookup_insert_ne by done. rewrite !lookup_insert_eq, extra_fences. simpl.
    rewrite !as_u64_json_u64 by done. done.
Qed.

(** Observations in any order, lagging ones included: the record is
    sealed once any read was terminal, its close time is the first one
    reported, and the recorded slot is the newest ever accepted. A read
    behind the recorded slot renews nothing. *)
Theorem observations_fence obs s :
  Forall (fun p => (forall n, slot p.1 = Some n -> in_u64 n) /\ in_u64 p.2) obs ->
  let s' := foldl (fun s p => observe p s) s obs in
  sealed s' = sealed s || existsb (fun p => is_terminal (observed p.1)) obs /\
  close_requested_at s' =
    foldl or_else (close_requested_at s) ((fun p => started (observed p.1)) <$> obs) /\
  onchain_observed_slot s' =
    foldl (fun n p => newest (slot p.1) n) (onchain_observed_slot s) obs /\
  forall o now, (forall n, slot o = Some n -> in_u64 n) -> in_u64 now ->
    (exists n, slot o = Some n /\ n < onchain_observed_slot s') ->
    onchain_observed_at (observe (o, now) s') = onchain_observed_at s' /\
    onchain_checked_at (observe (o, now) s') = onchain_checked_at s'.
Proof.
  intros Hobs s'. subst s'. revert s. induction Hobs as [|[o now] obs [Hslot Hnow] _ IH]; intros s.
  - simpl. rewrite orb_false_r. split_and!; [done..|]. intros o now Hslot Hnow (n & Hn & Hlt).
    pose proof (observe_one o now s Hslot Hnow) as (_ & _ & _ & Hout).
    destruct (record_onchain_observation o now s).1.
    { destruct Hout as [Hle _]. specialize (Hle _ Hn). lia. }
    destruct Hout as (_ & _ & Hextra & ->). split; [|done].
    unfold onchain_observed_at, extra_u64. by rewrite Hextra.
  - simpl in Hslot, Hnow. pose proof (observe_one o now s Hslot Hnow) as (Hs & Hc & Hsl & _).
    destruct (IH (observe (o, now) s)) as (IHs & IHc & IHsl & IHb). csimpl.
    rewrite IHs, IHc, IHsl, Hs, Hc, Hsl. split_and!; [by rewrite orb_assoc|done|done|].
    rewrite IHsl, Hsl in IHb. exact IHb.
Qed.
End observations.

(** * A concrete channel, and the witnesses *)
Module ChannelDemo.
Definition to_tuple (b : ChannelBinding) := (scheme b, pay_to b, network b, program_id b).
Definition of_tuple (t : string * option string * option string * option string) :
    ChannelBinding :=
  let '(a, b, c, d) := t in {| scheme := a; pay_to := b; network := c; program_id := d |}.

#[global] Instance binding_countable : Countable ChannelBinding.
Proof. apply (inj_countable' to_tuple of_tuple). by intros []. Defined.
#[global] Instance binding_serde : Serde Demo.value ChannelBinding := Demo.serde.
#[global] Instance binding_serde_laws : SerdeLaws Demo.value ChannelBinding.
Proof. apply Demo.serde_laws. Qed.

(** A record as the server creates it at open. *)
Definition opened (id : string) (amount : Z) : ChannelState Demo.value := {|
  channel_id := id; authorized_signer := "signer"; deposit := amount; cumulative := 0;
  sealed := false; highest_voucher_signature := None; highest_voucher_expires_at := None;
  close_requested_at := None; final_cumulative := None; open_slot := None; payer := "payer";
  rent_payer := "payer"; opening_challenge_id := "challenge"; authentication := None;
  voucher_signer := "client"; idle_timeout_seconds := None; last_activity_at := 0;
  spent_amount := 0; settled_on_chain := 0; distributed_on_chain := 0; processed_uses := [];
  processed_topup_signatures := []; next_delivery_sequence := 0; pending_deliveries := [];
  committed_deliveries := []; pending_setup := None; onchain_checked_at := 0;
  lifecycle := None; schema_version := CHANNEL_STATE_SCHEMA_VERSION; extra := ∅;
|}.

Definition partial : ChannelBinding :=
  {| scheme := "batch-settlement"; pay_to := Some "bob"; network := None; program_id := None |}.
Definition complete : ChannelBinding :=
  {| scheme := "batch-settlement"; pay_to := Some "bob"; network := Some "devnet";
     program_id := Some "program" |}.
Definition seen (n : option Z) (l : ObservedLifecycle) : OnchainObservation :=
  {| slot := n; observed := l |}.
End ChannelDemo.

Lemma adopt_binding_admits_witness :
  exists s', adopt_binding ChannelDemo.complete
      (set_binding ChannelDemo.partial (ChannelDemo.opened "c" 10)) = (Ok tt, s') /\
    check_binding_complete ChannelDemo.complete s' = Ok tt.
Proof.
  destruct (adopt_binding_admits ChannelDemo.complete
    (set_binding ChannelDemo.partial (ChannelDemo.opened "c" 10)))
    as (s' & Hs' & Hcheck & _); [vm_compute; reflexivity|reflexivity|].
  exists s'. split; [exact Hs'|]. by apply Hcheck.
Defined.

Lemma observations_fence_witness :
  let obs := [(ChannelDemo.seen (Some 7) LifecycleOpen, 100);
              (ChannelDemo.seen (Some 5) (LifecycleTerminal (Some 90)), 101);
              (ChannelDemo.seen (Some 6) LifecycleOpen, 102)] in
  let s := foldl (fun s p => observe p s) (ChannelDemo.opened "c" 10) obs in
  sealed s = true /\ onchain_observed_slot s = 7.
Proof.
  intros obs s.
  destruct (observations_fence obs (ChannelDemo.opened "c" 10)) as (Hs & _ & Hsl & _).
  - unfold obs. repeat (apply Forall_cons; split; [split; [intros n [= <-]|]; simpl; zlia|]).
    by apply Forall_nil.
  - split; [exact Hs|exact Hsl].
Defined.
