(* ===== verification/Authorization.v ===== *)
(** Durable payment authorizations ([ChannelState::reserve_authorization] and
    the operations after it, src/rust/crates/kit/src/core/store.rs): reserve a
    step of the watermark, run the handler once, commit the charge. *)
From stdpp Require Import base numbers option list gmap strings pretty sorting.
From S2P Require Import Prelude Json Store Channel.

Definition MAX_COMMITTED_AUTHORIZATIONS : nat := 64.

Record AuthorizationRequest := {
  ar_authorization_id : string;
  ar_request_fingerprint : string;
  ar_amount : Z;
  ar_cumulative : Z;
  ar_lease : Z;  (* whole seconds, u64 *)
  ar_now : Z;
}.

Record ReservationToken := {
  rt_authorization_id : string;
  rt_request_fingerprint : string;
  rt_cumulative : Z;
  rt_sequence : Z;
}.

#[export] Instance ReservationToken_eq_dec : EqDecision ReservationToken.
Proof. solve_decision. Defined.

Inductive BatchReservation :=
| BatchReserved (token : ReservationToken)
| BatchInProgress
| BatchHandlerSucceeded (token : ReservationToken)
| BatchCommitted
| BatchConflict
| BatchAbandoned
| BatchStale
| BatchClosing.

#[export] Instance BatchReservation_eq_dec : EqDecision BatchReservation.
Proof. solve_decision. Defined.

(** [pending_deliveries[i].handler_succeeded = true] *)
Definition succeeded (p : PendingDelivery) : PendingDelivery := {|
  pd_delivery_id := pd_delivery_id p;
  pd_amount := pd_amount p;
  pd_sequence := pd_sequence p;
  pd_expires_at := pd_expires_at p;
  pd_request_fingerprint := pd_request_fingerprint p;
  pd_handler_succeeded := true;
|}.

Section authorization.
Context {Value : Type}.
Implicit Types (s : ChannelState Value) (p : PendingDelivery) (c : CommittedDelivery Value).

(** [committed_deliveries[i].settlement_response = r], and the same for
    [cached_response]. *)
Definition with_settlement_response (r : option Value) c : CommittedDelivery Value := {|
  cd_delivery_id := cd_delivery_id c;
  cd_amount := cd_amount c;
  cd_cumulative := cd_cumulative c;
  cd_voucher_signature := cd_voucher_signature c;
  cd_request_fingerprint := cd_request_fingerprint c;
  cd_settlement_response := r;
  cd_retain_until := cd_retain_until c;
  cd_cached_response := cd_cached_response c;
|}.
Definition with_cached_response (r : CachedUpstreamResponse) c : CommittedDelivery Value := {|
  cd_delivery_id := cd_delivery_id c;
  cd_amount := cd_amount c;
  cd_cumulative := cd_cumulative c;
  cd_voucher_signature := cd_voucher_signature c;
  cd_request_fingerprint := cd_request_fingerprint c;
  cd_settlement_response := cd_settlement_response c;
  cd_retain_until := cd_retain_until c;
  cd_cached_response := Some r;
|}.

Definition committed_authorization (id : string) s : option (CommittedDelivery Value) :=
  List.find (fun c => bool_decide (cd_delivery_id c = id)) (committed_deliveries s).

Definition pending_index (id : string) s : option nat :=
  position (fun p => bool_decide (pd_delivery_id p = id)) (pending_deliveries s).

Definition classify_authorization (id fingerprint : string) (cumul now : Z) s :
    option BatchReservation :=
  match committed_authorization id s with
  | Some committed =>
      if decide (cd_request_fingerprint committed <> Some fingerprint)
      then Some BatchConflict else Some BatchCommitted
  | None =>
      index ← pending_index id s;
      pending ← pending_deliveries s !! index;
      Some (if decide (pd_request_fingerprint pending <> Some fingerprint) then BatchConflict
            else if pd_handler_succeeded pending then
              BatchHandlerSucceeded {|
                rt_authorization_id := id;
                rt_request_fingerprint := fingerprint;
                rt_cumulative := cumul;
                rt_sequence := pd_sequence pending;
              |}
            else if decide (now < pd_expires_at pending) then BatchInProgress
            else BatchAbandoned)
  end.

Definition is_superseded (sequence : Z) s : bool :=
  bool_decide (sequence < next_delivery_sequence s).

Definition err_other_request (id : string) : StoreError :=
  Internal ("authorization " +:+ id +:+ " is reserved by a different request").
Definition err_not_reserved (id : string) : StoreError :=
  Internal ("authorization " +:+ id +:+ " is no longer reserved").
Definition err_superseded (id : string) : StoreError :=
  Internal ("authorization " +:+ id +:+ " outlived its lease and was superseded").

Definition owned_pending_index (id fingerprint : string) s :
    result (option nat) StoreError :=
  match pending_index id s with
  | None => Ok None
  | Some index =>
      if decide ((pending_deliveries s !! index) ≫= pd_request_fingerprint <> Some fingerprint)
      then Err (err_other_request id) else Ok (Some index)
  end.

Definition token_pending_index (token : ReservationToken) s : result nat StoreError :=
  let id := rt_authorization_id token in
  let? owned := owned_pending_index id (rt_request_fingerprint token) s in
  let? index := ok_or
    (index ← owned;
     if decide (pd_sequence <$> pending_deliveries s !! index = Some (rt_sequence token))
     then Some index else None) (err_not_reserved id) in
  if is_superseded (rt_sequence token) s then Err (err_superseded id) else Ok index.

(** The loops of [prune_authorizations]. *)
Fixpoint drop_expired (now : Z) (l : list (CommittedDelivery Value)) :
    list (CommittedDelivery Value) :=
  match l with
  | [] => []
  | c :: l' =>
      if bool_decide (cd_retain_until c <> 0) && bool_decide (cd_retain_until c <= now)
      then drop_expired now l' else l
  end.

Definition prune_authorizations (now : Z) s : ChannelState Value :=
  let live := drop_expired now (committed_deliveries s) in
  with_committed_deliveries (drop (length live - MAX_COMMITTED_AUTHORIZATIONS) live) s.

Definition refuse_reservation (request : AuthorizationRequest) s : option BatchReservation :=
  let id := ar_authorization_id request in
  let now := ar_now request in
  if sealed s || bool_decide (is_Some (close_requested_at s)) then Some BatchClosing else
  match classify_authorization id (ar_request_fingerprint request)
          (ar_cumulative request) now s with
  | Some outcome => Some outcome
  | None =>
      let others :=
        List.filter (fun p => bool_decide (pd_delivery_id p <> id)) (pending_deliveries s) in
      if existsb (fun p => negb (pd_handler_succeeded p) &&
                           bool_decide (pd_expires_at p <= now)) others
      then Some BatchAbandoned
      else if existsb (fun p => pd_handler_succeeded p ||
                                bool_decide (now < pd_expires_at p)) others
      then Some BatchInProgress
      else if decide (u64_checked_add (cumulative s) (ar_amount request) <>
                      Some (ar_cumulative request))
      then Some BatchStale
      else None
  end.

Definition take_reservation (request : AuthorizationRequest) s :
    BatchReservation * ChannelState Value :=
  let s := prune_authorizations (ar_now request) s in
  let sequence := u64_saturating_add (next_delivery_sequence s) 1 in
  let s := with_next_delivery_sequence sequence s in
  let pending := {|
    pd_delivery_id := ar_authorization_id request;
    pd_amount := ar_amount request;
    pd_sequence := sequence;
    pd_expires_at := i64_saturating_add (ar_now request) (i64_wrap (ar_lease request));
    pd_request_fingerprint := Some (ar_request_fingerprint request);
    pd_handler_succeeded := false;
  |} in
  (BatchReserved {|
     rt_authorization_id := ar_authorization_id request;
     rt_request_fingerprint := ar_request_fingerprint request;
     rt_cumulative := ar_cumulative request;
     rt_sequence := sequence;
   |}, with_pending_deliveries (pending_deliveries s ++ [pending]) s).

Definition reserve_authorization (request : AuthorizationRequest) s :
    BatchReservation * ChannelState Value :=
  match refuse_reservation request s with
  | Some refused => (refused, s)
  | None => take_reservation request s
  end.

Definition reserve_authorization_staged (request : AuthorizationRequest)
    (stage : ChannelState Value -> result (option PendingSetup) StoreError) s :
    result BatchReservation StoreError * ChannelState Value :=
  match refuse_reservation request s with
  | Some refused => (Ok refused, s)
  | None =>
      match stage s with
      | Err e => (Err e, s)
      | Ok setup =>
          let s := match setup with Some _ => with_pending_setup setup s | None => s end in
          let '(reserved, s) := take_reservation request s in (Ok reserved, s)
      end
  end.

Definition mark_authorization_handler_succeeded (token : ReservationToken) s :
    result unit StoreError * ChannelState Value :=
  match committed_authorization (rt_authorization_id token) s with
  | Some _ => (Ok tt, s)
  | None =>
      match token_pending_index token s with
      | Err e => (Err e, s)
      | Ok index =>
          (Ok tt, with_pending_deliveries (alter succeeded index (pending_deliveries s)) s)
      end
  end.

Definition err_served (id : string) : StoreError :=
  Internal ("authorization " +:+ id +:+ " already served its handler").

Definition release_authorization (id fingerprint : string) s :
    result unit StoreError * ChannelState Value :=
  match owned_pending_index id fingerprint s with
  | Err e => (Err e, s)
  | Ok None => (Ok tt, s)
  | Ok (Some index) =>
      if decide (pd_handler_succeeded <$> pending_deliveries s !! index = Some true)
      then (Err (err_served id), s)
      else (Ok tt, with_pending_deliveries (vec_remove index (pending_deliveries s)) s)
  end.

(** The refusals of [commit_authorization]. *)
Definition err_committed_by_other (id : string) : StoreError :=
  Internal ("authorization " +:+ id +:+ " was committed by a different request").
Definition err_sealed (id : string) : StoreError :=
  Internal ("authorization " +:+ id +:+ " cannot be charged: the channel is sealed").
Definition err_fenced (id : string) (fence : Z) : StoreError :=
  Internal ("authorization " +:+ id +:+ " cannot be charged: the channel's final "
    +:+ "watermark is fixed at " +:+ pretty fence +:+ " for sealing").
Definition err_lowers (id : string) (from to : Z) : StoreError :=
  Internal ("authorization " +:+ id +:+ " would lower the watermark from "
    +:+ pretty from +:+ " to " +:+ pretty to).
Definition err_step (id : string) (reserved watermark cumul : Z) : StoreError :=
  Internal ("authorization " +:+ id +:+ " reserved " +:+ pretty reserved
    +:+ " above the watermark, which is now " +:+ pretty watermark
    +:+ " and does not step to " +:+ pretty cumul).

(** The record a commit appends. *)
Definition committed_record (token : ReservationToken) (voucher_signature : string)
    (voucher_expires_at now : Z) s : CommittedDelivery Value := {|
  cd_delivery_id := rt_authorization_id token;
  cd_amount := rt_cumulative token - cumulative s;
  cd_cumulative := rt_cumulative token;
  cd_voucher_signature := voucher_signature;
  cd_request_fingerprint := Some (rt_request_fingerprint token);
  cd_settlement_response := None;
  cd_retain_until :=
    Z.max (i64_saturating_add (Z.max voucher_expires_at now) DEFAULT_CHARGE_RECORD_RETENTION)
      (default 0 (cd_retain_until <$> last (committed_deliveries s)));
  cd_cached_response := None;
|}.

(** The charge itself: the assignments of [commit_authorization] after its
    checks, up to the call of [response]. *)
Definition charged_state (token : ReservationToken) (index : nat)
    (voucher_signature : string) (voucher_expires_at now : Z) s : ChannelState Value :=
  let record := committed_record token voucher_signature voucher_expires_at now s in
  let spent := Z.max (spent_amount s) (rt_cumulative token) in
  let records := committed_deliveries s ++ [record] in
  let s := with_pending_deliveries (vec_remove index (pending_deliveries s)) s in
  let s := with_cumulative (rt_cumulative token) s in
  let s := with_spent_amount spent s in
  let s := with_highest_voucher_signature (Some voucher_signature) s in
  let s := with_highest_voucher_expires_at (Some voucher_expires_at) s in
  let s := with_committed_deliveries records s in
  prune_authorizations now s.

(** [response] is called on the charged state and stored on the record. *)
Definition apply_commit (token : ReservationToken) (index : nat)
    (voucher_signature : string) (voucher_expires_at now : Z)
    (response : ChannelState Value -> option Value) s : ChannelState Value :=
  let s := charged_state token index voucher_signature voucher_expires_at now s in
  let stored := response s in
  match position (fun c => bool_decide (cd_delivery_id c = rt_authorization_id token))
          (committed_deliveries s) with
  | Some i =>
      with_committed_deliveries
        (alter (with_settlement_response stored) i (committed_deliveries s)) s
  | None => s
  end.

Definition commit_authorization (token : ReservationToken) (voucher_signature : string)
    (voucher_expires_at now : Z) (response : ChannelState Value -> option Value) s :
    result unit StoreError * ChannelState Value :=
  let id := rt_authorization_id token in
  let cumul := rt_cumulative token in
  match committed_authorization id s with
  | Some committed =>
      if decide (cd_request_fingerprint committed <> Some (rt_request_fingerprint token) \/
                 cd_cumulative committed <> cumul)
      then (Err (err_committed_by_other id), s) else (Ok tt, s)
  | None =>
      match token_pending_index token s with
      | Err e => (Err e, s)
      | Ok index =>
          if sealed s then (Err (err_sealed id), s) else
          match final_cumulative s with
          | Some fence => (Err (err_fenced id fence), s)
          | None =>
              if decide (cumul < cumulative s)
              then (Err (err_lowers id (cumulative s) cumul), s) else
              let reserved := default 0 (pd_amount <$> pending_deliveries s !! index) in
              if decide (u64_checked_add (cumulative s) reserved <> Some cumul)
              then (Err (err_step id reserved (cumulative s) cumul), s)
              else (Ok tt, apply_commit token index voucher_signature voucher_expires_at now
                             response s)
          end
      end
  end.

Definition attach_cached_response (id : string) (cached : CachedUpstreamResponse) s :
    ChannelState Value :=
  match position (fun c => bool_decide (cd_delivery_id c = id)) (committed_deliveries s) with
  | Some i =>
      with_committed_deliveries
        (alter (with_cached_response cached) i (committed_deliveries s)) s
  | None => s
  end.

Definition has_in_flight_authorization s : bool :=
  bool_decide (is_Some (pending_setup s)) || bool_decide (pending_deliveries s <> []).

Definition has_blocking_authorization (now : Z) s : bool :=
  match pending_setup s with
  | Some setup => bool_decide (now < ps_expires_at setup)
  | None => false
  end || existsb (fun p => bool_decide (now < pd_expires_at p)) (pending_deliveries s).

Definition freeze_watermark_at (cumul : Z) s : ChannelState Value :=
  with_final_cumulative (Some cumul) s.
End authorization.

(** * Lookups and pruning *)
Section lookups.
Context {Value : Type}.
Implicit Types (s : ChannelState Value) (l : list (CommittedDelivery Value)).

Lemma committed_some id s c :
  committed_authorization id s = Some c -> c ∈ committed_deliveries s /\ cd_delivery_id c = id.
Proof.
  intros [Hin Hid]%List.find_some. split; [by apply list_elem_of_In|].
  by apply bool_decide_eq_true in Hid.
Qed.

Lemma committed_none id s :
  committed_authorization id s = None <->
  Forall (fun c => cd_delivery_id c <> id) (committed_deliveries s).
Proof.
  unfold committed_authorization. rewrite Forall_forall. split.
  - intros Hf c Hc%list_elem_of_In. pose proof (List.find_none _ _ Hf _ Hc) as Hd. simpl in Hd.
    by apply bool_decide_eq_false in Hd.
  - intros Hall. destruct (List.find _ _) as [c|] eqn:Hf; [|done].
    apply (committed_some id s c) in Hf as [Hc Hid]. by destruct (Hall c Hc).
Qed.

Lemma pending_index_some id s i :
  pending_index id s = Some i ->
  exists p, pending_deliveries s !! i = Some p /\ pd_delivery_id p = id.
Proof.
  intros (p & Hp & Hid)%position_some. exists p. split; [done|].
  by apply bool_decide_eq_true in Hid.
Qed.

Lemma pending_index_none id s :
  pending_index id s = None <-> Forall (fun p => pd_delivery_id p <> id) (pending_deliveries s).
Proof.
  unfold pending_index. rewrite position_none. apply Forall_proper; [|done].
  intros p. by rewrite bool_decide_eq_false.
Qed.

Lemma owned_pending_index_some id fp s i :
  owned_pending_index id fp s = Ok (Some i) ->
  exists p, pending_deliveries s !! i = Some p /\ pd_delivery_id p = id /\
    pd_request_fingerprint p = Some fp.
Proof.
  unfold owned_pending_index. destruct (pending_index id s) as [j|] eqn:Hi; [|done].
  apply pending_index_some in Hi as (p & Hp & Hid). rewrite Hp. simpl.
  case_decide; [done|]. intros [= <-]. eauto.
Qed.

Lemma token_pending_index_ok t s i :
  token_pending_index t s = Ok i ->
  exists p, pending_deliveries s !! i = Some p /\
    pd_delivery_id p = rt_authorization_id t /\
    pd_request_fingerprint p = Some (rt_request_fingerprint t) /\
    pd_sequence p = rt_sequence t /\ next_delivery_sequence s <= rt_sequence t.
Proof.
  unfold token_pending_index. intros (o & Ho & Hi)%rbind_ok.
  apply rbind_ok in Hi as (j & Hj & Hi).
  destruct o as [j'|]; [|done]. simpl in Hj. case_decide as Hseq; [|done].
  injection Hj as <-.
  destruct (is_superseded (rt_sequence t) s) eqn:Hs; [done|]. injection Hi as <-.
  unfold is_superseded in Hs. apply bool_decide_eq_false in Hs.
  apply owned_pending_index_some in Ho as (p & Hp & Hid & Hfp). rewrite Hp in Hseq.
  simpl in Hseq. exists p. split_and!; try done; [congruence|lia].
Qed.

Lemma drop_expired_drop now l : exists k, drop_expired now l = drop k l.
Proof.
  induction l as [|c l [k IH]]; [by exists 0%nat|]. simpl.
  case_match; [by exists (S k)|by exists 0%nat].
Qed.

Lemma prune_drop now s :
  exists k, committed_deliveries (prune_authorizations now s) = drop k (committed_deliveries s).
Proof.
  unfold prune_authorizations. simpl. destruct (drop_expired_drop now (committed_deliveries s))
    as [k ->]. eexists. by rewrite drop_drop.
Qed.

Lemma prune_length now s :
  (length (committed_deliveries (prune_authorizations now s)) <= MAX_COMMITTED_AUTHORIZATIONS)%nat.
Proof. unfold prune_authorizations. simpl. rewrite length_drop. lia. Qed.

Definition expired (now : Z) (c : CommittedDelivery Value) : bool :=
  bool_decide (cd_retain_until c <> 0) && bool_decide (cd_retain_until c <= now).

(** Records in the order of their expiry. *)
Definition retain_sorted l : Prop := StronglySorted Z.le (cd_retain_until <$> l).

Lemma StronglySorted_drop {A} (R : relation A) k (l : list A) :
  StronglySorted R l -> StronglySorted R (drop k l).
Proof.
  revert k. induction l as [|x l IH]; intros [|k] Hs; simpl; try done.
  inversion Hs; subst. auto.
Qed.

Lemma StronglySorted_snoc {A} (R : relation A) (l : list A) x :
  StronglySorted R l -> Forall (fun y => R y x) l -> StronglySorted R (l ++ [x]).
Proof.
  induction 1 as [|y l Hs IH Hy]; intros Hall; simpl; [by repeat constructor|].
  apply Forall_cons in Hall as [Hyx Hall]. constructor; [by apply IH|].
  apply Forall_app. by rewrite Forall_singleton.
Qed.

Lemma StronglySorted_last {A} (R : relation A) (l : list A) x :
  StronglySorted R l -> last l = Some x -> (forall y, R y y) -> Forall (fun y => R y x) l.
Proof.
  induction 1 as [|y l Hs IH Hy]; intros Hl Hrefl; [done|].
  destruct l as [|z l]; simpl in Hl; [simplify_eq; repeat constructor; done|].
  constructor; [|by apply IH]. rewrite Forall_forall in Hy. apply Hy.
  by apply last_Some_elem_of.
Qed.

(** Popping the expired prefix is dropping every expired record: on
    records in expiry order, [prune_authorizations] keeps exactly the last
    [MAX_COMMITTED_AUTHORIZATIONS] of the records that are not expired. *)
Theorem prune_is_filter now s :
  retain_sorted (committed_deliveries s) ->
  Forall (fun c => 0 < cd_retain_until c) (committed_deliveries s) ->
  let live := List.filter (fun c => negb (expired now c)) (committed_deliveries s) in
  committed_deliveries (prune_authorizations now s) =
    drop (length live - MAX_COMMITTED_AUTHORIZATIONS) live.
Proof.
  intros Hs Hpos live. unfold prune_authorizations. simpl.
  assert (drop_expired now (committed_deliveries s) = live) as ->; [|done].
  subst live. unfold retain_sorted in Hs. clear -Hs Hpos.
  induction (committed_deliveries s) as [|c l IH]; [done|].
  inversion Hs as [|? ? Hs' Hc]; subst. rewrite Forall_fmap in Hc.
  apply Forall_cons in Hpos as [Hp Hpos]. simpl. fold (expired now c).
  destruct (expired now c) eqn:He; simpl; [by apply IH|]. f_equal. symmetry. simpl in Hc.
  assert (Hlate : now < cd_retain_until c).
  { unfold expired in He. rewrite bool_decide_true in He by lia. simpl in He.
    apply bool_decide_eq_false in He. lia. }
  clear -Hc Hlate. induction Hc as [|c' l Hc' _ IH]; simpl in *; [done|].
  unfold expired at 1. rewrite (bool_decide_false (_ <= now)) by lia.
  rewrite andb_false_r. simpl. by f_equal.
Qed.
End lookups.

(** * Reserving *)
Section reserving.
Context {Value : Type}.
Implicit Types (s : ChannelState Value) (r : AuthorizationRequest) (t : ReservationToken).

(** The request steps the watermark, on a channel that is open and free. *)
Definition reservable r s : Prop :=
  sealed s = false /\ close_requested_at s = None /\
  committed_authorization (ar_authorization_id r) s = None /\
  pending_deliveries s = [] /\
  u64_checked_add (cumulative s) (ar_amount r) = Some (ar_cumulative r).

Lemma classify_none id fp cumul now s :
  classify_authorization id fp cumul now s = None <->
  committed_authorization id s = None /\ pending_index id s = None.
Proof.
  unfold classify_authorization. destruct (committed_authorization id s) as [c|].
  { split; [by case_decide|by intros [? _]]. }
  destruct (pending_index id s) as [i|] eqn:Hi; simpl; [|done].
  apply pending_index_some in Hi as (p & Hp & _). rewrite Hp. simpl. naive_solver.
Qed.

Lemma others_cover now (l : list PendingDelivery) :
  existsb (fun p => negb (pd_handler_succeeded p) && bool_decide (pd_expires_at p <= now)) l = false ->
  existsb (fun p => pd_handler_succeeded p || bool_decide (now < pd_expires_at p)) l = false ->
  l = [].
Proof.
  destruct l as [|p l]; [done|]. simpl.
  destruct (pd_handler_succeeded p); simpl; [done|].
  repeat case_bool_decide; simpl; try done; lia.
Qed.

Lemma refuse_none r s : refuse_reservation r s = None <-> reservable r s.
Proof.
  unfold refuse_reservation, reservable. destruct (sealed s); simpl; [naive_solver|].
  case_bool_decide as Hclose; [by destruct Hclose as [? ->]; naive_solver|].
  apply eq_None_not_Some in Hclose.
  destruct (classify_authorization _ _ _ _ s) as [o|] eqn:Hc.
  - split; [done|]. intros (_ & _ & Hcomm & Hp & _).
    assert (Hn : committed_authorization (ar_authorization_id r) s = None /\
      pending_index (ar_authorization_id r) s = None).
    { split; [done|]. apply pending_index_none. by rewrite Hp. }
    apply (classify_none _ (ar_request_fingerprint r) (ar_cumulative r) (ar_now r)) in Hn.
    congruence.
  - apply classify_none in Hc as [Hcomm Hidx].
    assert (Hoth : List.filter (fun p => bool_decide (pd_delivery_id p <> ar_authorization_id r))
      (pending_deliveries s) = pending_deliveries s).
    { apply pending_index_none in Hidx. induction Hidx as [|p l Hp _ IH]; simpl; [done|].
      rewrite bool_decide_true by done. by f_equal. }
    rewrite Hoth. case_match eqn:H1; [|case_match eqn:H2].
    + split; [done|]. intros (_ & _ & _ & Hp & _). by rewrite Hp in H1.
    + split; [done|]. intros (_ & _ & _ & Hp & _). by rewrite Hp in H2.
    + pose proof (others_cover _ _ H1 H2). case_decide; naive_solver.
Qed.

(** What a taken reservation leaves. *)
Definition granted_token r s : ReservationToken := {|
  rt_authorization_id := ar_authorization_id r;
  rt_request_fingerprint := ar_request_fingerprint r;
  rt_cumulative := ar_cumulative r;
  rt_sequence := u64_saturating_add (next_delivery_sequence s) 1;
|}.
Definition granted_delivery r s : PendingDelivery := {|
  pd_delivery_id := ar_authorization_id r;
  pd_amount := ar_amount r;
  pd_sequence := u64_saturating_add (next_delivery_sequence s) 1;
  pd_expires_at := i64_saturating_add (ar_now r) (i64_wrap (ar_lease r));
  pd_request_fingerprint := Some (ar_request_fingerprint r);
  pd_handler_succeeded := false;
|}.

Lemma take_reservation_token r s : (take_reservation r s).1 = BatchReserved (granted_token r s).
Proof. done. Qed.

Lemma reserve_refused r s t :
  refuse_reservation r s <> Some (BatchReserved t).
Proof.
  unfold refuse_reservation, classify_authorization.
  repeat (case_match || simpl); try done; simplify_eq/=; try done.
  all: unfold mbind, option_bind in *; repeat case_match; simplify_eq/=; repeat case_match; done.
Qed.

Lemma reserve_reserved r s t s' :
  reserve_authorization r s = (BatchReserved t, s') ->
  reservable r s /\ t = granted_token r s /\
  pending_deliveries s' = [granted_delivery r s] /\
  next_delivery_sequence s' = u64_saturating_add (next_delivery_sequence s) 1 /\
  cumulative s' = cumulative s /\
  committed_deliveries s' = committed_deliveries (prune_authorizations (ar_now r) s).
Proof.
  unfold reserve_authorization. destruct (refuse_reservation r s) as [o|] eqn:Hr.
  - intros [= -> <-]. by apply reserve_refused in Hr.
  - apply refuse_none in Hr. intros [= <- <-]. split_and!; try done.
    simpl. destruct Hr as (_ & _ & _ & -> & _). done.
Qed.

(** A reservation is granted exactly when the channel is neither sealed
    nor closing, the authorization has no committed record, nothing at all is
    in flight, and the amount steps the watermark to the voucher's
    cumulative without overflow. Every other outcome changes nothing. *)
Theorem reserve_iff r s :
  ((exists t, (reserve_authorization r s).1 = BatchReserved t) <-> reservable r s) /\
  ((forall t, (reserve_authorization r s).1 <> BatchReserved t) ->
    (reserve_authorization r s).2 = s).
Proof.
  unfold reserve_authorization. destruct (refuse_reservation r s) as [o|] eqn:Hr; simpl.
  - split; [|done]. split.
    + intros [t ->]. by apply reserve_refused in Hr.
    + intros Hres%refuse_none. congruence.
  - split; [|by intros Hn; destruct (Hn (granted_token r s))].
    split; [|by eauto]. intros _. by apply refuse_none.
Qed.

(** A staged reservation is all or nothing: the setup is installed if
    and only if the reservation is granted with it, and then the record is
    that of the plain reservation plus the setup; a refusal or a failing
    stage leaves the record as it was. *)
Theorem staged_all_or_nothing r stage s :
  match reserve_authorization_staged r stage s with
  | (Ok (BatchReserved t), s') =>
      exists setup, stage s = Ok setup /\
        t = granted_token r s /\
        s' = with_pending_setup (or_else setup (pending_setup s)) (reserve_authorization r s).2
  | (_, s') => s' = s
  end.
Proof.
  unfold reserve_authorization_staged, reserve_authorization.
  destruct (refuse_reservation r s) as [o|] eqn:Hr.
  - destruct o; try done. by apply reserve_refused in Hr.
  - destruct (stage s) as [setup|e]; [|done]. simpl. exists setup. split_and!; try done.
    + by destruct setup.
    + destruct setup; [done|]. simpl. by destruct s.
Qed.
End reserving.

(** * Committing *)
Section committing.
Context {Value : Type}.
Implicit Types (s : ChannelState Value) (t : ReservationToken) (p : PendingDelivery)
  (c : CommittedDelivery Value) (resp : ChannelState Value -> option Value).

(** The commit of [t] charges the pending delivery at [i]. *)
Definition chargeable t s (i : nat) p : Prop :=
  token_pending_index t s = Ok i /\
  committed_authorization (rt_authorization_id t) s = None /\
  pending_deliveries s !! i = Some p /\
  pd_delivery_id p = rt_authorization_id t /\
  pd_request_fingerprint p = Some (rt_request_fingerprint t) /\
  pd_sequence p = rt_sequence t /\ next_delivery_sequence s <= rt_sequence t /\
  sealed s = false /\ final_cumulative s = None /\
  cumulative s + pd_amount p = rt_cumulative t /\ rt_cumulative t <= u64_max /\
  cumulative s <= rt_cumulative t.

Lemma commit_cases t sig exp now resp s r s' :
  commit_authorization t sig exp now resp s = (r, s') ->
  (s' = s /\ ((exists e, r = Err e) \/
     r = Ok tt /\ exists c, committed_authorization (rt_authorization_id t) s = Some c /\
       cd_request_fingerprint c = Some (rt_request_fingerprint t) /\
       cd_cumulative c = rt_cumulative t)) \/
  (r = Ok tt /\ exists i p, chargeable t s i p /\ s' = apply_commit t i sig exp now resp s).
Proof.
  unfold commit_authorization. destruct (committed_authorization _ s) as [c|] eqn:Hc.
  { case_decide as Hd; intros [= <- <-]; [left; eauto|]. left. split; [done|]. right.
    split; [done|]. exists c. split; [done|].
    destruct (decide (cd_request_fingerprint c = Some (rt_request_fingerprint t)));
      destruct (decide (cd_cumulative c = rt_cumulative t)); naive_solver. }
  destruct (token_pending_index t s) as [i|e] eqn:Hi; [|intros [= <- <-]; left; eauto].
  destruct (sealed s) eqn:Hs; [intros [= <- <-]; left; eauto|].
  destruct (final_cumulative s) eqn:Hf; [intros [= <- <-]; left; eauto|].
  case_decide as Hlow; [intros [= <- <-]; left; eauto|].
  case_decide as Hstep; [intros [= <- <-]; left; eauto|].
  intros [= <- <-]. right. split; [done|].
  destruct (token_pending_index_ok _ _ _ Hi) as (p & Hp & Hid & Hfp & Hseq & Hnext).
  exists i, p. split; [|done]. rewrite Hp in Hstep. simpl in Hstep.
  destruct (u64_checked_add _ _) as [z|] eqn:Hadd; [|done].
  destruct (decide (z = rt_cumulative t)); [|naive_solver]. subst z.
  apply u64_checked_add_some in Hadd as [? ?]. repeat split; try done; lia.
Qed.

Lemma charged_state_fields t i sig exp now s :
  let s1 := charged_state t i sig exp now s in
  cumulative s1 = rt_cumulative t /\
  pending_deliveries s1 = vec_remove i (pending_deliveries s) /\
  spent_amount s1 = Z.max (spent_amount s) (rt_cumulative t) /\
  sealed s1 = sealed s /\ final_cumulative s1 = final_cumulative s /\
  close_requested_at s1 = close_requested_at s /\
  next_delivery_sequence s1 = next_delivery_sequence s /\
  highest_voucher_signature s1 = Some sig /\ highest_voucher_expires_at s1 = Some exp.
Proof. intros s1. repeat split. Qed.

(** The records of the charged state. *)
Lemma charged_state_records t i sig exp now s :
  exists k, committed_deliveries (charged_state t i sig exp now s) =
    drop k (committed_deliveries s ++ [committed_record t sig exp now s]).
Proof.
  unfold charged_state. cbn zeta.
  match goal with |- context [prune_authorizations now ?x] =>
    destruct (prune_drop now x) as [k ->] end. by exists k.
Qed.

Lemma apply_commit_fields t i sig exp now resp s :
  let s' := apply_commit t i sig exp now resp s in
  cumulative s' = rt_cumulative t /\
  pending_deliveries s' = vec_remove i (pending_deliveries s) /\
  spent_amount s' = Z.max (spent_amount s) (rt_cumulative t) /\
  sealed s' = sealed s /\ final_cumulative s' = final_cumulative s /\
  close_requested_at s' = close_requested_at s /\
  next_delivery_sequence s' = next_delivery_sequence s /\
  highest_voucher_signature s' = Some sig /\ highest_voucher_expires_at s' = Some exp.
Proof.
  intros s'. subst s'. pose proof (charged_state_fields t i sig exp now s) as Hf.
  unfold apply_commit. cbn zeta in *. generalize dependent (charged_state t i sig exp now s).
  intros s1 Hf. case_match; exact Hf.
Qed.

(** Up to the stored response, the commit appends one record and prunes. *)
Lemma apply_commit_records {B} (f : CommittedDelivery Value -> B) t i sig exp now resp s :
  (forall r c, f (with_settlement_response r c) = f c) ->
  exists k, f <$> committed_deliveries (apply_commit t i sig exp now resp s) =
    drop k ((f <$> committed_deliveries s) ++ [f (committed_record t sig exp now s)]).
Proof.
  intros Hf. destruct (charged_state_records t i sig exp now s) as [k Hk].
  unfold apply_commit. cbn zeta.
  set (s1 := charged_state t i sig exp now s) in *.
  exists k. change [f ?c] with (f <$> [c]). rewrite <-fmap_app, <-fmap_drop.
  rewrite <-Hk. clearbody s1. case_match; [|done]. simpl.
  apply list_eq. intros j. rewrite !list_lookup_fmap.
  destruct (decide (j = n)) as [->|].
  - rewrite list_lookup_alter_eq. destruct (committed_deliveries s1 !! n); simpl; by rewrite ?Hf.
  - by rewrite list_lookup_alter_ne.
Qed.

Lemma drop_expired_keeps now (l : list (CommittedDelivery Value)) c :
  expired now c = false ->
  exists k, (k <= length l)%nat /\ drop_expired now (l ++ [c]) = drop k l ++ [c].
Proof.
  intros He. induction l as [|c' l (k & Hk & IH)]; simpl.
  - exists 0%nat. unfold expired in He. rewrite He. split; [lia|done].
  - case_match; [exists (S k)|exists 0%nat]; (split; [simpl; lia|done]).
Qed.

Lemma prune_keeps_last now s l c :
  committed_deliveries s = l ++ [c] -> expired now c = false ->
  exists k, committed_deliveries (prune_authorizations now s) = drop k l ++ [c].
Proof.
  intros Hl He. unfold prune_authorizations. simpl. rewrite Hl.
  destruct (drop_expired_keeps now l c He) as (k & Hk & ->).
  rewrite drop_app_le; [|rewrite length_app, length_drop; unfold MAX_COMMITTED_AUTHORIZATIONS;
    simpl; lia]. rewrite drop_drop. eauto.
Qed.

Lemma position_snoc {A} (f : A -> bool) l x :
  Forall (fun y => f y = false) l -> f x = true -> position f (l ++ [x]) = Some (length l).
Proof.
  induction 1 as [|y l Hy _ IH]; simpl; intros Hx; [by rewrite Hx|]. by rewrite Hy, IH.
Qed.

(** A charged record is found again with its response. *)
Lemma apply_commit_found t i sig exp now resp s :
  committed_authorization (rt_authorization_id t) s = None ->
  in_i64 now -> now < i64_max ->
  committed_authorization (rt_authorization_id t) (apply_commit t i sig exp now resp s) =
    Some (with_settlement_response (resp (charged_state t i sig exp now s))
            (committed_record t sig exp now s)).
Proof.
  intros Hnone Hnow Hmax. apply committed_none in Hnone.
  set (rec := committed_record t sig exp now s).
  assert (exists k, committed_deliveries (charged_state t i sig exp now s) =
    drop k (committed_deliveries s) ++ [rec]) as [k Hk].
  { unfold charged_state. cbn zeta. apply prune_keeps_last; [done|].
    unfold expired. rewrite (bool_decide_false (cd_retain_until rec <= now)), andb_false_r; [done|].
    unfold rec. simpl. unfold DEFAULT_CHARGE_RECORD_RETENTION. zlia. }
  assert (Hdrop : Forall (fun c => cd_delivery_id c <> rt_authorization_id t)
    (drop k (committed_deliveries s))) by by apply Forall_drop.
  unfold apply_commit. cbn zeta. rewrite Hk, position_snoc.
  - unfold committed_authorization. simpl.
    rewrite alter_app_r_alt, Nat.sub_diag by lia. simpl.
    clear -Hdrop. induction Hdrop as [|c l Hc _ IH]; simpl.
    + by rewrite bool_decide_true.
    + by rewrite bool_decide_false.
  - eapply Forall_impl; [exact Hdrop|]. intros c Hc. by apply bool_decide_eq_false.
  - by apply bool_decide_eq_true.
Qed.

(** C22. A commit charges exactly the step that was reserved, once: it either
    fails and changes nothing, or finds its own committed record and changes
    nothing, or removes the reservation and moves the watermark from where it
    stood by the reserved amount to the voucher's cumulative - on a channel
    that is neither sealed nor fenced. *)
Theorem commit_spec t sig exp now resp s :
  match commit_authorization t sig exp now resp s with
  | (Err _, s') => s' = s
  | (Ok _, s') =>
      s' = s /\ (exists c, committed_authorization (rt_authorization_id t) s = Some c /\
        cd_request_fingerprint c = Some (rt_request_fingerprint t) /\
        cd_cumulative c = rt_cumulative t) \/
      exists i p, chargeable t s i p /\
        cumulative s' = rt_cumulative t /\ cumulative s' = cumulative s + pd_amount p /\
        pending_deliveries s' = vec_remove i (pending_deliveries s) /\
        spent_amount s' = Z.max (spent_amount s) (rt_cumulative t)
  end.
Proof.
  destruct (commit_authorization _ _ _ _ _ s) as [r s'] eqn:Hc.
  apply commit_cases in Hc as [[-> [[e ->]|[-> Hc]]]|[-> (i & p & Hch & ->)]]; [done|by left|].
  right. exists i, p. destruct (apply_commit_fields t i sig exp now resp s)
    as (Hcum & Hpend & Hspent & _). split; [done|].
  destruct Hch as (_ & _ & _ & _ & _ & _ & _ & _ & _ & Hadd & _).
  split_and!; [done|congruence|done|done].
Qed.

(** A lost response is answered from the record: once a commit charged,
    committing again succeeds without a second charge, and a new presentation
    of the authorization is answered [Committed] (or [Conflict] under another
    fingerprint) with the response the commit stored. *)
Theorem commit_then_replay t sig exp now resp s i p :
  chargeable t s i p -> in_i64 now -> now < i64_max ->
  exists s' c, commit_authorization t sig exp now resp s = (Ok tt, s') /\
    committed_authorization (rt_authorization_id t) s' = Some c /\
    cd_amount c = pd_amount p /\ cd_voucher_signature c = sig /\
    cd_settlement_response c = resp (charged_state t i sig exp now s) /\
    (forall sig' exp' now' resp',
      commit_authorization t sig' exp' now' resp' s' = (Ok tt, s')) /\
    (forall r, ar_authorization_id r = rt_authorization_id t -> close_requested_at s = None ->
      reserve_authorization r s' =
        (if decide (ar_request_fingerprint r = rt_request_fingerprint t)
         then BatchCommitted else BatchConflict, s')).
Proof.
  intros Hch Hnow Hmax. pose proof Hch as (Hidx & Hnone & Hp & Hid & Hfp & Hseq & Hnext & Hs &
    Hf & Hadd & Hle & Hlow).
  set (s' := apply_commit t i sig exp now resp s).
  assert (Hcommit : commit_authorization t sig exp now resp s = (Ok tt, s')).
  { unfold commit_authorization. rewrite Hnone, Hidx, Hs, Hf, decide_False by lia.
    rewrite Hp. simpl. rewrite decide_False; [done|].
    intros Hn. apply Hn. apply u64_checked_add_some. lia. }
  destruct (apply_commit_fields t i sig exp now resp s) as (_ & _ & _ & Hs' & _ & Hc' & _).
  pose proof (apply_commit_found t i sig exp now resp s Hnone Hnow Hmax) as Hfound.
  fold s' in Hs', Hc', Hfound. clearbody s'. eexists s', _.
  split; [done|]. split; [exact Hfound|]. simpl. split; [lia|]. split; [done|]. split; [done|].
  split.
  - intros sig' exp' now' resp'. unfold commit_authorization. rewrite Hfound. simpl.
    rewrite decide_False; [done|]. intros [Hn|Hn]; by apply Hn.
  - intros r Hr Hclose. unfold reserve_authorization, refuse_reservation.
    rewrite Hs', Hs, Hc', Hclose, Hr. simpl. unfold classify_authorization. rewrite Hfound. simpl.
    destruct (decide (ar_request_fingerprint r = rt_request_fingerprint t)) as [->|Hne].
    + rewrite decide_False; [done|]. intros Hn. by apply Hn.
    + rewrite decide_True; [done|]. intros [= Heq]. by apply Hne.
Qed.
End committing.

(** * Runs of a channel *)
Section runs.
Context {Value : Type} `{SerdeJson Value}.
Implicit Types (s : ChannelState Value) (t : ReservationToken) (p : PendingDelivery)
  (c : CommittedDelivery Value).

(** The transitions the server makes on a channel record in the
    authorization flow. *)
Inductive auth_op :=
| OpReserve (r : AuthorizationRequest)
| OpStaged (r : AuthorizationRequest)
    (stage : ChannelState Value -> result (option PendingSetup) StoreError)
| OpMark (t : ReservationToken)
| OpRelease (id fingerprint : string)
| OpCommit (t : ReservationToken) (sig : string) (exp now : Z)
    (resp : ChannelState Value -> option Value)
| OpAttach (id : string) (cached : CachedUpstreamResponse)
| OpObserve (o : OnchainObservation) (now : Z)
| OpPrune (now : Z)
| OpFreeze (cumul : Z).

Inductive auth_out :=
| OutReservation (r : result BatchReservation StoreError)
| OutUnit (r : result unit StoreError)
| OutObservation (o : ObservationOutcome)
| OutNone.

Definition auth_apply (op : auth_op) s : auth_out * ChannelState Value :=
  match op with
  | OpReserve r => let '(o, s) := reserve_authorization r s in (OutReservation (Ok o), s)
  | OpStaged r stage =>
      let '(o, s) := reserve_authorization_staged r stage s in (OutReservation o, s)
  | OpMark t => let '(o, s) := mark_authorization_handler_succeeded t s in (OutUnit o, s)
  | OpRelease id fp => let '(o, s) := release_authorization id fp s in (OutUnit o, s)
  | OpCommit t sig exp now resp =>
      let '(o, s) := commit_authorization t sig exp now resp s in (OutUnit o, s)
  | OpAttach id cached => (OutNone, attach_cached_response id cached s)
  | OpObserve o now => let '(o, s) := record_onchain_observation o now s in (OutObservation o, s)
  | OpPrune now => (OutNone, prune_authorizations now s)
  | OpFreeze cumul => (OutNone, freeze_watermark_at cumul s)
  end.

Inductive auth_run : ChannelState Value -> list (auth_op * auth_out) -> ChannelState Value -> Prop :=
| auth_run_nil s : auth_run s [] s
| auth_run_cons s op out s1 tr s2 :
    auth_apply op s = (out, s1) -> auth_run s1 tr s2 -> auth_run s ((op, out) :: tr) s2.

(** A transition seen from the fields it may change. *)
Inductive auth_change : ChannelState Value -> ChannelState Value -> Prop :=
| change_records s s' k :
    (** only the flags, the fences and the tail of the records changed *)
    pending_deliveries s' = pending_deliveries s -> cumulative s' = cumulative s ->
    next_delivery_sequence s' = next_delivery_sequence s ->
    (sealed s = true -> sealed s' = true) ->
    (is_Some (final_cumulative s) -> is_Some (final_cumulative s')) ->
    (forall B (f : CommittedDelivery Value -> B), (forall r c, f (with_cached_response r c) = f c) ->
      f <$> committed_deliveries s' = drop k (f <$> committed_deliveries s)) ->
    auth_change s s'
| change_reserved s s' r k :
    reservable r s -> 0 <= ar_amount r -> pending_deliveries s' = [granted_delivery r s] ->
    cumulative s' = cumulative s ->
    next_delivery_sequence s' = u64_saturating_add (next_delivery_sequence s) 1 ->
    sealed s' = sealed s -> final_cumulative s' = final_cumulative s ->
    committed_deliveries s' = drop k (committed_deliveries s) ->
    auth_change s s'
| change_marked s t i :
    token_pending_index t s = Ok i ->
    auth_change s (with_pending_deliveries (alter succeeded i (pending_deliveries s)) s)
| change_released s i p :
    pending_deliveries s !! i = Some p -> pd_handler_succeeded p = false ->
    auth_change s (with_pending_deliveries (vec_remove i (pending_deliveries s)) s)
| change_charged s t i p sig exp now resp :
    chargeable t s i p -> auth_change s (apply_commit t i sig exp now resp s).

Lemma change_refl s : auth_change s s.
Proof. by apply (change_records s s 0). Qed.

Lemma change_prune now s : auth_change s (prune_authorizations now s).
Proof.
  destruct (prune_drop now s) as [k Hk]. apply (change_records _ _ k); try done.
  intros B f _. by rewrite Hk, fmap_drop.
Qed.

Lemma change_attach id cached s : auth_change s (attach_cached_response id cached s).
Proof.
  unfold attach_cached_response. case_match; [|apply change_refl].
  apply (change_records _ _ 0); try done. intros B f Hf. simpl. rewrite drop_0.
  apply list_eq. intros j. rewrite !list_lookup_fmap.
  destruct (decide (j = n)) as [->|].
  - rewrite list_lookup_alter_eq. destruct (committed_deliveries s !! n); simpl; by rewrite ?Hf.
  - by rewrite list_lookup_alter_ne.
Qed.

Lemma change_observe o now s : auth_change s (observe (o, now) s).
Proof.
  apply (change_records _ _ 0).
  all: unfold observe, record_onchain_observation; simpl.
  all: try intros B f _.
  all: repeat case_match; simpl; rewrite ?sealed_fences, ?drop_0; try done.
  all: try (intros ->; done).
  all: destruct (observed o) as [| |[|]]; done.
Qed.

Lemma granted_change r setup s :
  reservable r s -> in_u64 (ar_amount r) ->
  auth_change s (take_reservation r (with_pending_setup setup s)).2.
Proof.
  intros Hr [Ha _]. destruct (prune_drop (ar_now r) (with_pending_setup setup s)) as [k Hk].
  apply (change_reserved _ _ r k); try done.
  destruct Hr as (_ & _ & _ & Hp & _). simpl. by rewrite Hp.
Qed.

Lemma with_pending_setup_id s : with_pending_setup (pending_setup s) s = s.
Proof. by destruct s. Qed.

(** The request's amount is a [u64]. *)
Definition op_typed (op : auth_op) : Prop :=
  match op with OpReserve r | OpStaged r _ => in_u64 (ar_amount r) | _ => True end.

Lemma auth_apply_change op s out s' :
  auth_apply op s = (out, s') -> op_typed op -> auth_change s s'.
Proof.
  intros Ha Hty. revert Ha.
  destruct op as [r|r stage|t|id fp|t sig exp now resp|id cached|o now|now|cumul];
    simpl in Hty |- *.
  - unfold reserve_authorization. destruct (refuse_reservation r s) eqn:Hr.
    + intros [= <- <-]. apply change_refl.
    + apply refuse_none in Hr. intros [= <- <-]. rewrite <-(with_pending_setup_id s) at 2.
      by apply granted_change.
  - unfold reserve_authorization_staged. destruct (refuse_reservation r s) eqn:Hr.
    + intros [= <- <-]. apply change_refl.
    + apply refuse_none in Hr. destruct (stage s) as [[setup|]|e]; intros [= <- <-].
      * by apply (granted_change r (Some setup)).
      * rewrite <-(with_pending_setup_id s) at 2. by apply granted_change.
      * apply change_refl.
  - unfold mark_authorization_handler_succeeded.
    repeat case_match; intros; simplify_eq; try apply change_refl. by eapply change_marked.
  - unfold release_authorization. destruct (owned_pending_index id fp s) as [[i|]|] eqn:Hi.
    + case_decide as Hs; intros [= <- <-]; [apply change_refl|].
      apply owned_pending_index_some in Hi as (p & Hp & _). rewrite Hp in Hs. simpl in Hs.
      eapply change_released; [exact Hp|]. by destruct (pd_handler_succeeded p).
    + intros [= <- <-]. apply change_refl.
    + intros [= <- <-]. apply change_refl.
  - destruct (commit_authorization _ _ _ _ _ s) as [o s1] eqn:Hc. intros [= <- <-].
    apply commit_cases in Hc as [[-> _]|[_ (i & p & Hch & ->)]]; [apply change_refl|].
    by eapply change_charged.
  - intros [= <- <-]. apply change_attach.
  - destruct (record_onchain_observation o now s) as [o' s1] eqn:Ho. intros [= <- <-].
    pose proof (change_observe o now s) as Hc. unfold observe in Hc. simpl in Hc.
    by rewrite Ho in Hc.
  - intros [= <- <-]. apply change_prune.
  - intros [= <- <-]. apply (change_records _ _ 0); try done.
Qed.

(** ** The invariant *)

(** Records of amounts and cumulatives: consecutive steps up to [w]. *)
Fixpoint telescopes (l : list (Z * Z)) (w : Z) : Prop :=
  match l with
  | [] => True
  | (amount, cumul) :: l' =>
      0 <= amount /\ cumul = match l' with [] => w | (a', c') :: _ => c' - a' end /\
      telescopes l' w
  end.

Definition steps_of (l : list (CommittedDelivery Value)) : list (Z * Z) :=
  (fun c => (cd_amount c, cd_cumulative c)) <$> l.

Lemma telescopes_drop k l w : telescopes l w -> telescopes (drop k l) w.
Proof.
  revert k. induction l as [|[a c] l IH]; intros [|k]; simpl; try done.
  intros (_ & _ & ?). auto.
Qed.

Lemma telescopes_snoc l w a :
  telescopes l w -> 0 <= a -> telescopes (l ++ [(a, w + a)]) (w + a).
Proof.
  induction l as [|[a0 c0] l IH]; simpl; [done|]. intros (? & Hc & Ht) Ha.
  split; [done|]. split; [|by apply IH].
  destruct l as [|[a1 c1] l]; simpl; [lia|done].
Qed.

Definition ids_of s : list string :=
  (pd_delivery_id <$> pending_deliveries s) ++ (cd_delivery_id <$> committed_deliveries s).

Record auth_ok s : Prop := {
  ok_length : (length (committed_deliveries s) <= MAX_COMMITTED_AUTHORIZATIONS)%nat;
  ok_steps : telescopes (steps_of (committed_deliveries s)) (cumulative s);
  ok_retain : retain_sorted (committed_deliveries s);
  ok_ids : NoDup (ids_of s);
  ok_one : (length (pending_deliveries s) <= 1)%nat;
  ok_sequence : Forall (fun p => pd_sequence p <= next_delivery_sequence s) (pending_deliveries s);
  ok_amount : Forall (fun p => 0 <= pd_amount p) (pending_deliveries s);
  ok_cumulative : cumulative s <= u64_max;
}.

Lemma NoDup_drop {A} k (l : list A) : NoDup l -> NoDup (drop k l).
Proof. intros Hn. rewrite <-(take_drop k l) in Hn. by apply NoDup_app in Hn as (_ & _ & ?). Qed.

Lemma NoDup_app_drop {A} (l l' : list A) k : NoDup (l ++ l') -> NoDup (l ++ drop k l').
Proof.
  rewrite !NoDup_app. intros (? & Hd & ?). split_and!; [done| |by apply NoDup_drop].
  intros x Hx Hin. apply (Hd x Hx).
  rewrite <-(take_drop k l'), elem_of_app. by right.
Qed.

Lemma fields_records s s' k :
  (forall B (f : CommittedDelivery Value -> B), (forall r c, f (with_cached_response r c) = f c) ->
    f <$> committed_deliveries s' = drop k (f <$> committed_deliveries s)) ->
  (length (committed_deliveries s') <= length (committed_deliveries s))%nat /\
  steps_of (committed_deliveries s') = drop k (steps_of (committed_deliveries s)) /\
  (cd_retain_until <$> committed_deliveries s') = drop k (cd_retain_until <$> committed_deliveries s) /\
  (cd_delivery_id <$> committed_deliveries s') = drop k (cd_delivery_id <$> committed_deliveries s).
Proof.
  intros Hf. split_and!; try by apply Hf.
  pose proof (f_equal length (Hf _ cd_delivery_id (fun _ _ => eq_refl))) as Hl.
  rewrite length_drop, !length_fmap in Hl. lia.
Qed.

Lemma ok_records s s' k :
  auth_ok s -> pending_deliveries s' = pending_deliveries s -> cumulative s' = cumulative s ->
  next_delivery_sequence s' = next_delivery_sequence s ->
  (forall B (f : CommittedDelivery Value -> B), (forall r c, f (with_cached_response r c) = f c) ->
    f <$> committed_deliveries s' = drop k (f <$> committed_deliveries s)) ->
  auth_ok s'.
Proof.
  intros [] Hp Hc Hn Hf. destruct (fields_records _ _ _ Hf) as (Hl & Hs & Hr & Hi).
  split; rewrite ?Hp, ?Hc, ?Hn; try done.
  - lia.
  - rewrite Hs. by apply telescopes_drop.
  - unfold retain_sorted. rewrite Hr. by apply StronglySorted_drop.
  - unfold ids_of. rewrite Hp, Hi. by apply NoDup_app_drop.
Qed.

Lemma ok_reserved s s' r k :
  auth_ok s -> reservable r s -> 0 <= ar_amount r ->
  pending_deliveries s' = [granted_delivery r s] -> cumulative s' = cumulative s ->
  next_delivery_sequence s' = u64_saturating_add (next_delivery_sequence s) 1 ->
  committed_deliveries s' = drop k (committed_deliveries s) ->
  auth_ok s'.
Proof.
  intros [] (_ & _ & Hnone & Hp0 & _) Ha Hp Hc Hn Hd.
  split; rewrite ?Hp, ?Hc, ?Hn, ?Hd; try done.
  - rewrite length_drop. lia.
  - unfold steps_of. rewrite fmap_drop. by apply telescopes_drop.
  - unfold retain_sorted. rewrite fmap_drop. by apply StronglySorted_drop.
  - unfold ids_of. rewrite Hp, Hd, fmap_drop. apply NoDup_app_drop. simpl.
    apply NoDup_cons. unfold ids_of in ok_ids0. rewrite Hp0 in ok_ids0. split; [|done].
    apply committed_none in Hnone. rewrite Forall_forall in Hnone.
    intros (c & Hid & Hin)%list_elem_of_fmap. by destruct (Hnone c Hin).
  - repeat constructor. simpl. lia.
  - by repeat constructor.
Qed.

Lemma ids_of_succeeded i s :
  pd_delivery_id <$> alter succeeded i (pending_deliveries s) =
  pd_delivery_id <$> pending_deliveries s.
Proof.
  apply list_eq. intros j. rewrite !list_lookup_fmap. destruct (decide (i = j)) as [->|].
  - rewrite list_lookup_alter_eq. by destruct (pending_deliveries s !! j).
  - by rewrite list_lookup_alter_ne.
Qed.

Lemma Forall_succeeded (P : PendingDelivery -> Prop) i l :
  (forall p, P p -> P (succeeded p)) -> Forall P l -> Forall P (alter succeeded i l).
Proof. intros HP Hl. by apply Forall_alter; [|intros; apply HP]. Qed.

Lemma ok_marked s i :
  auth_ok s -> auth_ok (with_pending_deliveries (alter succeeded i (pending_deliveries s)) s).
Proof.
  intros []. split; simpl; try done.
  - unfold ids_of. simpl. by rewrite ids_of_succeeded.
  - by rewrite length_alter.
  - by apply Forall_succeeded.
  - by apply Forall_succeeded.
Qed.

Lemma Forall_vec_remove {A} (P : A -> Prop) i l : Forall P l -> Forall P (vec_remove i l).
Proof. intros. unfold vec_remove. apply Forall_app. by split; [apply Forall_take|apply Forall_drop]. Qed.

Lemma length_vec_remove {A} i (l : list A) : (length (vec_remove i l) <= length l)%nat.
Proof. unfold vec_remove. rewrite length_app, length_take, length_drop. lia. Qed.

Lemma vec_remove_sublist {A} i (l : list A) : vec_remove i l `sublist_of` l.
Proof. rewrite vec_remove_delete. apply sublist_delete. Qed.

Lemma ok_released s i :
  auth_ok s -> auth_ok (with_pending_deliveries (vec_remove i (pending_deliveries s)) s).
Proof.
  intros []. split; simpl; try done.
  - eapply sublist_NoDup; [exact ok_ids0|]. unfold ids_of. simpl.
    apply sublist_app; [|done]. apply fmap_sublist, vec_remove_sublist.
  - pose proof (length_vec_remove i (pending_deliveries s)). lia.
  - by apply Forall_vec_remove.
  - by apply Forall_vec_remove.
Qed.

Lemma single_pending s i p :
  (length (pending_deliveries s) <= 1)%nat -> pending_deliveries s !! i = Some p ->
  i = 0%nat /\ pending_deliveries s = [p].
Proof.
  destruct (pending_deliveries s) as [|q [|q' l]]; simpl; intros Hl Hp; [done| |lia].
  destruct i; simplify_eq/=. done.
Qed.

Lemma last_retain_bound s :
  retain_sorted (committed_deliveries s) ->
  Forall (fun z => z <= default 0 (cd_retain_until <$> last (committed_deliveries s)))
    (cd_retain_until <$> committed_deliveries s).
Proof.
  intros Hs. destruct (last (committed_deliveries s)) as [c|] eqn:Hl.
  - apply (StronglySorted_last Z.le); [done| |intros; lia]. simpl. rewrite fmap_last, Hl. done.
  - apply last_None in Hl. by rewrite Hl.
Qed.

Lemma ok_charged s t i p sig exp now resp :
  auth_ok s -> chargeable t s i p -> auth_ok (apply_commit t i sig exp now resp s).
Proof.
  intros [] (_ & Hnone & Hp & Hid & _ & _ & _ & _ & _ & Hadd & Hle & Hlow).
  destruct (single_pending _ _ _ ok_one0 Hp) as [-> Hp1].
  destruct (apply_commit_fields t 0 sig exp now resp s)
    as (Hc & Hpend & _ & _ & _ & _ & Hnext & _).
  assert (Hrec : forall B (f : CommittedDelivery Value -> B), (forall r c, f (with_settlement_response r c) = f c) ->
    exists k, f <$> committed_deliveries (apply_commit t 0 sig exp now resp s) =
      drop k ((f <$> committed_deliveries s) ++ [f (committed_record t sig exp now s)]))
    by (intros; by apply apply_commit_records).
  rewrite Hp1 in Hpend. split; rewrite ?Hc, ?Hpend, ?Hnext; try done; try (simpl; lia).
  - unfold apply_commit, charged_state. cbn zeta.
    match goal with |- context [prune_authorizations now ?x] =>
      pose proof (prune_length now x) as Hl; generalize dependent (prune_authorizations now x) end.
    intros s1 Hl. case_match; [simpl; by rewrite length_alter|done].
  - destruct (Hrec _ (fun c => (cd_amount c, cd_cumulative c)) (fun _ _ => eq_refl)) as [k Hk].
    unfold steps_of. rewrite Hk. apply telescopes_drop. simpl.
    replace (rt_cumulative t) with (cumulative s + (rt_cumulative t - cumulative s)) at 2 3 by lia.
    apply telescopes_snoc; [done|lia].
  - destruct (Hrec _ cd_retain_until (fun _ _ => eq_refl)) as [k Hk].
    unfold retain_sorted. rewrite Hk. apply StronglySorted_drop, StronglySorted_snoc; [done|].
    eapply Forall_impl; [by apply last_retain_bound|]. simpl. intros z Hz. lia.
  - destruct (Hrec _ cd_delivery_id (fun _ _ => eq_refl)) as [k Hk].
    unfold ids_of in *. rewrite Hpend, Hk. simpl. apply NoDup_drop, NoDup_app.
    rewrite Hp1 in ok_ids0. simpl in ok_ids0. apply NoDup_cons in ok_ids0 as [Hni Hnd].
    split_and!; [done| |by apply NoDup_singleton].
    intros x Hx ->%list_elem_of_singleton. apply Hni. by rewrite Hid.
Qed.

Lemma ok_change s s' : auth_change s s' -> auth_ok s -> auth_ok s' /\ cumulative s <= cumulative s'.
Proof.
  intros Hch Hok. destruct Hch.
  - split; [by eapply ok_records|lia].
  - split; [by eapply ok_reserved|lia].
  - split; [by apply ok_marked|simpl; lia].
  - split; [by apply ok_released|simpl; lia].
  - split; [by eapply ok_charged|]. destruct (apply_commit_fields t i sig exp now resp s) as (-> & _).
    apply H0.
Qed.

(** C29. The invariant of a channel record: at most one authorization in
    flight, no id recorded twice, at most [MAX_COMMITTED_AUTHORIZATIONS]
    committed records, in expiry order, whose amounts are the consecutive
    steps that lead to the watermark. Every transition keeps it, and the
    watermark never falls. *)
Theorem auth_invariant s tr s' :
  auth_ok s -> auth_run s tr s' -> Forall (fun e => op_typed e.1) tr ->
  auth_ok s' /\ cumulative s <= cumulative s'.
Proof.
  intros Hok Hrun. induction Hrun as [s|s op out s1 tr s2 Ha Hrun IH]; intros Hty.
  - split; [done|lia].
  - apply Forall_cons in Hty as [Hop Hty]. apply auth_apply_change in Ha; [|done].
    apply ok_change in Ha as [Hok1 Hle]; [|done]. destruct (IH Hok1 Hty). split; [done|lia].
Qed.

Definition frozen s : Prop := sealed s = true \/ is_Some (final_cumulative s).

Lemma frozen_change s s' :
  auth_change s s' -> frozen s -> frozen s' /\ cumulative s' = cumulative s.
Proof.
  unfold frozen. intros [s1 s2 k _ Hc _ Hs Hf _|s1 s2 r k _ _ _ Hc _ Hs Hf _|s1 t i _|s1 i p _ _
    |s1 t i p sig exp now resp Hch] Hfr.
  - split; [naive_solver|done].
  - rewrite Hs, Hf. done.
  - done.
  - done.
  - destruct Hch as (_ & _ & _ & _ & _ & _ & _ & Hs & Hf & _). rewrite Hs, Hf in Hfr.
    destruct Hfr as [|[? ?]]; done.
Qed.

(** C30. Once the channel is sealed or the close finalizer fixed its amount,
    no transition moves the watermark, whatever was in flight: fixing the
    amount at the watermark leaves no charge above it, then or ever. *)
Theorem frozen_watermark s tr s' :
  frozen s -> auth_run s tr s' -> Forall (fun e => op_typed e.1) tr ->
  frozen s' /\ cumulative s' = cumulative s.
Proof.
  intros Hf Hrun. induction Hrun as [s|s op out s1 tr s2 Ha Hrun IH]; intros Hty; [done|].
  apply Forall_cons in Hty as [Hop Hty]. apply auth_apply_change in Ha; [|done].
  apply frozen_change in Ha as [Hf1 Heq]; [|done]. destruct (IH Hf1 Hty). split; [done|congruence].
Qed.

(** ** A succeeded handler is never run again *)

(** The transition granted the request [r]. *)
Definition grants (r : AuthorizationRequest) (e : auth_op * auth_out) : Prop :=
  (e.1 = OpReserve r \/ exists stage, e.1 = OpStaged r stage) /\
  exists t, e.2 = OutReservation (Ok (BatchReserved t)).

Lemma grants_reservable r op out s s' :
  auth_apply op s = (out, s') -> grants r (op, out) -> reservable r s.
Proof.
  intros Ha [[Hop|[stage Hop]] [t Hout]]; simpl in *; subst; simpl in Ha.
  - unfold reserve_authorization in Ha. destruct (refuse_reservation r s) eqn:Hr.
    + simplify_eq. by apply reserve_refused in Hr.
    + by apply refuse_none.
  - unfold reserve_authorization_staged in Ha. destruct (refuse_reservation r s) eqn:Hr.
    + simplify_eq. by apply reserve_refused in Hr.
    + by apply refuse_none.
Qed.

(** The handler succeeded for the voucher of cumulative [C]: its reservation
    still waits to be committed, or the watermark is there. *)
Definition served (C : Z) s : Prop :=
  (exists p, pending_deliveries s = [p] /\ pd_handler_succeeded p = true /\
     cumulative s + pd_amount p = C) \/ C <= cumulative s.

Lemma served_change C s s' : auth_change s s' -> served C s -> served C s'.
Proof.
  intros Hch [(p & Hp & Hs & Hadd)|Hle].
  - destruct Hch as [s1 s2 k Hp' Hc _ _ _ _|s1 s2 r k Hr _ _ Hc _ _ _ _|s1 t i Hi|s1 i p' Hp' Hs'
      |s1 t i p' sig exp now resp Hch].
    + left. exists p. by rewrite Hp', Hc.
    + destruct Hr as (_ & _ & _ & Hnil & _). congruence.
    + left. simpl. apply token_pending_index_ok in Hi as (q & Hq & _). rewrite Hp in Hq |- *.
      destruct i; simplify_eq/=. by exists (succeeded q).
    + rewrite Hp in Hp'. destruct i; simplify_eq/=. congruence.
    + right. destruct (apply_commit_fields t i sig exp now resp s1) as (-> & _).
      destruct Hch as (_ & _ & Hp' & _ & _ & _ & _ & _ & _ & Hadd' & _).
      rewrite Hp in Hp'. destruct i; simplify_eq/=. lia.
  - right. destruct Hch as [s1 s2 k Hp' Hc _ _ _ _|s1 s2 r k Hr _ _ Hc _ _ _ _|s1 t i Hi|s1 i p' Hp' Hs'
      |s1 t i p' sig exp now resp Hch]; simpl; try lia.
    destruct (apply_commit_fields t i sig exp now resp s1) as (-> & _).
    destruct Hch as (_ & _ & _ & _ & _ & _ & _ & _ & _ & _ & _ & Hlow). lia.
Qed.

(** A granted request that charges something is above [C]; one that charges nothing
    may sit at it. *)
Definition not_below (C : Z) (r : AuthorizationRequest) : Prop :=
  C < ar_cumulative r \/ (ar_cumulative r = C /\ ar_amount r = 0).

Lemma served_not_granted C s tr s' :
  served C s -> auth_run s tr s' -> Forall (fun e => op_typed e.1) tr ->
  Forall (fun e => forall r, grants r e -> not_below C r) tr.
Proof.
  intros Hsv Hrun. induction Hrun as [s|s op out s1 tr s2 Ha Hrun IH]; intros Hty; [done|].
  apply Forall_cons in Hty as [Hop Hty]. apply Forall_cons. split.
  - intros r Hg. assert (0 <= ar_amount r) by (destruct Hg as [[Heq|[stage Heq]] _]; simpl in Heq; subst op; apply Hop).
    apply (grants_reservable r) in Ha; [|done].
    destruct Ha as (_ & _ & _ & Hnil & Hadd). apply u64_checked_add_some in Hadd as [? _].
    destruct Hsv as [(p & Hp & _)|Hle]; [congruence|]. unfold not_below. lia.
  - apply IH; [|done]. eapply served_change; [|done]. by eapply auth_apply_change.
Qed.

(** C21. The handler of a charge runs at most once: after the success of an
    authorization's handler is recorded, every reservation a transition grants is
    for a voucher above this one - whether or not its charge is committed, however
    much later, and after its record is pruned. The one exception charges nothing:
    a request of amount zero for a voucher at this very watermark, which is what
    the code's step check allows once the charge is in. *)
Theorem handler_runs_once t s i p s1 tr s2 :
  auth_ok s -> committed_authorization (rt_authorization_id t) s = None ->
  token_pending_index t s = Ok i -> pending_deliveries s !! i = Some p ->
  mark_authorization_handler_succeeded t s = (Ok tt, s1) ->
  auth_run s1 tr s2 -> Forall (fun e => op_typed e.1) tr ->
  Forall (fun e => forall r, grants r e -> not_below (cumulative s + pd_amount p) r) tr.
Proof.
  intros Hok Hnone Hi Hp Hmark Hrun Hty. eapply served_not_granted; [|done|done].
  unfold mark_authorization_handler_succeeded in Hmark. rewrite Hnone, Hi in Hmark.
  injection Hmark as <-. destruct (single_pending _ _ _ (ok_one _ Hok) Hp) as [-> Hp1].
  left. exists (succeeded p). simpl. by rewrite Hp1.
Qed.
End runs.

(** * Witnesses: a reservation of 4 on an opened channel *)
Module AuthDemo.
Import ChannelDemo.
Definition request (id : string) (amount cumul now : Z) : AuthorizationRequest := {|
  ar_authorization_id := id; ar_request_fingerprint := "fp"; ar_amount := amount;
  ar_cumulative := cumul; ar_lease := 30; ar_now := now;
|}.
Definition token : ReservationToken := {|
  rt_authorization_id := "a"; rt_request_fingerprint := "fp"; rt_cumulative := 4;
  rt_sequence := 1;
|}.
Definition delivery : PendingDelivery := {|
  pd_delivery_id := "a"; pd_amount := 4; pd_sequence := 1; pd_expires_at := 130;
  pd_request_fingerprint := Some "fp"; pd_handler_succeeded := false;
|}.
Definition reserved : ChannelState Demo.value :=
  (reserve_authorization (request "a" 4 4 100) (opened "c" 10)).2.
Definition answer (s : ChannelState Demo.value) : option Demo.value :=
  Some (json_u64 (cumulative s)).
Definition charged : ChannelState Demo.value :=
  (commit_authorization token "sig" 500 101 answer reserved).2.

Lemma opened_ok id amount : auth_ok (opened id amount).
Proof. split; simpl; try done; try constructor; zlia || (unfold MAX_COMMITTED_AUTHORIZATIONS; lia). Qed.
Lemma reserved_ok : auth_ok reserved.
Proof.
  apply (ok_change (opened "c" 10) _); [|apply opened_ok].
  apply (auth_apply_change (OpReserve (request "a" 4 4 100)) _
    (OutReservation (Ok (BatchReserved token)))); [reflexivity|simpl; zlia].
Qed.
Lemma reserved_chargeable : chargeable token reserved 0 delivery.
Proof. repeat split; vm_compute; intros; discriminate. Qed.

Fixpoint outs (ops : list auth_op) (s : ChannelState Demo.value) : list (auth_op * auth_out) :=
  match ops with
  | [] => []
  | op :: ops => (op, (auth_apply op s).1) :: outs ops (auth_apply op s).2
  end.
Fixpoint ends (ops : list auth_op) (s : ChannelState Demo.value) : ChannelState Demo.value :=
  match ops with [] => s | op :: ops => ends ops (auth_apply op s).2 end.

Lemma run_ops ops s : auth_run s (outs ops s) (ends ops s).
Proof.
  revert s. induction ops as [|op ops IH]; intros s; simpl; [constructor|].
  econstructor; [apply surjective_pairing|apply IH].
Qed.

Definition ops : list auth_op :=
  [OpReserve (request "a" 4 4 100); OpMark token; OpReserve (request "a" 4 4 102);
   OpCommit token "sig" 500 103 answer; OpFreeze 4; OpReserve (request "b" 3 7 104)].
End AuthDemo.

Lemma prune_is_filter_witness :
  let s := AuthDemo.charged in
  committed_deliveries (prune_authorizations 100000000 s) = [] /\ length (committed_deliveries s) = 1%nat.
Proof.
  intros s. split; [|reflexivity].
  exact (prune_is_filter 100000000 s ltac:(repeat constructor)
    ltac:(repeat constructor; vm_compute; reflexivity)).
Defined.

Lemma commit_then_replay_witness :
  exists s' c, commit_authorization AuthDemo.token "sig" 500 101 AuthDemo.answer AuthDemo.reserved
      = (Ok tt, s') /\
    committed_authorization "a" s' = Some c /\ cd_amount c = 4.
Proof.
  destruct (commit_then_replay AuthDemo.token "sig" 500 101 AuthDemo.answer AuthDemo.reserved 0
    AuthDemo.delivery AuthDemo.reserved_chargeable ltac:(zlia) ltac:(zlia))
    as (s' & c & Hc & Hfound & Ha & _).
  exists s', c. split; [exact Hc|]. split; [exact Hfound|exact Ha].
Defined.

Lemma auth_invariant_witness :
  auth_ok (AuthDemo.ends AuthDemo.ops (ChannelDemo.opened "c" 10)) /\
  cumulative (AuthDemo.ends AuthDemo.ops (ChannelDemo.opened "c" 10)) = 4.
Proof.
  split; [|reflexivity].
  exact (proj1 (auth_invariant _ _ _ (AuthDemo.opened_ok "c" 10)
    (AuthDemo.run_ops AuthDemo.ops (ChannelDemo.opened "c" 10))
    ltac:(repeat constructor; vm_compute; intros; discriminate))).
Defined.

Lemma frozen_watermark_witness :
  let s := freeze_watermark_at 0 AuthDemo.reserved in
  let ops := [OpCommit AuthDemo.token "sig" 500 103 AuthDemo.answer] in
  cumulative (AuthDemo.ends ops s) = 0.
Proof.
  intros s ops.
  exact (proj2 (frozen_watermark s _ _ (or_intror (ex_intro _ 0 eq_refl))
    (AuthDemo.run_ops ops s) ltac:(repeat constructor))).
Defined.

Lemma handler_runs_once_witness :
  let s1 := (mark_authorization_handler_succeeded AuthDemo.token AuthDemo.reserved).2 in
  let ops := [OpReserve (AuthDemo.request "a" 4 4 102);
              OpCommit AuthDemo.token "sig" 500 103 AuthDemo.answer;
              OpReserve (AuthDemo.request "b" 3 7 104)] in
  Forall (fun e => forall r, grants r e -> not_below 4 r) (AuthDemo.outs ops s1).
Proof.
  intros s1 ops.
  refine (handler_runs_once AuthDemo.token AuthDemo.reserved 0 AuthDemo.delivery s1 _ _
    AuthDemo.reserved_ok eq_refl eq_refl eq_refl eq_refl (AuthDemo.run_ops ops s1) _).
  repeat constructor; vm_compute; intros; discriminate.
Defined.

(** The exception: once the record of a charge of 4 is pruned, a request of amount
    zero at that watermark, even under the same id, is granted. *)
Example zero_amount_granted :
  let ops := [OpMark AuthDemo.token; OpCommit AuthDemo.token "sig" 500 103 AuthDemo.answer;
              OpPrune 100000000] in
  (reserve_authorization (AuthDemo.request "a" 0 4 100000001) (AuthDemo.ends ops AuthDemo.reserved)).1 =
    BatchReserved {| rt_authorization_id := "a"; rt_request_fingerprint := "fp"; rt_cumulative := 4; rt_sequence := 2 |} /\
  (reserve_authorization (AuthDemo.request "a" 4 4 100000001) (AuthDemo.ends ops AuthDemo.reserved)).1 = BatchStale.
Proof. vm_compute. split; reflexivity. Qed.
