(* ===== verification/ChannelStore.v ===== *)
(** The channel store ([ChannelStore], [MemoryChannelStore] of
    src/rust/crates/kit/src/core/store.rs): the trait's contract as one atomic
    step per call on a map of channel records, and the in-memory store. *)
From stdpp Require Import base numbers option list gmap strings.
From S2P Require Import Prelude Json Store Channel Authorization.

Definition err_not_found : StoreError := Internal "Channel not found".
Definition err_exists (id : string) : StoreError :=
  Internal ("Channel " +:+ id +:+ " already exists").

Section calls.
Context {Value : Type}.
Abbreviation St := (ChannelState Value).

(** A call of the trait, with its closures. A mutator returns the state it
    leaves behind with its result, whatever the result. *)
Inductive store_call :=
| CallGet (id : string)
| CallPut (id : string) (st : St)
| CallDelete (id : string)
| CallDeleteIf (id : string) (approve : St -> bool)
| CallUpdate (id : string) (updater : option St -> result St StoreError)
| CallMutate (id : string) (seed : option St) (mutator : St -> result unit StoreError * St)
| CallReserve (id : string) (seed : option St) (request : AuthorizationRequest)
    (prepare : St -> result (option PendingSetup) StoreError)
| CallTouch (id : string) (lc : ChannelLifecycle)
| CallAdvance (id : string) (expected new : Z)
| CallDeposit (id : string) (new_deposit : Z)
| CallSeal (id : string)
| CallFinalize (id : string).

Inductive store_reply :=
| ReplyState (r : result (option St) StoreError)
| ReplyBool (r : result bool StoreError)
| ReplyUnit (r : result unit StoreError)
| ReplyReservation (r : result BatchReservation StoreError).

Definition call_id (c : store_call) : string :=
  match c with
  | CallGet id | CallPut id _ | CallDelete id | CallDeleteIf id _ | CallUpdate id _
  | CallMutate id _ _ | CallReserve id _ _ _ | CallTouch id _ | CallAdvance id _ _
  | CallDeposit id _ | CallSeal id | CallFinalize id => id
  end.

(** Whether a touch replaces the deadline. *)
Definition touch_replaces (lc : ChannelLifecycle) (s : St) : bool :=
  negb (sealed s) && bool_decide (close_requested_at s = None) &&
  match lifecycle s with
  | None => true
  | Some current => bool_decide (close_after current <= close_after lc)
  end.

(** ** The contract: what a call does to the record of its channel *)
Definition contract (c : store_call) (o : option St) : store_reply * option St :=
  match c with
  | CallGet _ => (ReplyState (Ok o), o)
  | CallPut id st =>
      match o with
      | Some _ => (ReplyUnit (Err (err_exists id)), o)
      | None => (ReplyUnit (Ok tt), Some st)
      end
  | CallDelete _ => (ReplyUnit (Ok tt), None)
  | CallDeleteIf _ approve =>
      match o with
      | Some s => if approve s then (ReplyBool (Ok true), None) else (ReplyBool (Ok false), o)
      | None => (ReplyBool (Ok false), o)
      end
  | CallUpdate _ updater =>
      match updater o with
      | Ok s => (ReplyState (Ok (Some s)), Some s)
      | Err e => (ReplyState (Err e), o)
      end
  | CallMutate _ seed mutator =>
      match or_else o seed with
      | None => (ReplyUnit (Err err_not_found), o)
      | Some s =>
          match mutator s with
          | (Ok _, s') => (ReplyUnit (Ok tt), Some s')
          | (Err e, _) => (ReplyUnit (Err e), o)
          end
      end
  | CallReserve _ seed request prepare =>
      match or_else o seed with
      | None => (ReplyReservation (Err err_not_found), o)
      | Some s =>
          match reserve_authorization_staged request prepare s with
          | (Ok r, s') => (ReplyReservation (Ok r), Some s')
          | (Err e, _) => (ReplyReservation (Err e), o)
          end
      end
  | CallTouch _ lc =>
      match o with
      | None => (ReplyState (Err err_not_found), o)
      | Some s =>
          let s' := if touch_replaces lc s then with_lifecycle (Some lc) s else s in
          (ReplyState (Ok (Some s')), Some s')
      end
  | CallAdvance _ expected new =>
      match o with
      | None => (ReplyBool (Err err_not_found), o)
      | Some s =>
          if decide (cumulative s = expected)
          then (ReplyBool (Ok true), Some (with_cumulative new s))
          else (ReplyBool (Ok false), o)
      end
  | CallDeposit _ new_deposit =>
      match o with
      | None => (ReplyUnit (Err err_not_found), o)
      | Some s => (ReplyUnit (Ok tt), Some (with_deposit new_deposit s))
      end
  | CallSeal _ | CallFinalize _ =>
      match o with
      | None => (ReplyUnit (Err err_not_found), o)
      | Some s => (ReplyUnit (Ok tt), Some (with_sealed true s))
      end
  end.
End calls.

(** * [MemoryChannelStore]: a concurrent map, one guarded entry per call *)
Section memory.
Context {Value : Type}.
Abbreviation St := (ChannelState Value).
Implicit Types (data : gmap string St).

Definition list_channels data : list St := (map_to_list data).*2.
Definition list_channel_ids data : list string := (map_to_list data).*1.
(** The trait's default, over [list_channels]. *)
Definition default_list_channel_ids data : list string := channel_id <$> list_channels data.

Definition get_channel (id : string) data : result (option St) StoreError * gmap string St :=
  (Ok (data !! id), data).

Definition put_channel (id : string) (st : St) data : result unit StoreError * gmap string St :=
  match data !! id with
  | None => (Ok tt, <[id := st]> data)
  | Some _ => (Err (err_exists id), data)
  end.

Definition delete_channel (id : string) data : result unit StoreError * gmap string St :=
  (Ok tt, delete id data).

Definition delete_channel_if (id : string) (approve : St -> bool) data :
    result bool StoreError * gmap string St :=
  match data !! id with
  | Some s => if approve s then (Ok true, delete id data) else (Ok false, data)
  | None => (Ok false, data)
  end.

Definition update_channel (id : string) (updater : option St -> result St StoreError) data :
    result St StoreError * gmap string St :=
  match data !! id with
  | Some current =>
      match updater (Some current) with
      | Ok new_state => (Ok new_state, <[id := new_state]> data)
      | Err e => (Err e, data)
      end
  | None =>
      match updater None with
      | Ok new_state => (Ok new_state, <[id := new_state]> data)
      | Err e => (Err e, data)
      end
  end.

Definition read_channel {A} (id : string) (reader : option St -> result A StoreError) data :
    result A StoreError := reader (data !! id).

(** The mutator runs on the stored record itself: what it leaves behind stays,
    also when it reports an error. *)
Definition mutate_channel {A} (id : string) (seed : option St)
    (mutator : St -> result A StoreError * St) data : result A StoreError * gmap string St :=
  match data !! id with
  | Some s => let '(r, s') := mutator s in (r, <[id := s']> data)
  | None =>
      match seed with
      | Some seed => let '(r, s') := mutator seed in (r, <[id := s']> (<[id := seed]> data))
      | None => (Err err_not_found, data)
      end
  end.

(** The trait's default: the outcome is passed out of the mutator. *)
Definition store_reserve_authorization (id : string) (seed : option St)
    (request : AuthorizationRequest) (prepare : St -> result (option PendingSetup) StoreError)
    data : result BatchReservation StoreError * gmap string St :=
  mutate_channel id seed (reserve_authorization_staged request prepare) data.

Definition touch_channel_lifecycle (id : string) (lc : ChannelLifecycle) data :
    result St StoreError * gmap string St :=
  match data !! id with
  | Some s =>
      let s := if touch_replaces lc s then with_lifecycle (Some lc) s else s in
      (Ok s, <[id := s]> data)
  | None => (Err err_not_found, data)
  end.

Definition advance_cumulative (id : string) (expected new : Z) data :
    result bool StoreError * gmap string St :=
  match data !! id with
  | Some s =>
      if decide (cumulative s = expected)
      then (Ok true, <[id := with_cumulative new s]> data) else (Ok false, data)
  | None => (Err err_not_found, data)
  end.

Definition update_deposit (id : string) (new_deposit : Z) data :
    result unit StoreError * gmap string St :=
  match data !! id with
  | Some s => (Ok tt, <[id := with_deposit new_deposit s]> data)
  | None => (Err err_not_found, data)
  end.

Definition mark_sealed (id : string) data : result unit StoreError * gmap string St :=
  match data !! id with
  | Some s => (Ok tt, <[id := with_sealed true s]> data)
  | None => (Err err_not_found, data)
  end.

Definition mark_finalized (id : string) data : result unit StoreError * gmap string St :=
  mark_sealed id data.

Definition memory_call (c : store_call) data : store_reply * gmap string St :=
  let state '(r, d) := (ReplyState r, d) in
  let some '(r, d) := (ReplyState (rmap Some r), d) in
  let bool '(r, d) := (ReplyBool r, d) in
  let unit '(r, d) := (ReplyUnit r, d) in
  match c with
  | CallGet id => state (get_channel id data)
  | CallPut id st => unit (put_channel id st data)
  | CallDelete id => unit (delete_channel id data)
  | CallDeleteIf id approve => bool (delete_channel_if id approve data)
  | CallUpdate id updater => some (update_channel id updater data)
  | CallMutate id seed mutator => unit (mutate_channel id seed mutator data)
  | CallReserve id seed request prepare =>
      let '(r, d) := store_reserve_authorization id seed request prepare data in
      (ReplyReservation r, d)
  | CallTouch id lc => some (touch_channel_lifecycle id lc data)
  | CallAdvance id expected new => bool (advance_cumulative id expected new data)
  | CallDeposit id new_deposit => unit (update_deposit id new_deposit data)
  | CallSeal id => unit (mark_sealed id data)
  | CallFinalize id => unit (mark_finalized id data)
  end.
End memory.

(** * The in-memory store meets the contract *)
Section refinement.
Context {Value : Type}.
Abbreviation St := (ChannelState Value).
Implicit Types (data : gmap string St).

(** The contract over the map. *)
Definition contract_map (c : store_call) data : store_reply * gmap string St :=
  let '(r, o) := contract c (data !! call_id c) in
  (r, partial_alter (fun _ => o) (call_id c) data).

(** The calls the in-memory store serves exactly as the contract: a failing
    mutator leaves the record it was given, and does not run on a seed. *)
Definition mutator_safe (c : store_call) data : Prop :=
  match c with
  | CallMutate id seed mutator =>
      match data !! id, seed with
      | Some s, _ => forall e, (mutator s).1 = Err e -> (mutator s).2 = s
      | None, Some seed => is_ok (mutator seed).1 = true
      | None, None => True
      end
  | CallReserve id seed request prepare =>
      data !! id = None -> forall s, seed = Some s ->
      is_ok (reserve_authorization_staged request prepare s).1 = true
  | _ => True
  end.

Lemma partial_alter_same (o : option St) id data :
  data !! id = o -> partial_alter (fun _ => o) id data = data.
Proof. intros <-. by apply partial_alter_self. Qed.

Lemma partial_alter_some s id data : partial_alter (fun _ => Some s) id data = <[id := s]> data.
Proof. done. Qed.
Lemma partial_alter_none id data : partial_alter (fun _ => None) id data = delete id data.
Proof. done. Qed.

Lemma staged_error_unchanged request prepare (s : St) e :
  (reserve_authorization_staged request prepare s).1 = Err e ->
  (reserve_authorization_staged request prepare s).2 = s.
Proof.
  unfold reserve_authorization_staged. destruct (refuse_reservation request s); [done|].
  by destruct (prepare s).
Qed.

(** C40. Every call of the in-memory store is one atomic step of the trait's
    contract on its channel's record, and touches no other channel - provided
    a mutator that fails leaves its record alone and was not given a seed. *)
Theorem memory_refines_contract c data :
  mutator_safe c data -> memory_call c data = contract_map c data.
Proof.
  unfold memory_call, contract_map.
  destruct c as [id|id st|id|id approve|id updater|id seed mutator|id seed request prepare|id lc
    |id expected new|id dep|id|id]; simpl; intros Hsafe;
    unfold get_channel, put_channel, delete_channel, delete_channel_if, update_channel,
      store_reserve_authorization, mutate_channel, touch_channel_lifecycle, advance_cumulative,
      update_deposit, mark_finalized, mark_sealed;
    destruct (data !! id) as [s|] eqn:Hid; simpl.
  all: try (destruct (mutator _) as [[[]|e] s1] eqn:Hm; simpl in * );
    try (pose proof (staged_error_unchanged request prepare) as Hst;
         destruct (reserve_authorization_staged _ _ _) as [[r|e] s1] eqn:Hm; simpl in * );
    repeat (case_match; simplify_eq/=);
    rewrite ?partial_alter_same by done;
    rewrite ?partial_alter_some, ?partial_alter_none, ?insert_insert_eq; try done.
  all: try by rewrite ?delete_id, ?insert_id.
  - by rewrite (Hsafe _ eq_refl), insert_id.
  - by destruct a.
  - specialize (Hst s e). rewrite Hm in Hst. simpl in Hst. by rewrite Hst, insert_id.
  - specialize (Hsafe eq_refl _ eq_refl).
    by match goal with Hr : reserve_authorization_staged _ _ _ = _ |- _ => rewrite Hr in Hsafe end.
Qed.

(** The calls of the server: a reservation, a commit, an observation... as the
    mutators it passes leave the record alone when they fail. *)
Lemma commit_mutator_safe id seed t sig exp now resp data :
  is_Some (data !! id) ->
  mutator_safe (CallMutate id seed (commit_authorization t sig exp now resp)) data.
Proof.
  intros [s Hs]. simpl. rewrite Hs. intros e He.
  pose proof (commit_cases t sig exp now resp s) as Hc.
  destruct (commit_authorization t sig exp now resp s) as [r s']. simpl in He. subst r.
  destruct (Hc _ _ eq_refl) as [[-> _]|[? _]]; done.
Qed.

(** A refused reservation leaves an existing record unchanged - but when
    the channel has no record yet and the stage fails, the seed stays behind:
    the in-memory store then holds a channel that was never reserved. *)
Theorem memory_reserve_refused id seed request prepare data r data' :
  store_reserve_authorization id seed request prepare data = (r, data') ->
  (forall t, r <> Ok (BatchReserved t)) ->
  match data !! id, seed with
  | Some _, _ => data' = data
  | None, Some seed => data' = <[id := seed]> data
  | None, None => data' = data /\ r = Err err_not_found
  end.
Proof.
  intros Hr Hno. unfold store_reserve_authorization, mutate_channel in Hr.
  assert (Hst : forall s r' s', reserve_authorization_staged request prepare s = (r', s') ->
    r' = r -> s' = s).
  { intros s r' s' Hs ->. pose proof (staged_all_or_nothing request prepare s) as Hst.
    rewrite Hs in Hst. destruct r as [[t| |t| | | | |]|e]; try done. by destruct (Hno t). }
  destruct (data !! id) as [s|] eqn:Hid; [|destruct seed as [s|]; [|naive_solver]];
    destruct (reserve_authorization_staged request prepare s) as [r' s'] eqn:Hs;
    simplify_eq; rewrite (Hst _ _ _ Hs eq_refl), ?insert_insert_eq; [by apply insert_id|done].
Qed.

(** Touching a channel never moves its deadline back, never touches a
    closing or sealed channel, and changes nothing but the deadline. *)
Theorem touch_monotone id lc data s :
  data !! id = Some s ->
  exists s', touch_channel_lifecycle id lc data = (Ok s', <[id := s']> data) /\
    s' = with_lifecycle (lifecycle s') s /\
    ((sealed s = true \/ is_Some (close_requested_at s)) -> s' = s) /\
    (forall l, lifecycle s = Some l ->
      exists l', lifecycle s' = Some l' /\ close_after l <= close_after l').
Proof.
  intros Hs. unfold touch_channel_lifecycle. rewrite Hs. eexists. split; [reflexivity|].
  unfold touch_replaces. destruct (sealed s) eqn:Hsealed; simpl.
  { split_and!; [by destruct s|done|intros l Hl; eexists; split; [done|lia]]. }
  case_bool_decide as Hclose; simpl.
  - destruct (lifecycle s) as [l|] eqn:Hl; [case_bool_decide as Hle|]; simpl.
    + split_and!; [done|rewrite Hclose; by intros [|[]]|intros l' [= <-]; eauto].
    + split_and!; [by destruct s|done|intros l' [= <-]; eexists; split; [done|lia]].
    + split_and!; [done|rewrite Hclose; by intros [|[]]|done].
  - split_and!; [by destruct s|done|intros l Hl; eexists; split; [done|lia]].
Qed.

End refinement.

(** * Concurrent requests: any sequence of atomic calls *)
Section sequences.
Context {Value : Type}.
Abbreviation St := (ChannelState Value).
Implicit Types (data : gmap string St).

Fixpoint memory_run (calls : list store_call) data : list store_reply * gmap string St :=
  match calls with
  | [] => ([], data)
  | c :: calls =>
      let '(r, data) := memory_call c data in
      let '(rs, data) := memory_run calls data in (r :: rs, data)
  end.

(** The call keeps the channel's record and never lowers its watermark. *)
Definition keeps_watermark (id : string) (c : store_call) : Prop :=
  forall data s, data !! id = Some s ->
  exists s', (memory_call c data).2 !! id = Some s' /\ cumulative s <= cumulative s'.

(** The call won the step of the channel's watermark up from [e]. *)
Definition advanced (id : string) (e : Z) (c : store_call (Value:=Value))
    (r : store_reply (Value:=Value)) : Z :=
  match c, r with
  | CallAdvance i expected new, ReplyBool (Ok true) =>
      if decide (i = id /\ expected = e /\ e < new) then 1 else 0
  | _, _ => 0
  end.

Lemma advanced_range id e c r : 0 <= advanced id e c r <= 1.
Proof. unfold advanced. repeat case_match; lia. Qed.

Lemma advanced_one id e c data r data' :
  memory_call c data = (r, data') -> advanced id e c r = 1 ->
  exists s s', data !! id = Some s /\ cumulative s = e /\ data' !! id = Some s' /\ e < cumulative s'.
Proof.
  intros Hc Ha. destruct c; try done. unfold advanced in Ha.
  destruct r as [|[[]|]| |]; try done. case_decide as Hd; [|done].
  destruct Hd as (-> & -> & Hlt). simpl in Hc. unfold advance_cumulative in Hc.
  destruct (data !! id) as [s|] eqn:Hs; [|done]. case_decide; [|done]. simplify_eq.
  eexists _, _. split_and!; [done|done|apply lookup_insert_eq|done].
Qed.

Lemma no_advance_above id e calls data rs data' s :
  data !! id = Some s -> e < cumulative s -> Forall (keeps_watermark id) calls ->
  memory_run calls data = (rs, data') -> zsum (zip_with (advanced id e) calls rs) = 0.
Proof.
  revert data rs s. induction calls as [|c calls IH]; intros data rs s Hs Hlt Hall Hr; [done|].
  simpl in Hr. destruct (memory_call c data) as [r d1] eqn:Hc.
  destruct (memory_run calls d1) as [rs1 d2] eqn:Hr1. simplify_eq/=.
  apply Forall_cons in Hall as [Hk Hall]. pose proof (Hk _ _ Hs) as (s' & Hs' & Hle).
  rewrite Hc in Hs'. simpl in Hs'. rewrite (IH _ _ _ Hs' ltac:(lia) Hall Hr1).
  pose proof (advanced_range id e c r).
  destruct (decide (advanced id e c r = 1)) as [Ha|]; [|lia].
  destruct (advanced_one _ _ _ _ _ _ Hc Ha) as (s0 & _ & Hs0 & Hcum & _). simplify_eq. lia.
Qed.

(** Concurrent requests that read the same watermark cannot all spend it:
    of all the calls of a sequence, at most one advance moves the channel's
    watermark up from [e], as long as no call deletes the record or lowers
    the watermark. *)
Theorem advance_once id e calls data rs data' :
  Forall (keeps_watermark id) calls -> memory_run calls data = (rs, data') ->
  zsum (zip_with (advanced id e) calls rs) <= 1.
Proof.
  revert data rs. induction calls as [|c calls IH]; intros data rs Hall Hr; simpl in Hr.
  { simplify_eq. done. }
  destruct (memory_call c data) as [r d1] eqn:Hc.
  destruct (memory_run calls d1) as [rs1 d2] eqn:Hr1. simplify_eq/=.
  apply Forall_cons in Hall as [Hk Hall]. pose proof (advanced_range id e c r).
  destruct (decide (advanced id e c r = 1)) as [Ha|]; [|specialize (IH _ _ Hall Hr1); lia].
  destruct (advanced_one _ _ _ _ _ _ Hc Ha) as (_ & s' & _ & _ & Hs' & Hlt).
  rewrite (no_advance_above id e _ _ _ _ _ Hs' Hlt Hall Hr1). lia.
Qed.

(** Which calls keep the watermark. *)
Lemma lookup_insert_keeps (i id : string) (s s1 : St) data :
  data !! id = Some s -> (i = id -> cumulative s <= cumulative s1) ->
  exists s', <[i := s1]> data !! id = Some s' /\ cumulative s <= cumulative s'.
Proof.
  intros Hs Hle. destruct (decide (i = id)) as [->|].
  - exists s1. rewrite lookup_insert_eq. auto.
  - exists s. rewrite lookup_insert_ne by done. split; [done|lia].
Qed.

Lemma keeps_advance id i expected new :
  expected <= new -> keeps_watermark id (CallAdvance i expected new).
Proof.
  intros Hle data s Hs. simpl. unfold advance_cumulative.
  destruct (data !! i) as [si|] eqn:Hi; [case_decide|]; simpl; try by (exists s; split; [done|lia]).
  apply lookup_insert_keeps; [done|]. intros ->. simplify_eq. simpl. lia.
Qed.

Lemma keeps_touch id i lc : keeps_watermark id (CallTouch i lc).
Proof.
  intros data s Hs. simpl. unfold touch_channel_lifecycle.
  destruct (data !! i) as [si|] eqn:Hi; simpl; [|by exists s; split; [done|lia]].
  apply lookup_insert_keeps; [done|]. intros ->. simplify_eq. case_match; simpl; lia.
Qed.
End sequences.

(** * Witnesses *)
Module StoreDemo.
Import ChannelDemo.
Definition data : gmap string (ChannelState Demo.value) := {[ "c" := opened "c" 10 ]}.
Definition calls : list (store_call (Value:=Demo.value)) :=
  [CallAdvance "c" 0 4; CallTouch "c" {| owner := "w"; close_after := 7 |}; CallAdvance "c" 0 3].
End StoreDemo.

Lemma memory_refines_contract_witness :
  memory_call (CallMutate "c" None (commit_authorization AuthDemo.token "sig" 500 101
    AuthDemo.answer)) StoreDemo.data =
  contract_map (CallMutate "c" None (commit_authorization AuthDemo.token "sig" 500 101
    AuthDemo.answer)) StoreDemo.data.
Proof.
  apply memory_refines_contract. apply commit_mutator_safe. eexists. reflexivity.
Defined.

Lemma memory_reserve_refused_witness :
  (store_reserve_authorization "c" None (AuthDemo.request "a" 4 5 100) (fun _ => Ok None)
    StoreDemo.data).2 = StoreDemo.data.
Proof.
  refine (memory_reserve_refused "c" None (AuthDemo.request "a" 4 5 100) (fun _ => Ok None)
    StoreDemo.data (Ok BatchStale) _ _ _).
  - vm_compute. reflexivity.
  - discriminate.
Defined.

Lemma touch_monotone_witness :
  exists s', touch_channel_lifecycle "c" {| owner := "w"; close_after := 7 |} StoreDemo.data =
    (Ok s', <["c" := s']> StoreDemo.data).
Proof.
  destruct (touch_monotone "c" {| owner := "w"; close_after := 7 |} StoreDemo.data
    (ChannelDemo.opened "c" 10) eq_refl) as (s' & Hs' & _). exists s'. exact Hs'.
Defined.

Lemma advance_once_witness :
  zsum (zip_with (advanced "c" 0) StoreDemo.calls (memory_run StoreDemo.calls StoreDemo.data).1) <= 1.
Proof.
  refine (advance_once "c" 0 StoreDemo.calls StoreDemo.data _
    (memory_run StoreDemo.calls StoreDemo.data).2 _ (surjective_pairing _)).
  repeat apply Forall_cons_2; [apply keeps_advance; lia|apply keeps_touch|apply keeps_advance; lia|].
  apply Forall_nil_2.
Defined.
