(* ===== verification/RedisStore.v ===== *)
(** The Redis channel store ([RedisChannelStore] of
    src/rust/crates/kit/src/core/store.rs): its Lua scripts over the Redis
    commands they call, its operations as programs over single round trips, and
    their refinement of the channel store's contract. Redis itself is a
    parameter, with the documented behaviour of the commands as laws. *)
From Stdlib Require Import Ascii.
From stdpp Require Import base numbers option list gmap strings pretty.
From S2P Require Import Prelude Effects Json Store Channel Authorization ChannelStore.

(** * The Redis commands *)

(** [GET], [SET], [SET .. KEEPTTL], [SET .. EX], [DEL], [TTL], [EXPIRE]; and
    what no client asks for: a key whose time to live has run out is removed. *)
Class RedisDb (Db : Type) := {
  db_get : string -> Db -> option string;
  db_set : string -> string -> Db -> Db;
  db_set_keepttl : string -> string -> Db -> Db;
  db_set_ex : string -> string -> Z -> Db -> Db;
  db_del : string -> Db -> Db;
  db_ttl : string -> Db -> Z;
  db_expire : string -> Z -> Db -> Db;
  db_lapse : string -> Db -> Db;
}.

(** [TTL] answers -2 for a missing key and -1 for one without a time to live.
    [SET] drops the time to live, [KEEPTTL] keeps it; [EX] and [EXPIRE] are
    used with a positive number of seconds. Only a key with a time to live
    ever lapses. *)
Class RedisLaws (Db : Type) `{RedisDb Db} := {
  get_set k v db k' :
    db_get k' (db_set k v db) = if decide (k = k') then Some v else db_get k' db;
  get_set_keepttl k v db k' :
    db_get k' (db_set_keepttl k v db) = if decide (k = k') then Some v else db_get k' db;
  get_set_ex k v n db k' : 0 < n ->
    db_get k' (db_set_ex k v n db) = if decide (k = k') then Some v else db_get k' db;
  get_del k db k' : db_get k' (db_del k db) = if decide (k = k') then None else db_get k' db;
  get_expire k n db k' : 0 < n -> db_get k' (db_expire k n db) = db_get k' db;
  get_lapse k db k' :
    db_get k' (db_lapse k db) = if decide (k = k' /\ 0 <= db_ttl k db) then None else db_get k' db;
  ttl_missing k db : db_get k db = None -> db_ttl k db = -2;
  ttl_present k db : is_Some (db_get k db) -> -1 <= db_ttl k db;
  ttl_set k v db k' :
    db_ttl k' (db_set k v db) = if decide (k = k') then -1 else db_ttl k' db;
  ttl_set_keepttl k v db k' : is_Some (db_get k db) ->
    db_ttl k' (db_set_keepttl k v db) = db_ttl k' db;
  ttl_set_ex k v n db k' : 0 < n ->
    db_ttl k' (db_set_ex k v n db) = if decide (k = k') then n else db_ttl k' db;
  ttl_expire k n db k' : 0 < n -> is_Some (db_get k db) ->
    db_ttl k' (db_expire k n db) = if decide (k = k') then n else db_ttl k' db;
  ttl_del k db k' : k <> k' -> db_ttl k' (db_del k db) = db_ttl k' db;
  ttl_lapse k db k' : ~ (k = k' /\ 0 <= db_ttl k db) -> db_ttl k' (db_lapse k db) = db_ttl k' db;
}.

(** * Namespaces *)

(** [RedisChannelStore::namespace_key_prefix]; [len] counts bytes. *)
Definition namespace_key_prefix (key_prefix : string) : string :=
  pretty (String.length key_prefix) +:+ ":" +:+ key_prefix +:+ ":".

Definition redis_key (key_prefix channel_id : string) : string := key_prefix +:+ channel_id.

Definition is_glob (c : ascii) : bool :=
  existsb (Ascii.eqb c) ["*"%char; "?"%char; "["%char; "]"%char; "\"%char].

(** The configured prefix with glob metacharacters escaped, then a star. *)
Fixpoint scan_pattern (key_prefix : string) : string :=
  match key_prefix with
  | EmptyString => "*"
  | String c rest =>
      if is_glob c then String "\"%char (String c (scan_pattern rest))
      else String c (scan_pattern rest)
  end.

(** * The scripts *)

Definition quote : string := String (ascii_of_nat 34) EmptyString.
Definition sealed_field (value : string) : string := quote +:+ "sealed" +:+ quote +:+ ":" +:+ value.
Definition sealed_false : string := sealed_field "false".
Definition sealed_true : string := sealed_field "true".

(** [string.find(s, sub, 1, true)], counted from 0. *)
Definition find_plain (sub s : string) : option nat := String.index 0 sub s.

(** The text with the field at [first] set. *)
Definition splice_sealed (raw : string) (first : nat) : string :=
  let last := (first + String.length sealed_false)%nat in
  String.substring 0 first raw +:+ sealed_true +:+
  String.substring last (String.length raw - last) raw.

Section scripts.
Context {Db : Type} `{RedisDb Db}.
Implicit Types (db : Db).

Definition cas_script (key : string) (expected : option string) (new_value : string) db : Z * Db :=
  match expected, db_get key db with
  | None, Some _ => (0, db)
  | None, None => (1, db_set key new_value db)
  | Some expected, Some current =>
      if decide (current = expected) then (1, db_set_keepttl key new_value db) else (0, db)
  | Some _, None => (0, db)
  end.

Definition seal_script (key : string) db : Z * Db :=
  match db_get key db with
  | None => (0, db)
  | Some current =>
      match find_plain sealed_true current with
      | Some _ => (1, db)
      | None =>
          match find_plain sealed_false current with
          | None => (-1, db)
          | Some first => (1, db_set_keepttl key (splice_sealed current first) db)
          end
      end
  end.

Definition finalize_script (key : string) (retention : Z) db : Z * Db :=
  match db_get key db with
  | None => (0, db)
  | Some current =>
      match find_plain sealed_true current with
      | Some _ => (1, if decide (db_ttl key db = -1) then db_expire key retention db else db)
      | None =>
          match find_plain sealed_false current with
          | None => (-1, db)
          | Some first => (1, db_set_ex key (splice_sealed current first) retention db)
          end
      end
  end.

Definition compare_delete_script (key raw : string) db : Z * Db :=
  if decide (db_get key db = Some raw) then (1, db_del key db) else (0, db).
End scripts.

(** * Round trips *)

Inductive redisE : Type -> Type :=
| RGet (key : string) : redisE (result (option string) StoreError)
| RCas (key : string) (expected : option string) (new_value : string) : redisE (result Z StoreError)
| RSeal (key : string) : redisE (result Z StoreError)
| RFinalize (key : string) (retention : Z) : redisE (result Z StoreError)
| RDel (key : string) : redisE (result unit StoreError)
| RCompareDelete (key raw : string) : redisE (result Z StoreError).

(** A round trip may fail, before or after the server ran it. *)
Definition redis_exec {Db} `{RedisDb Db} (X : Type) (f : env) (e : redisE X) (db : Db) : X * Db :=
  let script run := let '(r, db') := run in faulty f db db' (Ok r) in
  match e with
  | RGet key => faulty f db db (Ok (db_get key db))
  | RCas key expected new_value => script (cas_script key expected new_value db)
  | RSeal key => script (seal_script key db)
  | RFinalize key retention => script (finalize_script key retention db)
  | RDel key => faulty f db (db_del key db) (Ok tt)
  | RCompareDelete key raw => script (compare_delete_script key raw db)
  end.

(** * The operations *)

(** The check of [connect_with_finalized_retention], on the whole seconds asked for. *)
Definition connect_with_finalized_retention (finalized_retention_seconds : Z) :
    result Z StoreError :=
  if decide (finalized_retention_seconds = 0)
  then Err (Internal "Finalized channel retention must be at least one second")
  else Ok finalized_retention_seconds.

Section operations.
Context {Value : Type} `{!Serde string (ChannelState Value)}.
Context (key_prefix : string) (finalized_retention_seconds : Z).
Abbreviation St := (ChannelState Value).
Abbreviation redis_prog := (prog redisE).
Abbreviation key := (redis_key key_prefix).

Definition err_conflict : StoreError := Internal "Concurrent channel update; retry the request".
Definition err_lifecycle_conflict : StoreError :=
  Internal "Concurrent channel lifecycle updates; retry the request".
Definition err_missing_sealed : StoreError :=
  Serialization "Channel record is missing its sealed field".
Definition err_newer_schema (version : Z) : StoreError :=
  Serialization ("channel record schema_version " +:+ pretty version
    +:+ " is newer than this writer's " +:+ pretty CHANNEL_STATE_SCHEMA_VERSION
    +:+ "; refusing lossy decode").

Definition decode (raw : string) : result St StoreError :=
  let? state := rmap_err Serialization (from_value raw) in
  if decide (CHANNEL_STATE_SCHEMA_VERSION < schema_version state)
  then Err (err_newer_schema (schema_version state)) else Ok state.

Definition encode (state : St) : result string StoreError :=
  rmap_err Serialization (to_value state).

Definition encode_for_write (state : St) : result (string * St) StoreError :=
  let state := with_schema_version CHANNEL_STATE_SCHEMA_VERSION state in
  let? raw := encode state in Ok (raw, state).

(** [raw.as_deref().map(Self::decode).transpose()?] *)
Definition decode_opt (raw : option string) : result (option St) StoreError :=
  match raw with None => Ok None | Some raw => rmap Some (decode raw) end.

Definition get_raw (id : string) : redis_prog (result (option string) StoreError) :=
  perform (RGet (key id)).

Definition compare_and_set (id : string) (expected : option string) (new_value : string) :
    redis_prog (result bool StoreError) :=
  await? updated := perform (RCas (key id) expected new_value) in
  Ret (Ok (bool_decide (updated = 1))).

Definition script_result (r : Z) : result unit StoreError :=
  if decide (r = 1) then Ok tt else if decide (r = 0) then Err err_not_found
  else Err err_missing_sealed.

Definition mark_sealed_atomic (id : string) : redis_prog (result unit StoreError) :=
  await? r := perform (RSeal (key id)) in Ret (script_result r).

Definition mark_finalized_atomic (id : string) : redis_prog (result unit StoreError) :=
  await? r := perform (RFinalize (key id) finalized_retention_seconds) in Ret (script_result r).

Definition redis_get_channel (id : string) : redis_prog (result (option St) StoreError) :=
  await? raw := get_raw id in Ret (decode_opt raw).

Definition redis_put_channel (id : string) (state : St) : redis_prog (result unit StoreError) :=
  match encode_for_write state with
  | Err e => Ret (Err e)
  | Ok (encoded, _) =>
      await? created := compare_and_set id None encoded in
      Ret (if created : bool then Ok tt else Err (err_exists id))
  end.

Definition redis_delete_channel (id : string) : redis_prog (result unit StoreError) :=
  perform (RDel (key id)).

Definition redis_delete_channel_if (id : string) (approve : St -> bool) :
    redis_prog (result bool StoreError) :=
  await? raw := get_raw id in
  match raw with
  | None => Ret (Ok false)
  | Some raw =>
      match decode raw with
      | Err e => Ret (Err e)
      | Ok state =>
          if approve state then
            await? deleted := perform (RCompareDelete (key id) raw) in
            Ret (Ok (bool_decide (deleted = 1)))
          else Ret (Ok false)
      end
  end.

(** Encode, compare and set against what was read, or report the conflict. *)
Definition write_back {A} (id : string) (current : option string) (state : St) (k : St -> A) :
    redis_prog (result A StoreError) :=
  match encode_for_write state with
  | Err e => Ret (Err e)
  | Ok (new_raw, state) =>
      await? won := compare_and_set id current new_raw in
      Ret (if won : bool then Ok (k state) else Err err_conflict)
  end.

Definition redis_update_channel (id : string) (updater : option St -> result St StoreError) :
    redis_prog (result St StoreError) :=
  await? current_raw := get_raw id in
  match decode_opt current_raw with
  | Err e => Ret (Err e)
  | Ok current =>
      match updater current with
      | Err e => Ret (Err e)
      | Ok new_state => write_back id current_raw new_state (fun state => state)
      end
  end.

Definition redis_read_channel {A} (id : string) (reader : option St -> result A StoreError) :
    redis_prog (result A StoreError) :=
  await? raw := get_raw id in
  Ret (let? state := decode_opt raw in reader state).

Definition redis_mutate_channel {A} (id : string) (seed : option St)
    (mutator : St -> result A StoreError * St) : redis_prog (result A StoreError) :=
  await? current_raw := get_raw id in
  match decode_opt current_raw with
  | Err e => Ret (Err e)
  | Ok current =>
      match ok_or (or_else current seed) err_not_found with
      | Err e => Ret (Err e)
      | Ok state =>
          match mutator state with
          | (Err e, _) => Ret (Err e)
          | (Ok a, state) => write_back id current_raw state (fun _ => a)
          end
      end
  end.

Definition MAX_ATTEMPTS : nat := 8.

Fixpoint touch_loop (attempts : nat) (id : string) (lc : ChannelLifecycle) :
    redis_prog (result St StoreError) :=
  match attempts with
  | O => Ret (Err err_lifecycle_conflict)
  | S attempts =>
      await? current_raw := get_raw id in
      match current_raw with
      | None => Ret (Err err_not_found)
      | Some current_raw =>
          match decode current_raw with
          | Err e => Ret (Err e)
          | Ok state =>
              if touch_replaces lc state then
                match encode_for_write (with_lifecycle (Some lc) state) with
                | Err e => Ret (Err e)
                | Ok (new_raw, state) =>
                    await? won := compare_and_set id (Some current_raw) new_raw in
                    if won : bool then Ret (Ok state) else touch_loop attempts id lc
                end
              else Ret (Ok state)
          end
      end
  end.

Definition redis_touch_channel_lifecycle (id : string) (lc : ChannelLifecycle) :
    redis_prog (result St StoreError) := touch_loop MAX_ATTEMPTS id lc.

Definition redis_advance_cumulative (id : string) (expected new : Z) :
    redis_prog (result bool StoreError) :=
  await? current_raw := get_raw id in
  match current_raw with
  | None => Ret (Err err_not_found)
  | Some current_raw =>
      match decode current_raw with
      | Err e => Ret (Err e)
      | Ok state =>
          if decide (cumulative state <> expected) then Ret (Ok false) else
          match encode_for_write (with_cumulative new state) with
          | Err e => Ret (Err e)
          | Ok (new_raw, _) => compare_and_set id (Some current_raw) new_raw
          end
      end
  end.

Definition redis_update_deposit (id : string) (new_deposit : Z) :
    redis_prog (result unit StoreError) :=
  await? _ := redis_update_channel id (fun state =>
    let? state := ok_or state err_not_found in Ok (with_deposit new_deposit state)) in
  Ret (Ok tt).

Definition redis_mark_sealed (id : string) : redis_prog (result unit StoreError) :=
  mark_sealed_atomic id.

Definition redis_mark_finalized (id : string) : redis_prog (result unit StoreError) :=
  mark_finalized_atomic id.

(** A call of the trait; [reserve_authorization] is the trait's default. *)
Definition redis_call (c : store_call) : redis_prog store_reply :=
  let state := fmap (fun r => ReplyState (rmap Some r)) in
  match c with
  | CallGet id => ReplyState <$> redis_get_channel id
  | CallPut id st => ReplyUnit <$> redis_put_channel id st
  | CallDelete id => ReplyUnit <$> redis_delete_channel id
  | CallDeleteIf id approve => ReplyBool <$> redis_delete_channel_if id approve
  | CallUpdate id updater => state (redis_update_channel id updater)
  | CallMutate id seed mutator => ReplyUnit <$> redis_mutate_channel id seed mutator
  | CallReserve id seed request prepare =>
      ReplyReservation <$> redis_mutate_channel id seed (reserve_authorization_staged request prepare)
  | CallTouch id lc => state (redis_touch_channel_lifecycle id lc)
  | CallAdvance id expected new => ReplyBool <$> redis_advance_cumulative id expected new
  | CallDeposit id new_deposit => ReplyUnit <$> redis_update_deposit id new_deposit
  | CallSeal id => ReplyUnit <$> redis_mark_sealed id
  | CallFinalize id => ReplyUnit <$> redis_mark_finalized id
  end.
End operations.

(** * Namespaces, verified *)

(** Namespaces never share a key: the length prefix keeps every key of one
    namespace apart from every key of another, even when one is a prefix of
    the other. *)
Theorem namespaces_disjoint ns ns' id id' :
  redis_key (namespace_key_prefix ns) id = redis_key (namespace_key_prefix ns') id' ->
  ns = ns' /\ id = id'.
Proof.
  unfold redis_key, namespace_key_prefix. rewrite !append_assoc. intros Heq.
  pose proof (append_colon_inv _ _ _ _ (pretty_nat_no_colon _) (pretty_nat_no_colon _) Heq) as Hn.
  rewrite Hn in Heq. apply (inj pretty) in Hn. apply (inj _), (inj _) in Heq.
  destruct (append_length_inj _ _ _ _ Hn Heq) as [-> Hrest]. by apply (inj _) in Hrest.
Qed.

#[global] Arguments redis_key : simpl never.

(** * Refinement *)

(** The layout of an encoded record the scripts rely on: its own [sealed] field
    is the first text of that shape, and is all that changes with the flag. *)
Class SealedLayout (Value : Type) `{!Serde string (ChannelState Value)} := {
  layout_sealed (s : ChannelState Value) raw :
    to_value s = Ok raw -> sealed s = true -> is_Some (find_plain sealed_true raw);
  layout_open (s : ChannelState Value) raw :
    to_value s = Ok raw -> sealed s = false ->
    exists first, find_plain sealed_false raw = Some first /\
      to_value (with_sealed true s) = Ok (splice_sealed raw first);
}.

Section refinement.
Context {Value : Type} `{!Serde string (ChannelState Value)}
  `{!SerdeLaws string (ChannelState Value), !SealedLayout Value}.
Context {Db : Type} `{RedisLaws Db}.
Context (key_prefix : string) (retention : Z) (retention_pos : 0 < retention).
Abbreviation St := (ChannelState Value).
Abbreviation key := (redis_key key_prefix).
Implicit Types (db : Db) (data : gmap string St) (s : St).

Definition redis_run {A} (p : prog redisE A) db : A * Db :=
  run (fun X => redis_exec X (calm 0)) p db.

(** What one key holds for one record: its encoding, in the current schema. *)
Definition encodes (raw : option string) (o : option St) : Prop :=
  match raw, o with
  | Some raw, Some s => to_value s = Ok raw /\ schema_version s = CHANNEL_STATE_SCHEMA_VERSION
  | None, None => True
  | _, _ => False
  end.

Definition redis_rep db data : Prop := forall id, encodes (db_get (key id) db) (data !! id).

Lemma redis_run_ptry {A B} (f : A -> prog redisE (result B StoreError)) p db :
  redis_run (ptry f p) db =
  let '(r, db') := redis_run p db in
  match r with Ok a => redis_run (f a) db' | Err e => (Err e, db') end.
Proof. apply run_ptry. Qed.

Lemma redis_run_fmap {A B} (f : A -> B) (p : prog redisE A) db :
  redis_run (f <$> p) db = let '(a, db') := redis_run p db in (f a, db').
Proof. unfold fmap, prog_fmap, redis_run. by rewrite run_pbind. Qed.

Lemma decode_encoded s raw :
  to_value s = Ok raw -> schema_version s = CHANNEL_STATE_SCHEMA_VERSION -> decode raw = Ok s.
Proof.
  intros Hr Hv. unfold decode. rewrite (from_to_value _ _ Hr). simpl.
  by rewrite decide_False by lia.
Qed.

Lemma decode_opt_encoded raw o : encodes raw o -> decode_opt raw = Ok o.
Proof.
  destruct raw as [raw|], o as [s|]; simpl; try done. intros [Hr Hv].
  by rewrite (decode_encoded s).
Qed.

Lemma encode_for_write_current s :
  schema_version s = CHANNEL_STATE_SCHEMA_VERSION ->
  exists raw, to_value s = Ok raw /\ encode_for_write s = Ok (raw, s).
Proof.
  intros Hv. destruct (to_value_total (Value:=string) s) as [raw Hraw]. exists raw.
  split; [done|]. unfold encode_for_write.
  assert (with_schema_version CHANNEL_STATE_SCHEMA_VERSION s = s) as ->
    by (destruct s; simpl in *; by subst).
  unfold encode. by rewrite Hraw.
Qed.

Lemma key_inj id id' : key id = key id' -> id = id'.
Proof. unfold redis_key. by intros ?%(inj _). Qed.

(** A write of one key represents the write of one record. *)
Lemma rep_write db db' data id o :
  redis_rep db data -> encodes (db_get (key id) db') o ->
  (forall k, k <> key id -> db_get k db' = db_get k db) ->
  redis_rep db' (partial_alter (fun _ => o) id data).
Proof.
  intros Hrep Ho Hother id'. destruct (decide (id = id')) as [->|Hne].
  - by rewrite lookup_partial_alter_eq.
  - rewrite lookup_partial_alter_ne, Hother by (done || (intros Heq; by apply key_inj in Heq)).
    apply Hrep.
Qed.

Lemma rep_same db data id :
  redis_rep db data -> redis_rep db (partial_alter (fun _ => data !! id) id data).
Proof. intros Hrep. by rewrite partial_alter_self. Qed.

(** Compare-and-set against the value read. *)
Lemma run_compare_and_set id db raw new_raw :
  db_get (key id) db = raw ->
  exists db', redis_run (compare_and_set key_prefix id raw new_raw) db = (Ok true, db') /\
    db_get (key id) db' = Some new_raw /\ forall k, k <> key id -> db_get k db' = db_get k db.
Proof.
  intros Hraw. unfold compare_and_set, redis_run. simpl. unfold cas_script. rewrite Hraw.
  destruct raw as [raw|]; [rewrite decide_True by done|]; simpl;
    (eexists; split; [reflexivity|]); rewrite ?get_set, ?get_set_keepttl, ?decide_True by done;
    (split; [done|]); intros k Hk; rewrite ?get_set, ?get_set_keepttl; by rewrite decide_False.
Qed.

Lemma run_write_back {A} id db data s (k : St -> A) :
  redis_rep db data -> schema_version s = CHANNEL_STATE_SCHEMA_VERSION ->
  exists db', redis_run (write_back key_prefix id (db_get (key id) db) s k) db = (Ok (k s), db') /\
    redis_rep db' (partial_alter (fun _ => Some s) id data).
Proof.
  intros Hrep Hv. unfold write_back.
  destruct (encode_for_write_current s Hv) as (raw & Hraw & ->). rewrite redis_run_ptry.
  destruct (run_compare_and_set id db _ raw eq_refl) as (db' & -> & Hget & Hother).
  exists db'. split; [done|]. apply (rep_write db); try done. by rewrite Hget.
Qed.

Lemma run_get_raw id db :
  redis_run (get_raw key_prefix id) db = (Ok (db_get (key id) db), db).
Proof. done. Qed.

(** The run of a call answers what the contract says and leaves what it says. *)
Definition meets (c : store_call) (p : prog redisE store_reply) db data : Prop :=
  exists db', redis_run p db = ((contract_map c data).1, db') /\
    redis_rep db' (contract_map c data).2.

(** The contract's result is a record of the current schema. *)
Definition current_schema (c : store_call) data : Prop :=
  forall s, (contract c (data !! call_id c)).2 = Some s ->
  schema_version s = CHANNEL_STATE_SCHEMA_VERSION.

(** No other part of the record's text looks like a set [sealed] field. *)
Definition unambiguous (id : string) data : Prop :=
  forall s raw, data !! id = Some s -> to_value s = Ok raw -> sealed s = false ->
  find_plain sealed_true raw = None.

Lemma run_update id updater db data :
  redis_rep db data ->
  (forall s, updater (data !! id) = Ok s -> schema_version s = CHANNEL_STATE_SCHEMA_VERSION) ->
  exists db', redis_run (redis_update_channel key_prefix id updater) db =
      (updater (data !! id), db') /\
    redis_rep db' (match updater (data !! id) with
                   | Ok s => partial_alter (fun _ => Some s) id data
                   | Err _ => data
                   end).
Proof.
  intros Hrep Hcur. unfold redis_update_channel. rewrite redis_run_ptry, run_get_raw.
  rewrite (decode_opt_encoded _ _ (Hrep id)).
  destruct (updater (data !! id)) as [s|e]; simpl in *; [|by exists db].
  apply run_write_back; [done|by apply Hcur].
Qed.

Lemma meets_mutate {A} id seed (mutator : St -> result A StoreError * St) (reply : result A StoreError -> store_reply)
    c db data :
  call_id c = id ->
  (forall o, contract c o =
    match or_else o seed with
    | None => (reply (Err err_not_found), o)
    | Some s => match mutator s with
                | (Ok a, s') => (reply (Ok a), Some s')
                | (Err e, _) => (reply (Err e), o)
                end
    end) ->
  redis_rep db data -> current_schema c data ->
  meets c (reply <$> redis_mutate_channel key_prefix id seed mutator) db data.
Proof.
  intros Hid Hc Hrep Hcur. unfold meets, contract_map. rewrite redis_run_fmap.
  unfold redis_mutate_channel. rewrite redis_run_ptry, run_get_raw.
  rewrite (decode_opt_encoded _ _ (Hrep id)). unfold current_schema in Hcur.
  rewrite Hid, Hc in *. destruct (or_else (data !! id) seed) as [s|]; simpl.
  - destruct (mutator s) as [[a|e] s'] eqn:Hm.
    + destruct (run_write_back id db data s' (fun _ => a)) as (db' & -> & Hrep');
        [done|by apply Hcur|]. by exists db'.
    + exists db. split; [done|by apply rep_same].
  - exists db. split; [done|by apply rep_same].
Qed.

(** Sealing rewrites the flag in the text. *)
Lemma sealed_text id db data s :
  redis_rep db data -> unambiguous id data -> data !! id = Some s ->
  exists raw, db_get (key id) db = Some raw /\
  match find_plain sealed_true raw with
  | Some _ => with_sealed true s = s
  | None => exists first, find_plain sealed_false raw = Some first /\
      encodes (Some (splice_sealed raw first)) (Some (with_sealed true s))
  end.
Proof.
  intros Hrep Hun Hs. specialize (Hrep id). rewrite Hs in Hrep.
  destruct (db_get (key id) db) as [raw|]; [|done]. destruct Hrep as [Hraw Hv].
  exists raw. split; [done|]. destruct (sealed s) eqn:Hsealed.
  - destruct (layout_sealed s raw Hraw Hsealed) as [n ->]. destruct s; simpl in *. by subst.
  - rewrite (Hun s raw) by done.
    destruct (layout_open s raw Hraw Hsealed) as (first & Hfirst & Henc).
    exists first. done.
Qed.

Lemma meets_seal c id (script : Db -> Z * Db) p db data :
  c = CallSeal id \/ c = CallFinalize id ->
  redis_run p db = (let '(r, db') := script db in (Ok r, db')) ->
  (forall db, match db_get (key id) db with
     | None => script db = (0, db)
     | Some raw =>
         match find_plain sealed_true raw with
         | Some _ => exists db', script db = (1, db') /\ forall k, db_get k db' = db_get k db
         | None => match find_plain sealed_false raw with
             | None => script db = (-1, db)
             | Some first => exists db', script db = (1, db') /\
                 forall k, db_get k db' =
                   if decide (key id = k) then Some (splice_sealed raw first) else db_get k db
             end
         end
     end) ->
  redis_rep db data -> unambiguous id data ->
  meets c (ReplyUnit <$> await? r := p in Ret (script_result r)) db data.
Proof.
  intros Hc Hrun Hscript Hrep Hun. unfold meets, contract_map.
  rewrite redis_run_fmap, redis_run_ptry, Hrun. specialize (Hscript db).
  assert (Hcontract : forall o, contract c o = match o with
    | None => (ReplyUnit (Err err_not_found), o)
    | Some s => (ReplyUnit (Ok tt), Some (with_sealed true s)) end) by (by destruct Hc; subst).
  assert (Hid : call_id c = id) by (by destruct Hc; subst).
  rewrite Hcontract, Hid. destruct (data !! id) as [s|] eqn:Hs.
  - destruct (sealed_text id db data s Hrep Hun Hs) as (raw & Hraw & Hseal).
    rewrite Hraw in Hscript. destruct (find_plain sealed_true raw).
    + destruct Hscript as (db' & -> & Hget). exists db'. split; [done|]. simpl.
      apply (rep_write db); [done| |by intros; rewrite Hget].
      rewrite Hget, Hseal, Hraw. pose proof (Hrep id) as Hr. by rewrite Hraw, Hs in Hr.
    + destruct Hseal as (first & Hf & Henc). rewrite Hf in Hscript.
      destruct Hscript as (db' & -> & Hget). exists db'. split; [done|]. simpl.
      apply (rep_write db); [done| |].
      * by rewrite Hget, decide_True.
      * intros k Hk. by rewrite Hget, decide_False.
  - pose proof (Hrep id) as Hr. rewrite Hs in Hr. destruct (db_get (key id) db); [done|].
    rewrite Hscript. exists db. split; [done|]. simpl.
    by rewrite partial_alter_same.
Qed.

Lemma meets_put id st db data :
  redis_rep db data -> current_schema (CallPut id st) data ->
  meets (CallPut id st) (ReplyUnit <$> redis_put_channel key_prefix id st) db data.
Proof.
  intros Hrep Hcur. unfold meets, contract_map, redis_put_channel. rewrite redis_run_fmap.
  unfold current_schema in Hcur. simpl in *. pose proof (Hrep id) as Hid.
  unfold encode_for_write, encode. destruct (to_value_total (Value:=string)
    (with_schema_version CHANNEL_STATE_SCHEMA_VERSION st)) as [raw Hraw].
  rewrite Hraw. cbn [rmap_err rbind]. rewrite redis_run_ptry.
  destruct (data !! id) as [s|] eqn:Hs.
  - simpl in *. destruct (db_get (key id) db) as [raw'|] eqn:Hget; [|done]. simpl.
    exists db. split; [done|]. by rewrite partial_alter_same.
  - destruct (db_get (key id) db) as [raw'|] eqn:Hget; [done|].
    destruct (run_compare_and_set id db _ raw Hget) as (db' & -> & Hget' & Hother).
    exists db'. split; [done|]. apply (rep_write db); [done| |done]. rewrite Hget'.
    specialize (Hcur _ eq_refl). split; [|done]. rewrite <-Hraw. f_equal.
    destruct st. simpl in *. by subst.
Qed.

Lemma meets_delete id db data :
  redis_rep db data ->
  meets (CallDelete id) (ReplyUnit <$> redis_delete_channel key_prefix id) db data.
Proof.
  intros Hrep. eexists. split; [reflexivity|]. simpl. apply (rep_write db); [done| |].
  - by rewrite get_del, decide_True.
  - intros k Hk. by rewrite get_del, decide_False.
Qed.

Lemma meets_delete_if id approve db data :
  redis_rep db data ->
  meets (CallDeleteIf id approve) (ReplyBool <$> redis_delete_channel_if key_prefix id approve) db data.
Proof.
  intros Hrep. unfold meets, contract_map, redis_delete_channel_if.
  rewrite redis_run_fmap, redis_run_ptry, run_get_raw. pose proof (Hrep id) as Hid. simpl.
  destruct (db_get (key id) db) as [raw|] eqn:Hget, (data !! id) as [s|] eqn:Hs; simpl in Hid; try done.
  - destruct Hid as [Hraw Hv]. rewrite (decode_encoded s raw) by done.
    destruct (approve s).
    + unfold redis_run. simpl. unfold compare_delete_script. rewrite decide_True by done. simpl.
      eexists. split; [reflexivity|]. apply (rep_write db); [done| |].
      * by rewrite get_del, decide_True.
      * intros k Hk. by rewrite get_del, decide_False.
    + exists db. split; [done|]. by rewrite partial_alter_same.
  - exists db. split; [done|]. by rewrite partial_alter_same.
Qed.

Lemma meets_update id updater db data :
  redis_rep db data -> current_schema (CallUpdate id updater) data ->
  meets (CallUpdate id updater)
    ((fun r => ReplyState (rmap Some r)) <$> redis_update_channel key_prefix id updater) db data.
Proof.
  intros Hrep Hcur. unfold meets, contract_map. rewrite redis_run_fmap.
  unfold current_schema in Hcur. simpl in Hcur.
  destruct (run_update id updater db data Hrep) as (db' & -> & Hrep').
  { intros s Hs. rewrite Hs in Hcur. by apply Hcur. }
  exists db'. simpl. destruct (updater (data !! id)); [done|]. split; [done|].
  by rewrite partial_alter_same.
Qed.

Lemma meets_deposit id dep db data :
  redis_rep db data -> current_schema (CallDeposit id dep) data ->
  meets (CallDeposit id dep) (ReplyUnit <$> redis_update_deposit key_prefix id dep) db data.
Proof.
  intros Hrep Hcur. unfold meets, contract_map, redis_update_deposit.
  rewrite redis_run_fmap, redis_run_ptry. unfold current_schema in Hcur. simpl in Hcur.
  destruct (run_update id (fun state =>
    let? state := ok_or state err_not_found in Ok (with_deposit dep state)) db data Hrep)
    as (db' & -> & Hrep').
  { intros s Hs. destruct (data !! id); simpl in Hs; [|done]. simplify_eq. by apply Hcur. }
  exists db'. simpl. destruct (data !! id) as [s|] eqn:Hs; simpl in *; [done|]. split; [done|].
  by rewrite partial_alter_same.
Qed.

Lemma meets_advance id expected new db data :
  redis_rep db data -> current_schema (CallAdvance id expected new) data ->
  meets (CallAdvance id expected new)
    (ReplyBool <$> redis_advance_cumulative key_prefix id expected new) db data.
Proof.
  intros Hrep Hcur. unfold meets, contract_map, redis_advance_cumulative. cbn [contract call_id].
  rewrite redis_run_fmap, redis_run_ptry, run_get_raw. pose proof (Hrep id) as Hid.
  unfold current_schema in Hcur. simpl in Hcur.
  destruct (db_get (key id) db) as [raw|] eqn:Hget, (data !! id) as [s|] eqn:Hs; simpl in Hid; try done.
  - destruct Hid as [Hraw Hv]. rewrite (decode_encoded s raw) by done.
    destruct (decide (cumulative s = expected)) as [He|He]; simpl in *.
    + rewrite (decide_False (P := cumulative s <> expected)) by naive_solver.
      destruct (encode_for_write_current (with_cumulative new s)) as (raw' & Hraw' & ->); [done|].
      destruct (run_compare_and_set id db _ raw' Hget) as (db' & -> & Hget' & Hother).
      exists db'. split; [done|]. apply (rep_write db); [done| |done]. by rewrite Hget'.
    + rewrite (decide_True (P := cumulative s <> expected)) by done. exists db. split; [done|].
      by rewrite partial_alter_same.
  - exists db. split; [done|]. by rewrite partial_alter_same.
Qed.

Lemma run_touch_loop attempts id lc db data :
  redis_rep db data ->
  exists db', redis_run (touch_loop key_prefix (S attempts) id lc) db =
    (match data !! id with
     | Some s => Ok (if touch_replaces lc s then with_lifecycle (Some lc) s else s)
     | None => Err err_not_found
     end, db') /\ redis_rep db' (contract_map (CallTouch id lc) data).2.
Proof.
  intros Hrep. cbn [touch_loop]. rewrite redis_run_ptry, run_get_raw.
  pose proof (Hrep id) as Hid. unfold contract_map. cbn [contract call_id].
  destruct (db_get (key id) db) as [raw|] eqn:Hget, (data !! id) as [s|] eqn:Hs; simpl in Hid; try done.
  - destruct Hid as [Hraw Hv]. rewrite (decode_encoded s raw) by done.
    destruct (touch_replaces lc s).
    + destruct (encode_for_write_current (with_lifecycle (Some lc) s)) as (raw' & Hraw' & ->); [done|].
      rewrite redis_run_ptry.
      destruct (run_compare_and_set id db _ raw' Hget) as (db' & -> & Hget' & Hother).
      exists db'. split; [done|]. apply (rep_write db); [done| |done]. by rewrite Hget'.
    + exists db. split; [done|]. simpl. by rewrite partial_alter_same.
  - exists db. split; [done|]. simpl. by rewrite partial_alter_same.
Qed.

Lemma meets_touch id lc db data :
  redis_rep db data ->
  meets (CallTouch id lc)
    ((fun r => ReplyState (rmap Some r)) <$> redis_touch_channel_lifecycle key_prefix id lc) db data.
Proof.
  intros Hrep. unfold meets. rewrite redis_run_fmap. unfold redis_touch_channel_lifecycle.
  destruct (run_touch_loop 7 id lc db data Hrep) as (db' & Hr & Hrep').
  change (S 7) with MAX_ATTEMPTS in Hr. rewrite Hr. exists db'. split; [|done].
  unfold contract_map. simpl. by destruct (data !! id).
Qed.

Lemma run_redis_call c db data :
  redis_rep db data -> current_schema c data ->
  match c with CallSeal id | CallFinalize id => unambiguous id data | _ => True end ->
  meets c (redis_call key_prefix retention c) db data.
Proof.
  intros Hrep Hcur Hun. unfold redis_call.
  destruct c as [id|id st|id|id approve|id updater|id seed mutator|id seed request prepare|id lc
    |id expected new|id dep|id|id].
  - unfold meets, contract_map, redis_get_channel. rewrite redis_run_fmap, redis_run_ptry, run_get_raw.
    exists db. simpl. rewrite (decode_opt_encoded _ _ (Hrep id)). split; [done|by apply rep_same].
  - by apply meets_put.
  - by apply meets_delete.
  - by apply meets_delete_if.
  - by apply meets_update.
  - apply meets_mutate; [done| |done|done]. intros o. simpl.
    destruct (or_else o seed) as [s|]; [|done]. by destruct (mutator s) as [[[]|] ?].
  - by apply meets_mutate.
  - by apply meets_touch.
  - by apply meets_advance.
  - by apply meets_deposit.
  - apply (meets_seal (CallSeal id) id (seal_script (key id))); [by left| | |done|done].
    + unfold redis_run. simpl. by destruct (seal_script _ db).
    + intros db0. unfold seal_script. destruct (db_get (key id) db0) as [raw|]; [|done].
      destruct (find_plain sealed_true raw); [by eexists|].
      destruct (find_plain sealed_false raw); [|done]. eexists. split; [done|].
      intros k. apply get_set_keepttl.
  - apply (meets_seal (CallFinalize id) id (finalize_script (key id) retention));
      [by right| | |done|done].
    + unfold redis_run. simpl. by destruct (finalize_script _ _ db).
    + intros db0. unfold finalize_script. destruct (db_get (key id) db0) as [raw|]; [|done].
      destruct (find_plain sealed_true raw).
      * eexists. split; [done|]. intros k. case_decide; [by apply get_expire|done].
      * destruct (find_plain sealed_false raw); [|done]. eexists. split; [done|].
        intros k. by apply get_set_ex.
Qed.

(** Without contention, every call of the Redis store answers what the
    contract says and leaves the record the contract says, for records of the
    current schema - sealing and finalizing, which edit the text, provided no
    other part of the record reads like a set flag. *)
Theorem redis_refines_contract c db data :
  redis_rep db data -> current_schema c data ->
  match c with CallSeal id | CallFinalize id => unambiguous id data | _ => True end ->
  exists db', redis_run (redis_call key_prefix retention c) db = ((contract_map c data).1, db') /\
    redis_rep db' (contract_map c data).2.
Proof. apply run_redis_call. Qed.
End refinement.

(** * A concrete server and codec *)
Module RedisDemo.
Abbreviation server := (gmap string (string * option Z)).

#[global] Instance redis : RedisDb server := {
  db_get k m := fst <$> m !! k;
  db_set k v m := <[k := (v, None)]> m;
  db_set_keepttl k v m := <[k := (v, m !! k ≫= snd)]> m;
  db_set_ex k v n m := <[k := (v, Some n)]> m;
  db_del k m := delete k m;
  db_ttl k m := match m !! k with None => -2 | Some (_, None) => -1 | Some (_, Some n) => Z.max 0 n end;
  db_expire k n m := match m !! k with None => m | Some (v, _) => <[k := (v, Some n)]> m end;
  db_lapse k m := match m !! k with Some (_, Some _) => delete k m | _ => m end;
}.

Lemma present k (m : server) : is_Some (db_get k m) -> exists p, m !! k = Some p.
Proof. intros Hk. apply fmap_is_Some in Hk. exact Hk. Qed.

(** Split on whether two keys are one, then on what the map holds. *)
Ltac redis_law k k' :=
  destruct (decide (k = k')); [subst|];
  repeat (case_decide || case_match || simplify_map_eq); try done; try lia; try naive_solver lia.

#[global] Instance redis_laws : RedisLaws server.
Proof.
  split; unfold db_get, db_set, db_set_keepttl, db_set_ex, db_del, db_ttl, db_expire, db_lapse; simpl.
  all: try (intros k v n db k' Hn; redis_law k k').
  all: try (intros k v db k'; try intros [[? []] Hk]%present; redis_law k k').
  all: try (intros k n db k' Hn; try intros [[? []] Hk]%present; redis_law k k').
  all: try (intros k db k'; redis_law k k').
  all: intros k db Hk; try apply present in Hk as [[? []] Hk];
    repeat (case_match || simplify_map_eq); try done; lia.
Qed.

(** A text form of records: the flag, then the digits of the other fields. *)
#[global] Instance byte_countable : Countable Byte.byte.
Proof.
  apply (inj_countable Byte.to_N Byte.of_N). intros b. apply Byte.of_to_N.
Defined.
#[global] Instance pending_countable : Countable PendingDelivery.
Proof.
  apply (inj_countable'
    (fun p => (pd_delivery_id p, pd_amount p, pd_sequence p, pd_expires_at p,
               pd_request_fingerprint p, pd_handler_succeeded p))
    (fun '(a, b, c, d, e, f) => Build_PendingDelivery a b c d e f)). by intros [].
Defined.
#[global] Instance cached_countable : Countable CachedUpstreamResponse.
Proof.
  apply (inj_countable' (fun r => (status r, content_type r, headers r, body r))
    (fun '(a, b, c, d) => Build_CachedUpstreamResponse a b c d)). by intros [].
Defined.
#[global] Instance committed_countable : Countable (CommittedDelivery Demo.value).
Proof.
  apply (inj_countable'
    (fun c => (cd_delivery_id c, cd_amount c, cd_cumulative c, cd_voucher_signature c,
               cd_request_fingerprint c, cd_settlement_response c, cd_retain_until c,
               cd_cached_response c))
    (fun '(a, b, c, d, e, f, g, h) => Build_CommittedDelivery _ a b c d e f g h)). by intros [].
Defined.
#[global] Instance setup_countable : Countable PendingSetup.
Proof.
  apply (inj_countable'
    (fun p => (payer_signature p, ps_deposit p, opens_channel p, ps_expires_at p))
    (fun '(a, b, c, d) => Build_PendingSetup a b c d)). by intros [].
Defined.
#[global] Instance lifecycle_countable : Countable ChannelLifecycle.
Proof.
  apply (inj_countable' (fun p => (owner p, close_after p))
    (fun '(a, b) => Build_ChannelLifecycle a b)). by intros [].
Defined.
#[global] Instance use_countable : Countable ProcessedUse.
Proof.
  apply (inj_countable' (fun p => (pu_challenge_id p, pu_idempotency_key p, pu_cumulative p,
      pu_voucher_signature p, pu_amount p))
    (fun '(a, b, c, d, e) => Build_ProcessedUse a b c d e)). by intros [].
Defined.

Definition fields (s : ChannelState Demo.value) :=
  ((channel_id s, authorized_signer s, deposit s, cumulative s, highest_voucher_signature s,
    highest_voucher_expires_at s, close_requested_at s, final_cumulative s, open_slot s, payer s),
   (rent_payer s, opening_challenge_id s, authentication s, voucher_signer s,
    idle_timeout_seconds s, last_activity_at s, spent_amount s, settled_on_chain s,
    distributed_on_chain s, processed_uses s),
   (processed_topup_signatures s, next_delivery_sequence s, pending_deliveries s,
    committed_deliveries s, pending_setup s, onchain_checked_at s, lifecycle s, schema_version s,
    extra s)).
Definition of_fields (flag : bool) (t : string * string * Z * Z * option string * option Z *
    option Z * option Z * option Z * string *
    (string * string * option string * string * option Z * Z * Z * Z * Z * list ProcessedUse) *
    (list string * Z * list PendingDelivery * list (CommittedDelivery Demo.value) *
     option PendingSetup * Z * option ChannelLifecycle * Z * gmap string Demo.value)) :
    ChannelState Demo.value :=
  let '((a1, a2, a3, a4, a5, a6, a7, a8, a9, a10), (b1, b2, b3, b4, b5, b6, b7, b8, b9, b10),
        (c1, c2, c3, c4, c5, c6, c7, c8, c9)) := t in
  Build_ChannelState _ a1 a2 a3 a4 flag a5 a6 a7 a8 a9 a10 b1 b2 b3 b4 b5 b6 b7 b8 b9 b10
    c1 c2 c3 c4 c5 c6 c7 c8 c9.

Definition flag_text (flag : bool) : string := if flag then sealed_true else sealed_false.
Definition text (s : ChannelState Demo.value) : string :=
  flag_text (sealed s) +:+ Demo.pos_text (countable.encode (fields s)).
Definition parse (raw : string) : result (ChannelState Demo.value) string :=
  let flag := String.prefix sealed_true raw in
  let n := String.length (flag_text flag) in
  rmap (of_fields flag)
    (ok_or (countable.decode (Demo.text_pos (String.substring n (String.length raw - n) raw)))
       "invalid record").

#[global] Instance record_serde : Serde string (ChannelState Demo.value) :=
  {| to_value s := Ok (text s); from_value := parse |}.

Lemma substring_app a b : String.substring (String.length a) (String.length b) (a +:+ b) = b.
Proof.
  induction a as [|c a IH]; simpl; [|exact IH].
  induction b as [|c b IH]; simpl; [done|]. by f_equal.
Qed.

Lemma length_append a b : String.length (a +:+ b) = (String.length a + String.length b)%nat.
Proof. induction a as [|c a IH]; simpl; [done|]. by f_equal. Qed.

Lemma prefix_flag flag rest : String.prefix sealed_true (flag_text flag +:+ rest) = flag.
Proof. by destruct flag, rest. Qed.

Lemma find_flag flag rest : find_plain (flag_text flag) (flag_text flag +:+ rest) = Some 0%nat.
Proof. by destruct flag, rest. Qed.

Lemma of_fields_fields s : of_fields (sealed s) (fields s) = s.
Proof. by destruct s. Qed.

Lemma parse_text s : parse (text s) = Ok s.
Proof.
  unfold parse, text. pose proof (of_fields_fields s) as Ht. revert Ht.
  generalize (fields s), (sealed s). intros t flag Ht.
  rewrite (prefix_flag flag).
  rewrite length_append, Nat.add_sub_swap, Nat.sub_diag by done.
  change (0 + ?n)%nat with n. rewrite substring_app, Demo.text_pos_text, decode_encode. simpl.
  by rewrite Ht.
Qed.

#[global] Instance record_laws : SerdeLaws string (ChannelState Demo.value).
Proof. split; [by eexists|]. intros x v [= <-]. apply parse_text. Qed.

#[global] Instance record_layout : SealedLayout Demo.value.
Proof.
  split.
  - intros s raw [= <-] Hs. unfold text. rewrite Hs, (find_flag true). by eexists.
  - intros s raw [= <-] Hs. exists 0%nat. unfold text. rewrite Hs, (find_flag false). split; [done|].
    change (fields (with_sealed true s)) with (fields s).
    change (sealed (with_sealed true s)) with true. cbn [to_value record_serde]. unfold text.
    change (fields (with_sealed true s)) with (fields s). f_equal. unfold flag_text.
    generalize (Demo.pos_text (countable.encode (fields s))). intros rest. unfold splice_sealed.
    rewrite length_append, Nat.add_sub_swap, Nat.sub_diag by done.
    change (0 + ?n)%nat with n. rewrite substring_app. done.
Qed.

(** The text of a record reads like one flag only. *)
Fixpoint no_quote (s : string) : bool :=
  match s with
  | EmptyString => true
  | String c s => negb (Ascii.eqb c (ascii_of_nat 34)) && no_quote s
  end.

Lemma prefix_quote value c s :
  negb (Ascii.eqb c (ascii_of_nat 34)) = true ->
  String.prefix (sealed_field value) (String c s) = false.
Proof.
  unfold sealed_field, quote. intros Hc. simpl. case_match; [by subst|done].
Qed.

Lemma no_quote_find value s : no_quote s = true -> find_plain (sealed_field value) s = None.
Proof.
  unfold find_plain. induction s as [|c s IH]; intros Hq; [done|]. simpl in Hq.
  apply andb_true_iff in Hq as [Hc Hq]. specialize (IH Hq).
  cbn [String.index]. by rewrite prefix_quote, IH.
Qed.

Lemma no_quote_pos p : no_quote (Demo.pos_text p) = true.
Proof. by induction p. Qed.

Lemma find_skip pat c s :
  String.prefix pat (String c s) = false -> find_plain pat (String c s) = S <$> find_plain pat s.
Proof. unfold find_plain. cbn [String.index]. intros ->. by destruct (String.index 0 pat s). Qed.

Lemma find_other rest :
  no_quote rest = true -> find_plain sealed_true (sealed_false +:+ rest) = None.
Proof.
  intros Hq%(no_quote_find "true"). fold sealed_true in Hq.
  let f := eval vm_compute in sealed_false in change sealed_false with f.
  cbv beta iota delta [String.append]. rewrite !find_skip by reflexivity. by rewrite Hq.
Qed.

Lemma text_unambiguous s raw :
  to_value s = Ok raw -> sealed s = false -> find_plain sealed_true raw = None.
Proof.
  intros [= <-] Hs. unfold text. rewrite Hs. apply find_other, no_quote_pos.
Qed.

Definition opened := ChannelDemo.opened "c" 10.
Definition namespace : string := namespace_key_prefix "pay".
Definition db : server := {[ redis_key namespace "c" := (text opened, None) ]}.
Definition data : gmap string (ChannelState Demo.value) := {[ "c" := opened ]}.

Lemma represents : redis_rep namespace db data.
Proof.
  intros id. unfold data, db. cbn [db_get redis]. destruct (decide (id = "c")) as [->|Hne].
  - rewrite !lookup_singleton_eq. split; reflexivity.
  - rewrite !lookup_singleton_ne; [done|congruence|].
    intros Heq. apply Hne. symmetry. by apply (key_inj namespace).
Qed.
End RedisDemo.

Lemma namespaces_disjoint_witness :
  redis_key (namespace_key_prefix "pay") "c" = "3:pay:c" /\ ("pay" = "pay" /\ "c" = "c").
Proof. split; [reflexivity|]. apply namespaces_disjoint. reflexivity. Defined.

Lemma redis_refines_contract_witness :
  exists db', redis_run (redis_call RedisDemo.namespace 60 (CallSeal "c")) RedisDemo.db =
      (ReplyUnit (Ok tt), db') /\
    redis_rep RedisDemo.namespace db' (contract_map (CallSeal "c") RedisDemo.data).2.
Proof.
  refine (redis_refines_contract RedisDemo.namespace 60 eq_refl (CallSeal "c") RedisDemo.db RedisDemo.data
    RedisDemo.represents _ _).
  - intros s Hs. change (Some (with_sealed true RedisDemo.opened) = Some s) in Hs.
    injection Hs as <-. reflexivity.
  - intros s raw _. apply RedisDemo.text_unambiguous.
Defined.
