(* ===== verification/RedisPool.v ===== *)
(** Concurrent calls on the Redis channel store: every interleaving of their
    round trips, with faults and with records lapsing, is a sequence of atomic
    calls on the texts the keys hold. *)
From Stdlib Require Import Ascii.
From stdpp Require Import base numbers option list gmap strings relations.
From S2P Require Import Prelude Effects Json Store Channel Authorization ChannelStore RedisStore.

(** The retention [connect_with_finalized_retention] lets through is positive,
    as [EX] and [EXPIRE] need it. *)
Lemma retention_positive seconds retention :
  0 <= seconds -> connect_with_finalized_retention seconds = Ok retention -> 0 < retention.
Proof. unfold connect_with_finalized_retention. case_decide; [done|]. intros ? [= <-]. lia. Qed.

(** * The atomic calls on texts *)
Section calls.
Context {Value : Type} `{!Serde string (ChannelState Value)}.
Abbreviation St := (ChannelState Value).
Abbreviation call := (store_call (Value := Value)).
Abbreviation reply := (store_reply (Value := Value)).

(** A written record carries the schema version of its writer. *)
Definition stamp (s : St) : St := with_schema_version CHANNEL_STATE_SCHEMA_VERSION s.
Definition stamp_reply (r : reply) : reply :=
  match r with ReplyState (Ok (Some s)) => ReplyState (Ok (Some (stamp s))) | _ => r end.

(** The answer that carries an error. *)
Definition reply_err (c : call) (e : StoreError) : reply :=
  match c with
  | CallGet _ | CallUpdate _ _ | CallTouch _ _ => ReplyState (Err e)
  | CallDeleteIf _ _ | CallAdvance _ _ _ => ReplyBool (Err e)
  | CallReserve _ _ _ _ => ReplyReservation (Err e)
  | _ => ReplyUnit (Err e)
  end.

(** What a call that changed nothing because it lost a race answers. *)
Definition lost (c : call) : reply :=
  match c with
  | CallPut id _ => ReplyUnit (Err (err_exists id))
  | CallDeleteIf _ _ | CallAdvance _ _ _ => ReplyBool (Ok false)
  | CallTouch _ _ => ReplyState (Err err_lifecycle_conflict)
  | _ => reply_err c err_conflict
  end.

Definition succeeded (r : reply) : bool :=
  match r with
  | ReplyState (Ok _) | ReplyBool (Ok true) | ReplyUnit (Ok _) | ReplyReservation (Ok _) => true
  | _ => false
  end.

(** Whether the call, served as the contract says, writes the record. *)
Definition writes (c : call) (o : option St) : bool :=
  match c with
  | CallGet _ | CallDeleteIf _ _ => false
  | CallTouch _ lc => from_option (touch_replaces lc) false o
  | _ => succeeded (contract c o).1
  end.

(** Sealing reads and edits the text: a set flag anywhere in it counts. *)
Definition seal_text (raw : option string) : reply * option string :=
  match raw with
  | None => (ReplyUnit (Err err_not_found), None)
  | Some text =>
      match find_plain sealed_true text, find_plain sealed_false text with
      | Some _, _ => (ReplyUnit (Ok tt), raw)
      | None, Some first => (ReplyUnit (Ok tt), Some (splice_sealed text first))
      | None, None => (ReplyUnit (Err err_missing_sealed), raw)
      end
  end.

(** A call on the text its key holds: the contract on the record the text
    decodes to, the record it writes stamped and encoded. A text that does not
    decode, and a record that does not encode, is an error that writes nothing. *)
Definition text_call (c : call) (raw : option string) : reply * option string :=
  match c with
  | CallSeal _ | CallFinalize _ => seal_text raw
  | CallDelete _ => (ReplyUnit (Ok tt), None)
  | CallPut id st =>
      match encode (stamp st), raw with
      | Err e, _ => (ReplyUnit (Err e), raw)
      | Ok _, Some _ => (ReplyUnit (Err (err_exists id)), raw)
      | Ok text, None => (ReplyUnit (Ok tt), Some text)
      end
  | _ =>
      match decode_opt raw with
      | Err e => (reply_err c e, raw)
      | Ok o =>
          match contract c o with
          | (r, None) => (r, None)
          | (r, Some s) =>
              if writes c o then
                match encode (stamp s) with
                | Ok text => (stamp_reply r, Some text)
                | Err e => (reply_err c e, raw)
                end
              else (r, raw)
          end
      end
  end.

(** * History *)

(** The texts of the channels, and those of them under a running retention. *)
Record archive := { texts : gmap string string; retained : gset string }.

Inductive move := Took (i : nat) | Lapsed (id : string).

Definition call_texts (c : call) (m : gmap string string) : reply * gmap string string :=
  let '(r, raw) := text_call c (m !! call_id c) in
  (r, partial_alter (fun _ => raw) (call_id c) m).

(** A finalization that succeeds starts the retention; it ends with the record. *)
Definition take_effect (c : call) (a : archive) : archive :=
  let '(r, m) := call_texts c (texts a) in
  {| texts := m;
     retained :=
       match m !! call_id c, c with
       | None, _ => retained a ∖ {[call_id c]}
       | Some _, CallFinalize id => if succeeded r then {[id]} ∪ retained a else retained a
       | Some _, _ => retained a
       end |}.

Definition lapse (id : string) (a : archive) : archive :=
  {| texts := delete id (texts a); retained := retained a ∖ {[id]} |}.

Definition moved (cs : list call) (a : archive) (m : move) : archive :=
  match m with
  | Took i => match cs !! i with Some c => take_effect c a | None => a end
  | Lapsed id => lapse id a
  end.

(** The archive after the moves, one after the other. *)
Definition replay (cs : list call) (a : archive) (h : list move) : archive := foldl (moved cs) a h.
End calls.
#[global] Arguments stamp : simpl never.
#[global] Arguments text_call : simpl never.

Section pool.
Context {Value : Type} `{!Serde string (ChannelState Value)}.
Context {Db : Type} `{RedisLaws Db}.
Context (key_prefix : string) (retention : Z) (retention_pos : 0 < retention).
Abbreviation St := (ChannelState Value).
Abbreviation key := (redis_key key_prefix).
Abbreviation call := (store_call (Value := Value)).
Abbreviation reply := (store_reply (Value := Value)).
Implicit Types (db : Db) (s : St) (d : archive) (h : list move).

(** * Ghost state of a running call *)

Inductive outcome :=
| Failed (e : StoreError)
| Swapped (raw : option string)
| Direct (r : reply).

Record ghost := {
  g_call : call;
  g_seen : option (option string);
  g_beaten : bool;
  g_out : option outcome;
}.

Definition at_call (c : call) seen beaten : ghost :=
  {| g_call := c; g_seen := seen; g_beaten := beaten; g_out := None |}.
Definition fresh (c : call) : ghost := at_call c None false.
Definition see (raw : option string) (g : ghost) : ghost :=
  {| g_call := g_call g; g_seen := Some raw; g_beaten := g_beaten g; g_out := g_out g |}.
Definition beat (g : ghost) : ghost :=
  {| g_call := g_call g; g_seen := g_seen g; g_beaten := true; g_out := g_out g |}.
Definition finish (out : outcome) (g : ghost) : ghost :=
  {| g_call := g_call g; g_seen := g_seen g; g_beaten := g_beaten g; g_out := Some out |}.

(** What a compare-and-set may expect: the text read, or for a creation none. *)
Definition expects (c : call) (seen : option (option string)) (expected : option string) : Prop :=
  match c with CallPut _ _ => expected = None | _ => seen = Some expected end.

Definition may (X : Type) (g : ghost) (e : redisE X) : Prop :=
  g_out g = None /\
  match e with
  | RGet k => k = key (call_id (g_call g))
  | RCas k expected new => k = key (call_id (g_call g)) /\
      (text_call (g_call g) expected).2 = Some new /\
      expects (g_call g) (g_seen g) expected /\ forall id, g_call g <> CallFinalize id
  | RSeal k => exists id, g_call g = CallSeal id /\ k = key id
  | RFinalize k n => exists id, g_call g = CallFinalize id /\ k = key id /\ n = retention
  | RDel k => exists id, g_call g = CallDelete id /\ k = key id
  | RCompareDelete k raw => k = key (call_id (g_call g)) /\
      (text_call (g_call g) (Some raw)).2 = None /\ expects (g_call g) (g_seen g) (Some raw)
  end.

Definition or_failed {A} (next : A -> ghost) (g : ghost) (x : result A StoreError) : ghost :=
  match x with Ok r => next r | Err e => finish (Failed e) g end.

Definition raced_out (raw : option string) (g : ghost) (r : Z) : ghost :=
  if decide (r = 1) then finish (Swapped raw) g else beat g.

Definition after (X : Type) (g : ghost) (e : redisE X) : X -> ghost :=
  match e in redisE X return X -> ghost with
  | RGet _ => or_failed (fun raw => see raw g) g
  | RCas _ expected _ => or_failed (raced_out expected g) g
  | RCompareDelete _ raw => or_failed (raced_out (Some raw) g) g
  | RSeal _ | RFinalize _ _ =>
      or_failed (fun r => finish (Direct (ReplyUnit (script_result r))) g) g
  | RDel _ => or_failed (fun _ => finish (Direct (ReplyUnit (Ok tt))) g) g
  end.

(** What the answer of a finished call tells. *)
Definition told (g : ghost) (r : reply) : Prop :=
  match g_out g with
  | Some (Failed e) => r = reply_err (g_call g) e
  | Some (Swapped raw) => r = (text_call (g_call g) raw).1
  | Some (Direct r') => r = r'
  | None => (r = lost (g_call g) /\ g_beaten g = true) \/
      (exists raw, g_seen g = Some raw /\ text_call (g_call g) raw = (r, raw)) \/
      forall raw, text_call (g_call g) raw = (r, raw)
  end.

Abbreviation calls_certified := (certified may after).

(** [told], of a call answering through [f]. *)
Definition told_by {A} (f : result A StoreError -> reply) (g : ghost) (r : result A StoreError) : Prop :=
  told g (f r).

Lemma certified_fmap {A} (f : result A StoreError -> reply) p g :
  calls_certified (told_by f) g p -> calls_certified told g (f <$> p).
Proof. intros Hp. apply certified_pbind. exact Hp. Qed.

Lemma told_seen (c : call) beaten raw r :
  text_call c raw = (r, raw) -> told (at_call c (Some raw) beaten) r.
Proof. intros Ho. right. left. by exists raw. Qed.

(** A call that is the contract on the decoded record. *)
Definition decodes (c : call) : Prop :=
  match c with CallPut _ _ | CallDelete _ | CallSeal _ | CallFinalize _ => False | _ => True end.

Lemma text_call_err c raw e :
  decodes c -> decode_opt (Value := Value) raw = Err e -> text_call c raw = (reply_err c e, raw).
Proof. intros Hc He. by destruct c; unfold text_call; rewrite ?He. Qed.

Lemma text_call_ok c raw o :
  decodes c -> decode_opt raw = Ok o -> text_call c raw =
    match contract c o with
    | (r, None) => (r, None)
    | (r, Some s) =>
        if writes c o then
          match encode (stamp s) with
          | Ok text => (stamp_reply r, Some text)
          | Err e => (reply_err c e, raw)
          end
        else (r, raw)
    end.
Proof. intros Hc He. destruct c; unfold text_call; by rewrite ?He. Qed.

Lemma decode_opt_some raw o : decode_opt (Value := Value) raw = Ok o -> (raw = None <-> o = None).
Proof. destruct raw as [raw|]; simpl; [|naive_solver]. destruct (decode raw); naive_solver. Qed.

(** A call that fails, or answers without writing, on the record read. *)
Lemma text_call_quiet c raw o r :
  decodes c -> decode_opt raw = Ok o -> contract c o = (r, o) -> writes c o = false ->
  text_call c raw = (r, raw).
Proof.
  intros Hd Hdec Hc Hw. rewrite (text_call_ok c raw o), Hc, Hw by done. destruct o; [done|].
  destruct (decode_opt_some raw None Hdec) as [_ ->]; done.
Qed.

(** A call that writes, on the record read. *)
Lemma text_call_write c raw o r s :
  decodes c -> decode_opt raw = Ok o -> contract c o = (r, Some s) -> writes c o = true ->
  text_call c raw = match encode (stamp s) with
                    | Ok text => (stamp_reply r, Some text)
                    | Err e => (reply_err c e, raw)
                    end.
Proof. intros Hd Hdec Hc Hw. by rewrite (text_call_ok c raw o), Hc, Hw. Qed.

Lemma read_certified {A} (f : result A StoreError -> reply) k (c : call) id seen beaten :
  call_id c = id -> (forall e, f (Err e) = reply_err c e) ->
  (forall raw, calls_certified (told_by f) (at_call c (Some raw) beaten) (k raw)) ->
  calls_certified (told_by f) (at_call c seen beaten) (await? raw := get_raw key_prefix id in k raw).
Proof. intros <- Herr Hk. split; [done|]. by intros [raw|e]; [apply Hk|apply Herr]. Qed.

Lemma cas_certified {A} (f : result A StoreError -> reply) (c : call) id seen beaten expected new
    (k : bool -> prog redisE (result A StoreError)) :
  call_id c = id -> (forall e, f (Err e) = reply_err c e) ->
  (text_call c expected).2 = Some new -> expects c seen expected ->
  (forall id, c <> CallFinalize id) ->
  calls_certified (told_by f) (finish (Swapped expected) (at_call c seen beaten)) (k true) ->
  calls_certified (told_by f) (at_call c seen true) (k false) ->
  calls_certified (told_by f) (at_call c seen beaten)
    (await? won := compare_and_set key_prefix id expected new in k won).
Proof.
  intros <- Herr Hwrite Hexp Hnf Htrue Hfalse. split; [done|].
  intros [r|e]; simpl; [|apply Herr]. unfold raced_out. case_decide as Hr.
  - by rewrite bool_decide_true.
  - by rewrite bool_decide_false.
Qed.

(** [write_back] of the record the contract writes. *)
Lemma write_back_certified {A} (f : result A StoreError -> reply) (c : call) id seen beaten raw o r s
    (k : St -> A) :
  call_id c = id -> (forall e, f (Err e) = reply_err c e) -> decodes c ->
  decode_opt raw = Ok o -> contract c o = (r, Some s) -> writes c o = true ->
  f (Ok (k (stamp s))) = stamp_reply r -> f (Err err_conflict) = lost c -> seen = Some raw ->
  calls_certified (told_by f) (at_call c seen beaten) (write_back key_prefix id raw s k).
Proof.
  intros Hid Herr Hd Hdec Hc Hw Hf Hlost ->. pose proof (text_call_write c raw o r s Hd Hdec Hc Hw) as Ht.
  unfold write_back, encode_for_write. fold (stamp s). destruct (encode (stamp s)) as [new|e] eqn:Henc.
  - simpl. apply cas_certified; [done|done|by rewrite Ht|by destruct c|by intros ? ->| |].
    + simpl. unfold told_by, told. simpl. by rewrite Ht, Hf.
    + simpl. left. by rewrite Hlost.
  - simpl. unfold told_by. rewrite Herr. by apply told_seen.
Qed.

Lemma mutate_certified {A} (f : result A StoreError -> reply) (c : call) id seed
    (mutator : St -> result A StoreError * St) :
  call_id c = id -> (forall e, f (Err e) = reply_err c e) -> decodes c ->
  (forall a, succeeded (f (Ok a)) = true /\ stamp_reply (f (Ok a)) = f (Ok a)) ->
  (forall e, succeeded (f (Err e)) = false) -> (forall o, writes c o = succeeded (contract c o).1) ->
  f (Err err_conflict) = lost c ->
  (forall o, contract c o =
    match or_else o seed with
    | None => (f (Err err_not_found), o)
    | Some s => match mutator s with
                | (Ok a, s') => (f (Ok a), Some s')
                | (Err e, _) => (f (Err e), o)
                end
    end) ->
  calls_certified (told_by f) (fresh c) (redis_mutate_channel key_prefix id seed mutator).
Proof.
  intros Hid Herr Hd Hok Hbad Hw Hlost Hc. apply read_certified; [done|done|]. intros raw.
  destruct (decode_opt raw) as [o|e] eqn:Hdec.
  2:{ unfold told_by. simpl. rewrite Herr. by apply told_seen, text_call_err. }
  specialize (Hc o). specialize (Hw o). rewrite Hc in Hw.
  destruct (or_else o seed) as [s|]; simpl in *.
  - destruct (mutator s) as [[a|e] s'].
    + apply (write_back_certified f c id _ _ raw o (f (Ok a)) s'); try done.
      * rewrite Hw. apply Hok.
      * symmetry. apply Hok.
    + apply told_seen. apply (text_call_quiet c raw o); [done..|]. rewrite Hw. apply Hbad.
  - apply told_seen. apply (text_call_quiet c raw o); [done..|]. rewrite Hw. apply Hbad.
Qed.

Lemma update_certified (f : result St StoreError -> reply) (c : call) id updater :
  call_id c = id -> (forall e, f (Err e) = reply_err c e) -> decodes c ->
  (forall s, succeeded (f (Ok s)) = true /\ f (Ok (stamp s)) = stamp_reply (f (Ok s))) ->
  (forall e, succeeded (f (Err e)) = false) -> (forall o, writes c o = succeeded (contract c o).1) ->
  f (Err err_conflict) = lost c ->
  (forall o, contract c o = match updater o with
                            | Ok s => (f (Ok s), Some s)
                            | Err e => (f (Err e), o)
                            end) ->
  calls_certified (told_by f) (fresh c) (redis_update_channel key_prefix id updater).
Proof.
  intros Hid Herr Hd Hok Hbad Hw Hlost Hc. apply read_certified; [done|done|]. intros raw.
  destruct (decode_opt raw) as [o|e] eqn:Hdec.
  2:{ unfold told_by. simpl. rewrite Herr. by apply told_seen, text_call_err. }
  specialize (Hc o). specialize (Hw o). rewrite Hc in Hw. destruct (updater o) as [s|e].
  - apply (write_back_certified f c id _ _ raw o (f (Ok s)) s); try done.
    + rewrite Hw. apply Hok.
    + apply Hok.
  - apply told_seen. apply (text_call_quiet c raw o); [done..|]. rewrite Hw. apply Hbad.
Qed.

Lemma touch_certified attempts id lc seen beaten :
  (attempts <> 0%nat \/ beaten = true) ->
  calls_certified (told_by (fun r => ReplyState (rmap Some r))) (at_call (CallTouch id lc) seen beaten)
    (touch_loop key_prefix attempts id lc).
Proof.
  revert seen beaten. induction attempts as [|attempts IH]; intros seen beaten Hb; simpl.
  { left. split; [done|]. simpl. tauto. }
  apply read_certified; [done|done|]. intros [raw|]; [|by apply told_seen].
  destruct (decode raw) as [cur|e] eqn:Hcur.
  2:{ apply told_seen. rewrite (text_call_err _ _ e); [done|done|]. simpl. by rewrite Hcur. }
  assert (Hdec : decode_opt (Some raw) = Ok (Some cur)) by (simpl; by rewrite Hcur).
  destruct (touch_replaces lc cur) eqn:Ht.
  2:{ apply told_seen. eapply text_call_quiet; [done|exact Hdec| |done]. simpl. by rewrite Ht. }
  set (s := with_lifecycle (Some lc) cur).
  assert (Hw : text_call (CallTouch id lc) (Some raw) =
    match encode (stamp s) with
    | Ok text => (ReplyState (Ok (Some (stamp s))), Some text)
    | Err e => (ReplyState (Err e), Some raw)
    end).
  { erewrite (text_call_write _ _ (Some cur) _ s); [|done..|simpl; by rewrite Ht|done]. done. }
  unfold encode_for_write. fold (stamp s). destruct (encode (stamp s)) as [new|e]; simpl.
  - eapply cas_certified; try done; [by rewrite Hw| |apply IH; by right].
    unfold told_by, told. simpl. by rewrite Hw.
  - by apply told_seen.
Qed.

Lemma advance_certified id expected new :
  calls_certified (told_by ReplyBool) (fresh (CallAdvance id expected new))
    (redis_advance_cumulative key_prefix id expected new).
Proof.
  apply read_certified; [done|done|]. intros [raw|]; [|by apply told_seen].
  destruct (decode raw) as [cur|e] eqn:Hcur.
  2:{ apply told_seen. rewrite (text_call_err _ _ e); [done|done|]. simpl. by rewrite Hcur. }
  assert (Hdec : decode_opt (Some raw) = Ok (Some cur)) by (simpl; by rewrite Hcur).
  case_decide as Hne.
  { apply told_seen. eapply text_call_quiet; [done|exact Hdec|..]; simpl; by rewrite decide_False. }
  set (s := with_cumulative new cur).
  assert (Hw : text_call (CallAdvance id expected new) (Some raw) =
    match encode (stamp s) with
    | Ok text => (ReplyBool (Ok true), Some text)
    | Err e => (ReplyBool (Err e), Some raw)
    end).
  { rewrite (text_call_write _ _ (Some cur) (ReplyBool (Ok true)) s); try done;
      simpl; rewrite decide_True; by try destruct (decide (cumulative cur = expected)). }
  unfold encode_for_write. fold (stamp s). destruct (encode (stamp s)) as [text|e]; simpl.
  - split; [split; [done|]; simpl; by rewrite Hw|]. intros [r|e]; simpl; [|done]. unfold raced_out. case_decide as Hr.
    + rewrite bool_decide_true by done. unfold told_by, told. simpl. by rewrite Hw.
    + rewrite bool_decide_false by done. by left.
  - by apply told_seen.
Qed.

Lemma delete_if_certified id approve :
  calls_certified (told_by ReplyBool) (fresh (CallDeleteIf id approve))
    (redis_delete_channel_if key_prefix id approve).
Proof.
  apply read_certified; [done|done|]. intros [raw|]; [|by apply told_seen].
  destruct (decode raw) as [cur|e] eqn:Hcur.
  2:{ apply told_seen. rewrite (text_call_err _ _ e); [done|done|]. simpl. by rewrite Hcur. }
  assert (Hdec : decode_opt (Some raw) = Ok (Some cur)) by (simpl; by rewrite Hcur).
  destruct (approve cur) eqn:Ha.
  2:{ apply told_seen. eapply text_call_quiet; [done|exact Hdec| |done]. simpl. by rewrite Ha. }
  assert (Hd : text_call (CallDeleteIf id approve) (Some raw) = (ReplyBool (Ok true), None)).
  { rewrite (text_call_ok _ _ (Some cur)) by done. simpl. by rewrite Ha. }
  split; [split; [done|]; simpl; by rewrite Hd|]. intros [r|e]; simpl; [|done]. unfold raced_out. case_decide as Hr.
  - rewrite bool_decide_true by done. unfold told_by, told. simpl. by rewrite Hd.
  - rewrite bool_decide_false by done. by left.
Qed.

Lemma put_certified id st :
  calls_certified (told_by ReplyUnit) (fresh (CallPut id st)) (redis_put_channel key_prefix id st).
Proof.
  unfold redis_put_channel, encode_for_write. fold (stamp st).
  destruct (encode (stamp st)) as [text|e] eqn:Henc; simpl.
  - apply (cas_certified ReplyUnit (CallPut id st)); try done; unfold text_call;
      try (by rewrite Henc).
    + unfold told_by, told, text_call. simpl. by rewrite Henc.
    + by left.
  - right. right. intros raw. unfold text_call. simpl. by rewrite Henc.
Qed.

Lemma script_certified (c : call) e :
  may _ (fresh c) e -> (forall err, ReplyUnit (Err err) = reply_err c err) ->
  after _ (fresh c) e =
    or_failed (fun r => finish (Direct (ReplyUnit (script_result r))) (fresh c)) (fresh c) ->
  calls_certified (told_by ReplyUnit) (fresh c) (await? r := perform e in Ret (script_result r)).
Proof.
  intros Hmay Herr Hafter. split; [done|]. rewrite Hafter. intros [r|err]; [done|apply Herr].
Qed.

Lemma redis_call_certified c :
  calls_certified told (fresh c) (redis_call key_prefix retention c).
Proof.
  unfold redis_call.
  destruct c as [id|id st|id|id approve|id updater|id seed mutator|id seed request prepare|id lc
    |id expected new|id dep|id|id].
  - apply certified_fmap, read_certified; [done|done|]. intros raw. apply told_seen. unfold text_call. simpl.
    destruct raw as [raw|]; simpl; [|done]. by destruct (decode raw).
  - by apply certified_fmap, put_certified.
  - apply certified_fmap. split; [by split; [|eexists]|]. by intros [[]|e].
  - by apply certified_fmap, delete_if_certified.
  - apply certified_fmap, update_certified; try done.
  - apply certified_fmap, (mutate_certified (fun r => ReplyUnit r) (CallMutate id seed mutator)); try done.
    intros o. simpl. destruct (or_else o seed) as [s|]; [|done]. by destruct (mutator s) as [[[]|] ?].
  - by apply certified_fmap, mutate_certified.
  - apply certified_fmap, touch_certified. by left.
  - by apply certified_fmap, advance_certified.
  - apply certified_fmap, certified_ptry.
    eapply certified_mono; [|apply (update_certified (fun r => ReplyUnit (rmap (fun _ => tt) r)))];
      try done; [by intros g []|by intros []].
  - apply certified_fmap, script_certified; [|done|done]. split; [done|]. by exists id.
  - apply certified_fmap, script_certified; [|done|done]. split; [done|]. by exists id.
Qed.

(** * The server and the archive *)

(** The keys hold the archive's texts, and exactly the retained ones have a
    time to live. *)
Definition keeps db d : Prop := forall id,
  db_get (key id) db = texts d !! id /\ (0 <= db_ttl (key id) db <-> id ∈ retained d).

Definition same_key k db db' : Prop := db_get k db' = db_get k db /\ db_ttl k db' = db_ttl k db.

(** A change of one key is a change of one text. *)
Lemma keeps_change db db' d id raw ret :
  keeps db d -> db_get (key id) db' = raw ->
  (forall k, k <> key id -> same_key k db db') ->
  (0 <= db_ttl (key id) db' <-> id ∈ ret) ->
  (forall id', id' <> id -> (id' ∈ ret <-> id' ∈ retained d)) ->
  keeps db' {| texts := partial_alter (fun _ => raw) id (texts d); retained := ret |}.
Proof.
  intros Hk Hraw Hother Httl Hret id'. simpl. destruct (decide (id' = id)) as [->|Hne].
  - rewrite lookup_partial_alter_eq. by split.
  - rewrite lookup_partial_alter_ne, Hret by done.
    destruct (Hother (key id')) as [-> ->]; [|apply Hk]. intros Heq. by apply key_inj in Heq.
Qed.

Lemma ttl_gone k db : db_get k db = None -> ~ 0 <= db_ttl k db.
Proof. intros Hk%ttl_missing. lia. Qed.

Lemma keeps_same db db' d : (forall k, same_key k db db') -> keeps db d -> keeps db' d.
Proof. intros Hs Hk id. destruct (Hs (key id)) as [-> ->]. apply Hk. Qed.

Lemma keeps_lapse db d id :
  keeps db d -> keeps (db_lapse (key id) db) (if decide (0 <= db_ttl (key id) db) then lapse id d else d).
Proof.
  intros Hk.
  assert (Hother : forall k, ~ (key id = k /\ 0 <= db_ttl (key id) db) ->
    same_key k db (db_lapse (key id) db)).
  { intros k Hne. split; [by rewrite get_lapse, decide_False|by rewrite ttl_lapse]. }
  case_decide as Httl; [|apply (keeps_same db); [intros k; apply Hother; tauto|done]].
  assert (Hget : db_get (key id) (db_lapse (key id) db) = None) by (by rewrite get_lapse, decide_True).
  apply (keeps_change db); [done|done|naive_solver| |set_solver].
  split; [by intros ?%ttl_gone|set_solver].
Qed.

(** The archive after a call, by what became of its text. *)
Lemma take_effect_eq c d r raw :
  text_call c (texts d !! call_id c) = (r, raw) ->
  take_effect c d =
  {| texts := partial_alter (fun _ => raw) (call_id c) (texts d);
     retained := match raw, c with
                 | None, _ => retained d ∖ {[call_id c]}
                 | Some _, CallFinalize id =>
                     if succeeded r then {[id]} ∪ retained d else retained d
                 | Some _, _ => retained d
                 end |}.
Proof.
  intros Hc. unfold take_effect, call_texts. rewrite Hc. by rewrite lookup_partial_alter_eq.
Qed.

(** A call that leaves the text as it was, and its key. *)
Lemma keeps_quiet db db' c d r :
  keeps db d -> (forall k, same_key k db db') ->
  text_call c (texts d !! call_id c) = (r, texts d !! call_id c) ->
  (forall id, c <> CallFinalize id \/ succeeded r = false \/ 0 <= db_ttl (key (call_id c)) db) ->
  keeps db' (take_effect c d).
Proof.
  intros Hk Hs Hc Hf. destruct (Hk (call_id c)) as [Hget Hret].
  rewrite (take_effect_eq _ _ _ _ Hc). apply (keeps_change db); [done|..].
  - destruct (Hs (key (call_id c))) as [-> _]. done.
  - done.
  - destruct (Hs (key (call_id c))) as [_ ->]. rewrite Hret.
    destruct (texts d !! call_id c) as [raw|] eqn:Hraw.
    + destruct c as [| | | | | | | | | | |id]; try done. simpl in *. case_match; [|done].
      destruct (Hf id) as [?|[?|Hl]]; [done|done|]. rewrite Hret in Hl. set_solver.
    + split; [|set_solver]. intros Hl%Hret. by apply ttl_gone in Hl.
  - intros id Hne. destruct (texts d !! call_id c); [|set_solver].
    destruct c; try done. case_match; [|done]. simpl in Hne. set_solver.
Qed.

(** A call that is not a finalization and writes its text, keeping whether the
    key has a time to live. *)
Lemma keeps_write db db' c d raw :
  keeps db d -> (forall id, c <> CallFinalize id) ->
  (text_call c (texts d !! call_id c)).2 = Some raw ->
  db_get (key (call_id c)) db' = Some raw ->
  (0 <= db_ttl (key (call_id c)) db' <-> 0 <= db_ttl (key (call_id c)) db) ->
  (forall k, k <> key (call_id c) -> same_key k db db') ->
  keeps db' (take_effect c d).
Proof.
  intros Hk Hnf Hc Hget Httl Hother. destruct (text_call c _) as [r raw'] eqn:Ht. simpl in Hc. subst.
  rewrite (take_effect_eq _ _ _ _ Ht).
  assert (Hret : match c with
    | CallFinalize id => if succeeded r then {[id]} ∪ retained d else retained d
    | _ => retained d end = retained d) by (destruct c; try done; by destruct (Hnf id)).
  rewrite Hret. apply (keeps_change db); [done|done|done| |done]. rewrite Httl. apply Hk.
Qed.

(** A call that removes its text. *)
Lemma keeps_remove db c d :
  keeps db d -> (text_call c (texts d !! call_id c)).2 = None ->
  keeps (db_del (key (call_id c)) db) (take_effect c d).
Proof.
  intros Hk Hc. destruct (text_call c _) as [r raw'] eqn:Ht. simpl in Hc. subst.
  rewrite (take_effect_eq _ _ _ _ Ht).
  assert (Hgone : db_get (key (call_id c)) (db_del (key (call_id c)) db) = None)
    by (by rewrite get_del, decide_True).
  apply (keeps_change db); [done|done| | |set_solver].
  - intros k Hne. split; [by rewrite get_del, decide_False|by rewrite ttl_del].
  - split; [by intros ?%ttl_gone|set_solver].
Qed.

(** * What each round trip does *)

Lemma cas_effect c expected new db d r db' :
  keeps db d -> (text_call c expected).2 = Some new -> (forall id, c <> CallFinalize id) ->
  cas_script (key (call_id c)) expected new db = (r, db') ->
  if decide (r = 1) then keeps db' (take_effect c d) /\ texts d !! call_id c = expected
  else db' = db /\ texts d !! call_id c <> expected.
Proof.
  intros Hk Hw Hnf. destruct (Hk (call_id c)) as [Hget Hret]. unfold cas_script. rewrite Hget.
  destruct expected as [expected|], (texts d !! call_id c) as [current|] eqn:Hraw;
    [destruct (decide (current = expected)) as [->|Hne]|..]; intros [= <- <-]; simpl;
    try (split; [done|congruence]); (split; [|done]).
  - apply (keeps_write db _ _ _ new); [done|done|by rewrite Hraw| | |].
    + by rewrite get_set_keepttl, decide_True.
    + by rewrite ttl_set_keepttl by (by rewrite Hget).
    + intros k Hne. split; [by rewrite get_set_keepttl, decide_False|].
      by rewrite ttl_set_keepttl by (by rewrite Hget).
  - apply (keeps_write db _ _ _ new); [done|done|by rewrite Hraw| | |].
    + by rewrite get_set, decide_True.
    + rewrite ttl_set, decide_True by done. split; [lia|]. intros Hl. by apply ttl_gone in Hl.
    + intros k Hne. split; [by rewrite get_set, decide_False|by rewrite ttl_set, decide_False].
Qed.

Lemma delete_effect c raw db d r db' :
  keeps db d -> (text_call c (Some raw)).2 = None ->
  compare_delete_script (key (call_id c)) raw db = (r, db') ->
  if decide (r = 1) then keeps db' (take_effect c d) /\ texts d !! call_id c = Some raw
  else db' = db /\ texts d !! call_id c <> Some raw.
Proof.
  intros Hk Hw. destruct (Hk (call_id c)) as [Hget _]. unfold compare_delete_script. rewrite Hget.
  case_decide as Hraw; intros [= <- <-]; simpl; [|done].
  split; [|done]. apply keeps_remove; [done|]. by rewrite Hraw.
Qed.

Lemma same_refl db k : same_key k db db.
Proof. done. Qed.

(** What the text reads decides what sealing does. *)
Lemma seal_text_cases (m : option string) :
  match m with
  | None => seal_text (Value := Value) m = (ReplyUnit (Err err_not_found), None)
  | Some raw =>
      match find_plain sealed_true raw, find_plain sealed_false raw with
      | Some _, _ => seal_text (Value := Value) m = (ReplyUnit (Ok tt), m)
      | None, Some first =>
          seal_text (Value := Value) m = (ReplyUnit (Ok tt), Some (splice_sealed raw first))
      | None, None => seal_text (Value := Value) m = (ReplyUnit (Err err_missing_sealed), m)
      end
  end.
Proof. destruct m as [raw|]; [|done]. simpl. by repeat case_match. Qed.

Lemma seal_effect id db d r db' :
  keeps db d -> seal_script (key id) db = (r, db') ->
  keeps db' (take_effect (CallSeal (Value := Value) id) d) /\
  ReplyUnit (script_result r) = (text_call (CallSeal id) (texts d !! id)).1.
Proof.
  intros Hk. destruct (Hk id) as [Hget _]. unfold seal_script. rewrite Hget.
  pose proof (seal_text_cases (texts d !! id)) as Hs.
  assert (Hquiet : forall rp : reply, seal_text (texts d !! id) = (rp, texts d !! id) ->
    keeps db (take_effect (CallSeal (Value := Value) id) d)).
  { intros rp Hc. apply (keeps_quiet db _ _ _ rp); [done|done|exact Hc|by left]. }
  destruct (texts d !! id) as [raw|] eqn:Hraw.
  2:{ intros [= <- <-]. split; [by eapply Hquiet|]. exact (f_equal fst (eq_sym Hs)). }
  destruct (find_plain sealed_true raw) eqn:Ht.
  { intros [= <- <-]. split; [by eapply Hquiet|]. exact (f_equal fst (eq_sym Hs)). }
  destruct (find_plain sealed_false raw) as [first|] eqn:Hf; intros [= <- <-];
    (split; [|exact (f_equal fst (eq_sym Hs))]); [|by eapply Hquiet].
  apply (keeps_write db _ _ _ (splice_sealed raw first)); [done|done|simpl; rewrite Hraw|..].
  - exact (f_equal snd Hs).
  - by rewrite get_set_keepttl, decide_True.
  - by rewrite ttl_set_keepttl by (by rewrite Hget).
  - intros k Hne. split; [by rewrite get_set_keepttl, decide_False|].
    by rewrite ttl_set_keepttl by (by rewrite Hget).
Qed.

(** A finalization that finds the record's flag: its key gets the text sealing
    leaves and a time to live. *)
Lemma keeps_finalize id db db' d raw :
  keeps db d -> seal_text (Value := Value) (texts d !! id) = (ReplyUnit (Ok tt), Some raw) ->
  db_get (key id) db' = Some raw -> 0 <= db_ttl (key id) db' ->
  (forall k, k <> key id -> same_key k db db') ->
  keeps db' (take_effect (CallFinalize (Value := Value) id) d).
Proof.
  intros Hk Hs Hget Httl Hother. rewrite (take_effect_eq (CallFinalize id) d _ _ Hs).
  simpl. apply (keeps_change db); try done; set_solver.
Qed.

Lemma finalize_effect id db d r db' :
  keeps db d -> finalize_script (key id) retention db = (r, db') ->
  keeps db' (take_effect (CallFinalize id) d) /\
  ReplyUnit (script_result r) = (text_call (CallFinalize id) (texts d !! id)).1.
Proof.
  intros Hk. destruct (Hk id) as [Hget _]. unfold finalize_script.
  pose proof (seal_text_cases (texts d !! id)) as Hs.
  assert (Hquiet : forall rp : reply, seal_text (texts d !! id) = (rp, texts d !! id) ->
    succeeded rp = false -> keeps db (take_effect (CallFinalize id) d)).
  { intros rp Hc Hf. apply (keeps_quiet db _ _ _ rp); [done|done|exact Hc|by right; left]. }
  rewrite Hget. destruct (texts d !! id) as [raw|] eqn:Hraw.
  2:{ intros [= <- <-]. split; [by eapply Hquiet|]. exact (f_equal fst (eq_sym Hs)). }
  rewrite <-Hraw in Hquiet.
  destruct (find_plain sealed_true raw) eqn:Ht.
  { intros [= <- <-]. split; [|exact (f_equal fst (eq_sym Hs))].
    apply (keeps_finalize id db _ _ raw); [done|by rewrite Hraw| | |].
    - case_decide; [by rewrite get_expire|done].
    - case_decide as Hno; [rewrite ttl_expire, decide_True by (rewrite ?Hget; done); lia|].
      pose proof (ttl_present (key id) db). rewrite Hget in H1. specialize (H1 ltac:(done)). lia.
    - intros k Hne. case_decide; [|done]. split; [by rewrite get_expire|].
      by rewrite ttl_expire, decide_False by (rewrite ?Hget; done). }
  destruct (find_plain sealed_false raw) as [first|] eqn:Hf; intros [= <- <-];
    (split; [|exact (f_equal fst (eq_sym Hs))]).
  2:{ eapply Hquiet; [by rewrite Hraw|done]. }
  apply (keeps_finalize id db _ _ (splice_sealed raw first)); [done|by rewrite Hraw| | |].
  - by rewrite get_set_ex, decide_True.
  - rewrite ttl_set_ex, decide_True by done. lia.
  - intros k Hne. by split; [rewrite get_set_ex, decide_False|rewrite ttl_set_ex, decide_False].
Qed.

Lemma remove_effect id db d :
  keeps db d -> keeps (db_del (key id) db) (take_effect (CallDelete (Value := Value) id) d).
Proof. intros Hk. by apply (keeps_remove db (CallDelete id)). Qed.

(** * The invariant *)

(** Which errors a failing round trip may report. *)
Context (fault : StoreError -> Prop).
Definition faults : Type := {f : env | forall e b, env_fault f = Some (e, b) -> fault e}.

(** What the world decides about a round trip: whether it fails, and which
    channels' keys it found lapsed, had they a time to live. *)
Definition world : Type := faults * list string.
Definition pool_exec (X : Type) (w : world) (e : redisE X) (db : Db) : X * Db :=
  redis_exec X (proj1_sig w.1) e (foldr (fun id => db_lapse (key id)) db w.2).

Context (cs : list call) (start : archive).

(** The archive after the first [n] moves. *)
Definition upto h (n : nat) : archive := replay cs start (take n h).
Definition text_at h n (c : call) : option string := texts (upto h n) !! call_id c.

(** The text a call was to replace is not what it had read, or for a creation
    there is one. *)
Definition raced h (c : call) : Prop :=
  exists m expected, (m <= length h)%nat /\ text_at h m c <> expected /\
  match c with
  | CallPut _ _ => expected = None
  | _ => exists n, (n <= m)%nat /\ text_at h n c = expected
  end.

(** The text around the effect of a call backs its outcome. *)
Definition backs (c : call) (raw : option string) (out : outcome) : Prop :=
  match out with
  | Failed e => True
  | Swapped raw' => raw = raw'
  | Direct r => r = (text_call c raw).1
  end.

Definition untaken h (i : nat) : Prop := Took i ∉ h.

Definition explained h (i : nat) (g : ghost) : Prop :=
  match g_out g with
  | None => untaken h i
  | Some (Failed e) => fault e
  | Some out => exists n, h !! n = Some (Took i) /\ backs (g_call g) (text_at h n (g_call g)) out
  end /\
  (forall raw, g_seen g = Some raw -> exists n, (n <= length h)%nat /\ text_at h n (g_call g) = raw) /\
  (g_beaten g = true -> raced h (g_call g)).

(** Each call took effect at most once, and only what was under a running
    retention lapsed. *)
Definition lawful h : Prop :=
  (forall n m i, h !! n = Some (Took i) -> h !! m = Some (Took i) -> n = m) /\
  forall n id, h !! n = Some (Lapsed id) -> id ∈ retained (upto h n).

Record serial (db : Db) (gs : list ghost) h : Prop := {
  serial_lawful : lawful h;
  serial_keeps : keeps db (replay cs start h);
  serial_calls : g_call <$> gs = cs;
  serial_tasks i g : gs !! i = Some g -> explained h i g;
}.

Definition serializable (db : Db) (gs : list ghost) : Prop := exists h, serial db gs h.

Lemma serial_call db gs h i g : serial db gs h -> gs !! i = Some g -> cs !! i = Some (g_call g).
Proof. intros Hs Hg. by rewrite <-(serial_calls _ _ _ Hs), list_lookup_fmap, Hg. Qed.

Lemma replay_snoc h m : replay cs start (h ++ [m]) = moved cs (replay cs start h) m.
Proof. unfold replay. by rewrite foldl_app. Qed.

Lemma upto_snoc h m n : (n <= length h)%nat -> upto (h ++ [m]) n = upto h n.
Proof. intros Hn. unfold upto. by rewrite take_app_le. Qed.

Lemma upto_all h : upto h (length h) = replay cs start h.
Proof. unfold upto. by rewrite firstn_all. Qed.

Lemma text_at_snoc h m n c : (n <= length h)%nat -> text_at (h ++ [m]) n c = text_at h n c.
Proof. intros Hn. unfold text_at. by rewrite upto_snoc. Qed.

Lemma raced_snoc h m c : raced h c -> raced (h ++ [m]) c.
Proof.
  intros (n & expected & Hn & Ht & Hc). exists n, expected. rewrite length_app, text_at_snoc by done.
  split; [lia|split; [done|]]. destruct c; try done;
    destruct Hc as (k & Hk & Hr); exists k; by rewrite text_at_snoc by lia.
Qed.

Lemma explained_snoc h i m g : m <> Took i -> explained h i g -> explained (h ++ [m]) i g.
Proof.
  intros Him (Hout & Hseen & Hb). split_and!.
  - destruct (g_out g) as [[e|raw|r]|]; [done| | |unfold untaken in *; set_solver].
    all: destruct Hout as (n & Hn & Hbk); exists n; pose proof (lookup_lt_Some _ _ _ Hn);
      rewrite lookup_app_l, text_at_snoc by lia; done.
  - intros raw Hraw. destruct (Hseen raw Hraw) as (n & Hle & Hn). exists n.
    rewrite length_app, text_at_snoc by lia. split; [lia|done].
  - intros Hg. by apply raced_snoc, Hb.
Qed.

Lemma lawful_snoc h m :
  lawful h -> (forall i, m = Took i -> untaken h i) ->
  (forall id, m = Lapsed id -> id ∈ retained (replay cs start h)) -> lawful (h ++ [m]).
Proof.
  intros [Hone Hl] Ht Hm. split.
  - intros n k i [[Hn Hi]|[-> ->]]%lookup_snoc_Some [[Hk Hi']|[-> Hi']]%lookup_snoc_Some.
    + by apply (Hone _ _ i).
    + subst. destruct (Ht i eq_refl). by eapply list_elem_of_lookup_2.
    + destruct (Ht i eq_refl). by eapply list_elem_of_lookup_2.
    + done.
  - intros n id [[Hn Hi]|[-> ->]]%lookup_snoc_Some.
    + rewrite upto_snoc by lia. by apply Hl.
    + rewrite upto_snoc, upto_all by lia. by apply Hm.
Qed.

Lemma fmap_insert_call (gs : list ghost) i g g' :
  gs !! i = Some g -> g_call g' = g_call g -> g_call <$> <[i := g']> gs = g_call <$> gs.
Proof.
  intros Hg Hc. rewrite list_fmap_insert, Hc. apply list_insert_id.
  by rewrite list_lookup_fmap, Hg.
Qed.

(** A key that lapsed. *)
Lemma serial_lapse db gs h id : serial db gs h -> serializable (db_lapse (key id) db) gs.
Proof.
  intros [Hl Hk Hc Ht]. pose proof (keeps_lapse _ _ id Hk) as Hk'. case_decide as Httl.
  - exists (h ++ [Lapsed id]). split; [|by rewrite replay_snoc|done|].
    + apply lawful_snoc; [done|done|]. intros ? [= <-]. by apply Hk.
    + intros i g Hg. apply explained_snoc; [done|by apply Ht].
  - by exists h.
Qed.

Lemma serializable_lapses db gs ids :
  serializable db gs -> serializable (foldr (fun id => db_lapse (key id)) db ids) gs.
Proof. intros Hs. induction ids as [|id ids [h IH]]; [done|]. by apply (serial_lapse _ _ h). Qed.

(** What a step that had no effect may change in the ghost state. *)
Definition quiet h (g g' : ghost) : Prop :=
  g_call g' = g_call g /\
  match g_out g' with None => True | Some (Failed e) => fault e | Some _ => False end /\
  (g_seen g' = g_seen g \/
    g_seen g' = Some (text_at h (length h) (g_call g))) /\
  (g_beaten g' = g_beaten g \/ raced h (g_call g)).

Lemma serial_quiet db gs h i g g' :
  serial db gs h -> gs !! i = Some g -> g_out g = None -> quiet h g g' ->
  serial db (<[i := g']> gs) h.
Proof.
  intros [Hl Hk Hc Ht] Hg Hnone (Hcall & Hout & Hseen & Hb). split; try done.
  { by rewrite (fmap_insert_call _ _ g). }
  intros j gj [(<- & <- & _)|[_ Hj]]%list_lookup_insert_Some; [|by apply Ht].
  destruct (Ht _ _ Hg) as (Hin & Hs & Hr). rewrite Hnone in Hin. split_and!.
  - by destruct (g_out g') as [[]|].
  - intros raw Hraw. rewrite Hcall. destruct Hseen as [Heq|Heq].
    + apply Hs. by rewrite <-Heq.
    + exists (length h). split; [done|]. congruence.
  - rewrite Hcall. intros Hg'. destruct Hb as [Heq|]; [|done]. apply Hr. by rewrite <-Heq.
Qed.

(** A step that had the call's effect. *)
Lemma serial_effect db db' gs h i g out :
  serial db gs h -> gs !! i = Some g -> g_out g = None ->
  keeps db' (take_effect (g_call g) (replay cs start h)) ->
  match out with
  | Failed e => fault e
  | _ => backs (g_call g) (text_at h (length h) (g_call g)) out
  end ->
  serial db' (<[i := finish out g]> gs) (h ++ [Took i]).
Proof.
  intros Hser Hg Hnone Hk Hb. pose proof (serial_call _ _ _ _ _ Hser Hg) as Hc.
  destruct Hser as [Hl _ Hcs Ht]. destruct (Ht _ _ Hg) as (Hin & Hs & Hr). rewrite Hnone in Hin.
  split.
  - apply lawful_snoc; [done| |done]. by intros ? [= <-].
  - rewrite replay_snoc. simpl. by rewrite Hc.
  - by rewrite (fmap_insert_call _ _ g).
  - intros j gj [(<- & <- & _)|[Hne Hj]]%list_lookup_insert_Some;
      [|apply explained_snoc; [congruence|by apply Ht]]. split_and!; simpl.
    + assert (Hn : (h ++ [Took i]) !! length h = Some (Took i)) by (by rewrite list_lookup_middle).
      destruct out; [done|..]; exists (length h); by rewrite text_at_snoc.
    + intros raw Hraw. destruct (Hs raw Hraw) as (n & Hle & Hn). exists n.
      rewrite length_app, text_at_snoc by lia. split; [lia|done].
    + intros Hg'. by apply raced_snoc, Hr.
Qed.

(** * What each step does *)

Lemma faulty_cases {A} (f : faults) db db1 (r x : result A StoreError) db' :
  faulty (proj1_sig f) db db1 r = (x, db') ->
  (x = r /\ db' = db1) \/ (exists e, fault e /\ x = Err e /\ (db' = db \/ db' = db1)).
Proof.
  destruct f as [f Hf]. unfold faulty. simpl.
  destruct (env_fault f) as [[e []]|] eqn:Hff; intros [= <- <-]; eauto 10.
Qed.

(** A round trip that, unless it fails, has the call's effect or none. *)
Lemma step_faulty {A} (f : faults) db gs h i g (r : A) db1 x db' (next : A -> ghost) :
  serial db gs h -> gs !! i = Some g -> g_out g = None ->
  (keeps db1 (take_effect (g_call g) (replay cs start h)) /\
     (exists out, next r = finish out g /\
       match out with Failed _ => False | _ => backs (g_call g) (text_at h (length h) (g_call g)) out end)) \/
    (db1 = db /\ quiet h g (next r)) ->
  faulty (proj1_sig f) db db1 (Ok r) = (x, db') ->
  serializable db' (<[i := or_failed next g x]> gs).
Proof.
  intros Hser Hg Hnone Hr Hf.
  destruct (faulty_cases _ _ _ _ _ _ Hf) as [[-> ->]|(e & He & -> & Hdb)]; simpl.
  - destruct Hr as [(Hk & out & -> & Hb)|[-> Hq]].
    + exists (h ++ [Took i]). eapply serial_effect; [done..|]. by destruct out.
    + exists h. by eapply serial_quiet.
  - assert (Hq : serializable db (<[i := finish (Failed e) g]> gs)).
    { exists h. eapply serial_quiet; [done..|]. split_and!; [done|done|by left|by left]. }
    destruct Hdb as [->| ->]; [done|]. destruct Hr as [(Hk & _)|[-> _]]; [|done].
    exists (h ++ [Took i]). by eapply serial_effect.
Qed.

Lemma text_at_now h c : text_at h (length h) c = texts (replay cs start h) !! call_id c.
Proof. unfold text_at. by rewrite upto_all. Qed.

(** A swap that took place, or found another text. *)
Lemma step_swap db db1 gs h i g r expected :
  serial db gs h -> gs !! i = Some g -> g_out g = None ->
  expects (g_call g) (g_seen g) expected ->
  (if decide (r = 1)
   then keeps db1 (take_effect (g_call g) (replay cs start h)) /\
     texts (replay cs start h) !! call_id (g_call g) = expected
   else db1 = db /\ texts (replay cs start h) !! call_id (g_call g) <> expected) ->
  (keeps db1 (take_effect (g_call g) (replay cs start h)) /\
     (exists out, raced_out expected g r = finish out g /\
       match out with Failed _ => False | _ => backs (g_call g) (text_at h (length h) (g_call g)) out end)) \/
    (db1 = db /\ quiet h g (raced_out expected g r)).
Proof.
  intros Hser Hg Hnone Hexp Heff. unfold raced_out. case_decide; destruct Heff as [Hdb Ht].
  - left. split; [done|]. eexists. split; [done|]. simpl. by rewrite text_at_now.
  - right. split; [done|]. split_and!; [done|by simpl; rewrite Hnone|by left|right].
    exists (length h), expected. rewrite text_at_now. split_and!; [done|done|].
    destruct (serial_tasks _ _ _ Hser _ _ Hg) as (_ & Hs & _).
    unfold expects in Hexp. destruct (g_call g); try done; by apply Hs.
Qed.

Lemma serializable_step X (w : world) (e : redisE X) x db db' gs i g :
  serializable db gs -> gs !! i = Some g -> may X g e -> pool_exec X w e db = (x, db') ->
  serializable db' (<[i := after X g e x]> gs).
Proof.
  intros Hs Hg [Hnone Hmay] He. destruct w as [f ids]. unfold pool_exec in He. cbn [fst snd] in He.
  destruct (serializable_lapses db gs ids Hs) as [h Hser]. revert He Hser.
  generalize (foldr (fun id => db_lapse (key id)) db ids). clear Hs db. intros db He Hser.
  pose proof (serial_keeps _ _ _ Hser) as Hk.
  destruct e as [k|k expected new|k|k n|k|k raw]; cbn [redis_exec after] in *.
  - eapply step_faulty; [done..| |done]. right. split; [done|]. split_and!; simpl.
    + done.
    + by rewrite Hnone.
    + right. rewrite text_at_now, Hmay. f_equal. apply Hk.
    + by left.
  - destruct Hmay as (-> & Hw & Hexp & Hnf). destruct (cas_script _ expected new db) as [r db1] eqn:Hcas.
    eapply step_faulty; [done..| |done]. eapply step_swap; [done..|]. by eapply cas_effect.
  - destruct Hmay as (id & Hcall & ->). destruct (seal_script (key id) db) as [r db1] eqn:Hs.
    destruct (seal_effect id _ _ _ _ Hk Hs) as [Hk' Hrep].
    eapply step_faulty; [done..| |done]. left. rewrite Hcall. split; [done|]. eexists. split; [done|].
    simpl. by rewrite text_at_now.
  - destruct Hmay as (id & Hcall & -> & ->).
    destruct (finalize_script (key id) retention db) as [r db1] eqn:Hs.
    destruct (finalize_effect id _ _ _ _ Hk Hs) as [Hk' Hrep].
    eapply step_faulty; [done..| |done]. left. rewrite Hcall. split; [done|]. eexists. split; [done|].
    simpl. by rewrite text_at_now.
  - destruct Hmay as (id & Hcall & ->). eapply (step_faulty _ _ _ _ _ _ tt); [done..| |done].
    left. rewrite Hcall. split; [by apply remove_effect|]. eexists. by split.
  - destruct Hmay as (-> & Hw & Hexp). destruct (compare_delete_script _ raw db) as [r db1] eqn:Hcas.
    eapply step_faulty; [done..| |done]. eapply step_swap; [done..|]. by eapply delete_effect.
Qed.

Lemma serializable_start db : keeps db start -> serializable db (fresh <$> cs).
Proof.
  intros Hk. exists []. split; [|done| |].
  - by split.
  - rewrite <-list_fmap_compose. apply list_fmap_id.
  - intros i g Hg. rewrite list_lookup_fmap in Hg. destruct (cs !! i); simplify_eq/=.
    split_and!; [by intros ?%elem_of_nil|done|done].
Qed.

Lemma calls_start :
  tasks_certified may after (fun _ => told) (fresh <$> cs) (redis_call key_prefix retention <$> cs).
Proof.
  apply tasks_certified_Forall2, Forall2_fmap, Forall_Forall2_diag, Forall_true.
  apply redis_call_certified.
Qed.

(** What the answer of a call tells of the history: what the call answers at
    its place in it; or, taking no effect, what it answers at some moment of
    it; or that the text changed under the call; or a failure, with or without
    the effect. *)
Definition answered h (i : nat) (c : call) (r : reply) : Prop :=
  (exists n, h !! n = Some (Took i) /\ r = (text_call c (text_at h n c)).1) \/
  (untaken h i /\ exists n, (n <= length h)%nat /\
     text_call c (text_at h n c) = (r, text_at h n c)) \/
  (untaken h i /\ r = lost c /\ raced h c) \/
  (exists e, fault e /\ r = reply_err c e).

Lemma explained_answered h i g r :
  explained h i g -> told g r -> answered h i (g_call g) r.
Proof.
  unfold told. intros (Hout & Hseen & Hb) Htold. destruct (g_out g) as [[e|raw|r']|].
  - right. right. right. by exists e.
  - left. destruct Hout as (n & Hn & Hr). exists n. simpl in Hr. by subst.
  - left. destruct Hout as (n & Hn & Hr). exists n. simpl in Hr. by subst.
  - destruct Htold as [[-> Hg]|[(raw & Hraw & Hc)|Hc]].
    + right. right. left. auto.
    + right. left. split; [done|]. destruct (Hseen raw Hraw) as (n & Hle & Hn). exists n. by subst.
    + right. left. split; [done|]. by exists 0%nat; split; [lia|].
Qed.

(** C33. However the round trips of concurrent calls interleave, whichever of
    them fail, and whenever keys with a time to live lapse, one history
    accounts for every text in the store and for every answer. In it some of
    the calls took effect one after the other, each at most once, as [text_call]
    says: the contract on the record the text decodes to, whatever schema it
    was written with, stamped and encoded again - except that sealing edits
    the text, so that a text already reading like a set flag counts as sealed.
    A text leaves the history otherwise only by lapsing under a running
    retention, which a successful finalization alone starts, and exactly the
    keys under one have a time to live. A call that reported no failure
    answered what it says at its place in the history; or it changed nothing,
    and answered what it says at some moment of it, or that it lost a race,
    when its text did change between its read and its write. *)
Theorem redis_pool_serializable db ps' db' :
  keeps db start ->
  rtc (pool_step pool_exec) (redis_call key_prefix retention <$> cs, db) (ps', db') ->
  exists h, lawful h /\ keeps db' (replay cs start h) /\
  forall i c r, cs !! i = Some c -> ps' !! i = Some (Ret r) -> answered h i c r.
Proof.
  intros Hk Hrun.
  edestruct (pool_certified (A := reply) pool_exec may after serializable)
    as (gs & [Hl Hall] & [h Hser] & _); [|exact Hrun|exact calls_start|by apply serializable_start|].
  { intros X f e x s s' gs i g Hs Hg Hm He. by eapply serializable_step. }
  exists h. split_and!; [apply Hser|apply Hser|]. intros i c r Hc Hr.
  destruct (lookup_lt_is_Some_2 gs i) as [g Hg]; [rewrite Hl; by eapply lookup_lt_Some|].
  pose proof (serial_call _ _ _ _ _ Hser Hg) as Hc'. simplify_eq.
  apply explained_answered; [by apply (serial_tasks _ _ _ Hser)|]. apply (Hall _ _ _ Hg Hr).
Qed.
End pool.

(** * Texts and the contract *)
Section contract.
Context {Value : Type} `{!Serde string (ChannelState Value)}
  `{!SerdeLaws string (ChannelState Value), !SealedLayout Value}.
Abbreviation St := (ChannelState Value).
Abbreviation call := (store_call (Value := Value)).
Implicit Types (c : call) (o : option St) (s : St) (data : gmap string St).

(** A record of the current schema whose text reads like no set flag but its own. *)
Definition plain s : Prop :=
  schema_version s = CHANNEL_STATE_SCHEMA_VERSION /\
  (sealed s = false -> forall raw, to_value s = Ok raw -> find_plain sealed_true raw = None).
Definition plain_opt o : Prop := forall s, o = Some s -> plain s.
Definition keeps_plain c : Prop := forall o, plain_opt o -> plain_opt (contract c o).2.

Lemma stamp_plain s : plain s -> stamp s = s.
Proof. intros [Hv _]. unfold stamp. destruct s. simpl in *. by subst. Qed.

Lemma encode_plain s : plain s -> exists raw, encode (stamp s) = Ok raw /\ encodes (Some raw) (Some s).
Proof.
  intros Hp. rewrite (stamp_plain _ Hp). destruct (to_value_total (Value := string) s) as [raw Hraw].
  exists raw. unfold encode. rewrite Hraw. split; [done|]. split; [done|apply Hp].
Qed.

Lemma stamp_reply_plain c o r s :
  contract c o = (r, Some s) -> plain s -> writes c o = true -> stamp_reply r = r.
Proof.
  intros Hc Hp Hw. destruct r as [[[s'|]|]| | |]; try done. simpl. f_equal. f_equal. f_equal.
  cut (s' = s); [intros ->; by apply stamp_plain|].
  destruct c; simpl in *; try done; repeat case_match; by simplify_eq.
Qed.

(** Sealing a plain record seals it. *)
Lemma seal_text_plain raw s :
  encodes (Some raw) (Some s) -> plain s ->
  exists raw', seal_text (Value := Value) (Some raw) = (ReplyUnit (Ok tt), Some raw') /\
    encodes (Some raw') (Some (with_sealed true s)).
Proof.
  intros [Hraw Hv] [_ Hun]. simpl. destruct (sealed s) eqn:Hs.
  - destruct (layout_sealed s raw Hraw Hs) as [n ->]. exists raw. split; [done|].
    replace (with_sealed true s) with s by (destruct s; simpl in *; by subst). by split.
  - rewrite (Hun eq_refl raw Hraw). destruct (layout_open s raw Hraw Hs) as (first & -> & Henc).
    eexists. split; [done|]. by split.
Qed.

(** On plain records the call on the text is the contract's call. *)
Lemma text_call_contract c raw o :
  encodes raw o -> plain_opt o -> keeps_plain c ->
  (text_call c raw).1 = (contract c o).1 /\ encodes (text_call c raw).2 (contract c o).2.
Proof.
  intros Henc Hp Hk. specialize (Hk o Hp).
  assert (Hdec : decodes c ->
    (text_call c raw).1 = (contract c o).1 /\ encodes (text_call c raw).2 (contract c o).2).
  { intros Hd. rewrite (text_call_ok c raw o Hd (decode_opt_encoded _ _ Henc)).
    destruct (contract c o) as [r [s|]] eqn:Hc; [|done]. simpl in Hk.
    destruct (writes c o) eqn:Hw.
    - destruct (encode_plain s (Hk s eq_refl)) as (text & -> & Ht). simpl. split; [|done].
      by apply (stamp_reply_plain c o r s); [|apply Hk|].
    - split; [done|]. simpl. cut (o = Some s); [by intros <-|].
      destruct c; simpl in *; try done; repeat case_match; simplify_eq/=; congruence. }
  destruct c as [id|id st|id|id approve|id updater|id seed mutator|id seed request prepare|id lc
    |id expected new|id dep|id|id]; try (by apply Hdec); clear Hdec; try done.
  - unfold text_call. destruct (to_value_total (Value := string) (stamp st)) as [text Ht].
    unfold encode. rewrite Ht. destruct o as [s|], raw as [raw|]; try done. simpl. split; [done|].
    specialize (Hk st eq_refl). rewrite stamp_plain in Ht by done. split; [done|apply Hk].
  - destruct o as [s|], raw as [raw|]; try done.
    destruct (seal_text_plain raw s Henc (Hp s eq_refl)) as (raw' & Hs & He).
    unfold text_call. by rewrite Hs.
  - destruct o as [s|], raw as [raw|]; try done.
    destruct (seal_text_plain raw s Henc (Hp s eq_refl)) as (raw' & Hs & He).
    unfold text_call. by rewrite Hs.
Qed.

(** A move of the history, on the records. *)
Definition moved_records (cs : list call) data (m : move) : gmap string St :=
  match m with
  | Took i => match cs !! i with Some c => (contract_map c data).2 | None => data end
  | Lapsed id => delete id data
  end.

Definition represents (m : gmap string string) data : Prop := forall id, encodes (m !! id) (data !! id).
Definition plain_data data : Prop := forall id, plain_opt (data !! id).

Lemma represents_move cs d data m :
  Forall keeps_plain cs -> represents (texts d) data -> plain_data data ->
  represents (texts (moved cs d m)) (moved_records cs data m) /\
  plain_data (moved_records cs data m).
Proof.
  intros Hcs Hrep Hp. destruct m as [i|id]; simpl.
  - destruct (cs !! i) as [c|] eqn:Hc; [|done].
    pose proof (Forall_lookup_1 _ _ _ _ Hcs Hc) as Hk.
    destruct (text_call_contract c _ _ (Hrep (call_id c)) (Hp _) Hk) as [_ He].
    specialize (Hk _ (Hp (call_id c))). unfold contract_map, take_effect, call_texts.
    destruct (text_call c _) as [r raw], (contract c _) as [r' o]. simpl in *.
    split; intros id; (destruct (decide (call_id c = id)) as [<-|Hne];
      [by rewrite !lookup_partial_alter_eq|by rewrite !lookup_partial_alter_ne]).
  - split; intros id'; (destruct (decide (id = id')) as [<-|Hne];
      [by rewrite !lookup_delete_eq|by rewrite !lookup_delete_ne]).
Qed.

(** Throughout a history of calls that keep records plain, from plain records,
    the texts are the encodings of the records the contract leaves. *)
Theorem history_contract cs start data h :
  Forall keeps_plain cs -> represents (texts start) data -> plain_data data ->
  represents (texts (replay cs start h)) (foldl (moved_records cs) data h).
Proof.
  intros Hcs. unfold replay. revert start data.
  induction h as [|m h IH]; intros start data Hrep Hp; [done|]. simpl.
  destruct (represents_move cs start data m Hcs Hrep Hp). by apply IH.
Qed.
End contract.

(** * Witness: two requests that read the same watermark, then a finalization
    whose record lapses before the last call *)
Module RaceDemo.
Import RedisDemo.

Definition never (e : StoreError) : Prop := False.
Definition fine : faults never.
Proof. exists (calm 0). intros e b Hf. discriminate Hf. Defined.

Definition cs : list (store_call (Value := Demo.value)) :=
  [CallAdvance "c" 0 4; CallAdvance "c" 0 3; CallFinalize "c"; CallGet "c"].

(** The first two both read, then both write. *)
Definition sched : list (nat * world never) :=
  [(0%nat, (fine, [])); (1%nat, (fine, ["c"])); (1%nat, (fine, [])); (0%nat, (fine, []));
   (2%nat, (fine, [])); (3%nat, (fine, ["c"]))].
Definition begin : list (prog redisE (store_reply (Value := Demo.value))) * server :=
  (redis_call namespace 60 <$> cs, db).
Definition final := run_pool (pool_exec (Db := server) namespace never) sched begin.
Definition start : archive := {| texts := {[ "c" := text opened ]}; retained := ∅ |}.

Lemma final_steps :
  rtc (pool_step (pool_exec (Db := server) namespace never)) begin (final.1, final.2).
Proof. unfold final. generalize sched, begin. intros l c. apply run_pool_steps. Qed.

Example second_wins :
  final.1 = [Ret (ReplyBool (Ok false)); Ret (ReplyBool (Ok true)); Ret (ReplyUnit (Ok tt));
             Ret (ReplyState (Ok None))].
Proof. vm_compute. reflexivity. Qed.

(** A record of an older schema is served, and stamped when it is written. *)
Definition older : string := text (with_schema_version 1 opened).
Example older_restamped :
  let '(r, raw) := text_call (CallAdvance (Value := Demo.value) "c" 0 4) (Some older) in
  r = ReplyBool (Ok true) /\
  rmap (option_map (fun s => (schema_version s, cumulative s))) (decode_opt (Value := Demo.value) raw) =
    Ok (Some (CHANNEL_STATE_SCHEMA_VERSION, 4)).
Proof. vm_compute. split; reflexivity. Qed.

Lemma starts : keeps namespace db start.
Proof.
  intros id. unfold start, db. destruct (decide (id = "c")) as [->|Hne].
  - split; [reflexivity|]. split; [vm_compute; congruence|set_solver].
  - assert (Hk : redis_key namespace "c" <> redis_key namespace id) by (by intros ?%key_inj).
    simpl. rewrite !lookup_singleton_ne by done. split; [done|]. split; [lia|set_solver].
Qed.
End RaceDemo.

Lemma redis_pool_serializable_witness :
  exists h, lawful RaceDemo.cs RaceDemo.start h /\
    keeps RedisDemo.namespace RaceDemo.final.2 (replay RaceDemo.cs RaceDemo.start h) /\
  forall i c r, RaceDemo.cs !! i = Some c -> RaceDemo.final.1 !! i = Some (Ret r) ->
    answered RaceDemo.never RaceDemo.cs RaceDemo.start h i c r.
Proof.
  refine (redis_pool_serializable RedisDemo.namespace 60 eq_refl RaceDemo.never RaceDemo.cs
    RaceDemo.start RedisDemo.db RaceDemo.final.1 RaceDemo.final.2 RaceDemo.starts _).
  exact RaceDemo.final_steps.
Defined.
