(* ===== verification/Voucher.v ===== *)
(** Vouchers (src/rust/crates/kit/src/core/voucher.rs, the signed bytes of
    core/payment_channel/v1.rs) and the batched signature verification of
    core/batch_verify.rs. The curve and the base58 codecs are parameters. *)
From stdpp Require Import base numbers option list strings pretty.
From S2P Require Import Prelude Bytes.

(** [core::Error]. *)
Inductive Error :=
| SerializationError (msg : string)
| Other (msg : string).

(** [solana_pubkey], [five8], [ed25519_dalek]: parsing and verification of one
    signature; keys are the parsed ones. *)
Class Crypto (Key : Type) := {
  pubkey_from_str : string -> result (list byte) string;
  decode_32 : string -> result (list byte) string;
  decode_64 : string -> result (list byte) string;
  key_from_bytes : list byte -> result Key string;
  verify_strict : Key -> list byte -> list byte -> bool;
}.

(** * The signed bytes *)

Definition VOUCHER_MAGIC : list byte := [Byte.x56; Byte.x01].

(** The Borsh layout of [VoucherArgs]. *)
Definition voucher_message_bytes (channel_id : list byte) (cumulative expires_at : Z) : list byte :=
  VOUCHER_MAGIC ++ channel_id ++ u64_bytes cumulative ++ i64_bytes expires_at.

(** Reads the fields back. *)
Definition read_voucher (l : list byte) : option (list byte * Z * Z) :=
  if decide (length l = 50%nat /\ take 2 l = VOUCHER_MAGIC)
  then Some (take 32 (drop 2 l), from_le (take 8 (drop 34 l)), i64_from_le (drop 42 l))
  else None.

(** A voucher's 50 signed bytes determine its channel, its cumulative amount
    and its expiry: the fields read back, so no signature is valid for two
    different vouchers. *)
Theorem voucher_bytes_roundtrip channel_id cumulative expires_at :
  length channel_id = 32%nat -> in_u64 cumulative -> in_i64 expires_at ->
  read_voucher (voucher_message_bytes channel_id cumulative expires_at) =
  Some (channel_id, cumulative, expires_at).
Proof.
  intros Hid Hc He. unfold read_voucher, voucher_message_bytes.
  assert (Hu : length (u64_bytes cumulative) = 8%nat) by apply length_le_bytes.
  assert (Hi : length (i64_bytes expires_at) = 8%nat) by apply length_le_bytes.
  rewrite decide_True.
  2:{ rewrite !length_app, Hid, Hu, Hi. done. }
  change (VOUCHER_MAGIC ++ ?l) with (Byte.x56 :: Byte.x01 :: l). cbn [drop]. rewrite drop_0.
  rewrite take_app_length' by done.
  rewrite (drop_app_length' channel_id) by done. rewrite take_app_length' by done.
  replace (drop 40 _) with (i64_bytes expires_at).
  2:{ rewrite app_assoc. by rewrite drop_app_length' by (rewrite length_app; lia). }
  by rewrite from_le_u64, i64_from_le_bytes.
Qed.

Section voucher.
Context {Key : Type} `{Crypto Key}.

Record VoucherVerifyParts := {
  message : list byte;
  verifying_key : Key;
  signature : list byte;
}.

Definition err_expired : Error := Other "Voucher has expired".
Definition err_window (expires_at settle_deadline now settlement_window : Z) : Error :=
  Other ("Voucher expiry " +:+ pretty expires_at +:+ " does not outlast the settlement window (must be > "
    +:+ pretty settle_deadline +:+ " = now " +:+ pretty now +:+ " + window "
    +:+ pretty settlement_window +:+ ")").
Definition err_signature : Error := Other "Voucher signature verification failed".

(** The time checks of [voucher_verify_parts]. *)
Definition check_expiry (expires_at now settlement_window : Z) : result unit Error :=
  if decide (expires_at <> 0) then
    if decide (expires_at <= now) then Err err_expired else
    let settle_deadline := i64_saturating_add now (Z.max settlement_window 0) in
    if decide (expires_at <= settle_deadline)
    then Err (err_window expires_at settle_deadline now settlement_window)
    else Ok tt
  else Ok tt.

Definition voucher_verify_parts (channel_id : string) (cumulative expires_at : Z)
    (signature_b58 authorized_signer_b58 : string) (now settlement_window : Z) :
    result VoucherVerifyParts Error :=
  let? _ := check_expiry expires_at now settlement_window in
  let? channel := rmap_err (fun e => Other ("invalid channelId: " +:+ e)) (pubkey_from_str channel_id) in
  let message := voucher_message_bytes channel cumulative expires_at in
  let? sig_bytes := rmap_err (fun e => Other ("Invalid signature encoding: " +:+ e))
    (decode_64 signature_b58) in
  let? pubkey_bytes := rmap_err (fun e => Other ("Invalid authorized_signer: " +:+ e))
    (decode_32 authorized_signer_b58) in
  let? key := rmap_err (fun e => Other ("Invalid authorized_signer key: " +:+ e))
    (key_from_bytes pubkey_bytes) in
  Ok {| message := message; verifying_key := key; signature := sig_bytes |}.

Definition verify_voucher_signature (channel_id : string) (cumulative expires_at : Z)
    (signature_b58 authorized_signer_b58 : string) (now settlement_window : Z) : result unit Error :=
  let? parts := voucher_verify_parts channel_id cumulative expires_at signature_b58
    authorized_signer_b58 now settlement_window in
  if verify_strict (verifying_key parts) (message parts) (signature parts) then Ok tt
  else Err err_signature.

(** The signer signed exactly this voucher. *)
Definition signed_by (signer channel_id : string) (cumulative expires_at : Z)
    (signature_b58 : string) : Prop :=
  exists channel sig_bytes pubkey_bytes key,
    pubkey_from_str channel_id = Ok channel /\ decode_64 signature_b58 = Ok sig_bytes /\
    decode_32 signer = Ok pubkey_bytes /\ key_from_bytes pubkey_bytes = Ok key /\
    verify_strict key (voucher_message_bytes channel cumulative expires_at) sig_bytes = true.

(** The voucher can still settle after a close that starts now. *)
Definition outlasts (expires_at now settlement_window : Z) : Prop :=
  expires_at = 0 \/ now + Z.max settlement_window 0 < expires_at.

Lemma saturating_deadline e now w :
  in_i64 e -> in_i64 now -> 0 <= w -> i64_saturating_add now w < e <-> now + w < e.
Proof. zlia. Qed.

Lemma check_expiry_ok expires_at now settlement_window :
  in_i64 expires_at -> in_i64 now ->
  check_expiry expires_at now settlement_window = Ok tt <-> outlasts expires_at now settlement_window.
Proof.
  intros He Hn. unfold check_expiry, outlasts.
  pose proof (saturating_deadline expires_at now (Z.max settlement_window 0) He Hn ltac:(lia)) as Hd.
  revert Hd. generalize (i64_saturating_add now (Z.max settlement_window 0)). intros d Hd.
  clear He Hn. destruct (decide (expires_at <> 0)) as [Hz|Hz]; [|split; [lia|done]].
  destruct (decide (expires_at <= now)) as [Hl|Hl]; [split; [discriminate|lia]|].
  destruct (decide (expires_at <= d)) as [Hs|Hs]; [split; [discriminate|lia]|].
  split; [lia|done].
Qed.

Lemma verify_voucher_parts_ok channel_id cumulative expires_at s signer now window parts :
  voucher_verify_parts channel_id cumulative expires_at s signer now window = Ok parts <->
  check_expiry expires_at now window = Ok tt /\
  exists channel pubkey_bytes,
    pubkey_from_str channel_id = Ok channel /\ decode_64 s = Ok (signature parts) /\
    decode_32 signer = Ok pubkey_bytes /\ key_from_bytes pubkey_bytes = Ok (verifying_key parts) /\
    message parts = voucher_message_bytes channel cumulative expires_at.
Proof.
  unfold voucher_verify_parts. split.
  - intros [[] [Hx Hp]]%rbind_ok. split; [done|].
    apply rbind_ok in Hp as (ch & Hch & Hp). apply rbind_ok in Hp as (sb & Hsb & Hp).
    apply rbind_ok in Hp as (kb & Hkb & Hp). apply rbind_ok in Hp as (k & Hk & Hp).
    injection Hp as <-. exists ch, kb. apply rmap_err_ok in Hch, Hsb, Hkb, Hk. done.
  - intros (-> & ch & kb & -> & -> & -> & Hk & Hm). simpl. rewrite Hk. simpl. rewrite <-Hm.
    by destruct parts.
Qed.

Lemma verify_voucher_ok channel_id cumulative expires_at s signer now window :
  verify_voucher_signature channel_id cumulative expires_at s signer now window = Ok tt <->
  check_expiry expires_at now window = Ok tt /\ signed_by signer channel_id cumulative expires_at s.
Proof.
  unfold verify_voucher_signature, signed_by. rewrite rbind_ok. split.
  - intros (parts & Hp & Hv). apply verify_voucher_parts_ok in Hp as (Hx & ch & kb & ? & ? & ? & ? & Hm).
    split; [done|]. exists ch, (signature parts), kb, (verifying_key parts).
    rewrite <-Hm. split_and!; try done. by destruct (verify_strict _ _ _).
  - intros (Hx & ch & sb & kb & k & ? & ? & ? & ? & Hv).
    exists {| message := voucher_message_bytes ch cumulative expires_at; verifying_key := k;
              signature := sb |}.
    rewrite verify_voucher_parts_ok. simpl. rewrite Hv. naive_solver.
Qed.

(** A voucher is accepted exactly when it never expires or its expiry is
    after the end of a settlement window starting now - saturation of the
    deadline never lets one through - and the signature is the authorized
    signer's over exactly this channel, amount and expiry. *)
Theorem verify_voucher_iff channel_id cumulative expires_at s signer now window :
  in_i64 expires_at -> in_i64 now ->
  verify_voucher_signature channel_id cumulative expires_at s signer now window = Ok tt <->
  outlasts expires_at now window /\ signed_by signer channel_id cumulative expires_at s.
Proof. intros He Hn. by rewrite <-(check_expiry_ok _ _ window He Hn), verify_voucher_ok. Qed.
End voucher.
Arguments VoucherVerifyParts : clear implicits.

(** * A concrete scheme *)
Module CryptoDemo.
Definition text (s : string) : list byte := String.list_byte_of_string s.
Definition pad (n : nat) (l : list byte) : list byte := take n (l ++ replicate n Byte.x00).
Definition digest (l : list byte) : Z := zsum (byte_to_Z <$> l).

#[global] Instance crypto : Crypto (list byte) := {
  pubkey_from_str s := Ok (pad 32 (text s));
  decode_32 s := Ok (pad 32 (text s));
  decode_64 s := Ok (pad 64 (text s));
  key_from_bytes l := Ok l;
  verify_strict k m s := bool_decide (s = pad 64 (text (pretty (digest (k ++ m)))));
}.

Definition sign (signer id : string) (cumulative expires_at : Z) : string :=
  pretty (digest (pad 32 (text signer) ++ voucher_message_bytes (pad 32 (text id)) cumulative expires_at)).
End CryptoDemo.

Lemma voucher_bytes_roundtrip_witness :
  read_voucher (voucher_message_bytes (replicate 32 Byte.x07) 5000 (-1)) =
  Some (replicate 32 Byte.x07, 5000, -1).
Proof. apply voucher_bytes_roundtrip; [reflexivity|vm_compute; split; discriminate..]. Defined.

Lemma verify_voucher_iff_witness :
  verify_voucher_signature "chan" 500 1000 (CryptoDemo.sign "alice" "chan" 500 1000) "alice" 100 50 =
    Ok tt <->
  outlasts 1000 100 50 /\
  signed_by "alice" "chan" 500 1000 (CryptoDemo.sign "alice" "chan" 500 1000).
Proof. apply verify_voucher_iff; vm_compute; split; discriminate. Defined.

Example voucher_accepted :
  verify_voucher_signature "chan" 500 1000 (CryptoDemo.sign "alice" "chan" 500 1000) "alice" 100 50 = Ok tt.
Proof. vm_compute. reflexivity. Qed.
