(* ===== verification/BatchVerify.v ===== *)
(** Micro-batched signature verification
    (src/rust/crates/kit/src/core/batch_verify.rs): a worker collects jobs
    until a batch is full or its window elapses and answers every job. *)
From stdpp Require Import base numbers option list strings pretty.
From S2P Require Import Prelude Bytes Voucher.

(** What [ed25519_dalek] and [curve25519_dalek] decide about keys, signature
    points and whole batches. *)
Class Curve (Key : Type) `{Crypto Key} := {
  Point : Type;
  is_weak : Key -> bool;
  key_point : Key -> option Point;
  r_point : list byte -> option Point;
  is_small_order : Point -> bool;
  is_torsion_free : Point -> bool;
  verify_batch : list (list byte * list byte * Key) -> bool;
}.

(** With torsion-free keys and nonces, the batch equation holds (but with
    negligible probability) only if every signature's own equation does. *)
Class CurveLaws (Key : Type) `{Curve Key} := {
  batch_sound jobs : verify_batch jobs = true ->
    Forall (fun '(m, s, k) => is_weak k = false /\
      (exists p, key_point k = Some p /\ is_torsion_free p = true) /\
      (exists r, r_point s = Some r /\ is_small_order r = false /\ is_torsion_free r = true)) jobs ->
    Forall (fun '(m, s, k) => verify_strict k m s = true) jobs;
}.

Section batch.
Context {Key : Type} `{CurveLaws Key}.

(** [reply] names the submission whose oneshot channel gets the answer. *)
Record Job := {
  j_message : list byte;
  j_key : Key;
  j_signature : list byte;
  reply : nat;
}.

Definition strict (j : Job) : bool := verify_strict (j_key j) (j_message j) (j_signature j).
Definition answer (j : Job) (ok : bool) : nat * bool := (reply j, ok).

Definition is_degenerate (key : Key) (signature : list byte) : bool :=
  if is_weak key then true else
  if negb (match key_point key with Some point => is_torsion_free point | None => false end)
  then true else
  match r_point signature with
  | Some point => is_small_order point || negb (is_torsion_free point)
  | None => true
  end.

Definition degenerate (j : Job) : bool := is_degenerate (j_key j) (j_signature j).

(** The answers, in the order they are sent. *)
Definition verify_and_reply (batch : list Job) : list (nat * bool) :=
  match batch with
  | [job] => [answer job (strict job)]
  | _ =>
      let candidates := filter (fun j => degenerate j = false) batch in
      ((fun j => answer j (strict j)) <$> filter (fun j => degenerate j = true) batch) ++
      match candidates with
      | [] => []
      | [job] => [answer job (strict job)]
      | _ =>
          if verify_batch ((fun j => (j_message j, j_signature j, j_key j)) <$> candidates)
          then (fun j => answer j true) <$> candidates
          else (fun j => answer j (strict j)) <$> candidates
      end
  end.

(** What a worker sees: a submission, or the end of the batch's window. *)
Inductive arrival := Submit (j : Job) | Window.

(** [worker_loop] on everything that arrives before the senders are dropped;
    [batch] holds what the current batch has collected. *)
Fixpoint worker_loop (max_batch : nat) (batch : list Job) (arrivals : list arrival) : list (nat * bool) :=
  match arrivals with
  | [] => verify_and_reply batch
  | Window :: arrivals => verify_and_reply batch ++ worker_loop max_batch [] arrivals
  | Submit j :: arrivals =>
      if decide (length (batch ++ [j]) < max_batch)%nat then worker_loop max_batch (batch ++ [j]) arrivals
      else verify_and_reply (batch ++ [j]) ++ worker_loop max_batch [] arrivals
  end.

Definition submissions (arrivals : list arrival) : list Job :=
  omap (fun a => match a with Submit j => Some j | Window => None end) arrivals.

Definition strict_answer (j : Job) : nat * bool := answer j (strict j).

Lemma not_degenerate k s :
  is_degenerate k s = false -> is_weak k = false /\
  (exists p, key_point k = Some p /\ is_torsion_free p = true) /\
  (exists r, r_point s = Some r /\ is_small_order r = false /\ is_torsion_free r = true).
Proof.
  unfold is_degenerate. destruct (is_weak k); [done|].
  destruct (key_point k) as [p|]; [|done]. destruct (is_torsion_free p) eqn:Hp; [|done]. simpl.
  destruct (r_point s) as [r|]; [|done]. intros [? ?%negb_false_iff]%orb_false_iff. eauto 10.
Qed.

Lemma batched_strict jobs :
  Forall (fun j => degenerate j = false) jobs ->
  verify_batch ((fun j => (j_message j, j_signature j, j_key j)) <$> jobs) = true ->
  (fun j => answer j true) <$> jobs = strict_answer <$> jobs.
Proof.
  intros Hd Hb. apply batch_sound in Hb.
  - rewrite Forall_fmap in Hb. apply Forall_fmap_ext_1. eapply Forall_impl; [exact Hb|].
    intros j Hj. unfold strict_answer, strict. simpl in Hj. by rewrite Hj.
  - apply Forall_fmap. eapply Forall_impl; [exact Hd|]. intros j. apply not_degenerate.
Qed.

Lemma filter_split (batch : list Job) :
  filter (fun j => degenerate j = true) batch ++ filter (fun j => degenerate j = false) batch ≡ₚ batch.
Proof.
  induction batch as [|j batch IH]; [done|].
  rewrite !filter_cons. destruct (degenerate j); simpl.
  - by rewrite IH.
  - by rewrite <-Permutation_middle, IH.
Qed.

Lemma verify_and_reply_strict batch : verify_and_reply batch ≡ₚ strict_answer <$> batch.
Proof.
  assert (Hcand : forall cs, Forall (fun j => degenerate j = false) cs ->
    match cs with
    | [] => []
    | [job] => [answer job (strict job)]
    | _ => if verify_batch ((fun j => (j_message j, j_signature j, j_key j)) <$> cs)
           then (fun j => answer j true) <$> cs else (fun j => answer j (strict j)) <$> cs
    end = strict_answer <$> cs).
  { intros cs Hcs. pose proof (batched_strict cs Hcs) as Hb. destruct cs as [|j [|j' cs]]; [done..|].
    destruct (verify_batch _); [by apply Hb|done]. }
  destruct batch as [|j [|j' batch]]; [done..|]. unfold verify_and_reply.
  rewrite Hcand by (apply Forall_filter_all || (apply Forall_forall; intros ?; by rewrite list_elem_of_filter; intros [? _])).
  rewrite <-(filter_split (j :: j' :: batch)) at 3. by rewrite fmap_app.
Qed.

(** However submissions arrive and batches are cut, each submission gets one
    answer, the one strict verification of that signature alone gives: a bad
    signature neither rides a passing batch nor spoils it. *)
Theorem batch_is_strict max_batch arrivals :
  worker_loop max_batch [] arrivals ≡ₚ strict_answer <$> submissions arrivals.
Proof.
  enough (forall batch, worker_loop max_batch batch arrivals ≡ₚ
    strict_answer <$> (batch ++ submissions arrivals)) as Hgen by apply Hgen.
  induction arrivals as [|[j|] arrivals IH]; intros batch; simpl.
  - rewrite app_nil_r. apply verify_and_reply_strict.
  - case_decide; rewrite IH, ?verify_and_reply_strict, <-?fmap_app, <-?app_assoc; done.
  - rewrite IH, verify_and_reply_strict, <-fmap_app. done.
Qed.
End batch.

(** * A concrete curve *)
Module CurveDemo.
Import CryptoDemo.
#[global] Instance curve : Curve (list byte) := {
  Point := unit;
  is_weak _ := false;
  key_point _ := Some tt;
  r_point s := if bool_decide (s = []) then None else Some tt;
  is_small_order _ := false;
  is_torsion_free _ := true;
  verify_batch jobs := forallb (fun '(m, s, k) => verify_strict k m s) jobs;
}.

#[global] Instance curve_laws : CurveLaws (list byte).
Proof.
  split. intros jobs Hb _.
  apply Forall_forall. intros [[m s] k] Hin. apply forallb_forall with (x := (m, s, k)) in Hb; [done|].
  by apply list_elem_of_In.
Qed.

Definition job (id : nat) (s : string) : Job (Key := list byte) :=
  {| j_message := text "m"; j_key := text "k"; j_signature := pad 64 (text s); reply := id |}.
Definition arrivals : list (arrival (Key := list byte)) :=
  [Submit (job 0 (pretty (digest (text "km")))); Submit (job 1 "forged"); Window;
   Submit (job 2 (pretty (digest (text "km"))))].

Example answers : worker_loop 64 [] arrivals = [(0%nat, true); (1%nat, false); (2%nat, true)].
Proof. vm_compute. reflexivity. Qed.
End CurveDemo.

Lemma batch_is_strict_witness :
  worker_loop 64 [] CurveDemo.arrivals ≡ₚ strict_answer <$> submissions CurveDemo.arrivals.
Proof. apply batch_is_strict. Defined.
