(* ===== verification/Session.v ===== *)
(** Acceptance of cumulative vouchers
    (src/rust/crates/kit/src/core/session.rs): a read of the channel, the checks
    on it, the signature, then one atomic update that decides again. *)
From stdpp Require Import base numbers option list gmap strings pretty.
From S2P Require Import Prelude Effects Bytes Json Store Channel Voucher.

(** [core::store::StoreError] as text, and [store_err]. *)
Definition store_error_text (e : StoreError) : string :=
  match e with
  | Internal message => "Store error: " +:+ message
  | Serialization message => "Serialization error: " +:+ message
  end.
Definition store_err (e : StoreError) : Error := Other ("store error: " +:+ store_error_text e).

(** How the process verifies signatures: the batch verifier when the mode is on
    (its answer for one submission), else inline. *)
Class Verifier (Key : Type) `{Crypto Key} := {
  batch_verifier : option (list byte -> Key -> list byte -> bool);
}.

(** What [BatchVerify.batch_is_strict] gives for the batch verifier. *)
Class VerifierLaws (Key : Type) `{Verifier Key} := {
  batch_verifier_strict verify m k s :
    batch_verifier = Some verify -> verify m k s = verify_strict k m s;
}.

Section session.
Context {Value Key : Type} `{Verifier Key}.
Abbreviation St := (ChannelState Value).
Implicit Types (s : St) (o : option St) (m : gmap string St).

(** ** The store, as the acceptance uses it *)

(** An update runs its closure once, atomically, on the current record, at some
    time of the clock; the closure also sets the flag the caller shares with it. *)
Inductive sessionE : Type -> Type :=
| GetChannel (id : string) : sessionE (result (option St) StoreError)
| UpdateChannel (id : string) (updater : Z -> option St -> result St StoreError * bool) :
    sessionE (result St StoreError * bool).

Definition session_exec (X : Type) (f : env) (e : sessionE X) m : X * gmap string St :=
  match e with
  | GetChannel id => faulty f m m (Ok (m !! id))
  | UpdateChannel id updater =>
      let '(r, flag) := updater (env_now f) (m !! id) in
      let '(x, m') := match r with
                      | Ok s => faulty f m (<[id := s]> m) (Ok s)
                      | Err e => faulty f m m (Err e)
                      end in ((x, flag), m')
  end.

Abbreviation session := (prog sessionE).

(** ** Acceptance *)

Record VoucherAcceptance := {
  va_cumulative : Z;
  charged : Z;
  replay : bool;
}.

(** The arguments of one acceptance. *)
Record voucher_args := {
  arg_channel : string;
  new_cumulative : Z;
  arg_expires_at : Z;
  signature_b58 : string;
  arg_now : Z;
  min_voucher_delta : Z;
  settlement_window : Z;
  required_availability : Z;
}.

(** The scheme's part of the transition: it reads the clock, and edits the record
    or refuses. *)
Abbreviation commit_fn := (Z -> St -> bool -> result unit StoreError * St).

Definition no_commit : commit_fn := fun _ s _ => (Ok tt, s).

Definition exact_replay (a : voucher_args) s : bool :=
  bool_decide (new_cumulative a = cumulative s) &&
  bool_decide (highest_voucher_signature s = Some (signature_b58 a)).

Definition err_channel_not_found (id : string) : Error := Other ("Channel " +:+ id +:+ " not found").
Definition err_sealed : Error := Other "Channel is already sealed".
Definition err_close_pending : Error := Other "Channel close is pending — no further vouchers accepted".

(** The checks on the record read first. *)
Definition pre_checks (a : voucher_args) s : result unit Error :=
  if sealed s then Err err_sealed else
  if decide (is_Some (close_requested_at s)) then Err err_close_pending else
  if negb (exact_replay a s) && bool_decide (new_cumulative a <= cumulative s) then
    Err (Other ("Voucher cumulative " +:+ pretty (new_cumulative a) +:+ " must exceed watermark "
      +:+ pretty (cumulative s))) else
  if decide (deposit s < new_cumulative a) then
    Err (Other ("Voucher cumulative " +:+ pretty (new_cumulative a) +:+ " exceeds deposit "
      +:+ pretty (deposit s))) else
  let delta := u64_saturating_sub (new_cumulative a) (cumulative s) in
  if negb (exact_replay a s) && bool_decide (0 < min_voucher_delta a) &&
     bool_decide (delta < min_voucher_delta a) then
    Err (Other ("Voucher delta " +:+ pretty delta +:+ " is below minimum "
      +:+ pretty (min_voucher_delta a))) else
  Ok tt.

(** The signature, through the batch verifier when there is one. *)
Definition check_signature (a : voucher_args) (signer : string) : result unit Error :=
  match batch_verifier with
  | Some verify =>
      let? parts := voucher_verify_parts (arg_channel a) (new_cumulative a) (arg_expires_at a)
        (signature_b58 a) signer (arg_now a) (settlement_window a) in
      if verify (message parts) (verifying_key parts) (signature parts) then Ok tt
      else Err err_signature
  | None =>
      verify_voucher_signature (arg_channel a) (new_cumulative a) (arg_expires_at a)
        (signature_b58 a) signer (arg_now a) (settlement_window a)
  end.

Definition advance (a : voucher_args) s : St :=
  with_highest_voucher_expires_at (Some (arg_expires_at a))
    (with_highest_voucher_signature (Some (signature_b58 a))
      (with_cumulative (new_cumulative a) s)).

(** The closure of the update; the flag says the voucher was a replay. *)
Definition accept_locked (a : voucher_args) (commit : commit_fn) (now : Z) o : result St StoreError * bool :=
  match o with
  | None => (Err (Internal "Channel not found"), false)
  | Some s =>
      if sealed s then (Err (Internal "Channel is already sealed"), false) else
      if decide (is_Some (close_requested_at s)) then
        (Err (Internal "Channel close is pending — no further vouchers accepted"), false) else
      if exact_replay a s then
        match commit now s true with
        | (Ok _, s) => (Ok s, true)
        | (Err e, _) => (Err e, false)
        end else
      if decide (new_cumulative a <= cumulative s) then
        (Err (Internal "Concurrent update: watermark advanced"), false) else
      if decide (u64_saturating_sub (new_cumulative a) (spent_amount s) < required_availability a) then
        (Err (Internal "insufficient authorized voucher availability"), false) else
      match commit now s false with
      | (Ok _, s) => (Ok (advance a s), false)
      | (Err e, _) => (Err e, false)
      end
  end.

Definition acceptance (prior_cumulative : Z) (new_state : St) (was_replay : bool) : VoucherAcceptance := {|
  va_cumulative := cumulative new_state;
  charged := if was_replay then 0 else u64_saturating_sub (cumulative new_state) prior_cumulative;
  replay := was_replay;
|}.

Definition accept_voucher_with_commit (a : voucher_args) (commit : commit_fn) :
    session (result VoucherAcceptance Error) :=
  await got := perform (GetChannel (arg_channel a)) in
  match let? got := rmap_err store_err got in ok_or got (err_channel_not_found (arg_channel a)) with
  | Err e => Ret (Err e)
  | Ok state =>
      match let? _ := pre_checks a state in check_signature a (authorized_signer state) with
      | Err e => Ret (Err e)
      | Ok _ =>
          await updated := perform (UpdateChannel (arg_channel a) (accept_locked a commit)) in
          let '(r, was_replay) := updated in
          Ret (rmap (fun s => acceptance (cumulative state) s was_replay) (rmap_err store_err r))
      end
  end.

Definition accept_voucher (a : voucher_args) : session (result VoucherAcceptance Error) :=
  accept_voucher_with_commit a no_commit.

Definition session_run {A} (p : session A) m : A * gmap string St :=
  run (fun X => session_exec X (calm 0)) p m.

(** ** What one acceptance does *)

(** The record admits the voucher. *)
Definition admits (a : voucher_args) s : Prop :=
  sealed s = false /\ close_requested_at s = None /\ new_cumulative a <= deposit s /\
  check_signature a (authorized_signer s) = Ok tt /\
  (exact_replay a s = true \/
   cumulative s < new_cumulative a /\ cumulative s + min_voucher_delta a <= new_cumulative a /\
   (required_availability a <= 0 \/ spent_amount s + required_availability a <= new_cumulative a)).

#[local] Arguments accept_locked : simpl never.
#[local] Arguments pre_checks : simpl never.

Lemma session_run_accept a commit m :
  session_run (accept_voucher_with_commit a commit) m =
  match m !! arg_channel a with
  | None => (Err (err_channel_not_found (arg_channel a)), m)
  | Some s =>
      match let? _ := pre_checks a s in check_signature a (authorized_signer s) with
      | Err e => (Err e, m)
      | Ok _ =>
          match accept_locked a commit 0 (Some s) with
          | (Ok s', flag) => (Ok (acceptance (cumulative s) s' flag), <[arg_channel a := s']> m)
          | (Err e, _) => (Err (store_err e), m)
          end
      end
  end.
Proof.
  unfold session_run, accept_voucher_with_commit. simpl.
  destruct (m !! arg_channel a) as [s|] eqn:Hm; simpl; [|done].
  destruct (rbind (pre_checks a s) _) as [u|e]; [|done]. cbn [pbind perform run session_exec].
  rewrite Hm. change (env_now (calm 0)) with 0. by destruct (accept_locked a commit 0 (Some s)) as [[s2|e] flag].
Qed.

Lemma pre_checks_ok a s :
  pre_checks a s = Ok tt <->
  sealed s = false /\ close_requested_at s = None /\ new_cumulative a <= deposit s /\
  (exact_replay a s = true \/
   cumulative s < new_cumulative a /\ cumulative s + min_voucher_delta a <= new_cumulative a).
Proof.
  unfold pre_checks, u64_saturating_sub. destruct (sealed s); [naive_solver|].
  destruct (close_requested_at s) as [t|]; simpl; [naive_solver|].
  destruct (exact_replay a s); simpl.
  - case_decide; naive_solver lia.
  - destruct (bool_decide (new_cumulative a <= cumulative s)) eqn:H1;
      [apply bool_decide_eq_true in H1; naive_solver lia|apply bool_decide_eq_false in H1].
    case_decide; [naive_solver lia|]. repeat case_bool_decide; simpl; naive_solver lia.
Qed.

Lemma exact_replay_iff a s :
  exact_replay a s = true <->
  new_cumulative a = cumulative s /\ highest_voucher_signature s = Some (signature_b58 a).
Proof. unfold exact_replay. by rewrite andb_true_iff, !bool_decide_eq_true. Qed.

(** Alone, an acceptance succeeds exactly when the record admits the
    voucher; a fresh one then charges the whole increase over the watermark and
    records amount, signature and expiry, an exact replay charges nothing and
    changes nothing, and a refusal changes nothing. *)
Theorem accept_voucher_spec a s m :
  m !! arg_channel a = Some s ->
  (admits a s ->
   session_run (accept_voucher a) m =
   if exact_replay a s
   then (Ok {| va_cumulative := new_cumulative a; charged := 0; replay := true |}, m)
   else (Ok {| va_cumulative := new_cumulative a; charged := new_cumulative a - cumulative s;
               replay := false |}, <[arg_channel a := advance a s]> m)) /\
  (~ admits a s -> exists e, session_run (accept_voucher a) m = (Err e, m)).
Proof.
  intros Hm. unfold accept_voucher. rewrite session_run_accept, Hm. split.
  - intros (Hs & Hc & Hd & Hsig & Hnew).
    assert (pre_checks a s = Ok tt) as -> by (apply pre_checks_ok; tauto).
    simpl. rewrite Hsig. unfold accept_locked. rewrite Hs, Hc.
    rewrite decide_False by (intros [? ?]; discriminate).
    destruct (exact_replay a s) eqn:Hr; simpl.
    + apply exact_replay_iff in Hr as [Heq _]. rewrite insert_id by done.
      unfold acceptance. by rewrite Heq.
    + destruct Hnew as [|(Hlt & Hmin & Hreq)]; [done|]. rewrite decide_False by lia.
      unfold u64_saturating_sub. rewrite decide_False by lia. unfold acceptance, advance. simpl.
      unfold u64_saturating_sub. rewrite Z.max_r by lia. done.
  - intros Hn. destruct (pre_checks a s) as [[]|e] eqn:Hp; [|by exists e]. simpl.
    destruct (check_signature a _) as [[]|e] eqn:Hsig; [|by exists e].
    apply pre_checks_ok in Hp as (Hs & Hc & Hd & Hnew). unfold accept_locked. rewrite Hs, Hc.
    rewrite decide_False by (intros [? ?]; discriminate).
    destruct (exact_replay a s) eqn:Hr.
    { destruct Hn. unfold admits. tauto. }
    destruct Hnew as [|[Hlt Hmin]]; [done|]. rewrite decide_False by lia.
    destruct (decide (u64_saturating_sub _ _ < _)) as [Hav|Hav]; [by eexists|].
    destruct Hn. unfold u64_saturating_sub in Hav. unfold admits. split_and!; try done. right.
    split_and!; lia.
Qed.
End session.

(** * A concrete channel *)
Module SessionDemo.
Import CryptoDemo.
#[global] Instance verifier : Verifier (list byte) := { batch_verifier := Some (fun m k s => verify_strict k m s) }.
#[global] Instance verifier_laws : VerifierLaws (list byte).
Proof. split. by intros verify m k s [= <-]. Qed.

Abbreviation St := (ChannelState Demo.value).

Definition voucher (cumulative : Z) : voucher_args := {|
  arg_channel := "c"; new_cumulative := cumulative; arg_expires_at := 0;
  signature_b58 := sign "signer" "c" cumulative 0; arg_now := 100; min_voucher_delta := 4;
  settlement_window := 60; required_availability := 0;
|}.

Definition m : gmap string St := {[ "c" := ChannelDemo.opened "c" 10 ]}.
End SessionDemo.

Lemma accept_voucher_spec_witness :
  session_run (accept_voucher (SessionDemo.voucher 5)) SessionDemo.m =
  (Ok {| va_cumulative := 5; charged := 5; replay := false |},
   <["c" := advance (SessionDemo.voucher 5) (ChannelDemo.opened "c" 10)]> SessionDemo.m).
Proof.
  destruct (accept_voucher_spec (SessionDemo.voucher 5) (ChannelDemo.opened "c" 10) SessionDemo.m eq_refl)
    as [Hok _].
  refine (Hok _). unfold admits. split; [reflexivity|]. split; [reflexivity|].
  split; [vm_compute; discriminate|]. split; [vm_compute; reflexivity|]. right. simpl. lia.
Defined.
