(* ===== verification/SessionPool.v ===== *)
(** Concurrent voucher acceptances on one store, with failing store operations
    and other writers in between. *)
From stdpp Require Import base numbers option list gmap strings relations.
From S2P Require Import Prelude Effects Bytes Json Store Channel Voucher Session.

Section pool.
Context {Value Key : Type} `{VerifierLaws Key}.
Abbreviation St := (ChannelState Value).
Abbreviation op := (sessionE (Value := Value)).
Abbreviation session := (prog op).
Abbreviation answer := (result VoucherAcceptance Error).
Implicit Types (s : St) (m : gmap string St).

(** The tasks: acceptances, and any other user of the store. *)
Inductive task :=
| Accept (a : voucher_args) (commit : Z -> St -> bool -> result unit StoreError * St)
| OtherTask (p : session answer).

Definition task_prog (t : task) : session answer :=
  match t with
  | Accept a commit => accept_voucher_with_commit a commit
  | OtherTask p => p
  end.

(** The scheme's part leaves the fields of the acceptance alone. *)
Definition commit_keeps (commit : Z -> St -> bool -> result unit StoreError * St) : Prop :=
  forall now s r s', commit now s r = (Ok tt, s') ->
    cumulative s' = cumulative s /\ deposit s' = deposit s /\
    authorized_signer s' = authorized_signer s /\
    highest_voucher_signature s' = highest_voucher_signature s /\
    highest_voucher_expires_at s' = highest_voucher_expires_at s.

Lemma accept_locked_some (a : voucher_args) commit now s s' flag :
  commit_keeps commit -> accept_locked a commit now (Some s) = (Ok s', flag) ->
  if flag
  then exists s1, commit now s true = (Ok tt, s1) /\ s' = s1 /\ exact_replay a s = true
  else exists s1, commit now s false = (Ok tt, s1) /\ s' = advance a s1 /\ cumulative s < new_cumulative a.
Proof.
  intros Hk. unfold accept_locked. destruct (sealed s); [done|]. case_decide; [done|].
  destruct (exact_replay a s) eqn:Hr.
  - destruct (commit now s true) as [[[]|e] s1] eqn:Hc; intros [= <- <-]. eauto.
  - case_decide; [done|]. case_decide; [done|].
    destruct (commit now s false) as [[[]|e] s1] eqn:Hc; intros [= <- <-].
    exists s1. split_and!; [done|done|lia].
Qed.

(** * A watermark is charged once *)
Section once.
Context (id : string) (c : Z).

(** The watermark has reached [c]. *)
Definition reached m : Z :=
  match m !! id with Some s => if decide (c <= cumulative s) then 1 else 0 | None => 0 end.

Definition advancing (X : Type) (e : op X) : Prop :=
  match e with
  | GetChannel _ => True
  | UpdateChannel _ updater =>
      forall now s s' flag, updater now (Some s) = (Ok s', flag) ->
      if flag : bool then cumulative s <= cumulative s' else cumulative s < cumulative s'
  end.

Definition fresh_gain (X : Type) (e : op X) : X -> Z :=
  match e in sessionE X return X -> Z with
  | GetChannel _ => fun _ => 0
  | UpdateChannel i _ => fun x =>
      match x with
      | (Ok s, false) => if decide (i = id /\ cumulative s = c) then 1 else 0
      | _ => 0
      end
  end.

Definition fresh_at (t : task) (r : answer) : bool :=
  match t, r with
  | Accept a _, Ok v =>
      bool_decide (arg_channel a = id /\ va_cumulative v = c) && negb (replay v)
  | _, _ => false
  end.

Lemma reached_insert i s m :
  reached (<[i := s]> m) =
  if decide (i = id) then if decide (c <= cumulative s) then 1 else 0 else reached m.
Proof.
  unfold reached. case_decide as Hi; [subst; by rewrite lookup_insert_eq|by rewrite lookup_insert_ne].
Qed.

Lemma reached_range m : 0 <= reached m <= 1.
Proof. unfold reached. repeat case_match; lia. Qed.

Lemma fresh_gain_sound X f (e : op X) x m m' :
  advancing X e -> session_exec X f e m = (x, m') -> fresh_gain X e x <= reached m' - reached m.
Proof.
  intros Hadv He. destruct e as [i|i updater]; simpl in *.
  - unfold faulty in He. destruct (env_fault f) as [[err []]|]; simplify_eq; lia.
  - destruct (updater (env_now f) (m !! i)) as [r flag] eqn:Hu. specialize (Hadv) as Hadv.
    assert (Hstep : forall s, r = Ok s ->
      (if flag then 0 else if decide (i = id /\ cumulative s = c) then 1 else 0) <=
      reached (<[i := s]> m) - reached m /\ 0 <= reached (<[i := s]> m) - reached m).
    { intros s ->. rewrite reached_insert. destruct (decide (i = id)) as [->|Hi].
      2:{ destruct flag; [lia|]. rewrite decide_False by tauto. lia. }
      unfold reached. destruct (m !! id) as [s0|] eqn:Hm.
      - specialize (Hadv _ s0 s flag Hu). destruct flag; repeat case_decide; lia.
      - destruct flag; repeat case_decide; try lia. }
    destruct r as [s|err]; unfold faulty in He; destruct (env_fault f) as [[err' []]|];
      simplify_eq; try lia; pose proof (Hstep s eq_refl) as [? ?]; destruct flag; lia.
Qed.

Definition undisturbing (t : task) : Prop :=
  match t with
  | Accept _ commit => commit_keeps commit
  | OtherTask p => certified (fun X (_ : unit) e => advancing X e) (fun _ g _ _ => g)
      (fun _ _ => True) tt p
  end.

Lemma other_funded (p : session answer) t b :
  certified (fun X (_ : unit) e => advancing X e) (fun _ g _ _ => g) (fun _ _ => True) tt p ->
  fresh_at t = (fun _ => false) -> 0 <= b ->
  certified (may_perform advancing) (earn fresh_gain) (solvent fresh_at) (t, b) p.
Proof.
  intros Hp Ht. revert b. induction p as [r|X e k IH]; intros b Hb; simpl in *.
  - unfold solvent. simpl. by rewrite Ht.
  - destruct Hp as [He Hk]. split; [split; [done|done]|]. intros x. apply IH; [apply Hk|].
    simpl. destruct e; simpl; [lia|]. repeat case_match; lia.
Qed.

Lemma accept_funded a commit :
  commit_keeps commit ->
  funded advancing fresh_gain task_prog (fun _ => 0) fresh_at (Accept a commit).
Proof.
  intros Hk. unfold funded, task_prog, accept_voucher_with_commit. split; [split; [done|done]|].
  intros got. simpl. destruct (rbind (rmap_err store_err got) _) as [state|e]; simpl; [|done].
  destruct (rbind (pre_checks a state) _) as [u|e]; simpl; [|done].
  split; [split; [done|]|].
  - intros now s s' flag Hl%accept_locked_some; [|done]. destruct flag.
    + destruct Hl as (s1 & Hs1 & -> & _). apply Hk in Hs1 as [-> _]. lia.
    + by destruct Hl as (s1 & _ & -> & Hlt).
  - intros [[s|e] flag]; simpl; [|done]. unfold solvent, fresh_at. simpl.
    destruct flag; simpl; [rewrite andb_false_r; done|]. rewrite andb_true_r.
    case_bool_decide; case_decide; done.
Qed.

Lemma task_funded t :
  undisturbing t -> funded advancing fresh_gain task_prog (fun _ => 0) fresh_at t.
Proof.
  destruct t as [a commit|p]; simpl; [apply accept_funded|]. intros Hp. by apply other_funded.
Qed.
End once.

(** C1. However acceptances interleave with each other and with other writers
    that never lower a watermark, and whichever store operations fail, at most
    one of them answers a fresh (paid, not replayed) acceptance of any given
    watermark of a channel. *)
Theorem fresh_once ts m ps' m' i j a b ca cb u v :
  rtc (pool_step session_exec) (task_prog <$> ts, m) (ps', m') ->
  Forall undisturbing ts ->
  ts !! i = Some (Accept a ca) -> ps' !! i = Some (Ret (Ok u)) -> replay u = false ->
  ts !! j = Some (Accept b cb) -> ps' !! j = Some (Ret (Ok v)) -> replay v = false ->
  arg_channel a = arg_channel b -> va_cumulative u = va_cumulative v -> i = j.
Proof.
  intros Hr Hts Hi Hpi Hu Hj Hpj Hv Hid Hc. destruct (decide (i = j)) as [|Hne]; [done|].
  set (id := arg_channel b) in *. set (c := va_cumulative v) in *.
  pose proof (pool_winners session_exec advancing (fresh_gain id c) (reached id c)
    (fresh_gain_sound id c) task_prog (fun _ => 0) (fresh_at id c) _ _ _ _ Hr) as Hw.
  assert (Hle : count_winners (fresh_at id c) ts ps' <= 1).
  { etrans; [apply Hw; eapply Forall_impl; [exact Hts|apply task_funded]|].
    pose proof (reached_range id c m). pose proof (reached_range id c m').
    assert (zsum ((fun _ : task => 0) <$> ts) = 0) as -> by (clear; induction ts; csimpl; lia). lia. }
  pose proof (count_winners_two (fresh_at id c) ts ps' i j _ _ _ _ Hne Hi Hj Hpi Hpj) as Htwo.
  cbn [fresh_at] in Htwo. rewrite Hu, Hv, !bool_decide_true in Htwo by done.
  specialize (Htwo eq_refl eq_refl). lia.
Qed.

(** * The watermark is backed by a voucher *)
Section backed.
Context (id : string).

(** The watermark is within the deposit, and a recorded highest voucher is the
    signer's, over exactly the watermark. *)
Definition backed s : Prop :=
  cumulative s <= deposit s /\
  forall sig, highest_voucher_signature s = Some sig ->
  exists expires, highest_voucher_expires_at s = Some expires /\
    signed_by (Key := Key) (authorized_signer s) id (cumulative s) expires sig.

(** [s'] may follow [s] in the store. *)
Definition follows s s' : Prop :=
  authorized_signer s' = authorized_signer s /\ deposit s <= deposit s' /\ cumulative s <= cumulative s'.

(** An update by a caller that has read [seen]. *)
Definition keeps_backed (X : Type) (seen : option St) (e : op X) : Prop :=
  match e with
  | GetChannel _ => True
  | UpdateChannel i updater => i = id -> forall now s s' flag,
      (forall s0, seen = Some s0 -> follows s0 s) -> backed s ->
      updater now (Some s) = (Ok s', flag) -> backed s' /\ follows s s'
  end.

Definition note_read (X : Type) (seen : option St) (e : op X) : X -> option St :=
  match e in sessionE X return X -> option St with
  | GetChannel i => fun x =>
      match x with Ok (Some s) => if decide (i = id) then Some s else seen | _ => seen end
  | UpdateChannel _ _ => fun _ => seen
  end.

Definition keeping (t : task) : Prop :=
  match t with
  | Accept _ commit => commit_keeps commit
  | OtherTask p => certified keeps_backed note_read (fun _ _ => True) None p
  end.

Lemma follows_refl s : follows s s.
Proof. unfold follows. split_and!; [done|lia..]. Qed.

Lemma follows_trans s1 s2 s3 : follows s1 s2 -> follows s2 s3 -> follows s1 s3.
Proof. intros (? & ? & ?) (? & ? & ?). unfold follows. split_and!; [congruence|lia..]. Qed.

Lemma check_signature_signed (a : voucher_args) signer :
  check_signature a signer = Ok tt ->
  signed_by signer (arg_channel a) (new_cumulative a) (arg_expires_at a) (signature_b58 a).
Proof.
  intros Hc. enough (verify_voucher_signature (arg_channel a) (new_cumulative a) (arg_expires_at a)
    (signature_b58 a) signer (arg_now a) (settlement_window a) = Ok tt) as Hv
    by (apply verify_voucher_ok in Hv as [_ Hs]; exact Hs).
  unfold check_signature in Hc. destruct batch_verifier as [verify|] eqn:Hb; [|done].
  unfold verify_voucher_signature. destruct (voucher_verify_parts _ _ _ _ _ _ _) as [parts|]; [|done].
  simpl in *. by rewrite (batch_verifier_strict _ _ _ _ Hb) in Hc.
Qed.

Lemma accept_keeps_backed a commit now s0 s s' flag :
  commit_keeps commit -> arg_channel a = id ->
  pre_checks a s0 = Ok tt -> check_signature a (authorized_signer s0) = Ok tt ->
  follows s0 s -> backed s -> accept_locked a commit now (Some s) = (Ok s', flag) ->
  backed s' /\ follows s s'.
Proof.
  intros Hk Hid Hp Hsig%check_signature_signed Hf [Hd Hb] Hl%accept_locked_some; [|done].
  apply pre_checks_ok in Hp as (_ & _ & Hdep & _). destruct Hf as (Hsigner & Hdep' & _).
  destruct flag.
  - destruct Hl as (s1 & Hs1 & -> & _). apply Hk in Hs1 as (Hc1 & Hd1 & Ha1 & Hh1 & He1).
    unfold backed, follows. rewrite Hc1, Hd1, Ha1, Hh1, He1. split_and!; [done..|lia|lia].
  - destruct Hl as (s1 & Hs1 & -> & Hlt). apply Hk in Hs1 as (Hc1 & Hd1 & Ha1 & _ & _).
    unfold backed, follows, advance. simpl. rewrite Hd1, Ha1, Hsigner. split_and!; [lia| |done|lia|lia].
    intros sig [= <-]. exists (arg_expires_at a); split; [done|by rewrite <-Hid].
Qed.

Lemma accept_keeping a commit :
  commit_keeps commit ->
  certified keeps_backed note_read (fun _ _ => True) None (accept_voucher_with_commit a commit).
Proof.
  intros Hk. split; [done|]. intros got. simpl. destruct got as [[state|]|e]; simpl; [|done..].
  destruct (rbind (pre_checks a state) _) as [[]|e] eqn:Hpre; [|done].
  apply rbind_ok in Hpre as ([] & Hpre & Hsig). split; [|by intros [[] ?]].
  intros Hid now s s' flag Hseen Hb Hl. rewrite decide_True in Hseen by done.
  by eapply accept_keeps_backed; [..|apply Hseen|exact Hb|exact Hl].
Qed.

(** [s0] is the record the run started from. *)
Definition backed_state s0 m (seen : list (option St)) : Prop :=
  exists s, m !! id = Some s /\ backed s /\ follows s0 s /\
  forall i s1, seen !! i = Some (Some s1) -> follows s1 s.

Lemma backed_step s0 X f (e : op X) x m m' seen i g :
  backed_state s0 m seen -> seen !! i = Some g -> keeps_backed X g e ->
  session_exec X f e m = (x, m') -> backed_state s0 m' (<[i := note_read X g e x]> seen).
Proof.
  intros (s & Hs & Hb & Hf & Hseen) Hg Hk He. destruct e as [j|j updater]; simpl in *.
  - assert (Hm : m' = m /\ forall s1, x = Ok (Some s1) -> m !! j = Some s1).
    { unfold faulty in He. destruct (env_fault f) as [[err []]|]; simplify_eq; naive_solver. }
    destruct Hm as [-> Hx]. exists s. split_and!; [done..|].
    intros k s1 [(-> & Heq & _)|[_ Hk']]%list_lookup_insert_Some; [|by eapply Hseen].
    destruct x as [[s2|]|err]; [|subst; by eapply Hseen..]. case_decide; [|subst; by eapply Hseen].
    subst. simplify_eq. rewrite (Hx _ eq_refl) in Hs. simplify_eq. apply follows_refl.
  - rewrite list_insert_id by done. destruct (updater (env_now f) (m !! j)) as [r flag] eqn:Hu.
    assert (Hm : m' = m \/ exists s', r = Ok s' /\ m' = <[j := s']> m).
    { destruct r; unfold faulty in He; destruct (env_fault f) as [[err []]|]; simplify_eq; eauto. }
    destruct Hm as [->|(s' & -> & ->)]; [by exists s|].
    destruct (decide (j = id)) as [->|Hj]; [|exists s; by rewrite lookup_insert_ne].
    rewrite Hs in Hu. destruct (Hk eq_refl (env_now f) s s' flag) as [Hb' Hf']; [|done|done|].
    { intros s1 ->. by eapply Hseen. }
    exists s'. rewrite lookup_insert_eq. split_and!; [done..|by eapply follows_trans|].
    intros k s1 Hk1. eapply follows_trans; [by eapply Hseen|done].
Qed.

(** C2. However acceptances interleave with other writers that keep the record
    sound, with failing store operations, the channel's watermark never falls
    and stays within the deposit, and the recorded highest voucher is one the
    channel's signer signed for exactly the watermark: what the server counts
    as earned it can settle. *)
Theorem watermark_backed ts m ps' m' s0 :
  rtc (pool_step session_exec) (task_prog <$> ts, m) (ps', m') ->
  Forall keeping ts -> m !! id = Some s0 -> backed s0 ->
  exists s, m' !! id = Some s /\ backed s /\ follows s0 s.
Proof.
  intros Hr Hts Hs0 Hb.
  edestruct (pool_certified (A := answer) session_exec keeps_backed note_read (backed_state s0))
    with (post := fun (_ : nat) (_ : option St) (_ : answer) => True)
         (gs := (fun _ : task => @None St) <$> ts) as (gs & _ & (s & ? & ? & ? & _) & _);
    [|exact Hr|..].
  - intros X f e x m1 m1' gs i g HI Hg Hk He. by eapply backed_step.
  - apply tasks_certified_Forall2, Forall2_fmap, Forall_Forall2_diag.
    eapply Forall_impl; [exact Hts|]. intros [a commit|p]; [apply accept_keeping|done].
  - exists s0. split_and!; [done..|apply follows_refl|].
    intros i s1 Hi. apply list_lookup_fmap_Some in Hi as (? & ? & _). done.
  - by exists s.
Qed.
End backed.
End pool.

(** * Witnesses: two vouchers race *)
Module VoucherRace.
Export Session.SessionDemo.

Definition ts : list (task (Value := Demo.value)) :=
  [Accept (voucher 5) no_commit; Accept (voucher 8) no_commit; Accept (voucher 5) no_commit].
Definition start := (task_prog (Key := list byte) <$> ts, m).

(** All read first; then 5 lands, 8 lands, and the second 5 is too late. *)
Definition sched : list (nat * env) :=
  [(0%nat, calm 0); (1%nat, calm 0); (2%nat, calm 0); (0%nat, calm 0); (1%nat, calm 0); (2%nat, calm 0)].
Definition final := run_pool session_exec sched start.

Lemma voucher_race_steps : rtc (pool_step session_exec) start (final.1, final.2).
Proof. unfold final. generalize sched, start. intros l c. apply run_pool_steps. Qed.

(** Both fresh acceptances charge against the watermark they read before the
    update: together 13 for a watermark of 8, and the second one's real
    increase of 3 is below the minimum of 4. *)
Example charged_twice :
  returned <$> final.1 = [
    Some (Ok {| va_cumulative := 5; charged := 5; replay := false |});
    Some (Ok {| va_cumulative := 8; charged := 8; replay := false |});
    Some (Err (store_err (Internal "Concurrent update: watermark advanced")))] /\
  cumulative <$> final.2 !! "c" = Some 8.
Proof. split; vm_compute; reflexivity. Qed.

Lemma no_commit_keeps : commit_keeps (Value := Demo.value) no_commit.
Proof. by intros now s r s' [= <-]. Qed.

Lemma all_undisturbing : Forall undisturbing ts.
Proof. repeat (apply Forall_cons_2; [exact no_commit_keeps|]). apply Forall_nil_2. Qed.

Lemma all_keeping : Forall (keeping (Key := list byte) "c") ts.
Proof. repeat (apply Forall_cons_2; [exact no_commit_keeps|]). apply Forall_nil_2. Qed.
End VoucherRace.

Lemma fresh_once_witness :
  VoucherRace.final.1 !! 0%nat =
    Some (Ret (Ok {| va_cumulative := 5; charged := 5; replay := false |})) /\ 0%nat = 0%nat.
Proof.
  split; [vm_compute; reflexivity|].
  refine (fresh_once VoucherRace.ts SessionDemo.m VoucherRace.final.1 VoucherRace.final.2 0 0
    (SessionDemo.voucher 5) (SessionDemo.voucher 5) no_commit no_commit
    {| va_cumulative := 5; charged := 5; replay := false |}
    {| va_cumulative := 5; charged := 5; replay := false |}
    VoucherRace.voucher_race_steps VoucherRace.all_undisturbing eq_refl _ eq_refl eq_refl _ eq_refl
    eq_refl eq_refl); vm_compute; reflexivity.
Defined.

Lemma watermark_backed_witness :
  exists s, VoucherRace.final.2 !! "c" = Some s /\ backed (Key := list byte) "c" s /\
    follows (ChannelDemo.opened "c" 10) s.
Proof.
  refine (watermark_backed "c" VoucherRace.ts SessionDemo.m VoucherRace.final.1 VoucherRace.final.2
    (ChannelDemo.opened "c" 10) VoucherRace.voucher_race_steps VoucherRace.all_keeping eq_refl _).
  split; [vm_compute; discriminate|]. intros sig Hs. discriminate Hs.
Defined.
