(* ===== verification/Tx.v ===== *)
(** Transaction versions, their wire limits and the compute budget
    (src/rust/crates/kit/src/core/tx/version.rs, budget.rs). Messages are the
    data of the [solana_message] crate the code reads; public keys are their
    base58 text. *)
From stdpp Require Import base numbers option list strings pretty.
From S2P Require Import Prelude Bytes Voucher.

Abbreviation Pubkey := string.

(** * Messages *)

Record CompiledInstruction := {
  program_id_index : nat;
  accounts : list nat;
  data : list byte;
}.

Record Instruction := {
  program_id : Pubkey;
  account_metas : list (Pubkey * bool * bool);
  ix_data : list byte;
}.

(** [v1::TransactionConfig]. *)
Record TransactionConfig := {
  compute_unit_limit : option Z;
  priority_fee : option Z;
  loaded_accounts_data_size : option Z;
  heap_size : option Z;
}.

(** The fields of a message and of its [MessageHeader]. *)
Record MessageBody := {
  num_required_signatures : nat;
  num_readonly_signed_accounts : nat;
  num_readonly_unsigned_accounts : nat;
  static_account_keys : list Pubkey;
  instructions : list CompiledInstruction;
  recent_blockhash : list byte;
}.

Inductive VersionedMessage :=
| Legacy (b : MessageBody)
| MessageV0 (b : MessageBody) (address_table_lookups : list Pubkey)
| MessageV1 (b : MessageBody) (config : TransactionConfig).

Definition body (m : VersionedMessage) : MessageBody :=
  match m with Legacy b | MessageV0 b _ | MessageV1 b _ => b end.

(** * Versions *)

Inductive TxVersion := V0 | V1.

#[export] Instance TxVersion_eq_dec : EqDecision TxVersion.
Proof. solve_decision. Defined.

(** [u8::from], the order of the versions. *)
Definition version_u8 (v : TxVersion) : Z := match v with V0 => 0 | V1 => 1 end.
Definition version_le (v w : TxVersion) : Prop := version_u8 v <= version_u8 w.
#[export] Instance version_le_dec v w : Decision (version_le v w).
Proof. unfold version_le. apply _. Defined.

Definition version_text (v : TxVersion) : string := pretty (version_u8 v).

(** [TxVersion::try_from]. *)
Definition version_of_u8 (n : Z) : result TxVersion string :=
  if decide (n = 0) then Ok V0 else if decide (n = 1) then Ok V1
  else Err ("unsupported transaction version " +:+ pretty n).

(** [TxVersion::of]: legacy messages are policed as version 0. *)
Definition version_of (m : VersionedMessage) : TxVersion :=
  match m with Legacy _ | MessageV0 _ _ => V0 | MessageV1 _ _ => V1 end.

Record TxLimits := {
  max_bytes : nat;
  max_static_accounts : nat;
  max_instructions : option nat;
  max_signatures : option nat;
}.

Definition PACKET_DATA_SIZE : nat := 1280 - 40 - 8.
Definition MAX_TX_ACCOUNT_LOCKS : nat := 64.

(** The limits of the [solana_message::v1] format. *)
Class V1Format := {
  MAX_TRANSACTION_SIZE : nat;
  MAX_ADDRESSES : nat;
  MAX_INSTRUCTIONS : nat;
  MAX_SIGNATURES : nat;
}.

Definition limits `{V1Format} (v : TxVersion) : TxLimits :=
  match v with
  | V0 => {| max_bytes := PACKET_DATA_SIZE; max_static_accounts := MAX_TX_ACCOUNT_LOCKS;
             max_instructions := None; max_signatures := None |}
  | V1 => {| max_bytes := MAX_TRANSACTION_SIZE; max_static_accounts := MAX_ADDRESSES;
             max_instructions := Some MAX_INSTRUCTIONS; max_signatures := Some MAX_SIGNATURES |}
  end.

Definition DEFAULT_ACCEPTED_VERSIONS : list TxVersion := [V0].

Definition accepted_versions (advertised : option (list TxVersion)) : list TxVersion :=
  match advertised with Some list => list | None => DEFAULT_ACCEPTED_VERSIONS end.

(** * The compute budget *)

Definition COMPUTE_BUDGET_PROGRAM_ID : Pubkey := "ComputeBudget111111111111111111111111111111".
Definition SET_UNIT_LIMIT_TAG : Z := 2.
Definition SET_UNIT_PRICE_TAG : Z := 3.
Definition SET_LOADED_ACCOUNTS_DATA_SIZE_LIMIT_TAG : Z := 4.
Definition MAX_LOADED_ACCOUNTS_DATA_SIZE_BYTES : Z := 64 * 1024 * 1024.

Record ComputeBudget := {
  unit_limit : Z;
  unit_price_micro_lamports : Z;
  loaded_accounts_data_size_limit : Z;
}.

Definition new_budget (limit price : Z) : ComputeBudget :=
  {| unit_limit := limit; unit_price_micro_lamports := price;
     loaded_accounts_data_size_limit := MAX_LOADED_ACCOUNTS_DATA_SIZE_BYTES |}.

(** [limit as u32] after the cap, and [u64::saturating_mul]. *)
Definition runtime_default (num_instructions : nat) : ComputeBudget :=
  let limit := Z.min (200000 * Z.of_nat num_instructions) u64_max in
  let limit := if decide (1400000 < limit) then 1400000 else limit in
  new_budget limit 0.

(** [u128::div_ceil] for a positive divisor. *)
Definition div_ceil (a b : Z) : Z := (a + b - 1) `div` b.

Definition priority_fee_lamports (b : ComputeBudget) : Z :=
  Z.min (div_ceil (unit_limit b * unit_price_micro_lamports b) 1000000) u64_max.

Definition unit_limit_instruction (units : Z) : Instruction :=
  {| program_id := COMPUTE_BUDGET_PROGRAM_ID; account_metas := [];
     ix_data := byte_of_Z SET_UNIT_LIMIT_TAG :: u32_bytes units |}.

Definition unit_price_instruction (micro_lamports : Z) : Instruction :=
  {| program_id := COMPUTE_BUDGET_PROGRAM_ID; account_metas := [];
     ix_data := byte_of_Z SET_UNIT_PRICE_TAG :: u64_bytes micro_lamports |}.

Definition budget_instructions (b : ComputeBudget) : list Instruction :=
  [unit_limit_instruction (unit_limit b); unit_price_instruction (unit_price_micro_lamports b)].

Definition v1_config (b : ComputeBudget) : TransactionConfig := {|
  compute_unit_limit := Some (unit_limit b);
  priority_fee := Some (priority_fee_lamports b);
  loaded_accounts_data_size := Some (loaded_accounts_data_size_limit b);
  heap_size := None;
|}.

Inductive ComputeBudgetOp :=
| UnitLimit (units : Z)
| UnitPrice (micro_lamports : Z)
| LoadedAccountsDataSizeLimit (bytes : Z).

Definition decode_compute_budget_op (ix : CompiledInstruction) : option ComputeBudgetOp :=
  match data ix with
  | [] => None
  | tag :: rest =>
      let tag := byte_to_Z tag in
      if decide (tag = SET_UNIT_LIMIT_TAG /\ length rest = 4%nat) then Some (UnitLimit (from_le rest))
      else if decide (tag = SET_UNIT_PRICE_TAG /\ length rest = 8%nat) then Some (UnitPrice (from_le rest))
      else if decide (tag = SET_LOADED_ACCOUNTS_DATA_SIZE_LIMIT_TAG /\ length rest = 4%nat)
      then Some (LoadedAccountsDataSizeLimit (from_le rest))
      else None
  end.

(** ** The budget a message declares *)

Record DeclaredBudget := {
  d_unit_limit : option Z;
  d_unit_price : option Z;
  d_loaded_limit : option Z;
  instruction_indexes : list nat;
}.

Definition no_budget : DeclaredBudget :=
  {| d_unit_limit := None; d_unit_price := None; d_loaded_limit := None; instruction_indexes := [] |}.

Definition is_compute_budget (b : MessageBody) (ix : CompiledInstruction) : bool :=
  bool_decide (static_account_keys b !! program_id_index ix = Some COMPUTE_BUDGET_PROGRAM_ID).

(** One turn of the version-0 loop for a ComputeBudget instruction. *)
Definition declare_op (budget : DeclaredBudget) (index : nat) (op : option ComputeBudgetOp) :
    result DeclaredBudget Error :=
  let indexes := instruction_indexes budget ++ [index] in
  match op with
  | Some (UnitLimit units) =>
      match d_unit_limit budget with
      | Some _ => Err (Other "duplicate SetComputeUnitLimit instruction")
      | None => Ok {| d_unit_limit := Some units; d_unit_price := d_unit_price budget;
                      d_loaded_limit := d_loaded_limit budget; instruction_indexes := indexes |}
      end
  | Some (UnitPrice price) =>
      match d_unit_price budget with
      | Some _ => Err (Other "duplicate SetComputeUnitPrice instruction")
      | None => Ok {| d_unit_limit := d_unit_limit budget; d_unit_price := Some price;
                      d_loaded_limit := d_loaded_limit budget; instruction_indexes := indexes |}
      end
  | Some (LoadedAccountsDataSizeLimit bytes) =>
      match d_loaded_limit budget with
      | Some _ => Err (Other "duplicate SetLoadedAccountsDataSizeLimit instruction")
      | None => Ok {| d_unit_limit := d_unit_limit budget; d_unit_price := d_unit_price budget;
                      d_loaded_limit := Some bytes; instruction_indexes := indexes |}
      end
  | None => Err (Other "unsupported ComputeBudget instruction")
  end.

Fixpoint declare_loop (b : MessageBody) (index : nat) (ixs : list CompiledInstruction)
    (budget : DeclaredBudget) : result DeclaredBudget Error :=
  match ixs with
  | [] => Ok budget
  | ix :: ixs =>
      if is_compute_budget b ix then
        let? budget := declare_op budget index (decode_compute_budget_op ix) in
        declare_loop b (S index) ixs budget
      else declare_loop b (S index) ixs budget
  end.

(** The price of a version-1 fee, rounded up. *)
Definition v1_price (unit_limit fee : Z) : Z :=
  if decide (unit_limit = 0) then u64_max else Z.min (div_ceil (fee * 1000000) unit_limit) u64_max.

(** [DeclaredBudget::of]. *)
Definition declared (m : VersionedMessage) : result DeclaredBudget Error :=
  match m with
  | MessageV1 b config =>
      if existsb (is_compute_budget b) (instructions b)
      then Err (Other "version 1 transactions must not contain ComputeBudget instructions") else
      let? unit_limit := ok_or (compute_unit_limit config)
        (Other "version 1 transaction config must set computeUnitLimit") in
      Ok {| d_unit_limit := Some unit_limit;
            d_unit_price := v1_price unit_limit <$> priority_fee config;
            d_loaded_limit := loaded_accounts_data_size config;
            instruction_indexes := [] |}
  | Legacy b | MessageV0 b _ => declare_loop b 0 (instructions b) no_budget
  end.

(** * What a declared budget is *)

(** The ComputeBudget operations of a message, decoded, in order. *)
Definition budget_ops (b : MessageBody) (ixs : list CompiledInstruction) : list (option ComputeBudgetOp) :=
  decode_compute_budget_op <$> filter (fun ix => is_compute_budget b ix = true) ixs.

Definition limits_of (ops : list (option ComputeBudgetOp)) : list Z :=
  omap (fun op => match op with Some (UnitLimit u) => Some u | _ => None end) ops.
Definition prices_of (ops : list (option ComputeBudgetOp)) : list Z :=
  omap (fun op => match op with Some (UnitPrice p) => Some p | _ => None end) ops.
Definition loaded_of (ops : list (option ComputeBudgetOp)) : list Z :=
  omap (fun op => match op with Some (LoadedAccountsDataSizeLimit n) => Some n | _ => None end) ops.

(** The positions of the ComputeBudget instructions, counted from [i]. *)
Fixpoint budget_positions (b : MessageBody) (i : nat) (ixs : list CompiledInstruction) : list nat :=
  match ixs with
  | [] => []
  | ix :: ixs =>
      (if is_compute_budget b ix then [i] else []) ++ budget_positions b (S i) ixs
  end.

(** Every operation is known and none is repeated. *)
Definition declarable (ops : list (option ComputeBudgetOp)) : Prop :=
  Forall is_Some ops /\ (length (limits_of ops) <= 1)%nat /\ (length (prices_of ops) <= 1)%nat /\
  (length (loaded_of ops) <= 1)%nat.

Lemma declare_loop_iff b i ixs d0 d :
  let ops := budget_ops b ixs in
  let limits := option_list (d_unit_limit d0) ++ limits_of ops in
  let prices := option_list (d_unit_price d0) ++ prices_of ops in
  let loaded := option_list (d_loaded_limit d0) ++ loaded_of ops in
  declare_loop b i ixs d0 = Ok d <->
  (Forall is_Some ops /\ (length limits <= 1)%nat /\ (length prices <= 1)%nat /\
   (length loaded <= 1)%nat) /\
  d = {| d_unit_limit := head limits; d_unit_price := head prices; d_loaded_limit := head loaded;
         instruction_indexes := instruction_indexes d0 ++ budget_positions b i ixs |}.
Proof.
  unfold budget_ops. revert i d0. induction ixs as [|ix ixs IH]; intros i d0.
  - simpl. rewrite !app_nil_r. destruct d0 as [[l|] [p|] [n|] ix]; simpl; split;
      first [intros [= <-]; split; [split_and!; [constructor|lia..]|done]|intros [_ ->]; done].
  - cbn [declare_loop budget_positions]. rewrite filter_cons. destruct (is_compute_budget b ix) eqn:Hix.
    2:{ simpl. rewrite IH. done. }
    simpl. destruct (decode_compute_budget_op ix) as [[u|p|n]|] eqn:Hop; simpl.
    4:{ split; [done|]. intros ([Hall _] & _). apply Forall_cons_1 in Hall as [[? ?] _]. done. }
    all: rewrite Forall_cons.
    + destruct d0 as [[l0|] p0 n0 is0]; simpl in *; [split; [done|]; intros ((_ & ? & _) & _); lia|].
      rewrite IH. simpl. rewrite <-app_assoc. naive_solver.
    + destruct d0 as [l0 [p0|] n0 is0]; simpl in *; [split; [done|]; intros ((_ & _ & ? & _) & _); lia|].
      rewrite IH. simpl. rewrite <-app_assoc. naive_solver.
    + destruct d0 as [l0 p0 [n0|] is0]; simpl in *; [split; [done|]; intros ((_ & _ & _ & ?) & _); lia|].
      rewrite IH. simpl. rewrite <-app_assoc. naive_solver.
Qed.

Lemma declared_v0_iff m d :
  version_of m = V0 ->
  let ops := budget_ops (body m) (instructions (body m)) in
  declared m = Ok d <->
  declarable ops /\
  d = {| d_unit_limit := head (limits_of ops); d_unit_price := head (prices_of ops);
         d_loaded_limit := head (loaded_of ops);
         instruction_indexes := budget_positions (body m) 0 (instructions (body m)) |}.
Proof. destruct m as [b|b ls|b c]; [..|done]; intros _; apply declare_loop_iff. Qed.

(** * Encoding a budget and reading it back *)

Lemma decode_unit_limit p units :
  in_u32 units -> decode_compute_budget_op
    {| program_id_index := p; accounts := []; data := ix_data (unit_limit_instruction units) |} =
  Some (UnitLimit units).
Proof.
  intros Hu. unfold decode_compute_budget_op. cbn [data ix_data unit_limit_instruction].
  rewrite decide_True by (split; [done|apply length_le_bytes]). by rewrite from_le_u32.
Qed.

Lemma decode_unit_price p price :
  in_u64 price -> decode_compute_budget_op
    {| program_id_index := p; accounts := []; data := ix_data (unit_price_instruction price) |} =
  Some (UnitPrice price).
Proof.
  intros Hu. unfold decode_compute_budget_op. cbn [data ix_data unit_price_instruction].
  rewrite decide_False by (intros [Ht _]; discriminate Ht).
  rewrite decide_True by (split; [done|apply length_le_bytes]). by rewrite from_le_u64.
Qed.

Lemma div_ceil_bounds a b : 0 < b -> a <= b * div_ceil a b /\ b * div_ceil a b < a + b.
Proof.
  intros Hb. unfold div_ceil. pose proof (Z.mul_div_le (a + b - 1) b Hb).
  pose proof (Z.mul_succ_div_gt (a + b - 1) b Hb). lia.
Qed.

Lemma div_ceil_le a b c : 0 < b -> div_ceil a b <= c <-> a <= b * c.
Proof. intros Hb. pose proof (div_ceil_bounds a b Hb). nia. Qed.

(** A version-0 message that leads with the compiled instructions of a budget. *)
Definition encodes_v0 (m : VersionedMessage) (budget : ComputeBudget) : Prop :=
  exists p rest,
    version_of m = V0 /\ static_account_keys (body m) !! p = Some COMPUTE_BUDGET_PROGRAM_ID /\
    instructions (body m) =
      ((fun ix => {| program_id_index := p; accounts := []; data := ix_data ix |}) <$>
         budget_instructions budget) ++ rest /\
    Forall (fun ix => is_compute_budget (body m) ix = false) rest.

(** A version-1 message with the header of a budget. *)
Definition encodes_v1 (m : VersionedMessage) (budget : ComputeBudget) : Prop :=
  exists b, m = MessageV1 b (v1_config budget) /\
    Forall (fun ix => is_compute_budget b ix = false) (instructions b).

Lemma positions_none b i ixs :
  Forall (fun ix => is_compute_budget b ix = false) ixs -> budget_positions b i ixs = [].
Proof.
  intros Hall. revert i. induction Hall as [|ix ixs Hix _ IH]; intros i; simpl; [done|].
  by rewrite Hix, IH.
Qed.

Lemma ops_none b ixs :
  Forall (fun ix => is_compute_budget b ix = false) ixs -> budget_ops b ixs = [].
Proof.
  unfold budget_ops. induction 1 as [|ix ixs Hix _ IH]; [done|]. by rewrite filter_cons, Hix.
Qed.

Lemma encodes_v0_declared m budget :
  in_u32 (unit_limit budget) -> in_u64 (unit_price_micro_lamports budget) -> encodes_v0 m budget ->
  declared m = Ok {| d_unit_limit := Some (unit_limit budget);
                     d_unit_price := Some (unit_price_micro_lamports budget);
                     d_loaded_limit := None; instruction_indexes := [0%nat; 1%nat] |}.
Proof.
  intros Hl Hp (p & rest & Hv & Hkey & Hixs & Hrest). apply declared_v0_iff; [done|].
  rewrite Hixs. unfold budget_ops. cbn [fmap list_fmap budget_instructions app].
  assert (Hcb : forall d, is_compute_budget (body m)
    {| program_id_index := p; accounts := []; data := d |} = true).
  { intros d. unfold is_compute_budget. simpl. rewrite Hkey. by rewrite bool_decide_true. }
  rewrite !filter_cons, !Hcb. simpl budget_positions. rewrite !Hcb, (positions_none _ _ _ Hrest).
  rewrite !decide_True by done. cbn [fmap list_fmap].
  rewrite decode_unit_limit, decode_unit_price by done.
  change (decode_compute_budget_op <$> filter _ rest) with (budget_ops (body m) rest).
  rewrite (ops_none _ _ Hrest). split; [|done].
  split_and!; [repeat constructor; by eexists|simpl; lia..].
Qed.

Lemma encodes_v1_declared m budget :
  encodes_v1 m budget ->
  declared m = Ok {| d_unit_limit := Some (unit_limit budget);
                     d_unit_price := Some (v1_price (unit_limit budget) (priority_fee_lamports budget));
                     d_loaded_limit := Some (loaded_accounts_data_size_limit budget);
                     instruction_indexes := [] |}.
Proof.
  intros (b & -> & Hixs). simpl.
  destruct (existsb (is_compute_budget b) (instructions b)) eqn:He; [|done].
  apply existsb_exists in He as (ix & Hin%list_elem_of_In & Hcb).
  rewrite Forall_forall in Hixs. by rewrite Hixs in Hcb.
Qed.

Lemma v1_price_no_lower budget :
  in_u32 (unit_limit budget) -> in_u64 (unit_price_micro_lamports budget) ->
  unit_limit budget * unit_price_micro_lamports budget <= u64_max * 1000000 ->
  unit_price_micro_lamports budget <= v1_price (unit_limit budget) (priority_fee_lamports budget) /\
  priority_fee_lamports budget * 1000000 <
    unit_limit budget * unit_price_micro_lamports budget + 1000000.
Proof.
  intros Hl Hp Hfit. unfold v1_price, priority_fee_lamports.
  set (l := unit_limit budget) in *. set (p := unit_price_micro_lamports budget) in *.
  pose proof (div_ceil_bounds (l * p) 1000000 ltac:(lia)) as [Hlo Hhi].
  assert (Hfee : div_ceil (l * p) 1000000 <= u64_max) by (apply div_ceil_le; lia).
  rewrite (Z.min_l (div_ceil (l * p) 1000000)) by exact Hfee. split; [|lia].
  destruct (decide (l = 0)) as [Hz|Hz]; [zlia|].
  apply Z.min_glb; [|zlia].
  pose proof (div_ceil_bounds (div_ceil (l * p) 1000000 * 1000000) l ltac:(zlia)) as [Hlo' _].
  assert (l * p <= l * div_ceil (div_ceil (l * p) 1000000 * 1000000) l) by lia.
  apply (Z.mul_le_mono_pos_l _ _ l); [zlia|lia].
Qed.

(** A budget read back from either encoding is never more lenient than the
    budget encoded: version 0 declares the limit and price exactly, version 1
    the limit exactly and a price at least as high, from a total fee less than
    one lamport above limit times price. *)
Theorem budget_roundtrip m budget d :
  in_u32 (unit_limit budget) -> in_u64 (unit_price_micro_lamports budget) ->
  unit_limit budget * unit_price_micro_lamports budget <= u64_max * 1000000 ->
  encodes_v0 m budget \/ encodes_v1 m budget ->
  declared m = Ok d ->
  d_unit_limit d = Some (unit_limit budget) /\
  exists price, d_unit_price d = Some price /\ unit_price_micro_lamports budget <= price /\
    (version_of m = V0 -> price = unit_price_micro_lamports budget) /\
    priority_fee_lamports budget * 1000000 <
      unit_limit budget * unit_price_micro_lamports budget + 1000000.
Proof.
  intros Hl Hp Hfit Hm Hd. destruct (v1_price_no_lower budget Hl Hp Hfit) as [Hle Hfee].
  destruct Hm as [Hm|Hm].
  - rewrite (encodes_v0_declared _ _ Hl Hp Hm) in Hd. injection Hd as <-. split; [done|].
    eexists. split_and!; [done|lia|done|done].
  - rewrite (encodes_v1_declared _ _ Hm) in Hd. injection Hd as <-. split; [done|].
    eexists. split_and!; [done|done| |done]. by destruct Hm as (b & -> & _).
Qed.

(** * A concrete message *)
Module TxDemo.
Definition budget : ComputeBudget := new_budget 150000 20001.
Definition compiled (ix : Instruction) : CompiledInstruction :=
  {| program_id_index := 1; accounts := []; data := ix_data ix |}.
Definition transfer : CompiledInstruction :=
  {| program_id_index := 2; accounts := [0%nat]; data := [Byte.x09] |}.
Definition v0_body : MessageBody := {|
  num_required_signatures := 1;
  num_readonly_signed_accounts := 0;
  num_readonly_unsigned_accounts := 2;
  static_account_keys := ["payer"; COMPUTE_BUDGET_PROGRAM_ID; "program"];
  instructions := (compiled <$> budget_instructions budget) ++ [transfer];
  recent_blockhash := [];
|}.
Definition sponsored : VersionedMessage := MessageV0 v0_body [].
End TxDemo.

Lemma budget_roundtrip_witness :
  exists price, d_unit_price {| d_unit_limit := Some 150000; d_unit_price := Some 20001;
      d_loaded_limit := None; instruction_indexes := [0%nat; 1%nat] |} = Some price /\ 20001 <= price.
Proof.
  destruct (budget_roundtrip TxDemo.sponsored TxDemo.budget
    {| d_unit_limit := Some 150000; d_unit_price := Some 20001; d_loaded_limit := None;
       instruction_indexes := [0%nat; 1%nat] |}) as (_ & price & Hp & Hle & _).
  - vm_compute. split; discriminate.
  - vm_compute. split; discriminate.
  - vm_compute. discriminate.
  - left. exists 1%nat, [TxDemo.transfer]. split_and!; [reflexivity|reflexivity|reflexivity|].
    apply Forall_cons_2; [reflexivity|apply Forall_nil_2].
  - vm_compute. reflexivity.
  - exists price. split; [exact Hp|exact Hle].
Defined.
