(* ===== verification/Build.v ===== *)
(** Building transactions (src/rust/crates/kit/src/core/tx/build.rs) and their
    canonical wire form (core/tx/wire.rs). Message compilation ([solana_message])
    and the byte encoding ([wincode]) are parameters. *)
From stdpp Require Import base numbers option list strings pretty sets.
From S2P Require Import Prelude Bytes Voucher Tx.

Record VersionedTransaction := {
  signatures : list (list byte);
  message : VersionedMessage;
}.

(** [Signature::default()]. *)
Definition default_signature : list byte := replicate 64 Byte.x00.

Class Codec := {
  compile_v0 : Pubkey -> list Instruction -> list byte -> result MessageBody string;
  compile_v1 : Pubkey -> list Instruction -> list byte -> TransactionConfig -> result MessageBody string;
  wincode_serialize : VersionedTransaction -> result (list byte) string;
  wincode_deserialize : list byte -> result VersionedTransaction string;
  b64_encode : list byte -> string;
  b64_decode : string -> result (list byte) string;
}.

(** What the encoders promise: a decoded transaction re-encodes, base64 reads
    back, and an encoded transaction decodes to itself. *)
Class CodecLaws `{Codec} := {
  deserialize_serialize tx bytes :
    wincode_serialize tx = Ok bytes -> wincode_deserialize bytes = Ok tx;
  b64_decode_encode bytes : b64_decode (b64_encode bytes) = Ok bytes;
}.

Section build.
Context `{V1Format} `{Codec}.

(** ** The wire form *)

Definition serialize (tx : VersionedTransaction) : result (list byte) Error :=
  rmap_err (fun e => SerializationError ("transaction serialization failed: " +:+ e))
    (wincode_serialize tx).

Definition serialized_size (tx : VersionedTransaction) : result nat Error :=
  rmap length (serialize tx).

Definition encode (tx : VersionedTransaction) : result string Error := rmap b64_encode (serialize tx).

Definition decode_bytes (bytes : list byte) : result VersionedTransaction Error :=
  let? tx := rmap_err (fun e => Other ("invalid transaction: " +:+ e)) (wincode_deserialize bytes) in
  let? again := serialize tx in
  if decide (again <> bytes)
  then Err (Other "invalid transaction: non-canonical encoding or trailing bytes") else Ok tx.

Definition decode (b64 : string) : result VersionedTransaction Error :=
  let? bytes := rmap_err (fun e => Other ("invalid base64 transaction: " +:+ e)) (b64_decode b64) in
  decode_bytes bytes.

(** ** Limits *)

Definition over_limit (version : TxVersion) (count : nat) (what : string) (max : nat) : Error :=
  Other ("version " +:+ version_text version +:+ " transaction has " +:+ pretty count +:+ what
    +:+ ", over the limit of " +:+ pretty max).

Definition check_limits (tx : VersionedTransaction) (version : TxVersion) : result nat Error :=
  let limits := limits version in
  let? size := serialized_size tx in
  if decide (max_bytes limits < size)%nat
  then Err (Other ("version " +:+ version_text version +:+ " transaction is " +:+ pretty size
    +:+ " bytes, over the " +:+ pretty (max_bytes limits) +:+ "-byte limit")) else
  let b := body (message tx) in
  let accounts := length (static_account_keys b) in
  if decide (max_static_accounts limits < accounts)%nat
  then Err (over_limit version accounts " accounts" (max_static_accounts limits)) else
  let? _ := match max_instructions limits with
            | Some max => if decide (max < length (instructions b))%nat
                          then Err (over_limit version (length (instructions b)) " instructions" max)
                          else Ok tt
            | None => Ok tt
            end in
  let? _ := match max_signatures limits with
            | Some max => if decide (max < num_required_signatures b)%nat
                          then Err (over_limit version (num_required_signatures b) " signatures" max)
                          else Ok tt
            | None => Ok tt
            end in
  Ok size.

(** ** Building *)

Definition build_unsigned_unchecked (version : TxVersion) (fee_payer : Pubkey)
    (ixs : list Instruction) (blockhash : list byte) (budget : option ComputeBudget) :
    result VersionedTransaction Error :=
  let? message :=
    match version with
    | V0 =>
        let with_budget := match budget with
                           | Some budget => budget_instructions budget ++ ixs
                           | None => ixs
                           end in
        rmap (fun b => MessageV0 b [])
          (rmap_err (fun e => Other ("failed to compile v0 message: " +:+ e))
            (compile_v0 fee_payer with_budget blockhash))
    | V1 =>
        let config := v1_config (default (runtime_default (length ixs)) budget) in
        rmap (fun b => MessageV1 b config)
          (rmap_err (fun e => Other ("failed to compile v1 message: " +:+ e))
            (compile_v1 fee_payer ixs blockhash config))
    end in
  Ok {| signatures := replicate (num_required_signatures (body message)) default_signature;
        message := message |}.

Definition build_unsigned (version : TxVersion) (fee_payer : Pubkey) (ixs : list Instruction)
    (blockhash : list byte) (budget : option ComputeBudget) : result VersionedTransaction Error :=
  let? tx := build_unsigned_unchecked version fee_payer ixs blockhash budget in
  let? _ := check_limits tx version in
  Ok tx.

Definition measure (version : TxVersion) (fee_payer : Pubkey) (ixs : list Instruction)
    (budget : option ComputeBudget) : result nat Error :=
  let? probe := build_unsigned_unchecked version fee_payer ixs (replicate 32 Byte.x00) budget in
  serialized_size probe.

(** [versions.sort(); versions.dedup()] *)
Definition sort_dedup (versions : list TxVersion) : list TxVersion :=
  (if decide (V0 ∈ versions) then [V0] else []) ++ (if decide (V1 ∈ versions) then [V1] else []).

Fixpoint try_versions (versions : list TxVersion) (fee_payer : Pubkey) (ixs : list Instruction)
    (blockhash : list byte) (budget : option ComputeBudget) (last : Error) :
    result VersionedTransaction Error :=
  match versions with
  | [] => Err last
  | version :: versions =>
      match build_unsigned version fee_payer ixs blockhash budget with
      | Ok tx => Ok tx
      | Err error => try_versions versions fee_payer ixs blockhash budget error
      end
  end.

Definition build_unsigned_fitting (accepted : list TxVersion) (fee_payer : Pubkey)
    (ixs : list Instruction) (blockhash : list byte) (budget : option ComputeBudget) :
    result VersionedTransaction Error :=
  try_versions (sort_dedup accepted) fee_payer ixs blockhash budget
    (Other "no transaction version accepted").

(** ** What they give *)

(** The transaction is within every limit of the version. *)
Definition within_limits (tx : VersionedTransaction) (version : TxVersion) : Prop :=
  let limits := limits version in
  let b := body (message tx) in
  (exists bytes, wincode_serialize tx = Ok bytes /\ (length bytes <= max_bytes limits)%nat) /\
  (length (static_account_keys b) <= max_static_accounts limits)%nat /\
  (forall max, max_instructions limits = Some max -> (length (instructions b) <= max)%nat) /\
  (forall max, max_signatures limits = Some max -> (num_required_signatures b <= max)%nat).

Lemma check_limits_iff tx version size :
  check_limits tx version = Ok size <->
  within_limits tx version /\ rmap length (wincode_serialize tx) = Ok size.
Proof.
  unfold check_limits, within_limits, serialized_size, serialize.
  destruct (wincode_serialize tx) as [bytes|e]; simpl.
  2:{ split; [done|]. intros [[(? & ? & ?) _] _]. done. }
  destruct (decide (max_bytes (limits version) < length bytes)%nat).
  { split; [done|]. intros [[(? & [= <-] & ?) _] _]. lia. }
  destruct (decide (max_static_accounts _ < _)%nat).
  { split; [done|]. intros [(_ & ? & _) _]. lia. }
  destruct (max_instructions (limits version)) as [mi|]; simpl;
    [destruct (decide (mi < length (instructions (body (message tx))))%nat); simpl|];
    try (split; [done|]; intros [(_ & _ & Hi & _) _]; specialize (Hi _ eq_refl); lia);
    (destruct (max_signatures (limits version)) as [ms|]; simpl;
      [destruct (decide (ms < num_required_signatures (body (message tx)))%nat); simpl|]);
    try (split; [done|]; intros [(_ & _ & _ & Hi) _]; specialize (Hi _ eq_refl); lia).
  all: split; [intros [= <-]|intros [_ [= <-]]; done].
  all: split; [|done]; split_and!; [exists bytes; split; [done|lia]|lia|..].
  all: intros max [= <-] || intros max [=]; lia.
Qed.

Lemma build_unsigned_ok version fee_payer ixs blockhash budget tx :
  build_unsigned version fee_payer ixs blockhash budget = Ok tx <->
  build_unsigned_unchecked version fee_payer ixs blockhash budget = Ok tx /\ within_limits tx version.
Proof.
  unfold build_unsigned. rewrite rbind_ok. split.
  - intros (tx' & Htx & (size & Hs & [= ->])%rbind_ok). by apply check_limits_iff in Hs as [? _].
  - intros [Htx Hw]. exists tx. split; [done|]. apply rbind_ok.
    destruct Hw as [(bytes & Hb & Hlen) Hw]. exists (length bytes). split; [|done].
    apply check_limits_iff. rewrite Hb. split; [|done]. split; [by exists bytes|done].
Qed.

Lemma try_versions_ok versions fee_payer ixs blockhash budget last tx :
  try_versions versions fee_payer ixs blockhash budget last = Ok tx <->
  exists before version after, versions = before ++ version :: after /\
    build_unsigned version fee_payer ixs blockhash budget = Ok tx /\
    Forall (fun v => is_ok (build_unsigned v fee_payer ixs blockhash budget) = false) before.
Proof.
  revert last. induction versions as [|v versions IH]; intros last; simpl.
  { split; [done|]. by intros ([|] & ? & ? & ? & _). }
  destruct (build_unsigned v fee_payer ixs blockhash budget) as [tx'|e] eqn:Hv.
  - split.
    + intros [= ->]. exists [], v, versions. split_and!; [done|done|constructor].
    + intros ([|v' before] & version & after & Heq & Hb & Hf); simplify_eq/=; [congruence|].
      apply Forall_cons in Hf as [Hf _]. by rewrite Hv in Hf.
  - rewrite IH. split.
    + intros (before & version & after & -> & Hb & Hf). exists (v :: before), version, after.
      split_and!; [done|done|]. constructor; [by rewrite Hv|done].
    + intros ([|v' before] & version & after & Heq & Hb & Hf); simplify_eq/=; [congruence|].
      apply Forall_cons in Hf as [_ Hf]. by exists before, version, after.
Qed.

(** A transaction built for a counterparty has the lowest version it accepts
    whose limits the transaction fits, and is within every one of them; none is
    built when no accepted version fits. *)
Theorem fitting_lowest accepted fee_payer ixs blockhash budget tx :
  build_unsigned_fitting accepted fee_payer ixs blockhash budget = Ok tx <->
  exists version, version ∈ accepted /\
    build_unsigned_unchecked version fee_payer ixs blockhash budget = Ok tx /\
    within_limits tx version /\
    forall v tx', v ∈ accepted -> ~ version_le version v ->
      build_unsigned_unchecked v fee_payer ixs blockhash budget = Ok tx' -> ~ within_limits tx' v.
Proof.
  unfold build_unsigned_fitting. rewrite try_versions_ok.
  assert (Hno : forall v, is_ok (build_unsigned v fee_payer ixs blockhash budget) = false <->
    forall tx', build_unsigned_unchecked v fee_payer ixs blockhash budget = Ok tx' ->
    ~ within_limits tx' v).
  { intros v. split.
    - intros Hf tx' Htx Hw. by rewrite (proj2 (build_unsigned_ok _ _ _ _ _ tx')) in Hf.
    - intros Hall. destruct (build_unsigned v _ _ _ _) as [tx'|e] eqn:Hb; [|done].
      apply build_unsigned_ok in Hb as [Hb Hw]. by destruct (Hall tx'). }
  unfold sort_dedup. split.
  - intros (before & version & after & Hsplit & [Hb Hw]%build_unsigned_ok & Hf). exists version.
    assert (Hin : version ∈ sort_dedup accepted) by (unfold sort_dedup; rewrite Hsplit; set_solver).
    split_and!; [unfold sort_dedup in Hin; repeat case_decide; set_solver|done|done|].
    intros v tx' Hv Hlt Htx. apply (Hno v); [|done]. rewrite Forall_forall in Hf. apply Hf.
    destruct v, version; try (exfalso; apply Hlt; unfold version_le; simpl; lia).
    rewrite decide_True in Hsplit by done. destruct before as [|v' before]; simplify_eq/=; set_solver.
  - intros (version & Hin & Hb & Hw & Hlow). destruct version.
    + exists [], V0, (if decide (V1 ∈ accepted) then [V1] else []). rewrite decide_True by done.
      split_and!; [done| |constructor]. by apply build_unsigned_ok.
    + exists (if decide (V0 ∈ accepted) then [V0] else []), V1, [].
      rewrite (decide_True (P := V1 ∈ accepted)) by done. split_and!; [done|by apply build_unsigned_ok|].
      case_decide; constructor; [|constructor]. apply Hno. intros tx' Htx. apply Hlow; [done| |done].
      unfold version_le. simpl. lia.
Qed.

Lemma decode_encode_wire `{!CodecLaws} tx b64 : encode tx = Ok b64 -> decode b64 = Ok tx.
Proof.
  unfold encode, decode, decode_bytes, serialize. destruct (wincode_serialize tx) as [bytes|] eqn:Hs; [|done].
  simpl. intros [= <-]. rewrite b64_decode_encode. simpl.
  rewrite (deserialize_serialize _ _ Hs). simpl. rewrite Hs. simpl. by rewrite decide_False by auto.
Qed.
End build.

(** * A concrete compiler and encoder *)
Module CodecDemo.
#[global] Instance v1_format : V1Format :=
  {| MAX_TRANSACTION_SIZE := 4096; MAX_ADDRESSES := 64; MAX_INSTRUCTIONS := 64; MAX_SIGNATURES := 12 |}.

Definition compile (payer : Pubkey) (ixs : list Instruction) (blockhash : list byte) : MessageBody := {|
  num_required_signatures := 1;
  num_readonly_signed_accounts := 0;
  num_readonly_unsigned_accounts := length ixs;
  static_account_keys := payer :: (program_id <$> ixs);
  instructions := imap (fun i ix => {| program_id_index := S i; accounts := []; data := ix_data ix |}) ixs;
  recent_blockhash := blockhash;
|}.

#[global] Instance codec : Codec := {
  compile_v0 payer ixs blockhash := Ok (compile payer ixs blockhash);
  compile_v1 payer ixs blockhash _ := Ok (compile payer ixs blockhash);
  wincode_serialize tx :=
    Ok (mjoin (signatures tx) ++ mjoin (data <$> instructions (body (message tx))));
  wincode_deserialize _ := Err "unsupported";
  b64_encode _ := "";
  b64_decode _ := Err "unsupported";
}.
End CodecDemo.
