(* ===== verification/Policy.v ===== *)
(** Envelope and budget policy of verifiers
    (src/rust/crates/kit/src/core/tx/policy.rs): which versions are accepted and
    built, what a sponsor co-signs and what it may cost. *)
From stdpp Require Import base numbers option list strings pretty sets.
From S2P Require Import Prelude Bytes Voucher Tx Build.

(** * Versions *)

Definition TX_V1_FEATURE_GATE : Pubkey := "txv1aq4pp281K9um3tnPgkfX8UqtFT6wcVW3hNezGLL".
Definition FEATURE_PROGRAM_ID : Pubkey := "Feature111111111111111111111111111111111111".

Inductive TxV1Mode := Auto | On | Off.

Record Account := { acc_owner : Pubkey; acc_data : list byte }.

(** [get_account] answers the gate's account, or an error. *)
Definition tx_v1_active (get_account : Pubkey -> result Account string) : bool :=
  match get_account TX_V1_FEATURE_GATE with
  | Ok account => bool_decide (acc_owner account = FEATURE_PROGRAM_ID) &&
                  bool_decide (head (acc_data account) = Some Byte.x01)
  | Err _ => false
  end.

Definition resolve (mode : TxV1Mode) (get_account : Pubkey -> result Account string) : list TxVersion :=
  match mode with
  | Off => [V0]
  | On => [V0; V1]
  | Auto => if tx_v1_active get_account then [V0; V1] else [V0]
  end.

Definition version_max (v w : TxVersion) : TxVersion :=
  match v, w with V0, V0 => V0 | _, _ => V1 end.

(** [Iterator::max]. *)
Definition max_version (versions : list TxVersion) : option TxVersion :=
  match versions with [] => None | v :: versions => Some (foldl version_max v versions) end.

Definition highest (accepted : list TxVersion) : TxVersion := default V0 (max_version accepted).

Fixpoint join (sep : string) (l : list string) : string :=
  match l with [] => "" | [s] => s | s :: l => s +:+ sep +:+ join sep l end.
Definition versions_text (versions : list TxVersion) : string := join ", " (version_text <$> versions).

(** [max_signable.is_none_or(|max| v <= max)] *)
Definition signable (max_signable : option TxVersion) (v : TxVersion) : bool :=
  match max_signable with None => true | Some max => bool_decide (version_le v max) end.

Definition negotiate (advertised : option (list TxVersion)) (max_signable : option TxVersion) :
    result TxVersion Error :=
  let accepted := accepted_versions advertised in
  if decide (accepted = []) then
    Err (Other "the counterparty advertises no transaction version (transactionVersions is empty)")
  else
    ok_or (max_version (filter (fun v => signable max_signable v = true) accepted))
      (Other ("the server accepts transaction versions [" +:+ versions_text accepted
        +:+ "] but the signer signs up to version " +:+ default "" (version_text <$> max_signable))).

Definition advertised (accepted : list TxVersion) : option (list TxVersion) :=
  if decide (accepted = DEFAULT_ACCEPTED_VERSIONS) then None else Some accepted.

(** * Budget caps *)

Inductive LoadedDataLimitRule := Maximum | Present.

Definition check_unit_limit (limit : option Z) (max_unit_limit : Z) : result unit Error :=
  match limit with
  | Some limit =>
      if decide (limit = 0) then Err (Other "compute unit limit must be positive") else
      if decide (max_unit_limit < limit)
      then Err (Other ("compute unit limit " +:+ pretty limit +:+ " exceeds maximum "
        +:+ pretty max_unit_limit))
      else Ok tt
  | None => Ok tt
  end.

Definition check_unit_price (price : option Z) (max_unit_price : Z) : result unit Error :=
  match price with
  | Some price =>
      if decide (max_unit_price < price)
      then Err (Other ("compute unit price " +:+ pretty price +:+ " exceeds maximum "
        +:+ pretty max_unit_price))
      else Ok tt
  | None => Ok tt
  end.

Definition loaded_accepted (rule : LoadedDataLimitRule) (loaded_limit : option Z) : bool :=
  match rule with
  | Maximum => bool_decide (loaded_limit = Some MAX_LOADED_ACCOUNTS_DATA_SIZE_BYTES)
  | Present => match loaded_limit with
               | Some limit => bool_decide (0 < limit) &&
                               bool_decide (limit <= MAX_LOADED_ACCOUNTS_DATA_SIZE_BYTES)
               | None => false
               end
  end.

Definition err_loaded (rule : LoadedDataLimitRule) : Error :=
  match rule with
  | Maximum => Other ("version 1 loaded accounts data size limit must be "
      +:+ pretty MAX_LOADED_ACCOUNTS_DATA_SIZE_BYTES)
  | Present => Other ("version 1 loaded accounts data size limit must be present, nonzero and at most "
      +:+ pretty MAX_LOADED_ACCOUNTS_DATA_SIZE_BYTES)
  end.

Definition check_v1_budget_caps_with (message : VersionedMessage) (max_unit_limit max_unit_price : Z)
    (loaded : LoadedDataLimitRule) : result (option DeclaredBudget) Error :=
  if decide (version_of message <> V1) then Ok None else
  let? declared := declared message in
  let? _ := check_unit_limit (d_unit_limit declared) max_unit_limit in
  let? _ := check_unit_price (d_unit_price declared) max_unit_price in
  if loaded_accepted loaded (d_loaded_limit declared) then Ok (Some declared)
  else Err (err_loaded loaded).

Definition check_v1_budget_caps (message : VersionedMessage) (max_unit_limit max_unit_price : Z) :
    result (option DeclaredBudget) Error :=
  check_v1_budget_caps_with message max_unit_limit max_unit_price Maximum.

Definition reject_v1_heap_request (message : VersionedMessage) : result unit Error :=
  match message with
  | MessageV1 _ config =>
      match heap_size config with
      | Some _ => Err (Other "version 1 transaction config must not request a heap size")
      | None => Ok tt
      end
  | _ => Ok tt
  end.

(** The instructions that are not ComputeBudget's, as [check_v0_budget_caps] and
    [check_priority_fee] count them. *)
Definition budgeted (b : MessageBody) (declared : DeclaredBudget) : nat :=
  length (instructions b) - length (instruction_indexes declared).

Definition has_accounts (b : MessageBody) (index : nat) : bool :=
  match instructions b !! index with Some ix => negb (bool_decide (accounts ix = [])) | None => false end.

Definition check_v0_budget_caps (message : VersionedMessage) (max_unit_limit max_unit_price : Z) :
    result (option DeclaredBudget) Error :=
  if decide (version_of message <> V0) then Ok None else
  let? declared := declared message in
  if existsb (has_accounts (body message)) (instruction_indexes declared)
  then Err (Other "ComputeBudget instructions must not have accounts") else
  if decide (is_Some (d_loaded_limit declared))
  then Err (Other "SetLoadedAccountsDataSizeLimit is not supported") else
  let? _ := check_unit_limit (d_unit_limit declared) max_unit_limit in
  let? _ := check_unit_price (d_unit_price declared) max_unit_price in
  let? _ :=
    match d_unit_price declared with
    | Some price =>
        if decide (0 < price /\ d_unit_limit declared = None) then
          let implicit := unit_limit (runtime_default (budgeted (body message) declared)) in
          if decide (max_unit_limit < implicit)
          then Err (Other ("implicit compute unit limit " +:+ pretty implicit +:+ " exceeds maximum "
            +:+ pretty max_unit_limit +:+ "; declare SetComputeUnitLimit"))
          else Ok tt
        else Ok tt
    | None => Ok tt
    end in
  Ok (Some declared).

Definition MAX_SPONSORED_PRIORITY_FEE_LAMPORTS : Z := 2000.

(** The fee the message makes its payer pay. *)
Definition priority_fee_of (message : VersionedMessage) (declared : DeclaredBudget) : Z :=
  match message with
  | MessageV1 _ config => default 0 (priority_fee config)
  | _ =>
      let price := default 0 (d_unit_price declared) in
      let limit := default (unit_limit (runtime_default (budgeted (body message) declared)))
        (d_unit_limit declared) in
      priority_fee_lamports (new_budget limit price)
  end.

Definition check_priority_fee (message : VersionedMessage) (max_lamports : Z) : result Z Error :=
  let? declared := declared message in
  let fee := priority_fee_of message declared in
  if decide (max_lamports < fee)
  then Err (Other ("priority fee " +:+ pretty fee +:+ " lamports exceeds the sponsored maximum "
    +:+ pretty max_lamports))
  else Ok fee.

Definition require_budget_prefix (message : VersionedMessage) (declared : DeclaredBudget) :
    result unit Error :=
  if existsb (fun '(position, index) => negb (Nat.eqb position index))
       (imap (fun position index => (position, index)) (instruction_indexes declared))
  then Err (Other "ComputeBudget instructions must lead the transaction") else
  if decide (is_Some (d_unit_limit declared) /\ is_Some (d_unit_price declared)) then
    match head (instructions (body message)) ≫= decode_compute_budget_op with
    | Some (UnitLimit _) => Ok tt
    | _ => Err (Other "SetComputeUnitLimit must precede SetComputeUnitPrice")
    end
  else Ok tt.

(** * The envelope *)

Definition require_static_accounts (message : VersionedMessage) : result unit Error :=
  match message with
  | MessageV0 _ (_ :: _) =>
      Err (Other "transactions with address lookup tables are not supported")
  | _ => Ok tt
  end.

Definition err_not_accepted (version : string) (accepted : list TxVersion) : Error :=
  Other (version +:+ " is not accepted; accepted versions: " +:+ versions_text accepted).
Definition err_version (version : TxVersion) (accepted : list TxVersion) : Error :=
  err_not_accepted ("transaction version " +:+ version_text version) accepted.
Definition err_legacy (accepted : list TxVersion) : Error :=
  err_not_accepted "legacy transaction version" accepted.

Section envelope.
Context `{V1Format} `{Codec}.
(** [Signature::verify] and the bytes it signs. *)
Context (message_serialize : VersionedMessage -> list byte).
Context (signature_verify : list byte -> Pubkey -> list byte -> bool).

Definition check_envelope (tx : VersionedTransaction) (accepted : list TxVersion) :
    result TxVersion Error :=
  let version := version_of (message tx) in
  if decide (version ∉ accepted) then Err (err_version version accepted) else
  let? _ := require_static_accounts (message tx) in
  let? _ := check_limits tx version in
  Ok version.

Definition refuse_legacy (m : VersionedMessage) (accepted : list TxVersion) : result unit Error :=
  match m with Legacy _ => Err (err_legacy accepted) | _ => Ok tt end.

Definition check_envelope_without_legacy (tx : VersionedTransaction) (accepted : list TxVersion) :
    result TxVersion Error :=
  let? _ := refuse_legacy (message tx) accepted in check_envelope tx accepted.

(** One turn of the loop of [require_presigned]. *)
Definition presigned_slot (message : list byte) (server_fee_payer : option Pubkey) (index : nat)
    (slot : list byte * Pubkey) : result unit Error :=
  let '(signature, key) := slot in
  if decide (server_fee_payer = Some key) then
    if decide (index <> 0%nat \/ signature <> default_signature)
    then Err (Other "fee-payer signature slot must be empty before server co-signing")
    else Ok tt
  else if signature_verify signature key message then Ok tt
  else Err (Other ("invalid client transaction signature for required signer " +:+ key)).

Fixpoint presigned_loop (message : list byte) (server_fee_payer : option Pubkey) (index : nat)
    (slots : list (list byte * Pubkey)) : result unit Error :=
  match slots with
  | [] => Ok tt
  | slot :: slots =>
      let? _ := presigned_slot message server_fee_payer index slot in
      presigned_loop message server_fee_payer (S index) slots
  end.

Definition require_presigned (tx : VersionedTransaction) (server_fee_payer : option Pubkey) :
    result unit Error :=
  let required := num_required_signatures (body (message tx)) in
  let keys := static_account_keys (body (message tx)) in
  if decide (length (signatures tx) <> required \/ (length keys < required)%nat)
  then Err (Other "transaction signature slots do not match its required signers") else
  presigned_loop (message_serialize (message tx)) server_fee_payer 0 (zip (signatures tx) keys).

(** A version the RPC reports. *)
Inductive TransactionVersion := ReportedLegacy | Number (n : Z).

Definition check_reported_version (reported : option TransactionVersion) (accepted : list TxVersion) :
    result TxVersion Error :=
  let? version := match reported with
                  | Some (Number n) => rmap_err Other (version_of_u8 n)
                  | Some ReportedLegacy => Ok V0
                  | None => Err (Other "RPC did not report the transaction version")
                  end in
  if decide (version ∉ accepted) then Err (err_version version accepted) else Ok version.

Definition check_reported_version_without_legacy (reported : option TransactionVersion)
    (accepted : list TxVersion) : result TxVersion Error :=
  match reported with
  | Some ReportedLegacy => Err (err_legacy accepted)
  | _ => check_reported_version reported accepted
  end.
End envelope.

(** * Versions, verified *)

Lemma version_max_le v w u : version_le (version_max v w) u <-> version_le v u /\ version_le w u.
Proof. unfold version_le. destruct v, w, u; simpl; lia. Qed.

Lemma version_max_in v w (l : list TxVersion) : v ∈ l -> w ∈ l -> version_max v w ∈ l.
Proof. by destruct v, w. Qed.

Lemma max_version_spec l v :
  max_version l = Some v <-> v ∈ l /\ forall w, w ∈ l -> version_le w v.
Proof.
  destruct l as [|u l]; simpl.
  { split; [done|]. intros [Hin _]. by apply not_elem_of_nil in Hin. }
  assert (Hle : forall w, version_le (foldl version_max u l) w <-> forall x, x ∈ u :: l -> version_le x w).
  { revert u. induction l as [|x l IH]; intros u w; simpl; [set_solver|].
    rewrite IH. split.
    - intros Hall y [->|[->|Hy]%elem_of_cons]%elem_of_cons.
      1,2: by apply (version_max_le u x w), Hall, elem_of_cons; left.
      apply Hall. set_solver.
    - intros Hall y [->|Hy]%elem_of_cons; [apply version_max_le; split; apply Hall; set_solver|].
      apply Hall. set_solver. }
  assert (Hin : foldl version_max u l ∈ u :: l).
  { clear Hle. revert u. induction l as [|x l IH]; intros u; simpl; [set_solver|].
    specialize (IH (version_max u x)). apply elem_of_cons in IH as [->|IH]; [|set_solver].
    apply version_max_in; set_solver. }
  split.
  - intros [= <-]. split; [done|]. apply (proj1 (Hle _)), Z.le_refl.
  - intros [Hv Hmax]. f_equal. assert (version_le (foldl version_max u l) v) by (by apply Hle).
    pose proof (proj1 (Hle (foldl version_max u l)) (Z.le_refl _) v Hv) as Hvl.
    unfold version_le in *. destruct (foldl version_max u l), v; simpl in *; done || lia.
Qed.

(** A client builds the highest version that the server accepts (version 0
    when it advertises none at all, nothing when it advertises an empty list)
    and its signer signs, and fails exactly when there is none. *)
Theorem negotiate_spec adv max v :
  negotiate adv max = Ok v <->
  v ∈ accepted_versions adv /\ signable max v = true /\
  forall w, w ∈ accepted_versions adv -> signable max w = true -> version_le w v.
Proof.
  unfold negotiate. case_decide as Hnil.
  { rewrite Hnil. split; [done|]. intros [Hin _]. by apply not_elem_of_nil in Hin. }
  destruct (max_version _) as [u|] eqn:Hm; simpl.
  - apply max_version_spec in Hm as [[Hs Hin]%list_elem_of_filter Hmax].
    setoid_rewrite list_elem_of_filter in Hmax. split.
    + intros [= <-]. eauto.
    + intros (Hv & Hsv & Hmaxv). f_equal.
      pose proof (Hmax v (conj Hsv Hv)). pose proof (Hmaxv u Hin Hs).
      unfold version_le in *. destruct u, v; simpl in *; done || lia.
  - split; [done|]. intros (Hv & Hs & _). exfalso.
    destruct (filter (fun v => signable max v = true) (accepted_versions adv)) as [|x l] eqn:Hf; [|done].
    assert (v ∈ filter (fun v => signable max v = true) (accepted_versions adv))
      as Hin by (by apply list_elem_of_filter).
    rewrite Hf in Hin. by apply not_elem_of_nil in Hin.
Qed.

(** * What a sponsor pays *)

(** The instructions the runtime budgets by default. *)
Definition unbudgeted (b : MessageBody) : nat :=
  length (filter (fun ix => is_compute_budget b ix = false) (instructions b)).

Abbreviation ops_of m := (budget_ops (body m) (instructions (body m))).

(** The limit, the price and the fee the runtime gives the message. *)
Definition runtime_limit (m : VersionedMessage) : Z :=
  match m with
  | MessageV1 _ config => default 0 (compute_unit_limit config)
  | _ => default (Z.min (200000 * Z.of_nat (unbudgeted (body m))) 1400000) (head (limits_of (ops_of m)))
  end.
Definition runtime_price (m : VersionedMessage) : Z := default 0 (head (prices_of (ops_of m))).
Definition runtime_fee (m : VersionedMessage) : Z :=
  match m with
  | MessageV1 _ config => default 0 (priority_fee config)
  | _ => priority_fee_lamports (new_budget (runtime_limit m) (runtime_price m))
  end.

Lemma budgeted_unbudgeted b ixs i :
  (length ixs - length (budget_positions b i ixs) =
   length (filter (fun ix => is_compute_budget b ix = false) ixs))%nat /\
  (length (budget_positions b i ixs) <= length ixs)%nat.
Proof.
  revert i. induction ixs as [|ix ixs IH]; intros i; simpl; [done|]. rewrite filter_cons.
  destruct (IH (S i)) as [IH1 IH2]. destruct (is_compute_budget b ix); simpl; lia.
Qed.

Lemma runtime_default_limit n : unit_limit (runtime_default n) = Z.min (200000 * Z.of_nat n) 1400000.
Proof. unfold runtime_default. simpl. case_decide; unfold u64_max in *; lia. Qed.

Lemma budgeted_limit m d :
  version_of m = V0 -> declared m = Ok d ->
  unit_limit (runtime_default (budgeted (body m) d)) =
  Z.min (200000 * Z.of_nat (unbudgeted (body m))) 1400000.
Proof.
  intros Hv Hd. apply declared_v0_iff in Hd as [_ ->]; [|done]. rewrite runtime_default_limit.
  unfold budgeted, unbudgeted. simpl.
  by destruct (budgeted_unbudgeted (body m) (instructions (body m)) 0) as [-> _].
Qed.

Lemma priority_fee_of_runtime m d : declared m = Ok d -> priority_fee_of m d = runtime_fee m.
Proof.
  intros Hd. destruct m as [b|b ls|b c]; [| |done].
  all: unfold priority_fee_of, runtime_fee, runtime_limit, runtime_price;
    rewrite (budgeted_limit _ d) by done; apply declared_v0_iff in Hd as [_ ->]; done.
Qed.

Lemma check_unit_limit_ok limit max :
  check_unit_limit limit max = Ok tt <-> forall l, limit = Some l -> l <> 0 /\ l <= max.
Proof.
  unfold check_unit_limit. destruct limit as [l|]; [|naive_solver].
  repeat case_decide; split; try done; naive_solver lia.
Qed.

Lemma check_unit_price_ok price max :
  check_unit_price price max = Ok tt <-> forall p, price = Some p -> p <= max.
Proof.
  unfold check_unit_price. destruct price as [p|]; [|naive_solver]. case_decide; split; try done.
  - intros Hall. specialize (Hall p eq_refl). lia.
  - intros _ q [= <-]. lia.
Qed.

Lemma check_v0_caps_ok m max_limit max_price d :
  check_v0_budget_caps m max_limit max_price = Ok (Some d) ->
  version_of m = V0 /\ declared m = Ok d /\ d_loaded_limit d = None /\
  (forall l, d_unit_limit d = Some l -> l <> 0 /\ l <= max_limit) /\
  (forall p, d_unit_price d = Some p -> p <= max_price) /\
  (forall p, d_unit_price d = Some p -> 0 < p -> d_unit_limit d = None ->
    unit_limit (runtime_default (budgeted (body m) d)) <= max_limit) /\
  Forall (fun i => has_accounts (body m) i = false) (instruction_indexes d).
Proof.
  unfold check_v0_budget_caps. case_decide as Hv; [done|]. intros (d' & Hd & Hrest)%rbind_ok.
  destruct (existsb _ _) eqn:Hacc; [done|]. case_decide as Hl; [done|].
  apply rbind_ok in Hrest as ([] & Hlim & Hrest). rewrite check_unit_limit_ok in Hlim.
  apply rbind_ok in Hrest as ([] & Hpr & Hrest). rewrite check_unit_price_ok in Hpr.
  apply rbind_ok in Hrest as ([] & Himp & [= ->]). split_and!; try done.
  - destruct (d_loaded_limit d); [|done]. by destruct Hl.
  - intros p Hp Hpos Hnone. rewrite Hp in Himp. rewrite decide_True in Himp by done.
    case_decide; [done|lia].
  - apply Forall_forall. intros i Hi%list_elem_of_In.
    destruct (has_accounts (body m) i) eqn:Hh; [|done].
    assert (existsb (has_accounts (body m)) (instruction_indexes d) = true); [|congruence].
    apply existsb_exists. eauto.
Qed.

(** C32. What a sponsor co-signs: once the budget caps and the fee check pass,
    the fee the runtime charges for the message is the fee returned and at most
    the sponsored maximum; a version-0 message carries no unknown, repeated or
    loaded-data operation, its price is at most the cap, and its compute limit,
    declared or implied, is at most the cap whenever it is priced. *)
Theorem sponsor_bound m max_limit max_price max_lamports d fee :
  check_v0_budget_caps m max_limit max_price = Ok (Some d) ->
  check_priority_fee m max_lamports = Ok fee ->
  fee = runtime_fee m /\ runtime_fee m <= max_lamports /\
  declarable (ops_of m) /\ loaded_of (ops_of m) = [] /\
  runtime_price m <= Z.max 0 max_price /\
  (0 < runtime_price m \/ limits_of (ops_of m) <> [] -> runtime_limit m <= max_limit).
Proof.
  intros (Hv & Hd & Hload & Hlim & Hprice & Himp & _)%check_v0_caps_ok Hfee.
  unfold check_priority_fee in Hfee. rewrite Hd in Hfee. simpl in Hfee.
  rewrite (priority_fee_of_runtime _ _ Hd) in Hfee. case_decide; [done|]. injection Hfee as <-.
  pose proof (budgeted_limit _ _ Hv Hd) as Hbl.
  apply declared_v0_iff in Hd as [Hdecl Hd]; [|done].
  assert (Hlimit : runtime_limit m = default (Z.min (200000 * Z.of_nat (unbudgeted (body m))) 1400000)
    (head (limits_of (ops_of m)))) by (by destruct m).
  rewrite Hbl in Himp. rewrite Hd in Hload, Hlim, Hprice, Himp. simpl in *. unfold runtime_price.
  split_and!; [done|lia|done| | |].
  - by destruct (loaded_of (ops_of m)).
  - destruct (prices_of (ops_of m)) as [|p ps]; simpl; [lia|]. specialize (Hprice p eq_refl). lia.
  - rewrite Hlimit. destruct (limits_of (ops_of m)) as [|l ls]; simpl in *.
    + intros [Hpos|]; [|done]. destruct (prices_of (ops_of m)) as [|p ps]; simpl in *; [lia|].
      by apply (Himp p).
    + intros _. by apply (Hlim l).
Qed.

(** * What a sponsor signs *)

Section envelope_version.
Context `{V1Format} `{Codec}.

Lemma envelope_version tx accepted version :
  check_envelope tx accepted = Ok version -> version_of (message tx) ∈ accepted.
Proof.
  unfold check_envelope. cbn. case_decide as Hv; [done|]. intros _.
  by destruct (decide (version_of (message tx) ∈ accepted)).
Qed.

Lemma envelope_without_legacy_version tx accepted version :
  check_envelope_without_legacy tx accepted = Ok version -> version_of (message tx) ∈ accepted.
Proof. by intros ([] & _ & Hv%envelope_version)%rbind_ok. Qed.
End envelope_version.

Section presigned.
Context (message_serialize : VersionedMessage -> list byte).
Context (signature_verify : list byte -> Pubkey -> list byte -> bool).

(** A signature slot as a co-signing server accepts it. *)
Definition slot_ok (m : list byte) (server : option Pubkey) (i : nat) (sig : list byte) (key : Pubkey) : Prop :=
  if decide (server = Some key) then i = 0%nat /\ sig = default_signature
  else signature_verify sig key m = true.

Lemma presigned_slot_ok m server i sig key :
  presigned_slot signature_verify m server i (sig, key) = Ok tt <-> slot_ok m server i sig key.
Proof.
  unfold presigned_slot, slot_ok. case_decide; [case_decide as Hs|destruct (signature_verify _ _ _)].
  - split; [done|]. intros [-> ->]. by destruct Hs.
  - split; [|done]. intros _. destruct (decide (i = 0%nat)), (decide (sig = default_signature)); tauto.
  - done.
  - done.
Qed.

Lemma presigned_loop_ok m server i slots :
  presigned_loop signature_verify m server i slots = Ok tt <->
  forall j sig key, slots !! j = Some (sig, key) -> slot_ok m server (i + j) sig key.
Proof.
  revert i. induction slots as [|[sig key] slots IH]; intros i; cbn [presigned_loop].
  { split; [|done]. intros _ j sig key. by rewrite lookup_nil. }
  rewrite rbind_ok. split.
  - intros ([] & Hs & Hl) [|j] sig' key' Hj; simplify_eq/=.
    + rewrite Nat.add_0_r. by apply presigned_slot_ok.
    + rewrite <-Nat.add_succ_comm. by apply IH.
  - intros Hall. exists tt. split.
    + apply presigned_slot_ok. rewrite <-(Nat.add_0_r i). by apply (Hall 0%nat).
    + apply IH. intros j sig' key' Hj. rewrite Nat.add_succ_comm. by apply (Hall (S j)).
Qed.

(** Every required signature but the server's own, whose slot is the first and
    empty, verifies over the message. *)
Definition client_signed (tx : VersionedTransaction) (server : option Pubkey) : Prop :=
  length (signatures tx) = num_required_signatures (body (message tx)) /\
  (num_required_signatures (body (message tx)) <= length (static_account_keys (body (message tx))))%nat /\
  forall i sig key, signatures tx !! i = Some sig ->
    static_account_keys (body (message tx)) !! i = Some key ->
    slot_ok (message_serialize (message tx)) server i sig key.

(** A server co-signs only when every other required signer has signed
    exactly this message and its own slot, if it is a signer, is the first one
    and empty; nothing else is accepted or refused. *)
Lemma presigned_iff tx server :
  require_presigned message_serialize signature_verify tx server = Ok tt <-> client_signed tx server.
Proof.
  unfold require_presigned, client_signed. case_decide as Hlen.
  { split; [done|]. intros (? & ? & _). lia. }
  rewrite presigned_loop_ok. simpl. split.
  - intros Hall. split_and!; [lia|lia|]. intros i sig key Hsig Hkey. apply Hall.
    apply lookup_zip_Some. done.
  - intros (_ & _ & Hall) i sig key [Hsig Hkey]%lookup_zip_Some. by apply Hall.
Qed.
End presigned.

(** ** Witness *)

Lemma sponsor_bound_witness :
  3001 = runtime_fee TxDemo.sponsored /\ runtime_fee TxDemo.sponsored <= 5000.
Proof.
  destruct (sponsor_bound TxDemo.sponsored 200000 50000 5000
    {| d_unit_limit := Some 150000; d_unit_price := Some 20001; d_loaded_limit := None;
       instruction_indexes := [0%nat; 1%nat] |} 3001) as (Hfee & Hle & _).
  - vm_compute. reflexivity.
  - vm_compute. reflexivity.
  - split; [exact Hfee|exact Hle].
Defined.

(** The server's key need not be a signer at all. *)
Example absent_server :
  require_presigned (fun _ => []) (fun _ _ _ => true)
    {| signatures := [[Byte.x01]];
       message := MessageV0 {| num_required_signatures := 1; num_readonly_signed_accounts := 0;
                               num_readonly_unsigned_accounts := 0; static_account_keys := ["client"];
                               instructions := []; recent_blockhash := [] |} [] |}
    (Some "server") = Ok tt.
Proof. vm_compute. reflexivity. Qed.
