(* ===== verification/Settlement.v ===== *)
(** Batched settlement (src/rust/crates/kit/src/core/settlement/packing.rs and
    worker.rs): greedy packing, the worker's batches, and what each submitter is
    answered. *)
From stdpp Require Import base numbers option list strings pretty sets.
From S2P Require Import Prelude Effects Bytes Voucher Tx Build.

(** * Packing *)
Section packing.
Context `{V1Format} `{Codec}.

Definition fits_tx (version : TxVersion) (ixs : list Instruction) (payer : Pubkey)
    (budget : option ComputeBudget) : bool :=
  is_ok (let? tx := build_unsigned_unchecked version payer ixs (replicate 32 Byte.x00) budget in
         check_limits tx version).

Definition would_overflow_tx (version : TxVersion) (cur : list Instruction) (cur_group_count : nat)
    (next : list Instruction) (payer : Pubkey) (budget : option ComputeBudget)
    (max_groups_per_tx : nat) : bool :=
  if decide (Nat.max max_groups_per_tx 1 <= cur_group_count)%nat then true
  else negb (fits_tx version (cur ++ next) payer budget).

(** [pack] and the worker's [regroup] are the same loop over items with
    instructions. *)
Context {Item : Type} (ixs_of : Item -> list Instruction).
Context (version : TxVersion) (payer : Pubkey) (budget : option ComputeBudget) (max_groups : nat).

Definition flatten (items : list Item) : list Instruction := mjoin (ixs_of <$> items).

Fixpoint pack_loop (out : list (list Item)) (cur : list Item) (items : list Item) : list (list Item) :=
  match items with
  | [] => match cur with [] => out | _ => out ++ [cur] end
  | item :: items =>
      if negb (bool_decide (cur = [])) &&
         would_overflow_tx version (flatten cur) (length cur) (ixs_of item) payer budget max_groups
      then pack_loop (out ++ [cur]) [item] items
      else pack_loop out (cur ++ [item]) items
  end.

(** A batch that may be sent: within the cap, and fitting unless it is one
    item. *)
Definition sendable (b : list Item) : Prop :=
  b <> [] /\ (length b <= Nat.max max_groups 1)%nat /\
  (length b = 1%nat \/ fits_tx version (flatten b) payer budget = true).

(** Each batch was closed because the next item did not fit it. *)
Definition greedy (out : list (list Item)) : Prop :=
  forall i b x rest, out !! i = Some b -> out !! S i = Some (x :: rest) ->
  would_overflow_tx version (flatten b) (length b) (ixs_of x) payer budget max_groups = true.

(** The batches so far, with the one being filled. *)
Definition with_cur (out : list (list Item)) (cur : list Item) : list (list Item) :=
  match cur with [] => out | _ => out ++ [cur] end.

Lemma flatten_snoc cur item : flatten (cur ++ [item]) = flatten cur ++ ixs_of item.
Proof. unfold flatten. rewrite fmap_app, join_app. simpl. by rewrite app_nil_r. Qed.

Lemma sendable_snoc cur item :
  sendable cur ->
  would_overflow_tx version (flatten cur) (length cur) (ixs_of item) payer budget max_groups = false ->
  sendable (cur ++ [item]).
Proof.
  unfold would_overflow_tx. intros (Hne & Hlen & _). case_decide as Hc; [done|].
  intros Hf%negb_false_iff. split_and!; [by destruct cur|rewrite length_app; simpl; lia|].
  right. by rewrite flatten_snoc.
Qed.

Lemma lookup_last {A} (l : list A) x : (l ++ [x]) !! length l = Some x.
Proof. by apply list_lookup_middle. Qed.

Lemma greedy_extend out cur item :
  greedy (out ++ [cur]) -> cur <> [] -> greedy (out ++ [cur ++ [item]]).
Proof.
  intros Hg Hne i b x rest Hb Hx.
  assert (Hlt : (S i < length (out ++ [cur ++ [item]]))%nat) by (by eapply lookup_lt_Some).
  rewrite length_app in Hlt. simpl in Hlt.
  rewrite lookup_app_l in Hb by lia.
  destruct (decide (S i = length out)) as [Hi|Hi].
  - rewrite Hi, lookup_last in Hx. destruct cur as [|y cur]; [done|]. simplify_eq/=.
    apply (Hg i b x cur); [by rewrite lookup_app_l by lia|]. by rewrite Hi, lookup_last.
  - rewrite lookup_app_l in Hx by lia.
    apply (Hg i b x rest); by rewrite lookup_app_l by lia.
Qed.

Lemma greedy_close out cur item :
  greedy (out ++ [cur]) ->
  would_overflow_tx version (flatten cur) (length cur) (ixs_of item) payer budget max_groups = true ->
  greedy ((out ++ [cur]) ++ [[item]]).
Proof.
  intros Hg Ho i b x rest Hb Hx.
  assert (Hlt : (S i < length ((out ++ [cur]) ++ [[item]]))%nat) by (by eapply lookup_lt_Some).
  rewrite !length_app in Hlt. simpl in Hlt.
  rewrite lookup_app_l in Hb by (rewrite length_app; simpl; lia).
  destruct (decide (S i = length (out ++ [cur]))) as [Hi|Hi].
  - rewrite Hi, lookup_last in Hx. simplify_eq. rewrite length_app in Hi. simpl in Hi.
    replace i with (length out) in Hb by lia. rewrite lookup_last in Hb. by simplify_eq.
  - rewrite length_app in Hi. simpl in Hi.
    rewrite lookup_app_l in Hx by (rewrite length_app; simpl; lia). by apply (Hg i b x rest).
Qed.

Lemma pack_loop_spec out cur items :
  cur <> [] -> Forall sendable (out ++ [cur]) -> greedy (out ++ [cur]) ->
  let packed := pack_loop out cur items in
  mjoin packed = mjoin out ++ cur ++ items /\ Forall sendable packed /\ greedy packed.
Proof.
  revert out cur. induction items as [|item items IH]; intros out cur Hne Hs Hg; cbn [pack_loop].
  - destruct cur as [|x cur]; [done|]. rewrite join_app. simpl. by rewrite !app_nil_r.
  - rewrite bool_decide_false by done. simpl.
    destruct (would_overflow_tx _ _ _ _ _ _ _) eqn:Ho.
    + destruct (IH (out ++ [cur]) [item]) as (Hj & Hrest); [done| |by apply greedy_close|].
      { apply Forall_app_2; [done|]. apply Forall_singleton. split_and!; [done|simpl; lia|by left]. }
      split; [|done]. rewrite Hj, join_app. simpl. by rewrite app_nil_r, <-!app_assoc.
    + apply Forall_app in Hs as [Hs Hcur]. apply Forall_cons in Hcur as [Hcur _].
      destruct (IH out (cur ++ [item])) as (Hj & Hrest); [by destruct cur| |by apply greedy_extend|].
      { apply Forall_app_2; [done|]. apply Forall_singleton, sendable_snoc; [exact Hcur|exact Ho]. }
      split; [|done]. by rewrite Hj, <-!app_assoc.
Qed.

Lemma packed_spec items :
  mjoin (pack_loop [] [] items) = items /\ Forall sendable (pack_loop [] [] items) /\
  greedy (pack_loop [] [] items).
Proof.
  destruct items as [|item items]; [by split_and!|]. simpl.
  destruct (pack_loop_spec [] [item] items) as (Hj & ?); [done| | |by rewrite Hj].
  - apply Forall_singleton. split_and!; [done|simpl; lia|by left].
  - intros [|i] b x rest; simpl; done.
Qed.
End packing.

(** One channel operation's instructions. *)
Record ChannelInstructionGroup := {
  group_channel : string;
  group_instructions : list Instruction;
}.

Section pack.
Context `{V1Format} `{Codec}.

Definition pack (version : TxVersion) (channels : list ChannelInstructionGroup) (payer : Pubkey)
    (budget : option ComputeBudget) (max_groups_per_tx : nat) : list (list ChannelInstructionGroup) :=
  pack_loop group_instructions version payer budget max_groups_per_tx [] [] channels.

(** Packing loses, repeats and reorders nothing; every batch is within the
    group cap and, unless it is a single group, within every wire limit; and it
    is greedy: each batch was closed because the next group did not fit it. *)
Theorem pack_spec version channels payer budget max :
  let batches := pack version channels payer budget max in
  mjoin batches = channels /\
  Forall (sendable group_instructions version payer budget max) batches /\
  greedy group_instructions version payer budget max batches.
Proof. apply packed_spec. Qed.
End pack.

(** * The worker *)

(** [reply] names the submitter's oneshot channel. *)
Record SettlementUnit := {
  unit_channel : string;
  unit_instructions : list Instruction;
  reply : nat;
  await_confirmation : bool;
}.

Record SettlementConfig := {
  operator : Pubkey;
  max_voucher_settlements_per_tx : nat;
  linger : Z;
  confirm_attempts : nat;
  tx_version : TxVersion;
  compute_budget : option ComputeBudget;
}.

(** ** The actor: what is received and when is what it flushes *)

Inductive event :=
| Received (u : SettlementUnit) (now : Z)
| TimerFired
| HandlesDropped.

Record worker := {
  pending : list SettlementUnit;
  deadline : option Z;
}.

(** The size trigger drains full batches; [fuel] is the number of pending units,
    as each batch takes at least one. *)
Fixpoint drain_full (fuel max_per_tx : nat) (pending : list SettlementUnit) :
    list (list SettlementUnit) * list SettlementUnit :=
  match fuel with
  | O => ([], pending)
  | S fuel =>
      if decide (max_per_tx <= length pending)%nat then
        let '(batches, rest) := drain_full fuel max_per_tx (drop max_per_tx pending) in
        (take max_per_tx pending :: batches, rest)
      else ([], pending)
  end.

Definition flush (pending : list SettlementUnit) : list (list SettlementUnit) :=
  match pending with [] => [] | _ => [pending] end.

(** One turn of the loop: the new state, or [None] when it breaks, and the
    batches it spawns a flush for. The timer branch needs a deadline. *)
Definition worker_turn (cfg : SettlementConfig) (e : event) (w : worker) :
    option worker * list (list SettlementUnit) :=
  match e with
  | Received u now =>
      let pending := pending w ++ [u] in
      let deadline := match deadline w with None => Some (now + linger cfg) | Some d => Some d end in
      let '(batches, pending) :=
        drain_full (length pending) (Nat.max (max_voucher_settlements_per_tx cfg) 1) pending in
      (Some {| pending := pending;
               deadline := match pending with [] => None | _ => deadline end |}, batches)
  | HandlesDropped => (None, flush (pending w))
  | TimerFired =>
      match deadline w with
      | None => (Some w, [])
      | Some _ => (Some {| pending := []; deadline := None |}, flush (pending w))
      end
  end.

Fixpoint worker_loop (cfg : SettlementConfig) (events : list event) (w : worker) :
    option worker * list (list SettlementUnit) :=
  match events with
  | [] => (Some w, [])
  | e :: events =>
      let '(w', batches) := worker_turn cfg e w in
      match w' with
      | None => (None, batches)
      | Some w' => let '(w'', more) := worker_loop cfg events w' in (w'', batches ++ more)
      end
  end.

Definition idle : worker := {| pending := []; deadline := None |}.

(** ** One flush *)

Inductive ConfirmOutcome := Confirmed | Pending | Failed (error : string).

Inductive ConfirmFailure := OnChain (message : string) | Unconfirmed (message : string).
Definition into_message (f : ConfirmFailure) : string :=
  match f with OnChain m | Unconfirmed m => m end.

Abbreviation SettlementResult := (result string string).

(** What the worker asks of the broadcaster and the operator's signer, and its
    replies. *)
Inductive broadcastE : Type -> Type :=
| LatestBlockhash : broadcastE (result (list byte) string)
| SignTransaction (tx : VersionedTransaction) : broadcastE (result VersionedTransaction string)
| Send (tx : VersionedTransaction) : broadcastE (result string string)
| Confirm (sig : string) : broadcastE (result ConfirmOutcome string)
| Reply (to : nat) (r : SettlementResult) : broadcastE unit.

Abbreviation broadcast := (prog broadcastE).

Definition error_text (e : Error) : string :=
  match e with SerializationError m => "serialization error: " +:+ m | Other m => m end.

Section flush.
Context `{V1Format} `{Codec}.
Context (cfg : SettlementConfig).

Definition sign_and_send (ixs : list Instruction) : broadcast SettlementResult :=
  await? blockhash := perform LatestBlockhash in
  match build_unsigned (tx_version cfg) (operator cfg) ixs blockhash (compute_budget cfg) with
  | Err e => Ret (Err ("settle build failed: " +:+ error_text e))
  | Ok tx =>
      await signed := perform (SignTransaction tx) in
      match signed with
      | Err e => Ret (Err ("settle signing failed: " +:+ e))
      | Ok tx => perform (Send tx)
      end
  end.

Fixpoint confirm_settlement (sig : string) (attempts : nat) : broadcast (result string ConfirmFailure) :=
  match attempts with
  | O => Ret (Err (Unconfirmed ("settlement " +:+ sig +:+ " was not confirmed in its window")))
  | S attempts =>
      await outcome := perform (Confirm sig) in
      match outcome with
      | Ok Confirmed => Ret (Ok sig)
      | Ok (Failed err) => Ret (Err (OnChain ("settlement " +:+ sig +:+ " failed on-chain: " +:+ err)))
      | Ok Pending | Err _ => confirm_settlement sig attempts
      end
  end.

Definition settle_alone (ixs : list Instruction) : broadcast SettlementResult :=
  await? sig := sign_and_send ixs in
  await outcome := confirm_settlement sig (confirm_attempts cfg) in
  Ret (rmap_err into_message outcome).

Fixpoint reply_all (r : SettlementResult) (units : list SettlementUnit) : broadcast unit :=
  match units with
  | [] => Ret tt
  | u :: units => await _ := perform (Reply (reply u) r) in reply_all r units
  end.

Fixpoint settle_each (units : list SettlementUnit) : broadcast unit :=
  match units with
  | [] => Ret tt
  | u :: units =>
      await outcome := settle_alone (unit_instructions u) in
      await _ := perform (Reply (reply u) outcome) in
      settle_each units
  end.

(** Re-sent without a reply: their submitters have been answered. *)
Fixpoint resend_each (units : list SettlementUnit) : broadcast unit :=
  match units with
  | [] => Ret tt
  | u :: units => await _ := settle_alone (unit_instructions u) in resend_each units
  end.

(** The background task of [settle_group] follows the replies. *)
Definition settle_group (group : list SettlementUnit) : broadcast unit :=
  await result := sign_and_send (flatten unit_instructions group) in
  let packed := bool_decide (1 < length group)%nat in
  let confirming := filter (fun u => await_confirmation u && is_ok result = true) group in
  let immediate := filter (fun u => await_confirmation u && is_ok result = false) group in
  let replied := if packed && is_ok result then immediate else [] in
  await _ := reply_all result immediate in
  match result with
  | Err _ => Ret tt
  | Ok sig =>
      await outcome := confirm_settlement sig (confirm_attempts cfg) in
      match outcome with
      | Err (OnChain error) =>
          if packed then await _ := settle_each confirming in resend_each replied
          else reply_all (Err error) confirming
      | _ => reply_all (rmap_err into_message outcome) confirming
      end
  end.

Definition regroup (units : list SettlementUnit) : list (list SettlementUnit) :=
  pack_loop unit_instructions (tx_version cfg) (operator cfg) (compute_budget cfg)
    (max_voucher_settlements_per_tx cfg) [] [] units.

Fixpoint settle_groups (groups : list (list SettlementUnit)) : broadcast unit :=
  match groups with
  | [] => Ret tt
  | group :: groups => await _ := settle_group group in settle_groups groups
  end.

Definition spawn_flush (units : list SettlementUnit) : broadcast unit := settle_groups (regroup units).
End flush.

(** * The worker loses no unit *)

(** The units received before the handles are dropped. *)
Fixpoint received (events : list event) : list SettlementUnit :=
  match events with
  | [] | HandlesDropped :: _ => []
  | Received u _ :: events => u :: received events
  | TimerFired :: events => received events
  end.

Section worker.
Context (cfg : SettlementConfig).
Abbreviation cap := (Nat.max (max_voucher_settlements_per_tx cfg) 1).

(** What waits is less than a batch, and a timer is armed for it. *)
Definition worker_ok (w : worker) : Prop :=
  (length (pending w) < cap)%nat /\ (pending w = [] <-> deadline w = None).

Definition batch_ok (b : list SettlementUnit) : Prop := b <> [] /\ (length b <= cap)%nat.

Lemma drain_full_spec fuel max units :
  (0 < max)%nat -> (length units <= fuel)%nat ->
  let '(batches, rest) := drain_full fuel max units in
  mjoin batches ++ rest = units /\ Forall (fun b => length b = max) batches /\
  (length rest < max)%nat.
Proof.
  intros Hmax. revert units. induction fuel as [|fuel IH]; intros units Hf; simpl.
  { destruct units; simpl in *; [|lia]. split_and!; [done|constructor|lia]. }
  case_decide as Hl; [|split_and!; [done|constructor|lia]].
  specialize (IH (drop max units)). rewrite length_drop in IH. specialize (IH ltac:(lia)).
  destruct (drain_full fuel max (drop max units)) as [batches rest]. destruct IH as (Hj & Hb & Hr).
  simpl. rewrite <-app_assoc, Hj, take_drop. split_and!; [done| |done].
  constructor; [|done]. rewrite length_take. lia.
Qed.

Lemma flush_ok (units : list SettlementUnit) :
  (length units < cap)%nat -> mjoin (flush units) = units /\ Forall batch_ok (flush units).
Proof.
  destruct units as [|u units]; simpl; [by split|]. intros Hl. rewrite app_nil_r. split; [done|].
  constructor; [|constructor]. split; [done|simpl; lia].
Qed.

Lemma worker_turn_ok e w :
  worker_ok w ->
  let '(w', batches) := worker_turn cfg e w in
  Forall batch_ok batches /\
  mjoin batches ++ (match w' with Some w' => pending w' | None => [] end) =
    pending w ++ (match e with Received u _ => [u] | _ => [] end) /\
  match e with HandlesDropped => w' = None | _ => exists w1, w' = Some w1 /\ worker_ok w1 end.
Proof.
  intros [Hl Hd]. destruct e as [u now| |]; simpl.
  - pose proof (drain_full_spec (length (pending w ++ [u])) cap (pending w ++ [u]) ltac:(lia)
      (le_n _)) as Hdr.
    destruct (drain_full _ _ _) as [batches rest]. destruct Hdr as (Hj & Hb & Hr).
    split_and!; [|done|].
    + eapply Forall_impl; [exact Hb|]. intros b Hbl. cbv beta in Hbl. split; [intros ->; cbn [length] in Hbl|]; lia.
    + eexists. split; [done|]. split; simpl; [done|]. destruct rest; [done|].
      destruct (deadline w); done.
  - destruct (deadline w) as [d|] eqn:Hdl; simpl.
    + destruct (flush_ok (pending w) Hl) as [Hj Hb]. rewrite Hj. split_and!; [done|done|].
      eexists. split; [done|]. split; simpl; [lia|done].
    + rewrite app_nil_r. split_and!; [constructor|done|]. exists w. split; [done|]. split; [done|].
      by rewrite Hdl.
  - destruct (flush_ok (pending w) Hl) as [Hj Hb]. by rewrite Hj.
Qed.

Lemma worker_loop_ok events w :
  worker_ok w ->
  let '(w', batches) := worker_loop cfg events w in
  Forall batch_ok batches /\
  mjoin batches ++ (match w' with Some w' => pending w' | None => [] end) = pending w ++ received events /\
  (forall w1, w' = Some w1 -> worker_ok w1).
Proof.
  revert w. induction events as [|e events IH]; intros w Hw; cbn [worker_loop].
  { simpl. rewrite app_nil_r. split_and!; [constructor|done|]. by intros w1 [= <-]. }
  pose proof (worker_turn_ok e w Hw) as Ht. destruct (worker_turn cfg e w) as [w' batches].
  destruct Ht as (Hb & Hj & Hw'). destruct e as [u now| |].
  3:{ subst w'. split_and!; [done|by rewrite Hj|done]. }
  all: destruct Hw' as (w1 & -> & Hw1); specialize (IH w1 Hw1).
  all: destruct (worker_loop cfg events w1) as [w2 more]; destruct IH as (Hb2 & Hj2 & Hw2).
  all: split_and!; [by apply Forall_app_2| |done].
  all: rewrite join_app, <-app_assoc, Hj2, app_assoc, Hj; simpl; by rewrite <-app_assoc.
Qed.

(** Whatever arrives and whenever the timer fires, the batches the worker
    flushes and what it still holds are exactly the units received, in order;
    no batch is empty or over the cap, what it holds is less than a batch and
    always has its timer armed, and nothing is held once the handles are
    dropped. *)
Theorem worker_flushes events :
  let '(w', batches) := worker_loop cfg events idle in
  mjoin batches ++ (match w' with Some w => pending w | None => [] end) = received events /\
  Forall batch_ok batches /\ (forall w, w' = Some w -> worker_ok w).
Proof.
  pose proof (worker_loop_ok events idle) as Hl.
  destruct (worker_loop cfg events idle) as [w' batches]. destruct Hl as (Hb & Hj & Hw); [|done].
  split; simpl; [lia|done].
Qed.
End worker.

(** * Every submitter is answered once *)

(** The log of a flush: the replies sent, and the signatures seen confirmed. *)
Inductive entry := Replied (to : nat) (r : SettlementResult) | SeenConfirmed (sig : string).

Definition log_of (X : Type) (e : broadcastE X) : X -> list entry :=
  match e in broadcastE X return X -> list entry with
  | Confirm sig => fun x => match x with Ok Confirmed => [SeenConfirmed sig] | _ => [] end
  | Reply to r => fun _ => [Replied to r]
  | _ => fun _ => []
  end.

Definition replies (l : list entry) : list (nat * SettlementResult) :=
  omap (fun e => match e with Replied to r => Some (to, r) | SeenConfirmed _ => None end) l.

(** An answer to [u]: a unit that awaits confirmation is told a signature only
    after that signature was seen confirmed. *)
Definition truthful (l : list entry) (u : SettlementUnit) (r : SettlementResult) : Prop :=
  await_confirmation u = true -> forall sig, r = Ok sig -> SeenConfirmed sig ∈ l.

Definition answered (l : list entry) (units : list SettlementUnit) : Prop :=
  exists answers, answers.*1 ≡ₚ units /\ Forall (fun '(u, r) => truthful l u r) answers /\
    replies l ≡ₚ (fun '(u, r) => (reply u, r)) <$> answers.

Section answers.
Context `{V1Format} `{Codec}.
Context (cfg : SettlementConfig).
Abbreviation runs := (traces log_of).

Lemma replies_app l k : replies (l ++ k) = replies l ++ replies k.
Proof. apply omap_app. Qed.

Lemma truthful_mono l k (answers : list (SettlementUnit * SettlementResult)) :
  l ⊆ k -> Forall (fun '(u, r) => truthful l u r) answers ->
  Forall (fun '(u, r) => truthful k u r) answers.
Proof.
  intros Hs Hall. eapply Forall_impl; [exact Hall|]. intros [u r] Ht Ha sig Hr. apply Hs. by apply Ht.
Qed.

Lemma answered_nil l : replies l = [] -> answered l [].
Proof. intros Hl. exists []. split_and!; [done|constructor|by rewrite Hl]. Qed.

Lemma answered_app l k us vs : answered l us -> answered k vs -> answered (l ++ k) (us ++ vs).
Proof.
  intros (a & Ha & Ht & Hr) (b & Hb & Ht' & Hr'). exists (a ++ b). split_and!.
  - by rewrite fmap_app, Ha, Hb.
  - apply Forall_app_2; (eapply truthful_mono; [|done]); set_solver.
  - by rewrite replies_app, fmap_app, Hr, Hr'.
Qed.

Lemma answered_perm l us vs : us ≡ₚ vs -> answered l us -> answered l vs.
Proof. intros Hp (a & Ha & ?). exists a. split; [by rewrite Ha|done]. Qed.

(** Silent runs, before and after. *)
Lemma answered_after l k us : replies l = [] -> answered k us -> answered (l ++ k) us.
Proof. intros Hl Hk. change us with ([] ++ us). apply answered_app; [by apply answered_nil|done]. Qed.

Lemma answered_before l k us : answered l us -> replies k = [] -> answered (l ++ k) us.
Proof. intros Hl Hk. rewrite <-(app_nil_r us). apply answered_app; [done|by apply answered_nil]. Qed.

Lemma sign_and_send_silent ixs l r : runs (sign_and_send cfg ixs) l r -> replies l = [].
Proof.
  unfold sign_and_send. rewrite traces_ptry.
  intros [(bh & l1 & l2 & -> & Hb & Hrest)|(e & _ & Hb)]; apply traces_perform in Hb; subst; [|done].
  simpl. destruct (build_unsigned _ _ _ _ _) as [tx|e]; [|by destruct Hrest as [-> _]].
  destruct Hrest as ([tx'|e] & l' & -> & Hrest); [|by destruct Hrest as [-> _]].
  apply traces_perform in Hrest as ->. done.
Qed.

Lemma confirm_settlement_runs sig n l r :
  runs (confirm_settlement sig n) l r ->
  replies l = [] /\ forall sig', r = Ok sig' -> sig' = sig /\ SeenConfirmed sig ∈ l.
Proof.
  revert l. induction n as [|n IH]; intros l; cbn [confirm_settlement].
  { intros [-> ->]. done. }
  intros ([[| |err]|e] & l' & -> & Hrest); simpl in *.
  - destruct Hrest as [-> ->]. split; [done|]. intros sig' [= <-]. set_solver.
  - by apply IH.
  - destruct Hrest as [-> ->]. done.
  - by apply IH.
Qed.

Lemma settle_alone_runs ixs l r :
  runs (settle_alone cfg ixs) l r ->
  replies l = [] /\ forall sig, r = Ok sig -> SeenConfirmed sig ∈ l.
Proof.
  unfold settle_alone. rewrite traces_ptry.
  intros [(sig & l1 & l2 & -> & Hs & Hrest)|(e & -> & Hs)]; apply sign_and_send_silent in Hs; [|done].
  apply traces_pbind in Hrest as (o & l3 & l4 & -> & Hc & [-> ->]).
  apply confirm_settlement_runs in Hc as [Hq Hok]. rewrite app_nil_r, replies_app, Hs, Hq.
  split; [done|]. intros sig' Heq%rmap_err_ok. destruct (Hok _ Heq) as [-> Hin]. set_solver.
Qed.

Lemma reply_all_runs r units l x :
  runs (reply_all r units) l x -> l = (fun u => Replied (reply u) r) <$> units.
Proof.
  revert l. induction units as [|u units IH]; intros l; simpl; [by intros [-> _]|].
  intros (_ & l' & -> & Hrest). simpl. f_equal. by apply IH.
Qed.

Lemma replies_reply_all r (units : list SettlementUnit) :
  replies ((fun u => Replied (reply u) r) <$> units) =
  (fun '(u, r) => (reply u, r)) <$> ((fun u => (u, r)) <$> units).
Proof. induction units as [|u units IH]; [done|]. csimpl. by rewrite IH. Qed.

Lemma reply_all_answered l r units x :
  runs (reply_all r units) l x -> (forall u, u ∈ units -> truthful l u r) -> answered l units.
Proof.
  intros Hr%reply_all_runs Ht. exists ((fun u => (u, r)) <$> units). split_and!.
  - rewrite <-list_fmap_compose. by rewrite list_fmap_id.
  - apply Forall_fmap, Forall_forall. intros u Hu. by apply Ht.
  - rewrite Hr. by rewrite replies_reply_all.
Qed.

Lemma settle_each_runs units l x : runs (settle_each cfg units) l x -> answered l units.
Proof.
  revert l. induction units as [|u units IH]; intros l; cbn [settle_each].
  { intros [-> _]. by apply answered_nil. }
  intros (r & l1 & l2 & -> & Ha & Hrest)%traces_pbind. destruct Hrest as (y & l3 & -> & Hrest).
  apply settle_alone_runs in Ha as [Hq Hok]. change (u :: units) with ([u] ++ units).
  simpl. change (Replied (reply u) r :: l3) with ([Replied (reply u) r] ++ l3).
  rewrite app_assoc.
  apply (answered_app (l1 ++ [Replied (reply u) r]) l3 [u] units); [|by apply IH].
  exists [(u, r)]. split_and!; [done| |by rewrite replies_app, Hq].
  apply Forall_singleton. intros _ sig Hr. specialize (Hok _ Hr). set_solver.
Qed.

Lemma resend_each_silent units l x : runs (resend_each cfg units) l x -> replies l = [].
Proof.
  revert l. induction units as [|u units IH]; intros l; cbn [resend_each].
  { by intros [-> _]. }
  intros (r & l1 & l2 & -> & Ha & Hrest)%traces_pbind. apply settle_alone_runs in Ha as [Hq _].
  by rewrite replies_app, Hq, (IH _ Hrest).
Qed.

Lemma split_units (f : SettlementUnit -> bool) units :
  filter (fun u => f u = false) units ++ filter (fun u => f u = true) units ≡ₚ units.
Proof.
  induction units as [|u units IH]; [done|]. rewrite !filter_cons. destruct (f u); simpl.
  - by rewrite <-Permutation_middle, IH.
  - by rewrite IH.
Qed.

Lemma settle_group_runs group l x : runs (settle_group cfg group) l x -> answered l group.
Proof.
  unfold settle_group. intros (res & l1 & l2 & -> & Hs & Hrest)%traces_pbind.
  apply sign_and_send_silent in Hs. apply answered_after; [done|].
  apply traces_pbind in Hrest as (? & l3 & l4 & -> & Hi & Hrest).
  eapply answered_perm; [apply (split_units (fun u => await_confirmation u && is_ok res))|].
  apply answered_app.
  - eapply reply_all_answered; [done|]. intros u [Hf _]%list_elem_of_filter Ha sig ->.
    by rewrite Ha in Hf.
  - destruct res as [sig|e].
    2:{ destruct Hrest as [-> _].
        assert (filter (fun u => await_confirmation u && is_ok (Err e : SettlementResult) = true) group = [])
          as ->; [|by apply answered_nil].
        clear. induction group as [|u group IH]; [done|].
        rewrite filter_cons. simpl in *. rewrite andb_false_r. exact IH. }
    apply traces_pbind in Hrest as (o & l5 & l6 & -> & Hc & Hrest).
    apply confirm_settlement_runs in Hc as [Hq Hok].
    assert (Hall : forall r k y, runs (reply_all r
        (filter (fun u => await_confirmation u && is_ok (Ok sig : SettlementResult) = true) group)) k y ->
      (forall sig', r = Ok sig' -> SeenConfirmed sig' ∈ l5) ->
      answered (l5 ++ k) (filter (fun u => await_confirmation u && is_ok (Ok sig : SettlementResult) = true) group)).
    { intros r k y Hk Hr. apply reply_all_runs in Hk. subst k.
      exists ((fun u => (u, r)) <$> filter (fun u => await_confirmation u && is_ok (Ok sig : SettlementResult) = true) group).
      split_and!.
      - rewrite <-list_fmap_compose. by rewrite list_fmap_id.
      - apply Forall_fmap, Forall_forall. intros u _ _ sig' Hs'. specialize (Hr _ Hs'). set_solver.
      - by rewrite replies_app, Hq, replies_reply_all. }
    destruct o as [sig'|[msg|msg]]; simpl in Hrest.
    + eapply Hall; [done|]. intros sig'' [= <-]. by destruct (Hok _ eq_refl) as [-> ?].
    + destruct (bool_decide _); [|by eapply Hall].
      apply traces_pbind in Hrest as (? & l7 & l8 & -> & He & Hre).
      apply answered_after; [done|]. apply answered_before; [by eapply settle_each_runs|].
      by eapply resend_each_silent.
    + by eapply Hall.
Qed.

Lemma settle_groups_runs groups l x :
  runs (settle_groups cfg groups) l x -> answered l (mjoin groups).
Proof.
  revert l. induction groups as [|group groups IH]; intros l; cbn [settle_groups].
  { intros [-> _]. by apply answered_nil. }
  intros (? & l1 & l2 & -> & Hg & Hrest)%traces_pbind. simpl.
  apply answered_app; [by eapply settle_group_runs|by apply IH].
Qed.

(** C31. Whatever the RPC and the signer answer, a flush ends and answers each
    of its submitters exactly once, and one that waits for confirmation is told
    a signature only after the transaction was seen confirmed. *)
Theorem flush_answers units l :
  runs (spawn_flush cfg units) l tt -> answered l units.
Proof.
  unfold spawn_flush, regroup. intros Hr%settle_groups_runs.
  by rewrite (proj1 (packed_spec _ _ _ _ _ units)) in Hr.
Qed.
End answers.

(** * Witness: one confirmed settlement *)
Module FlushDemo.
Definition cfg : SettlementConfig := {|
  operator := "operator"; max_voucher_settlements_per_tx := 4; linger := 350; confirm_attempts := 2;
  tx_version := V0; compute_budget := None;
|}.
Definition unit1 : SettlementUnit := {|
  unit_channel := "c";
  unit_instructions := [{| program_id := "channels"; account_metas := []; ix_data := [Byte.x05] |}];
  reply := 7; await_confirmation := true;
|}.
Definition unit2 : SettlementUnit := {|
  unit_channel := "d"; unit_instructions := unit_instructions unit1; reply := 8;
  await_confirmation := false;
|}.
Definition log : list entry :=
  [Replied 8 (Ok "sig"); SeenConfirmed "sig"; Replied 7 (Ok "sig")].

Definition signed : VersionedTransaction := {|
  signatures := [replicate 64 Byte.x01];
  message := MessageV0 (CodecDemo.compile "operator" (unit_instructions unit1) []) [];
|}.

(** The blockhash is read, the transaction signed and sent, one poll finds it
    pending and the next confirmed. *)
Lemma confirmed_run : traces log_of (spawn_flush cfg [unit1; unit2]) log tt.
Proof.
  unfold spawn_flush, regroup.
  let p := eval vm_compute in (pack_loop unit_instructions (tx_version cfg) (operator cfg)
    (compute_budget cfg) (max_voucher_settlements_per_tx cfg) [] [] [unit1; unit2]) in
  replace (pack_loop _ _ _ _ _ _ _ _) with p by (vm_compute; reflexivity).
  cbn [settle_groups]. apply traces_pbind. exists tt, log, []. split; [done|]. split; [|done].
  unfold settle_group. apply traces_pbind. exists (Ok "sig"), [], log. split; [done|]. split.
  - unfold sign_and_send. apply traces_ptry. left. exists [], [], []. split; [done|].
    split; [by apply traces_perform|].
    set (tx := build_unsigned _ _ _ _ _). vm_compute in tx. subst tx. cbv beta iota.
    exists (Ok signed), []. split; [done|]. by apply traces_perform.
  - vm_compute. exists tt, [SeenConfirmed "sig"; Replied 7 (Ok "sig")]. split; [done|].
    exists (Ok Pending), [SeenConfirmed "sig"; Replied 7 (Ok "sig")]. split; [done|].
    exists (Ok Confirmed), [Replied 7 (Ok "sig")]. split; [done|].
    exists tt, []. done.
Qed.
End FlushDemo.

Lemma flush_answers_witness : answered FlushDemo.log [FlushDemo.unit1; FlushDemo.unit2].
Proof. exact (flush_answers FlushDemo.cfg _ _ FlushDemo.confirmed_run). Defined.
