(* ===== verification/Units.v ===== *)
(** Human decimal amounts and base units (src/rust/crates/kit/src/core/units.rs),
    over text as a list of ASCII characters. *)
From Stdlib Require Import Ascii.
From stdpp Require Import base numbers option list strings pretty.
From S2P Require Import Prelude Voucher.
Open Scope N_scope.

Abbreviation text := (list ascii).

(** * Decimal text *)

Definition u128_max : N := 340282366920938463463374607431768211455.

Definition is_ascii_digit (c : ascii) : bool := (48 <=? N_of_ascii c) && (N_of_ascii c <=? 57).
Definition all_digits (s : text) : bool := forallb is_ascii_digit s.
Definition digit_value (c : ascii) : N := N_of_ascii c - 48.
Definition digit (d : N) : ascii := ascii_of_N (48 + d).

(** The number a string of digits denotes. *)
Definition value (s : text) : N := foldl (fun n c => 10 * n + digit_value c) 0 s.

(** [to_string] of an unsigned integer. *)
Definition print (n : N) : text := String.list_ascii_of_string (pretty n).

(** [u128::from_str]: an optional plus sign, then one digit or more. *)
Definition parse_u128 (s : text) : option N :=
  let digits := match s with c :: rest => if Ascii.eqb c "+" then rest else s | [] => s end in
  if negb (bool_decide (digits = [])) && all_digits digits && (value digits <=? u128_max)
  then Some (value digits) else None.

(** [u64::from_str]. *)
Definition parse_u64 (s : string) : option Z :=
  match parse_u128 (String.list_ascii_of_string s) with
  | Some n => if decide (Z.of_N n <= u64_max)%Z then Some (Z.of_N n) else None
  | None => None
  end.

Lemma parse_u64_range t n : parse_u64 t = Some n -> in_u64 n.
Proof.
  unfold parse_u64. destruct (parse_u128 _) as [k|]; [|done]. case_decide; [|done].
  intros [= <-]. zlia.
Qed.

Fixpoint trim_start (s : text) : text :=
  match s with c :: rest => if Ascii.eqb c "0" then trim_start rest else s | [] => [] end.
Definition trim_end (s : text) : text := rev (trim_start (rev s)).

(** [str::split_once('.')], [matches('.').count()]. *)
Fixpoint split_once (s : text) : option (text * text) :=
  match s with
  | [] => None
  | c :: rest =>
      if Ascii.eqb c "." then Some ([], rest)
      else match split_once rest with Some (a, b) => Some (c :: a, b) | None => None end
  end.
Definition count_dots (s : text) : nat := length (filter (fun c => Ascii.eqb c "." = true) s).

(** [format!("{n:0width$}")] *)
Definition pad_zeros (width : nat) (s : text) : text := replicate (width - length s) "0"%char ++ s.

(** * The conversions *)

Definition MAX_DECIMALS : nat := 18.

Definition quote (s : text) : string := String.string_of_list_ascii s.

Definition err_decimals (decimals : nat) : Error :=
  Other ("Decimals " +:+ pretty decimals +:+ " exceeds maximum " +:+ pretty MAX_DECIMALS).

Definition parse_units (amount : text) (decimals : nat) : result text Error :=
  if decide (MAX_DECIMALS < decimals)%nat then Err (err_decimals decimals) else
  if decide (amount = []) then Err (Other "Empty amount") else
  if decide (1 < count_dots amount)%nat
  then Err (Other ("Invalid amount `" +:+ quote amount +:+ "`: more than one decimal point")) else
  match split_once amount with
  | Some (integer, fraction) =>
      if bool_decide (integer = []) || bool_decide (fraction = [])
      then Err (Other ("Invalid amount `" +:+ quote amount
        +:+ "`: integer and fractional parts must both be non-empty")) else
      if negb (all_digits integer) || negb (all_digits fraction)
      then Err (Other ("Invalid amount `" +:+ quote amount
        +:+ "`: only ASCII digits and a single optional decimal point are allowed")) else
      let frac_len := length fraction in
      if decide (decimals < frac_len)%nat
      then Err (Other ("Too many decimal places: " +:+ pretty frac_len +:+ " > " +:+ pretty decimals)) else
      let padding := (decimals - frac_len)%nat in
      let combined := integer ++ fraction ++ replicate padding "0"%char in
      let trimmed := trim_start combined in
      if decide (trimmed = []) then Ok ["0"%char] else Ok trimmed
  | None =>
      match parse_u128 amount with
      | None => Err (Other ("Invalid amount: " +:+ quote amount))
      | Some value =>
          (* 10^decimals fits for at most 18 decimals *)
          let factor := 10 ^ N.of_nat decimals in
          if decide (value * factor <= u128_max) then Ok (print (value * factor))
          else Err (Other (pretty value +:+ " * 10^" +:+ pretty decimals +:+ " overflows u128 in parse_units"))
      end
  end.

Definition format_units (base_units : text) (decimals : nat) : result text Error :=
  if decide (MAX_DECIMALS < decimals)%nat then Err (err_decimals decimals) else
  if bool_decide (base_units = []) || negb (all_digits base_units)
  then Err (Other ("Invalid base units: " +:+ quote base_units)) else
  match parse_u128 base_units with
  | None => Err (Other ("Invalid base units: " +:+ quote base_units))
  | Some units =>
      let scale := 10 ^ N.of_nat decimals in
      let whole := units / scale in
      let frac := units `mod` scale in
      if decide (frac = 0) then Ok (print whole)
      else Ok (print whole ++ "."%char :: trim_end (pad_zeros decimals (print frac)))
  end.

(** * Digits *)

Lemma list_ascii_app s t :
  String.list_ascii_of_string (s +:+ t) =
  String.list_ascii_of_string s ++ String.list_ascii_of_string t.
Proof. induction s as [|c s IH]; simpl; [done|by rewrite IH]. Qed.

Lemma value_snoc s c : value (s ++ [c]) = 10 * value s + digit_value c.
Proof. unfold value. by rewrite foldl_app. Qed.

Lemma all_digits_app s t : all_digits (s ++ t) = all_digits s && all_digits t.
Proof. apply forallb_app. Qed.

Lemma digit_cases c :
  is_ascii_digit c = true -> exists d, d < 10 /\ c = digit d.
Proof.
  unfold is_ascii_digit. intros [H1%N.leb_le H2%N.leb_le]%andb_true_iff.
  exists (N_of_ascii c - 48). split; [lia|]. unfold digit.
  replace (48 + (N_of_ascii c - 48)) with (N_of_ascii c) by lia. by rewrite ascii_N_embedding.
Qed.

Lemma N_of_digit d : d < 10 -> N_of_ascii (digit d) = 48 + d.
Proof. intros. unfold digit. apply N_ascii_embedding. lia. Qed.

Lemma digit_value_digit d : d < 10 -> digit_value (digit d) = d.
Proof. intros. unfold digit_value. rewrite N_of_digit by done. lia. Qed.

Lemma digit_is_digit d : d < 10 -> is_ascii_digit (digit d) = true.
Proof.
  intros. unfold is_ascii_digit. rewrite N_of_digit by done.
  apply andb_true_iff. rewrite !N.leb_le. lia.
Qed.

Lemma pretty_N_char_digit d : d < 10 -> pretty_N_char d = digit d.
Proof.
  intros. assert (d = 0 \/ d = 1 \/ d = 2 \/ d = 3 \/ d = 4 \/ d = 5 \/ d = 6 \/ d = 7 \/ d = 8 \/ d = 9)
    as Hd by lia.
  repeat (destruct Hd as [->|Hd]; [done|]). by subst.
Qed.

Lemma pretty_N_go_app n s : pretty_N_go n s = pretty_N_go n "" +:+ s.
Proof.
  revert s. induction (N.lt_wf_0 n) as [n _ IH]. intros s.
  destruct (decide (n = 0)) as [->|]; [by rewrite !pretty_N_go_0|].
  rewrite !(pretty_N_go_step n) by lia. assert (n `div` 10 < n) by (apply N.div_lt; lia).
  rewrite IH by done. rewrite (IH (n `div` 10)%N) with (s := String _ "") by done.
  by rewrite append_assoc.
Qed.

Lemma print_digit d : d < 10 -> print d = [digit d].
Proof.
  intros. assert (d = 0 \/ d = 1 \/ d = 2 \/ d = 3 \/ d = 4 \/ d = 5 \/ d = 6 \/ d = 7 \/ d = 8 \/ d = 9)
    as Hd by lia.
  repeat (destruct Hd as [->|Hd]; [done|]). by subst.
Qed.

Lemma print_snoc v d : 0 < v -> d < 10 -> print (10 * v + d) = print v ++ [digit d].
Proof.
  intros Hv Hd. unfold print, pretty, pretty_N. rewrite !decide_False by lia.
  rewrite (pretty_N_go_step (10 * v + d)) by lia.
  replace ((10 * v + d) `div` 10) with v by (apply (N.div_unique _ _ _ d); lia).
  replace ((10 * v + d) `mod` 10) with d by (apply (N.mod_unique _ _ v); lia).
  rewrite pretty_N_go_app, list_ascii_app. by rewrite pretty_N_char_digit.
Qed.

(** ** Leading zeros *)

(** The text without them, as [parse_units] and [print] write it. *)
Definition canonical (s : text) : text := if decide (trim_start s = []) then ["0"%char] else trim_start s.

Lemma trim_start_app s t :
  trim_start (s ++ t) = if decide (trim_start s = []) then trim_start t else trim_start s ++ t.
Proof.
  induction s as [|c s IH]; simpl; [done|]. destruct (Ascii.eqb c "0"); [done|].
  by rewrite decide_False.
Qed.

Lemma trim_start_nil s : trim_start s = [] <-> Forall (fun c => c = "0"%char) s.
Proof.
  induction s as [|c s IH]; simpl; [done|]. destruct (Ascii.eqb_spec c "0") as [->|Hc].
  - rewrite IH, Forall_cons. naive_solver.
  - rewrite Forall_cons. naive_solver.
Qed.

Lemma value_zeros s : Forall (fun c => c = "0"%char) s -> value s = 0.
Proof.
  induction s as [|c s IH] using rev_ind; intros Hs; [done|]. apply Forall_app in Hs as [Hs Hc].
  apply Forall_cons in Hc as [-> _]. rewrite value_snoc, IH by done. done.
Qed.

Lemma value_trim_start s : value (trim_start s) = value s.
Proof.
  assert (Hgo : forall n, (n = 0) -> foldl (fun n c => 10 * n + digit_value c) n (trim_start s) =
    foldl (fun n c => 10 * n + digit_value c) n s); [|by apply Hgo].
  intros n ->. induction s as [|c s IH]; simpl; [done|].
  destruct (Ascii.eqb_spec c "0") as [->|Hc]; [|done]. rewrite IH. done.
Qed.

Lemma all_digits_trim s : all_digits s = true -> all_digits (trim_start s) = true.
Proof.
  induction s as [|c s IH]; simpl; [done|]. intros Hs. destruct (Ascii.eqb c "0"); [|done].
  apply IH. by apply andb_true_iff in Hs as [_ ?].
Qed.

(** Trimmed digits are the print of their value. *)
Lemma canonical_print s : all_digits s = true -> canonical s = print (value s).
Proof.
  induction s as [|c s IH] using rev_ind; intros Hs; [done|].
  rewrite all_digits_app in Hs. apply andb_true_iff in Hs as [Hs Hc]. simpl in Hc.
  rewrite andb_true_r in Hc. apply digit_cases in Hc as (d & Hd & ->). specialize (IH Hs).
  unfold canonical in *. rewrite trim_start_app, value_snoc, digit_value_digit by done.
  destruct (decide (trim_start s = [])) as [Hz|Hz].
  - rewrite (value_zeros s) by (by apply trim_start_nil). change (10 * 0 + d) with d.
    rewrite print_digit by done. simpl. destruct (Ascii.eqb_spec (digit d) "0") as [->|Hne]; [done|].
    by rewrite decide_False.
  - rewrite decide_False by (by destruct (trim_start s)). rewrite IH.
    rewrite print_snoc; [done| |done].
    destruct (decide (value s = 0)) as [H0|H0]; [|lia]. rewrite H0 in IH.
    assert (Ht : forall t, trim_start t <> ["0"%char]).
    { clear. induction t as [|c t IH]; simpl; [done|]. destruct (Ascii.eqb_spec c "0"); [done|].
      by intros [= ->]. }
    by destruct (Ht s).
Qed.

Lemma print_digits n : all_digits (print n) = true /\ print n <> [] /\ value (print n) = n.
Proof.
  induction (N.lt_wf_0 n) as [n _ IH]. destruct (decide (n < 10)) as [Hn|Hn].
  - rewrite print_digit by done. simpl. rewrite digit_is_digit by done. split_and!; [done|done|].
    unfold value. simpl. by rewrite digit_value_digit.
  - pose proof (N.div_mod n 10 ltac:(lia)) as Hdm. pose proof (N.mod_lt n 10 ltac:(lia)) as Hm.
    assert (0 < n / 10) by (apply N.div_str_pos; lia).
    destruct (IH (n / 10)) as (Hd & Hne & Hv); [apply N.div_lt; lia|].
    rewrite Hdm at 1 2 3. rewrite print_snoc by done. split_and!.
    + rewrite all_digits_app, Hd. simpl. by rewrite digit_is_digit.
    + by destruct (print (n / 10)).
    + rewrite value_snoc, Hv, digit_value_digit by done. lia.
Qed.

Lemma canonical_of_print n : canonical (print n) = print n.
Proof.
  destruct (print_digits n) as (Hd & _ & Hv). rewrite canonical_print by done. by rewrite Hv.
Qed.

Lemma value_app s t : value (s ++ t) = value s * 10 ^ N.of_nat (length t) + value t.
Proof.
  induction t as [|c t IH] using rev_ind.
  - rewrite app_nil_r. change (value []) with 0. change (N.of_nat (length (@nil ascii))) with 0.
    rewrite N.pow_0_r. lia.
  - rewrite app_assoc, !value_snoc, IH, length_app. simpl length.
    replace (N.of_nat (length t + 1)) with (N.succ (N.of_nat (length t))) by lia.
    rewrite N.pow_succ_r by lia. lia.
Qed.

Lemma value_replicate n : value (replicate n "0"%char) = 0.
Proof. apply value_zeros, Forall_replicate. done. Qed.

Lemma all_digits_replicate n : all_digits (replicate n "0"%char) = true.
Proof. induction n; simpl; done. Qed.

(** ** Splitting *)

Lemma digit_no_dot c : is_ascii_digit c = true -> c <> "."%char /\ c <> "+"%char.
Proof. intros Hc. split; intros ->; discriminate Hc. Qed.

Lemma split_once_none s : split_once s = None <-> count_dots s = 0%nat.
Proof.
  unfold count_dots. induction s as [|c s IH]; simpl; [done|]. rewrite filter_cons.
  destruct (Ascii.eqb c "."); simpl; [done|]. destruct (split_once s) as [[a b]|]; [|naive_solver].
  split; [done|]. intros Hc. by apply IH in Hc.
Qed.

Lemma split_once_some s a b : split_once s = Some (a, b) -> s = a ++ "."%char :: b.
Proof.
  revert a. induction s as [|c s IH]; intros a; simpl; [done|].
  destruct (Ascii.eqb_spec c ".") as [->|Hc]; [by intros [= <- <-]|].
  destruct (split_once s) as [[a' b']|]; [|done]. intros [= <- <-]. simpl. f_equal. by apply IH.
Qed.

Lemma count_dots_digits s : all_digits s = true -> count_dots s = 0%nat.
Proof.
  unfold count_dots. induction s as [|c s IH]; simpl; [done|].
  intros [Hc Hs]%andb_true_iff. rewrite filter_cons.
  destruct (Ascii.eqb_spec c ".") as [->|]; [done|]. simpl. by apply IH.
Qed.

Lemma split_once_digits a b : all_digits a = true -> split_once (a ++ "."%char :: b) = Some (a, b).
Proof.
  induction a as [|c a IH]; simpl; [done|]. intros [Hc Ha]%andb_true_iff.
  destruct (Ascii.eqb_spec c ".") as [->|]; [done|]. by rewrite IH.
Qed.

Lemma count_dots_one a b :
  all_digits a = true -> all_digits b = true -> count_dots (a ++ "."%char :: b) = 1%nat.
Proof.
  intros Ha Hb. unfold count_dots. rewrite filter_app, length_app, filter_cons. simpl.
  pose proof (count_dots_digits a Ha) as Hca. pose proof (count_dots_digits b Hb) as Hcb.
  unfold count_dots in *. by rewrite Hca, Hcb.
Qed.

Lemma parse_u128_digits s :
  all_digits s = true -> s <> [] ->
  parse_u128 s = if value s <=? u128_max then Some (value s) else None.
Proof.
  intros Hs Hne. unfold parse_u128. destruct s as [|c s]; [done|]. simpl in Hs.
  apply andb_true_iff in Hs as [Hc Hs]. destruct (Ascii.eqb_spec c "+") as [->|_]; [done|].
  rewrite bool_decide_false by done. simpl. by rewrite Hc, Hs.
Qed.

(** What [str::parse] reads: the digits, perhaps after a plus sign. *)
Definition unsigned_digits (a digits : text) : Prop :=
  (a = digits \/ a = "+"%char :: digits) /\ all_digits digits = true /\ digits <> [].

Lemma parse_u128_some s n :
  parse_u128 s = Some n <-> exists digits, unsigned_digits s digits /\ n = value digits /\ n <= u128_max.
Proof.
  split.
  - unfold parse_u128. set (digits := match s with [] => s | c :: rest => _ end).
    intros Hp. exists digits.
    destruct (bool_decide (digits = [])) eqn:Hne; [done|]. apply bool_decide_eq_false in Hne.
    destruct (all_digits digits) eqn:Hd; [|done]. simpl in Hp.
    destruct (N.leb_spec (value digits) u128_max); [|done]. injection Hp as <-.
    split_and!; [split; [|done]|done|done]. subst digits. destruct s as [|c s]; [done|].
    destruct (Ascii.eqb_spec c "+") as [->|]; auto.
  - intros (digits & ([->| ->] & Hd & Hne) & -> & Hle).
    + rewrite parse_u128_digits by done. by rewrite (proj2 (N.leb_le _ _) Hle).
    + unfold parse_u128. simpl. rewrite bool_decide_false by done. rewrite Hd. simpl.
      by rewrite (proj2 (N.leb_le _ _) Hle).
Qed.

(** ** What an amount denotes *)

Inductive denotes (decimals : nat) (a : text) (v : N) : Prop :=
| denotes_integer digits :
    unsigned_digits a digits -> v = value digits * 10 ^ N.of_nat decimals -> v <= u128_max ->
    denotes decimals a v
| denotes_decimal integer fraction :
    a = integer ++ "."%char :: fraction -> integer <> [] -> fraction <> [] ->
    all_digits integer = true -> all_digits fraction = true ->
    (length fraction <= decimals)%nat ->
    v = value integer * 10 ^ N.of_nat decimals +
        value fraction * 10 ^ N.of_nat (decimals - length fraction) ->
    denotes decimals a v.

Lemma combined_value integer fraction decimals :
  (length fraction <= decimals)%nat ->
  value (integer ++ fraction ++ replicate (decimals - length fraction) "0"%char) =
  value integer * 10 ^ N.of_nat decimals +
  value fraction * 10 ^ N.of_nat (decimals - length fraction).
Proof.
  intros Hl. rewrite !value_app, length_app, length_replicate, value_replicate.
  replace (length fraction + (decimals - length fraction))%nat with decimals by lia. lia.
Qed.

Lemma combined_digits integer fraction n :
  all_digits integer = true -> all_digits fraction = true ->
  all_digits (integer ++ fraction ++ replicate n "0"%char) = true.
Proof. intros Hi Hf. by rewrite !all_digits_app, Hi, Hf, all_digits_replicate. Qed.

Lemma trimmed_print s :
  all_digits s = true ->
  (if decide (trim_start s = []) then Ok ["0"%char] else Ok (trim_start s) : result text Error) =
  Ok (print (value s)).
Proof.
  intros Hs. rewrite <-canonical_print by done. unfold canonical. by case_decide.
Qed.

Lemma factor_fits v decimals :
  v <= u128_max -> v * 10 ^ N.of_nat decimals <= u128_max \/ u128_max < v * 10 ^ N.of_nat decimals.
Proof. lia. Qed.

Lemma value_le_scaled n decimals : n <= n * 10 ^ N.of_nat decimals.
Proof. pose proof (N.pow_nonzero 10 (N.of_nat decimals)). nia. Qed.

Lemma denotes_parse a decimals v :
  (decimals <= MAX_DECIMALS)%nat -> denotes decimals a v -> parse_units a decimals = Ok (print v).
Proof.
  intros Hd Hv. unfold parse_units. rewrite decide_False by lia.
  destruct Hv as [digits Hu -> Hle|integer fraction -> Hi Hf Hdi Hdf Hl ->].
  - assert (Ha : a <> [] /\ count_dots a = 0%nat).
    { destruct Hu as ([->| ->] & Hdig & Hne); (split; [done|]).
      - by apply count_dots_digits.
      - pose proof (count_dots_digits _ Hdig) as Hc. unfold count_dots in *. rewrite filter_cons. done. }
    destruct Ha as [Hne Hc]. rewrite decide_False by done. rewrite decide_False by lia.
    apply split_once_none in Hc. rewrite Hc.
    rewrite (proj2 (parse_u128_some a (value digits))).
    + by rewrite decide_True.
    + exists digits. split_and!; [done|done|]. pose proof (value_le_scaled (value digits) decimals). lia.
  - rewrite decide_False by (by destruct integer).
    rewrite decide_False by (rewrite count_dots_one by done; lia).
    rewrite split_once_digits by done. rewrite !bool_decide_false by done. rewrite Hdi, Hdf. simpl.
    rewrite decide_False by lia. rewrite <-combined_value by done. rewrite <-trimmed_print; [done|].
    by apply combined_digits.
Qed.

(** An amount parses exactly when it denotes a number of base units - an
    unsigned integer within 128 bits once scaled (with an optional leading plus
    sign), or a decimal with digits on both sides of the point and no more
    fractional digits than the currency - and it parses to that number, written
    without leading zeros. *)
Theorem parse_units_iff a decimals r :
  parse_units a decimals = Ok r <->
  (decimals <= MAX_DECIMALS)%nat /\ exists v, denotes decimals a v /\ r = print v.
Proof.
  split; [|intros (Hd & v & Hv & ->); by apply denotes_parse].
  intros Hp. assert (Hd : (decimals <= MAX_DECIMALS)%nat).
  { unfold parse_units in Hp. case_decide; [done|lia]. }
  split; [done|]. enough (exists v, denotes decimals a v) as [v Hv].
  { rewrite (denotes_parse _ _ _ Hd Hv) in Hp. injection Hp as <-. eauto. }
  unfold parse_units in Hp. do 3 (case_decide; [done|]).
  destruct (split_once a) as [[integer fraction]|] eqn:Hs.
  - apply split_once_some in Hs.
    destruct (bool_decide (integer = [])) eqn:Hi; [done|]. apply bool_decide_eq_false in Hi.
    destruct (bool_decide (fraction = [])) eqn:Hf; [done|]. apply bool_decide_eq_false in Hf.
    destruct (all_digits integer) eqn:Hdi; [|done]. destruct (all_digits fraction) eqn:Hdf; [|done].
    simpl in Hp. case_decide; [done|]. eexists. eapply denotes_decimal; try done. lia.
  - destruct (parse_u128 a) as [n|] eqn:Hn; [|done]. case_decide; [|done].
    apply parse_u128_some in Hn as (digits & Hu & -> & Hle). eexists. by eapply denotes_integer.
Qed.

(** ** What [format_units] writes *)

Lemma trim_start_zeros s :
  s = replicate (length s - length (trim_start s)) "0"%char ++ trim_start s /\
  (length (trim_start s) <= length s)%nat.
Proof.
  induction s as [|c s [IH Hl]]; simpl; [done|]. destruct (Ascii.eqb_spec c "0") as [->|Hc].
  - split; [|lia]. replace (S (length s) - length (trim_start s))%nat
      with (S (length s - length (trim_start s))) by lia. simpl. by f_equal.
  - simpl. by rewrite Nat.sub_diag.
Qed.

Lemma trim_end_zeros s :
  s = trim_end s ++ replicate (length s - length (trim_end s)) "0"%char /\
  (length (trim_end s) <= length s)%nat.
Proof.
  destruct (trim_start_zeros (rev s)) as [Hs Hl]. unfold trim_end. rewrite length_rev in *.
  split; [|done]. apply (f_equal (@rev ascii)) in Hs. rewrite rev_involutive, rev_app_distr in Hs.
  rewrite Hs at 1. f_equal. rewrite rev_alt. apply reverse_replicate.
Qed.

Lemma print_length k n : (0 < k)%nat -> n < 10 ^ N.of_nat k -> (length (print n) <= k)%nat.
Proof.
  revert n. induction k as [|k IH]; intros n Hk Hn; [lia|].
  destruct (decide (n < 10)) as [H10|H10]; [by rewrite print_digit by done; simpl; lia|].
  pose proof (N.div_mod n 10 ltac:(lia)) as Hdm. pose proof (N.mod_lt n 10 ltac:(lia)) as Hm.
  assert (0 < n / 10) by (apply N.div_str_pos; lia).
  rewrite Hdm, print_snoc, length_app by done. simpl.
  replace (N.of_nat (S k)) with (N.succ (N.of_nat k)) in Hn by lia. rewrite N.pow_succ_r in Hn by lia.
  destruct k as [|k]; [simpl in Hn; lia|].
  enough (length (print (n / 10)) <= S k)%nat by lia. apply IH; [lia|].
  apply N.Div0.div_lt_upper_bound. lia.
Qed.

Lemma pad_zeros_spec width s :
  (length s <= width)%nat -> all_digits s = true ->
  length (pad_zeros width s) = width /\ all_digits (pad_zeros width s) = true /\
  value (pad_zeros width s) = value s.
Proof.
  intros Hl Hs. unfold pad_zeros. rewrite length_app, length_replicate, all_digits_app.
  rewrite all_digits_replicate, Hs, value_app, value_replicate. split_and!; [lia|done|lia].
Qed.

(** The fraction shown, read back at the currency's width, is the remainder. *)
Lemma shown_fraction decimals frac :
  frac <> 0 -> frac < 10 ^ N.of_nat decimals ->
  let shown := trim_end (pad_zeros decimals (print frac)) in
  shown <> [] /\ all_digits shown = true /\ (length shown <= decimals)%nat /\
  value shown * 10 ^ N.of_nat (decimals - length shown) = frac.
Proof.
  intros Hz Hf shown. destruct (print_digits frac) as (Hd & _ & Hv).
  assert (0 < decimals)%nat by (destruct decimals; [simpl in Hf; lia|lia]).
  destruct (pad_zeros_spec decimals (print frac)) as (Hl & Hpd & Hpv); [by apply print_length|done|].
  destruct (trim_end_zeros (pad_zeros decimals (print frac))) as [Hs Hle].
  fold shown in Hs, Hle. rewrite Hl in Hs, Hle.
  assert (Hval : value shown * 10 ^ N.of_nat (decimals - length shown) = frac).
  { rewrite Hv in Hpv. rewrite Hs, value_app, value_replicate, length_replicate in Hpv. lia. }
  split_and!; [|by rewrite Hs, all_digits_app in Hpd; apply andb_true_iff in Hpd as [? _]|lia|done].
  intros Hnil. rewrite Hnil in Hval. change (value []) with 0 in Hval. lia.
Qed.

Lemma format_denotes b decimals s :
  format_units b decimals = Ok s ->
  (decimals <= MAX_DECIMALS)%nat /\ all_digits b = true /\ value b <= u128_max /\
  denotes decimals s (value b).
Proof.
  unfold format_units. case_decide as Hd; [done|].
  destruct (bool_decide (b = [])) eqn:Hne; [done|]. apply bool_decide_eq_false in Hne.
  destruct (all_digits b) eqn:Hb; [|done]. simpl. rewrite parse_u128_digits by done.
  destruct (N.leb_spec (value b) u128_max) as [Hle|]; [|done]. intros Hs.
  split_and!; [lia|done|done|]. set (scale := 10 ^ N.of_nat decimals) in *.
  assert (scale <> 0) by (by apply N.pow_nonzero).
  pose proof (N.div_mod (value b) scale ltac:(done)) as Hdm.
  pose proof (N.mod_lt (value b) scale ltac:(done)) as Hlt.
  destruct (print_digits (value b / scale)) as (Hwd & Hwn & Hwv).
  case_decide as Hf; injection Hs as <-.
  - apply (denotes_integer _ _ _ (print (value b / scale))); [|rewrite Hwv; fold scale; lia|done].
    split_and!; [by left|done|done].
  - destruct (shown_fraction decimals (value b `mod` scale)) as (Hn & Hdg & Hl & Hval); [done|done|].
    eapply denotes_decimal; try done. rewrite Hval, Hwv. fold scale. lia.
Qed.

(** Formatting base units and parsing the text back gives the base units,
    written without leading zeros - so exactly the text one started from when
    it had none. *)
Theorem units_roundtrip b decimals s :
  format_units b decimals = Ok s ->
  parse_units s decimals = Ok (canonical b) /\
  (forall n, b = print n -> parse_units s decimals = Ok b).
Proof.
  intros Hs. apply format_denotes in Hs as (Hd & Hb & _ & Hs).
  rewrite (denotes_parse _ _ _ Hd Hs), canonical_print by done. split; [done|].
  intros n ->. destruct (print_digits n) as (_ & _ & Hv). by rewrite Hv.
Qed.

Example parse_plus : parse_units (String.list_ascii_of_string "+5") 6 =
  Ok (String.list_ascii_of_string "5000000").
Proof. reflexivity. Qed.

Example parse_past_u128 :
  parse_units (String.list_ascii_of_string "340282366920938463463374607431768211456.0") 1 =
  Ok (String.list_ascii_of_string "3402823669209384634633746074317682114560").
Proof. vm_compute. reflexivity. Qed.

Example format_zeros : format_units (String.list_ascii_of_string "001500000") 6 =
  Ok (String.list_ascii_of_string "1.5").
Proof. vm_compute. reflexivity. Qed.

Lemma units_roundtrip_witness :
  let b := String.list_ascii_of_string "1500000" in
  let s := String.list_ascii_of_string "1.5" in
  parse_units s 6 = Ok (canonical b) /\ (forall n, b = print n -> parse_units s 6 = Ok b).
Proof.
  apply (units_roundtrip (String.list_ascii_of_string "1500000") 6). vm_compute. reflexivity.
Defined.
