(* ===== verification/ChannelTx.v ===== *)
(** What a sponsor accepts around a payment-channels instruction
    (src/rust/crates/kit/src/core/payment_channel/v1.rs): the layout scan shared
    by the x402 [upto] and [batch-settlement] sponsors. Every instruction of the
    transaction is a bounded ComputeBudget operation, the one channel instruction,
    or a Memo or Lighthouse assertion that does not name the fee payer. *)
From stdpp Require Import base numbers option list strings pretty sets.
From S2P Require Import Prelude Bytes Voucher Tx Build Policy.

(** * Constants *)

Definition MEMO_PROGRAM : Pubkey := "MemoSq4gqABAXKb96qnH8TysNcWxMyWCqXgDLGmfcHr".
Definition LIGHTHOUSE_PROGRAM : Pubkey := "L2TExMFKdjpN9kozasaurPirfHy9P8sbXoAN1qA3S95".
Definition OPEN_MAX_COMPUTE_UNIT_LIMIT : Z := 400000.
Definition MAX_COMPUTE_UNIT_PRICE_MICROLAMPORTS : Z := 5000000.
Definition OPEN_MAX_LIGHTHOUSE_INSTRUCTIONS : nat := 3.
Definition OPEN_MAX_OPTIONAL_SUFFIX : nat := 4.
Definition OPEN_MAX_MEMO_BYTES : nat := 256.
Definition MIN_MEMO_NONCE_BYTES : nat := 16.

(** * Memos *)

Inductive MemoPolicy :=
| Optional
| Required (memo : option string)
| RequiredWithBinding (memo : option string) (binding_prefix : string).

Definition max_memos (policy : MemoPolicy) : nat :=
  match policy with Optional | Required _ => 1 | RequiredWithBinding _ _ => 2 end.

(** The text is its bytes. *)
Definition memo_text (data : list byte) (label : string) : result (list byte) Error :=
  if decide (OPEN_MAX_MEMO_BYTES < length data)%nat
  then Err (Other (label +:+ " transaction memo is " +:+ pretty (length data) +:+ " bytes, over the "
    +:+ pretty OPEN_MAX_MEMO_BYTES +:+ "-byte maximum"))
  else if utf8_valid data then Ok data
  else Err (Other (label +:+ " transaction memo is not valid UTF-8")).

(** The text of a memo, against the one the seller declared or as a nonce. *)
Definition memo_expected (text : list byte) (label : string) (expected : option string) :
    result unit Error :=
  match expected with
  | Some expected =>
      if decide (text <> str_bytes expected)
      then Err (Other (label +:+ " transaction memo does not match the declared extra.memo"))
      else Ok tt
  | None =>
      if bool_decide (length text < MIN_MEMO_NONCE_BYTES * 2)%nat || negb (forallb is_ascii_hexdigit text)
      then Err (Other (label +:+ " transaction memo must be a hex nonce of at least "
        +:+ pretty MIN_MEMO_NONCE_BYTES +:+ " bytes"))
      else Ok tt
  end.

Definition check_memo_data (data : list byte) (label : string) (policy : MemoPolicy) :
    result unit Error :=
  match policy with
  | Optional => Ok tt
  | Required expected | RequiredWithBinding expected _ =>
      let? text := memo_text data label in memo_expected text label expected
  end.

(** [starts_with]. *)
Definition starts_with (data : list byte) (prefix : string) : bool :=
  bool_decide (str_bytes prefix `prefix_of` data).

(** * The layout *)

Section scan.
Context (keys : list Pubkey) (label : string).

Definition program_of (ix : CompiledInstruction) : result Pubkey Error :=
  ok_or (keys !! program_id_index ix) (Other (label +:+ " instruction program id out of range")).

(** An account of the instruction is the key. *)
Definition names (key : Pubkey) (ix : CompiledInstruction) : bool :=
  existsb (fun i => bool_decide (keys !! i = Some key)) (accounts ix).

Definition reject_fee_payer (fee_payer : Pubkey) (ix : CompiledInstruction) (wrapper : string) :
    result unit Error :=
  if names fee_payer ix
  then Err (Other (wrapper +:+ " instruction must not reference the fee payer")) else Ok tt.

Definition err_scan (text : string) : Error := Other (label +:+ " transaction " +:+ text).

(** One ComputeBudget instruction of the prefix. *)
Definition prefix_op (op : option ComputeBudgetOp) (seen_limit seen_price : bool) :
    result (bool * bool) Error :=
  match op with
  | Some (UnitLimit units) =>
      if seen_limit then Err (err_scan "has a duplicate SetComputeUnitLimit instruction") else
      if seen_price then Err (err_scan "SetComputeUnitLimit must precede SetComputeUnitPrice") else
      if decide (OPEN_MAX_COMPUTE_UNIT_LIMIT < units)
      then Err (err_scan ("compute unit limit " +:+ pretty units +:+ " exceeds maximum "
        +:+ pretty OPEN_MAX_COMPUTE_UNIT_LIMIT))
      else Ok (true, seen_price)
  | Some (UnitPrice price) =>
      if seen_price then Err (err_scan "has a duplicate SetComputeUnitPrice instruction") else
      if decide (MAX_COMPUTE_UNIT_PRICE_MICROLAMPORTS < price)
      then Err (err_scan ("compute unit price " +:+ pretty price +:+ " exceeds maximum "
        +:+ pretty MAX_COMPUTE_UNIT_PRICE_MICROLAMPORTS))
      else Ok (seen_limit, true)
  | Some (LoadedAccountsDataSizeLimit _) | None =>
      Err (err_scan "has an unsupported ComputeBudget instruction")
  end.

(** The first loop; its result is what [index] leaves. *)
Fixpoint scan_prefix (fee_payer : Pubkey) (ixs : list CompiledInstruction)
    (seen_limit seen_price : bool) : result (list CompiledInstruction) Error :=
  match ixs with
  | [] => Ok []
  | ix :: rest =>
      let? program := program_of ix in
      if decide (program <> COMPUTE_BUDGET_PROGRAM_ID) then Ok ixs else
      let? _ := reject_fee_payer fee_payer ix "ComputeBudget" in
      let? seen := prefix_op (decode_compute_budget_op ix) seen_limit seen_price in
      scan_prefix fee_payer rest (fst seen) (snd seen)
  end.

(** The memos a suffix has shown so far: the seller's and the binding ones. *)
Definition scan_memo (policy : MemoPolicy) (data : list byte) (memo_count binding_count : nat) :
    result (nat * nat) Error :=
  match policy with
  | RequiredWithBinding _ binding_prefix =>
      if starts_with data binding_prefix then
        if decide (1 < S binding_count)%nat
        then Err (err_scan "must carry exactly one binding Memo") else
        let? _ := memo_text data label in Ok (memo_count, S binding_count)
      else
        if decide (1 < S memo_count)%nat
        then Err (err_scan "allows at most one Memo instruction besides the binding Memo") else
        let? _ := check_memo_data data label policy in Ok (S memo_count, binding_count)
  | Optional =>
      let? _ := check_memo_data data label policy in Ok (S memo_count, binding_count)
  | Required _ =>
      if decide (1 < S memo_count)%nat
      then Err (err_scan "allows at most one Memo instruction") else
      let? _ := check_memo_data data label policy in Ok (S memo_count, binding_count)
  end.

Definition max_suffix (policy : MemoPolicy) : nat := OPEN_MAX_OPTIONAL_SUFFIX + max_memos policy - 1.

(** The second loop, from its counters. *)
Fixpoint scan_suffix (policy : MemoPolicy) (fee_payer : Pubkey) (ixs : list CompiledInstruction)
    (lighthouse_count optional_count memo_count binding_count : nat) : result (nat * nat) Error :=
  match ixs with
  | [] => Ok (memo_count, binding_count)
  | ix :: ixs =>
      let optional_count := S optional_count in
      if decide (max_suffix policy < optional_count)%nat
      then Err (err_scan ("allows at most " +:+ pretty (max_suffix policy) +:+ " instructions after "
        +:+ label)) else
      let? program := program_of ix in
      if decide (program = LIGHTHOUSE_PROGRAM) then
        if decide (OPEN_MAX_LIGHTHOUSE_INSTRUCTIONS < S lighthouse_count)%nat
        then Err (err_scan ("allows at most " +:+ pretty OPEN_MAX_LIGHTHOUSE_INSTRUCTIONS
          +:+ " Lighthouse instructions after " +:+ label)) else
        let? _ := reject_fee_payer fee_payer ix "Lighthouse" in
        scan_suffix policy fee_payer ixs (S lighthouse_count) optional_count memo_count binding_count
      else if decide (program = MEMO_PROGRAM) then
        let? _ := reject_fee_payer fee_payer ix "Memo" in
        let? counts := scan_memo policy (data ix) memo_count binding_count in
        scan_suffix policy fee_payer ixs lighthouse_count optional_count (fst counts) (snd counts)
      else Err (err_scan ("instruction after " +:+ label +:+ " must be Lighthouse or Memo, found "
        +:+ program))
  end.

Definition check_memo_counts (policy : MemoPolicy) (memo_count binding_count : nat) :
    result unit Error :=
  let required := match policy with Optional => false | _ => true end in
  let binding := match policy with RequiredWithBinding _ _ => true | _ => false end in
  if bool_decide (memo_count = 0%nat) && required
  then Err (err_scan "must carry exactly one Memo instruction") else
  if bool_decide (binding_count = 0%nat) && binding
  then Err (err_scan "must carry exactly one binding Memo") else Ok tt.
End scan.

(** [Display]. *)
Definition core_error_text (e : Error) : string :=
  match e with SerializationError m => "serialization error: " +:+ m | Other m => m end.

Definition scan_channel_tx_layout (tx : VersionedTransaction) (keys : list Pubkey)
    (program_id : Pubkey) (discriminator : Z) (label : string) (policy : MemoPolicy) :
    result CompiledInstruction Error :=
  let instructions := instructions (body (message tx)) in
  let? fee_payer := ok_or (head keys) (Other (label +:+ " transaction has no fee payer")) in
  let? rest := scan_prefix keys label fee_payer instructions false false in
  match rest with
  | [] => Err (err_scan label "contains no payment-channels instruction")
  | primary :: suffix =>
      let? program := program_of keys label primary in
      if decide (program <> program_id)
      then Err (err_scan label "targets an unexpected program") else
      if decide (byte_to_Z <$> head (data primary) <> Some discriminator)
      then Err (err_scan label ("is not a payment-channels " +:+ label +:+ " instruction")) else
      let? counts := scan_suffix keys label policy fee_payer suffix 0 0 0 0 in
      let? _ := check_memo_counts label policy (fst counts) (snd counts) in
      let? _ := rmap_err (fun e => Other (label
          +:+ " transaction compute unit price exceeds the sponsored fee maximum: "
          +:+ core_error_text e))
        (check_priority_fee (message tx) MAX_SPONSORED_PRIORITY_FEE_LAMPORTS) in
      Ok primary
  end.

(** * What an accepted layout is *)

(** The text a seller's memo must have. *)
Definition memo_ok (expected : option string) (d : list byte) : Prop :=
  (length d <= OPEN_MAX_MEMO_BYTES)%nat /\ utf8_valid d = true /\
  match expected with
  | Some text => d = str_bytes text
  | None => (MIN_MEMO_NONCE_BYTES * 2 <= length d)%nat /\ Forall (fun b => is_ascii_hexdigit b = true) d
  end.
Definition binding_ok (d : list byte) : Prop :=
  (length d <= OPEN_MAX_MEMO_BYTES)%nat /\ utf8_valid d = true.

Definition binding_memo (policy : MemoPolicy) (d : list byte) : bool :=
  match policy with RequiredWithBinding _ prefix => starts_with d prefix | _ => false end.
Definition seller_memos (policy : MemoPolicy) (datas : list (list byte)) : list (list byte) :=
  filter (fun d => binding_memo policy d = false) datas.
Definition binding_memos (policy : MemoPolicy) (datas : list (list byte)) : list (list byte) :=
  filter (fun d => binding_memo policy d = true) datas.

(** The memos a policy accepts: exactly one seller's memo when one is required,
    and exactly one binding memo when that is. *)
Definition memos_ok (policy : MemoPolicy) (datas : list (list byte)) : Prop :=
  match policy with
  | Optional => True
  | Required expected => exists d, datas = [d] /\ memo_ok expected d
  | RequiredWithBinding expected _ => exists d b,
      seller_memos policy datas = [d] /\ memo_ok expected d /\
      binding_memos policy datas = [b] /\ binding_ok b
  end.

Section layout.
Context (keys : list Pubkey) (fee_payer : Pubkey).

Definition runs (program : Pubkey) (ix : CompiledInstruction) : Prop :=
  keys !! program_id_index ix = Some program.
#[export] Instance runs_dec program ix : Decision (runs program ix).
Proof. unfold runs. apply _. Defined.

(** A wrapper runs its program on accounts other than the fee payer's. *)
Definition wraps (program : Pubkey) (ix : CompiledInstruction) : Prop :=
  runs program ix /\ names keys fee_payer ix = false.

(** A unit limit, then a unit price, each optional and within its ceiling. *)
Definition bounded_ops (ops : list (option ComputeBudgetOp)) : Prop :=
  exists limit price : option Z,
    ops = (Some ∘ UnitLimit <$> option_list limit) ++ (Some ∘ UnitPrice <$> option_list price) /\
    (forall u, limit = Some u -> u <= OPEN_MAX_COMPUTE_UNIT_LIMIT) /\
    (forall p, price = Some p -> p <= MAX_COMPUTE_UNIT_PRICE_MICROLAMPORTS).

Record prefix_layout (budget : list CompiledInstruction) : Prop := {
  budget_wraps : Forall (wraps COMPUTE_BUDGET_PROGRAM_ID) budget;
  budget_bounded : bounded_ops (decode_compute_budget_op <$> budget);
}.

Record suffix_layout (policy : MemoPolicy) (suffix : list CompiledInstruction) : Prop := {
  suffix_wraps : Forall (fun ix => wraps LIGHTHOUSE_PROGRAM ix \/ wraps MEMO_PROGRAM ix) suffix;
  suffix_length : (length suffix <= max_suffix policy)%nat;
  suffix_lighthouse :
    (length (filter (runs LIGHTHOUSE_PROGRAM) suffix) <= OPEN_MAX_LIGHTHOUSE_INSTRUCTIONS)%nat;
  suffix_memos : memos_ok policy (data <$> filter (runs MEMO_PROGRAM) suffix);
}.
End layout.

(** ** The prefix *)

Lemma program_of_ok keys label ix p : program_of keys label ix = Ok p <-> runs keys p ix.
Proof. unfold program_of, runs. destruct (keys !! program_id_index ix); simpl; naive_solver. Qed.

Lemma reject_ok keys key ix wrapper :
  reject_fee_payer keys key ix wrapper = Ok tt <-> names keys key ix = false.
Proof. unfold reject_fee_payer. destruct (names keys key ix); split; congruence. Qed.

(** The operations a prefix may still hold after the ones seen. *)
Definition ops_left (seen_limit seen_price : bool) (ops : list (option ComputeBudgetOp)) : Prop :=
  bounded_ops ops /\
  (seen_limit = true \/ seen_price = true -> forall u, Some (UnitLimit u) ∉ ops) /\
  (seen_price = true -> ops = []).

Lemma bounded_ops_cons op ops :
  bounded_ops (op :: ops) <->
  (exists u, op = Some (UnitLimit u) /\ u <= OPEN_MAX_COMPUTE_UNIT_LIMIT /\ bounded_ops ops /\
     forall u', Some (UnitLimit u') ∉ ops) \/
  (exists p, op = Some (UnitPrice p) /\ p <= MAX_COMPUTE_UNIT_PRICE_MICROLAMPORTS /\ ops = []).
Proof.
  split.
  - intros ([u|] & [p|] & Heq & Hu & Hp); simplify_eq/=.
    + left. exists u. split_and!; [done|by apply Hu| |set_solver].
      exists None, (Some p). by split_and!.
    + left. exists u. split_and!; [done|by apply Hu| |set_solver].
      exists None, None. by split_and!.
    + right. exists p. split_and!; [done|by apply Hp|done].
  - intros [(u & -> & Hu & (limit & price & -> & Hl & Hp) & Hno)|(p & -> & Hp & ->)].
    + destruct limit as [u'|]; [exfalso; apply (Hno u'); simpl; set_solver|].
      exists (Some u), price. split_and!; [done|by intros ? [= <-]|done].
    + exists None, (Some p). split_and!; [done|done|by intros ? [= <-]].
Qed.

Lemma prefix_op_ok label op ops l p l' p' :
  prefix_op label op l p = Ok (l', p') ->
  ops_left l p (op :: ops) <-> ops_left l' p' ops.
Proof.
  unfold prefix_op, ops_left. rewrite bounded_ops_cons.
  destruct op as [[u|q|n]|]; try done; [destruct l; [done|]|]; (destruct p; [done|]);
    case_decide; try done; intros [= <- <-].
  - split.
    + intros ([(u' & [= <-] & _ & Hb & Hno)|(? & ? & _)] & _ & _); [|done]. by split_and!.
    + intros (Hb & Hno & _). split_and!; [left; exists u; split_and!; auto; lia|intuition discriminate|done].
  - split.
    + intros ([(? & ? & _)|(q' & [= <-] & _ & ->)] & _ & _); [done|].
      split_and!; [|set_solver|done]. exists None, None. by split_and!.
    + intros (_ & _ & Hnil). rewrite Hnil by done.
      split_and!; [right; exists q; split_and!; [done|lia|done]| |done].
      intros _ u. set_solver.
Qed.

Lemma prefix_op_some label op l p ops :
  ops_left l p (op :: ops) -> exists s, prefix_op label op l p = Ok s.
Proof.
  intros (Hb & Hno & Hp). destruct p; [by specialize (Hp eq_refl)|]. apply bounded_ops_cons in Hb.
  destruct Hb as [(u & -> & Hu & _)|(q & -> & Hq & _)]; simpl.
  - destruct l; [exfalso; apply (Hno (or_introl eq_refl) u); set_solver|].
    rewrite decide_False by lia. eauto.
  - rewrite decide_False by lia. eauto.
Qed.

Lemma ops_left_nil l p : ops_left l p [].
Proof. split_and!; [exists None, None; by split_and!|set_solver|done]. Qed.

Lemma scan_prefix_ok keys label fee_payer ixs l p rest :
  scan_prefix keys label fee_payer ixs l p = Ok rest <->
  exists budget, ixs = budget ++ rest /\
    Forall (wraps keys fee_payer COMPUTE_BUDGET_PROGRAM_ID) budget /\
    ops_left l p (decode_compute_budget_op <$> budget) /\
    (forall ix, head rest = Some ix -> exists program, runs keys program ix /\
       program <> COMPUTE_BUDGET_PROGRAM_ID).
Proof.
  revert l p. induction ixs as [|ix ixs IH]; intros l p; cbn [scan_prefix].
  { split.
    - intros [= <-]. exists []. by split_and!; [|constructor|apply ops_left_nil|].
    - by intros ([|] & Heq & _); simplify_eq/=. }
  rewrite rbind_ok. setoid_rewrite program_of_ok. split.
  - intros (program & Hrun & Hrest). case_decide as Hp.
    { injection Hrest as <-. exists []. split_and!; [done|constructor|apply ops_left_nil|].
      intros ? [= <-]. eauto. }
    subst program.
    apply rbind_ok in Hrest as ([] & Hrej%reject_ok & Hrest).
    apply rbind_ok in Hrest as ([l' p'] & Hop & Hrest).
    apply IH in Hrest as (budget & -> & Hw & Hl & Hhd). exists (ix :: budget).
    split_and!; [done|by constructor| |done]. by eapply prefix_op_ok.
  - intros ([|ix' budget] & Heq & Hw & Hl & Hhd); simplify_eq/=.
    + destruct (Hhd _ eq_refl) as (program & Hrun & Hne). exists program. split; [done|].
      by rewrite decide_True.
    + apply Forall_cons in Hw as [[Hrun Hrej] Hw]. exists COMPUTE_BUDGET_PROGRAM_ID. split; [done|].
      rewrite decide_False by auto. rewrite (proj2 (reject_ok _ _ _ _) Hrej). simpl.
      destruct (prefix_op_some label _ _ _ _ Hl) as ([l' p'] & Hop). rewrite Hop. simpl.
      apply IH. exists budget. split_and!; [done|done| |done]. by eapply prefix_op_ok.
Qed.

(** ** The suffix *)

Lemma forallb_hexdigit d :
  forallb is_ascii_hexdigit d = true <-> Forall (fun b => is_ascii_hexdigit b = true) d.
Proof. rewrite forallb_forall, Forall_forall. by setoid_rewrite list_elem_of_In. Qed.

Lemma memo_text_ok d label text : memo_text d label = Ok text <-> text = d /\ binding_ok d.
Proof.
  unfold memo_text, binding_ok. case_decide; [split; [done|intros (_ & ? & _); lia]|].
  destruct (utf8_valid d); split; try done; [intros [= <-]; split_and!; [done|lia|done]|by intros [-> _]|].
  by intros (_ & _ & ?).
Qed.

Lemma memo_expected_ok d label e :
  memo_expected d label e = Ok tt <->
  match e with
  | Some text => d = str_bytes text
  | None => (MIN_MEMO_NONCE_BYTES * 2 <= length d)%nat /\ Forall (fun b => is_ascii_hexdigit b = true) d
  end.
Proof.
  unfold memo_expected. destruct e as [t|]; [by case_decide|].
  rewrite <-forallb_hexdigit. case_bool_decide as Hl; cbn [orb]; [split; [done|intros [? _]; lia]|].
  destruct (forallb is_ascii_hexdigit d); cbn [negb]; split; try done; [intros _; split; [lia|done]|by intros [_ ?]].
Qed.

Definition seller_ok (policy : MemoPolicy) (d : list byte) : Prop :=
  match policy with Optional => True | Required e | RequiredWithBinding e _ => memo_ok e d end.

Lemma check_memo_data_ok d label policy :
  check_memo_data d label policy = Ok tt <-> seller_ok policy d.
Proof.
  unfold check_memo_data, memo_ok. destruct policy as [|e|e prefix]; [done|..]; simpl.
  all: rewrite rbind_ok; setoid_rewrite memo_text_ok; unfold binding_ok.
  all: setoid_rewrite memo_expected_ok.
  all: split; [intros (? & [-> [? ?]] & ?); by split_and!|intros (? & ? & ?); by exists d].
Qed.

(** One memo, within what its policy counts. *)
Definition counted (policy : MemoPolicy) (memo_count binding_count : nat) : Prop :=
  (policy = Optional \/ memo_count <= 1)%nat /\ (binding_count <= 1)%nat.

Lemma scan_memo_ok label policy d mc bc mc' bc' :
  counted policy mc bc ->
  scan_memo label policy d mc bc = Ok (mc', bc') <->
  counted policy mc' bc' /\
  if binding_memo policy d then mc' = mc /\ bc' = S bc /\ binding_ok d
  else mc' = S mc /\ bc' = bc /\ seller_ok policy d.
Proof.
  intros [Hm Hb]. unfold scan_memo, counted.
  destruct policy as [|e|e prefix]; cbn [binding_memo]; [..|destruct (starts_with d prefix)].
  all: try (case_decide; [split; [done|]; intros [[[?|?] ?] (? & ? & _)]; simplify_eq; lia|]).
  all: rewrite rbind_ok; split.
  all: first [intros ([] & Hok%check_memo_data_ok & [= <- <-])|intros (? & [_ Hok]%memo_text_ok & [= <- <-])
    |intros [_ (-> & -> & Hok)]].
  all: first [split_and!; auto; lia|eexists; split; [|done]].
  all: first [by apply check_memo_data_ok|by apply memo_text_ok].
Qed.

Lemma lighthouse_not_memo keys ix : runs keys LIGHTHOUSE_PROGRAM ix -> runs keys MEMO_PROGRAM ix -> False.
Proof. unfold runs. intros Hl Hm. rewrite Hl in Hm. discriminate Hm. Qed.

Lemma scan_suffix_cons keys label policy key ix ixs lc oc mc bc r :
  scan_suffix keys label policy key (ix :: ixs) lc oc mc bc = Ok r <->
  (S oc <= max_suffix policy)%nat /\ names keys key ix = false /\
  ((runs keys LIGHTHOUSE_PROGRAM ix /\ (S lc <= OPEN_MAX_LIGHTHOUSE_INSTRUCTIONS)%nat /\
    scan_suffix keys label policy key ixs (S lc) (S oc) mc bc = Ok r) \/
   (runs keys MEMO_PROGRAM ix /\ exists mc1 bc1, scan_memo label policy (data ix) mc bc = Ok (mc1, bc1) /\
    scan_suffix keys label policy key ixs lc (S oc) mc1 bc1 = Ok r)).
Proof.
  cbn [scan_suffix]. case_decide as Ho; [split; [done|intros [? _]; lia]|].
  rewrite rbind_ok. setoid_rewrite program_of_ok. split.
  - intros (program & Hrun & Hrest). split; [lia|]. repeat case_decide; simplify_eq.
    + apply rbind_ok in Hrest as ([] & Hn%reject_ok & Hrest). split; [done|]. left. by split_and!; [|lia|].
    + apply rbind_ok in Hrest as ([] & Hn%reject_ok & Hrest). split; [done|]. right.
      apply rbind_ok in Hrest as ([mc1 bc1] & Hm & Hrest). eauto 10.
  - intros (_ & Hn & [(Hrun & Hlc & Hrest)|(Hrun & mc1 & bc1 & Hm & Hrest)]).
    + exists LIGHTHOUSE_PROGRAM. split; [done|]. rewrite decide_True by done.
      rewrite decide_False by lia. by rewrite (proj2 (reject_ok _ _ _ _) Hn).
    + exists MEMO_PROGRAM. split; [done|]. rewrite decide_False by done. rewrite decide_True by done.
      rewrite (proj2 (reject_ok _ _ _ _) Hn). simpl. by rewrite Hm.
Qed.

(** What the memos of a suffix leave in the counters, and what they must be. *)
Definition memos_left (policy : MemoPolicy) (datas : list (list byte)) (mc bc mc' bc' : nat) : Prop :=
  mc' = (mc + length (seller_memos policy datas))%nat /\
  bc' = (bc + length (binding_memos policy datas))%nat /\ counted policy mc' bc' /\
  Forall (seller_ok policy) (seller_memos policy datas) /\
  Forall binding_ok (binding_memos policy datas).

Lemma memos_left_cons label policy d datas mc bc mc' bc' :
  counted policy mc bc ->
  memos_left policy (d :: datas) mc bc mc' bc' <->
  exists mc1 bc1, scan_memo label policy d mc bc = Ok (mc1, bc1) /\ counted policy mc1 bc1 /\
    memos_left policy datas mc1 bc1 mc' bc'.
Proof.
  intros Hc. unfold memos_left, seller_memos, binding_memos. rewrite !filter_cons.
  setoid_rewrite scan_memo_ok; [|done]. unfold counted in *.
  destruct (binding_memo policy d); simpl; rewrite Forall_cons; split.
  - intros (-> & -> & [? ?] & ? & ? & ?). exists mc, (S bc). split_and!; intuition lia.
  - intros (mc1 & bc1 & (_ & -> & -> & ?) & [? ?] & -> & -> & [? ?] & ? & ?). split_and!; auto; lia.
  - intros (-> & -> & [? ?] & [? ?] & ?). exists (S mc), bc. split_and!; intuition lia.
  - intros (mc1 & bc1 & (_ & -> & -> & ?) & [? ?] & -> & -> & [? ?] & ? & ?). split_and!; auto; lia.
Qed.

Lemma scan_suffix_ok keys label policy key ixs lc oc mc bc mc' bc' :
  counted policy mc bc -> (lc <= OPEN_MAX_LIGHTHOUSE_INSTRUCTIONS)%nat -> (oc <= max_suffix policy)%nat ->
  scan_suffix keys label policy key ixs lc oc mc bc = Ok (mc', bc') <->
  Forall (fun ix => wraps keys key LIGHTHOUSE_PROGRAM ix \/ wraps keys key MEMO_PROGRAM ix) ixs /\
  (oc + length ixs <= max_suffix policy)%nat /\
  (lc + length (filter (runs keys LIGHTHOUSE_PROGRAM) ixs) <= OPEN_MAX_LIGHTHOUSE_INSTRUCTIONS)%nat /\
  memos_left policy (data <$> filter (runs keys MEMO_PROGRAM) ixs) mc bc mc' bc'.
Proof.
  revert lc oc mc bc. induction ixs as [|ix ixs IH]; intros lc oc mc bc Hc Hlc Hoc.
  { unfold memos_left. cbn. rewrite !Nat.add_0_r. split.
    - intros [= <- <-]. by split_and!.
    - by intros (_ & _ & _ & -> & -> & _). }
  rewrite scan_suffix_cons, Forall_cons, !filter_cons. unfold wraps at 1 2. split.
  - intros (Ho & Hn & [(Hrun & Hl & Hrest)|(Hrun & mc1 & bc1 & Hm & Hrest)]).
    + apply IH in Hrest as (Hall & Hlen & Hlight & Hmemo); [|done..].
      rewrite decide_True by done. rewrite decide_False by (by intros ?; eapply lighthouse_not_memo).
      simpl. split_and!; [auto|done|lia|lia|done].
    + assert (Hc1 : counted policy mc1 bc1) by (eapply scan_memo_ok; [|done]; done).
      apply IH in Hrest as (Hall & Hlen & Hlight & Hmemo); [|done..].
      rewrite decide_False by (by intros ?; eapply lighthouse_not_memo). rewrite decide_True by done.
      simpl. split_and!; [auto|done|lia|lia|]. apply (memos_left_cons label); [done|]. eauto.
  - intros ([[[Hrun Hn]|[Hrun Hn]] Hall] & Hlen & Hlight & Hmemo); (split_and!; [simpl in *; lia|done|]).
    + rewrite decide_True in Hlight by done.
      rewrite decide_False in Hmemo by (by intros ?; eapply lighthouse_not_memo). simpl in *.
      left. split_and!; [done|lia|]. apply IH; [done|lia|lia|]. split_and!; [done|lia|lia|done].
    + rewrite decide_False in Hlight by (by intros ?; eapply lighthouse_not_memo).
      rewrite decide_True in Hmemo by done. cbn [fmap list_fmap] in Hmemo. simpl in *.
      apply (memos_left_cons label) in Hmemo as (mc1 & bc1 & Hm & Hc1 & Hrest); [|done].
      right. split; [done|]. exists mc1, bc1. split; [done|].
      apply IH; [done|lia|lia|]. split_and!; [done|lia|lia|done].
Qed.

Lemma singleton_ok {A} (P : A -> Prop) (l : list A) :
  (exists d, l = [d] /\ P d) <-> length l <> 0%nat /\ (length l <= 1)%nat /\ Forall P l.
Proof.
  split.
  - intros (d & -> & Hd). split_and!; [done|done|by constructor].
  - destruct l as [|d [|d' l]]; simpl; intros (? & ? & Hl); try lia.
    exists d. split; [done|]. by apply Forall_cons in Hl as [? _].
Qed.

Lemma unbound_memos policy datas :
  match policy with RequiredWithBinding _ _ => False | _ => True end ->
  seller_memos policy datas = datas /\ binding_memos policy datas = [].
Proof.
  unfold seller_memos, binding_memos. intros Hp. split.
  - induction datas as [|d datas IH]; [done|]. rewrite filter_cons, IH.
    destruct policy; [done|done|by destruct Hp].
  - induction datas as [|d datas IH]; [done|]. rewrite filter_cons, IH.
    destruct policy; [done|done|by destruct Hp].
Qed.

Lemma check_memo_counts_ok label policy mc bc :
  check_memo_counts label policy mc bc = Ok tt <->
  match policy with
  | Optional => True
  | Required _ => mc <> 0%nat
  | RequiredWithBinding _ _ => mc <> 0%nat /\ bc <> 0%nat
  end.
Proof.
  unfold check_memo_counts.
  destruct policy, mc, bc; cbn; split; try done; by intros [? ?].
Qed.

Lemma memos_left_ok label policy datas mc bc :
  memos_left policy datas 0 0 mc bc /\ check_memo_counts label policy mc bc = Ok tt <->
  mc = length (seller_memos policy datas) /\ bc = length (binding_memos policy datas) /\
  memos_ok policy datas.
Proof.
  rewrite check_memo_counts_ok. unfold memos_left, counted. simpl.
  destruct policy as [|e|e prefix]; cbn [memos_ok seller_ok].
  - destruct (unbound_memos Optional datas I) as [-> ->]. simpl. split; [tauto|].
    intros (-> & -> & _). split_and!; auto. by apply Forall_true.
  - destruct (unbound_memos (Required e) datas I) as [-> ->]. rewrite (singleton_ok (memo_ok e)). simpl.
    split.
    + intros [(-> & -> & [[[=]|Hl] _] & Hall & _) Hne]. by split_and!.
    + intros (-> & -> & Hne & Hl & Hall). split_and!; auto.
  - set (S := seller_memos _ datas). set (B := binding_memos _ datas).
    assert (Heq : (exists d b, S = [d] /\ memo_ok e d /\ B = [b] /\ binding_ok b) <->
      (exists d, S = [d] /\ memo_ok e d) /\ (exists b, B = [b] /\ binding_ok b)) by naive_solver.
    rewrite Heq, !singleton_ok. clear Heq. split.
    + intros [(-> & -> & [[[=]|Hl] Hb] & Hs & Hbs) [Hm Hbm]]. by split_and!.
    + intros (-> & -> & (Hm & Hl & Hs) & Hbm & Hb & Hbs). split_and!; auto.
Qed.

Lemma suffix_scanned keys label policy key suffix :
  (exists counts, scan_suffix keys label policy key suffix 0 0 0 0 = Ok counts /\
    check_memo_counts label policy counts.1 counts.2 = Ok tt) <->
  suffix_layout keys key policy suffix.
Proof.
  assert (Hc : counted policy 0 0) by (split; [right|]; lia).
  split.
  - intros ([mc bc] & (Hall & Hlen & Hl & Hm)%scan_suffix_ok & Hcounts); [|done|lia|lia].
    destruct (proj1 (memos_left_ok label _ _ _ _) (conj Hm Hcounts)) as (_ & _ & Hok). by split.
  - intros [Hall Hlen Hl Hm].
    set (datas := data <$> filter (runs keys MEMO_PROGRAM) suffix) in *.
    destruct (proj2 (memos_left_ok label policy datas _ _) (conj eq_refl (conj eq_refl Hm)))
      as [Hleft Hcounts].
    eexists (_, _). split; [|exact Hcounts]. apply scan_suffix_ok; [done|lia|lia|]. by split_and!.
Qed.

Lemma priority_fee_checked m max :
  (exists fee, check_priority_fee m max = Ok fee) <-> is_ok (declared m) = true /\ runtime_fee m <= max.
Proof.
  unfold check_priority_fee. destruct (declared m) as [d|] eqn:Hd; simpl; [|naive_solver].
  rewrite (priority_fee_of_runtime _ _ Hd). case_decide; split; try naive_solver lia.
Qed.

(** What the scan accepted. *)
Lemma scan_layout_ok tx keys program_id discriminator label policy primary :
  scan_channel_tx_layout tx keys program_id discriminator label policy = Ok primary ->
  exists fee_payer budget suffix,
    head keys = Some fee_payer /\
    instructions (body (message tx)) = budget ++ primary :: suffix /\
    prefix_layout keys fee_payer budget /\
    (runs keys program_id primary /\ program_id <> COMPUTE_BUDGET_PROGRAM_ID /\
     byte_to_Z <$> head (data primary) = Some discriminator) /\
    suffix_layout keys fee_payer policy suffix /\
    is_ok (declared (message tx)) = true /\
    runtime_fee (message tx) <= MAX_SPONSORED_PRIORITY_FEE_LAMPORTS.
Proof.
  unfold scan_channel_tx_layout. rewrite rbind_ok.
  intros (fee_payer & Hhd & Hscan). exists fee_payer.
  apply rbind_ok in Hscan as (rest & (budget & Hixs & Hw & (Hb & _) & Hne)%scan_prefix_ok & Hscan).
  destruct rest as [|primary' suffix]; [done|].
  apply rbind_ok in Hscan as (program & Hrun%program_of_ok & Hscan). repeat case_decide; simplify_eq.
  apply rbind_ok in Hscan as (counts & Hsuf & Hscan).
  apply rbind_ok in Hscan as ([] & Hcounts & Hscan).
  apply rbind_ok in Hscan as (fee & Hfee%rmap_err_ok & [= <-]).
  destruct (Hne _ eq_refl) as (program & Hrun' & Hprogram).
  assert (program = program_id) as -> by (unfold runs in *; congruence).
  assert (Hfees := proj1 (priority_fee_checked _ _) (ex_intro _ fee Hfee)).
  assert (Hlayout := proj1 (suffix_scanned keys label policy fee_payer suffix)
    (ex_intro _ counts (conj Hsuf Hcounts))).
  exists budget, suffix. destruct (head keys); simplify_eq/=. destruct Hfees. by split_and!.
Qed.

(** C8. The layout scan accepts exactly the layouts its sponsor means to pay for,
    and answers their channel instruction: a prefix of at most one unit limit and
    one unit price, each within its ceiling, then one instruction of the channel
    program with the operation's discriminator, then a bounded suffix of memos
    as the policy declares and Lighthouse assertions, where no instruction but
    the channel's names the fee payer, and the fee the runtime would charge is
    within the sponsored maximum. *)
Theorem layout_iff tx keys program_id discriminator label policy primary :
  scan_channel_tx_layout tx keys program_id discriminator label policy = Ok primary <->
  exists fee_payer budget suffix,
    head keys = Some fee_payer /\
    instructions (body (message tx)) = budget ++ primary :: suffix /\
    prefix_layout keys fee_payer budget /\
    (runs keys program_id primary /\ program_id <> COMPUTE_BUDGET_PROGRAM_ID /\
     byte_to_Z <$> head (data primary) = Some discriminator) /\
    suffix_layout keys fee_payer policy suffix /\
    is_ok (declared (message tx)) = true /\
    runtime_fee (message tx) <= MAX_SPONSORED_PRIORITY_FEE_LAMPORTS.
Proof.
  split; [apply scan_layout_ok|]. unfold scan_channel_tx_layout. rewrite rbind_ok.
  intros (fee_payer & budget & suffix & Hhd & Hixs & [Hw Hb] & (Hrun & Hne & Hdisc) & Hsuf & Hfees).
  apply priority_fee_checked in Hfees as [fee Hfee].
  apply (suffix_scanned _ label) in Hsuf as (counts & Hsuf & Hcounts).
  exists fee_payer. rewrite Hhd. split; [done|].
  assert (Hscan : scan_prefix keys label fee_payer (instructions (body (message tx))) false false =
    Ok (primary :: suffix)).
  { apply scan_prefix_ok. exists budget. split_and!; [done|done| |].
    - split_and!; [done|by intros [|]|done].
    - intros ? [= <-]. eauto. }
  rewrite Hscan. cbn [rbind]. rewrite (proj2 (program_of_ok _ _ _ _) Hrun). cbn [rbind].
  rewrite !decide_False by auto. rewrite Hsuf. cbn [rbind]. rewrite Hcounts. cbn [rbind].
  by rewrite Hfee.
Qed.

(** What a sponsor relies on: every instruction but the channel's leaves the fee
    payer out, and the fee is bounded. *)
Lemma layout_sponsor tx keys program_id discriminator label policy primary sponsor :
  scan_channel_tx_layout tx keys program_id discriminator label policy = Ok primary ->
  head keys = Some sponsor ->
  exists budget suffix,
    instructions (body (message tx)) = budget ++ primary :: suffix /\
    Forall (fun ix => names keys sponsor ix = false) (budget ++ suffix) /\
    runs keys program_id primary /\ byte_to_Z <$> head (data primary) = Some discriminator /\
    runtime_fee (message tx) <= MAX_SPONSORED_PRIORITY_FEE_LAMPORTS.
Proof.
  intros Hscan Hs. apply scan_layout_ok in Hscan as
    (fee_payer & budget & suffix & Hhd & Hixs & [Hw _] & (Hrun & _ & Hd) & [Hsw _ _ _] & _ & Hfee).
  rewrite Hhd in Hs. injection Hs as ->. exists budget, suffix. split_and!; try done.
  apply Forall_app. split.
  - eapply Forall_impl; [exact Hw|]. by intros ix [_ ?].
  - eapply Forall_impl; [exact Hsw|]. by intros ix [[_ ?]|[_ ?]].
Qed.
