(* ===== verification/Signing.v ===== *)
(** Signing one slot of a transaction (src/rust/crates/kit/src/core/signing.rs and
    [cosign_fee_payer] of core/payment_channel/v1.rs). The signer is a key store of
    another crate: a record of its two operations, with what it promises as a
    class. *)
From stdpp Require Import base numbers option list strings pretty.
From S2P Require Import Prelude Bytes Voucher Tx Build.

(** [solana_keychain::TransactionSigner]. *)
Record TransactionSigner := {
  signer_pubkey : Pubkey;
  sign_transaction : VersionedTransaction -> result VersionedTransaction string;
}.

Definition key_position (key : Pubkey) (keys : list Pubkey) : option nat :=
  position (fun k => bool_decide (k = key)) keys.

(** A signature goes into the signer's own slot and changes nothing else. *)
Class SignerLaws (signer : TransactionSigner) : Prop := sign_own_slot tx signed :
  sign_transaction signer tx = Ok signed ->
  message signed = message tx /\
  exists index signature,
    key_position (signer_pubkey signer) (static_account_keys (body (message tx))) = Some index /\
    signatures signed = <[index := signature]> (signatures tx).

Definition sign_versioned_transaction_slot (signer : TransactionSigner) (tx : VersionedTransaction) :
    result VersionedTransaction Error :=
  let b := body (message tx) in
  let? signer_index := ok_or (key_position (signer_pubkey signer) (static_account_keys b))
    (Other "signer not found in transaction accounts") in
  let required_signatures := num_required_signatures b in
  if decide (required_signatures <= signer_index)%nat
  then Err (Other "signer is not a required transaction signer") else
  if decide (length (signatures tx) <> required_signatures)
  then Err (Other ("transaction has " +:+ pretty (length (signatures tx))
    +:+ " signature slots but requires " +:+ pretty required_signatures)) else
  rmap_err (fun error => Other ("transaction signing failed: " +:+ error)) (sign_transaction signer tx).

Definition cosign_versioned_fee_payer (signer : TransactionSigner) (expected_fee_payer : Pubkey)
    (tx : VersionedTransaction) : result VersionedTransaction Error :=
  if decide (signer_pubkey signer <> expected_fee_payer)
  then Err (Other "fee payer signer does not match the expected fee payer") else
  if decide (head (static_account_keys (body (message tx))) <> Some expected_fee_payer)
  then Err (Other "transaction fee payer does not match the expected fee payer") else
  sign_versioned_transaction_slot signer tx.

(** The payment-channel servers' co-signature. *)
Definition cosign_fee_payer (signer : TransactionSigner) (operator : Pubkey) (tx : VersionedTransaction) :
    result VersionedTransaction Error :=
  if decide (head (static_account_keys (body (message tx))) <> Some operator)
  then Err (Other "open transaction fee payer must be the advertised fee payer") else
  if decide (signer_pubkey signer <> operator)
  then Err (Other "fee payer signer must match the advertised fee payer") else
  sign_versioned_transaction_slot signer tx.

(** What a co-signature leaves: the fee payer's slot alone is new. *)
Record cosigned (operator : Pubkey) (tx signed : VersionedTransaction) : Prop := {
  cs_fee_payer : head (static_account_keys (body (message tx))) = Some operator;
  cs_message : message signed = message tx;
  cs_slots : length (signatures tx) = num_required_signatures (body (message tx));
  cs_signature : exists signature, signatures signed = <[0%nat := signature]> (signatures tx);
}.

Lemma key_position_head key keys : head keys = Some key -> key_position key keys = Some 0%nat.
Proof.
  destruct keys as [|k keys]; [done|]. intros [= ->]. unfold key_position. simpl.
  by rewrite bool_decide_true.
Qed.

Lemma sign_slot_ok signer `{!SignerLaws signer} tx signed :
  sign_versioned_transaction_slot signer tx = Ok signed ->
  head (static_account_keys (body (message tx))) = Some (signer_pubkey signer) ->
  cosigned (signer_pubkey signer) tx signed.
Proof.
  unfold sign_versioned_transaction_slot. intros Hok Hhd. rewrite (key_position_head _ _ Hhd) in Hok.
  cbn [ok_or rbind] in Hok. case_decide; [done|]. case_decide as Hl; [done|].
  apply rmap_err_ok in Hok. destruct (sign_own_slot _ _ Hok) as (Hm & i & s & Hi & Hs).
  rewrite (key_position_head _ _ Hhd) in Hi. injection Hi as <-. split; eauto.
Qed.

Lemma cosign_fee_payer_ok signer `{!SignerLaws signer} operator tx signed :
  cosign_fee_payer signer operator tx = Ok signed -> cosigned operator tx signed.
Proof.
  unfold cosign_fee_payer. case_decide as Hh; [done|].
  case_decide as Hs; [done|]. subst operator. intros Hok. by apply sign_slot_ok.
Qed.

(** Both co-signatures agree. *)
Lemma cosign_agree signer fee_payer tx signed :
  cosign_versioned_fee_payer signer fee_payer tx = Ok signed <-> cosign_fee_payer signer fee_payer tx = Ok signed.
Proof. unfold cosign_versioned_fee_payer, cosign_fee_payer. repeat case_decide; tauto || done. Qed.

(** A signer for examples: it writes its signature into its own slot. *)
Module SigningDemo.
Definition signer (key : Pubkey) (signature : list byte) : TransactionSigner := {|
  signer_pubkey := key;
  sign_transaction tx :=
    match key_position key (static_account_keys (body (message tx))) with
    | Some index => Ok {| signatures := <[index := signature]> (signatures tx); message := message tx |}
    | None => Err "signer not found"
    end |}.

#[global] Instance signer_laws key signature : SignerLaws (signer key signature).
Proof.
  intros tx signed. simpl. destruct (key_position _ _) as [i|] eqn:Hi; [|done]. intros [= <-]. eauto.
Qed.
End SigningDemo.
