(* ===== verification/Deployments.v ===== *)
(** Hooks and deployments of the payment-channels program
    (src/rust/crates/kit/src/core/payment_channel/v2.rs), over any representation of
    a public key: what a valid hook configuration is, and which program speaks
    which version of the ABI. *)
From stdpp Require Import base numbers option list strings.
From S2P Require Import Prelude Bytes Voucher.
Open Scope Z_scope.

(** * Hooks *)

Definition V1_PROGRAM_ID : string := "CHNLxYvVA28MJP9PrFuDXccuoGXAx7jBacfLEkahyGsX".
Definition PAYMENT_CHANNELS_PROGRAM_ID : string := "CHNLxBtXw7VPqd5GMcbtVoEbn4ehyaSoiHj56Ao5sWkJ".
Definition MAX_HOOK_ACCOUNTS : nat := 4.
Definition MAX_STATIC_DATA : nat := 32.

Record HookAccount := { ha_address : string; ha_writable : bool }.

Record HookDescriptor := {
  hd_program_id : string;
  hd_entrypoint : list byte;
  hd_accounts : list HookAccount;
  hd_static_data : list byte;
}.

Record ChannelHooks := {
  pre_fund : option HookDescriptor;
  post_fund : option HookDescriptor;
  pre_distribute : option HookDescriptor;
  post_distribute : option HookDescriptor;
}.

Definition no_hooks : ChannelHooks :=
  {| pre_fund := None; post_fund := None; pre_distribute := None; post_distribute := None |}.

Definition invalid (message : string) : Error := Other ("payment-channel ABI: " +:+ message).

Definition slots (h : ChannelHooks) : list (option HookDescriptor) :=
  [pre_fund h; post_fund h; pre_distribute h; post_distribute h].

Definition hooks_is_empty (h : ChannelHooks) : bool := forallb (fun slot => bool_decide (slot = None)) (slots h).

#[export] Instance HookAccount_eq_dec : EqDecision HookAccount.
Proof. solve_decision. Defined.
#[export] Instance HookDescriptor_eq_dec : EqDecision HookDescriptor.
Proof. solve_decision. Defined.
#[export] Instance ChannelHooks_eq_dec : EqDecision ChannelHooks.
Proof. solve_decision. Defined.

(** ** Keys

    How a file holds a public key: decidable equality, the parsing of its base58
    text, and the all-zero key ([Pubkey::default]). *)
Class PubkeyRep (K : Type) := {
  pubkey_eq_dec :: EqDecision K;
  parse_pubkey : string -> result K Error;
  default_pubkey : K;
}.

Record Deployment {K : Type} := { dp_program_id : K; dp_version : Z }.
Arguments Deployment : clear implicits.

Section keys.
Context {K : Type} `{!PubkeyRep K}.

(** [expect]s its own constant to parse. *)
Definition default_program_id : K :=
  match parse_pubkey V1_PROGRAM_ID with Ok key => key | Err _ => default_pubkey end.

(** The account loop of [validate]; [seen] is its [HashSet]. *)
Fixpoint validate_accounts (program : K) (seen : list K) (accounts : list HookAccount) :
    result unit Error :=
  match accounts with
  | [] => Ok tt
  | account :: accounts =>
      let? address := parse_pubkey (ha_address account) in
      if decide (address ∈ seen \/ address = program)
      then Err (invalid "duplicate or target-aliasing hook account")
      else validate_accounts program (address :: seen) accounts
  end.

Definition validate_hook (hook : HookDescriptor) : result unit Error :=
  let? program := parse_pubkey (hd_program_id hook) in
  let? self :=
    if decide (program = default_pubkey) then Ok true
    else rmap (fun own => bool_decide (program = own)) (parse_pubkey PAYMENT_CHANNELS_PROGRAM_ID) in
  if (self : bool) then Err (invalid "enabled hook has zero or self target program") else
  if decide (MAX_HOOK_ACCOUNTS < length (hd_accounts hook) \/
             MAX_STATIC_DATA < length (hd_static_data hook))%nat
  then Err (invalid "hook exceeds account or static-data bounds") else
  validate_accounts program [] (hd_accounts hook).

Fixpoint validate_slots (slots : list (option HookDescriptor)) : result unit Error :=
  match slots with
  | [] => Ok tt
  | None :: slots => validate_slots slots
  | Some hook :: slots => let? _ := validate_hook hook in validate_slots slots
  end.

Definition validate (h : ChannelHooks) : result unit Error := validate_slots (slots h).

(** * Deployments *)

Definition default_deployment : Deployment K := {| dp_program_id := default_program_id; dp_version := 1 |}.

Definition resolve (program_id : K) (version : option Z) : result (Deployment K) Error :=
  let? actual :=
    if decide (program_id = default_program_id) then Ok 1 else
    let? second := parse_pubkey PAYMENT_CHANNELS_PROGRAM_ID in
    if decide (program_id = second) then Ok 2 else Err (invalid "unknown channel program") in
  if decide (default 1 version <> actual) then Err (invalid "program and ABI version mismatch")
  else Ok {| dp_program_id := program_id; dp_version := actual |}.

(** ** Validity *)

Lemma validate_accounts_ok program l : forall seen,
  validate_accounts program seen l = Ok tt <-> exists keys,
    Forall2 (fun a k => parse_pubkey (ha_address a) = Ok k) l keys /\ NoDup keys /\
    Forall (fun k => (k ∉ seen) /\ k <> program) keys.
Proof.
  induction l as [|a l IH]; intros seen; cbn [validate_accounts].
  { split; [intros _; exists []; split_and!; constructor|done]. }
  rewrite rbind_ok. split.
  - intros (k & Hk & Hrest). case_decide as Hd; [done|]. apply IH in Hrest as (keys & Hkeys & Hnd & Hall).
    rewrite Forall_forall in Hall. exists (k :: keys). split_and!; [by constructor| |].
    + constructor; [|done]. intros Hin. destruct (Hall k Hin) as [Hs _]. apply Hs. by left.
    + apply Forall_cons. split; [tauto|]. apply Forall_forall. intros k' Hin.
      destruct (Hall k' Hin) as [Hs Hp]. rewrite not_elem_of_cons in Hs. tauto.
  - intros (keys & Hkeys & Hnd & Hall). destruct keys as [|k keys]; [by inversion Hkeys|].
    apply Forall2_cons in Hkeys as [Hk Hkeys]. apply NoDup_cons in Hnd as [Hni Hnd].
    apply Forall_cons in Hall as [[Hs Hp] Hall]. exists k. split; [done|].
    rewrite decide_False by tauto. apply IH. exists keys. split_and!; [done|done|].
    rewrite Forall_forall in *. intros k' Hin. destruct (Hall k' Hin) as [Hs' Hp']. split; [|done].
    rewrite not_elem_of_cons. split; [|done]. by intros ->.
Qed.

(** What [validate] asks of one enabled hook. *)
Record valid_hook (h : HookDescriptor) : Prop := {
  vh_program : exists program own, parse_pubkey (hd_program_id h) = Ok program /\
    parse_pubkey PAYMENT_CHANNELS_PROGRAM_ID = Ok own /\ program <> default_pubkey /\ program <> own /\
    exists keys, Forall2 (fun a k => parse_pubkey (ha_address a) = Ok k) (hd_accounts h) keys /\
      NoDup keys /\ program ∉ keys;
  vh_accounts : (length (hd_accounts h) <= MAX_HOOK_ACCOUNTS)%nat;
  vh_static : (length (hd_static_data h) <= MAX_STATIC_DATA)%nat;
}.

Lemma validate_hook_ok h : validate_hook h = Ok tt <-> valid_hook h.
Proof.
  unfold validate_hook. split.
  - intros (program & Hp & (self & Hself & Hrest)%rbind_ok)%rbind_ok.
    destruct self; [done|].
    destruct (decide (program = default_pubkey)) as [|Hz]; [done|].
    destruct (parse_pubkey PAYMENT_CHANNELS_PROGRAM_ID) as [own|] eqn:Ho; [|done].
    apply ok_inj, bool_decide_eq_false in Hself. case_decide as Hb; [done|]. apply validate_accounts_ok in Hrest as (keys & Hk & Hnd & Hall).
    split; [|lia|lia]. exists program, own. split_and!; try tauto. exists keys. split_and!; [done|done|].
    intros Hin. rewrite Forall_forall in Hall. by destruct (Hall _ Hin).
  - intros [(program & own & Hp & Ho & Hz & Hown & keys & Hk & Hnd & Hni) Ha Hs].
    rewrite Hp, Ho. cbn [rbind rmap]. rewrite decide_False by done. cbn [rbind].
    rewrite bool_decide_false by done. rewrite decide_False by lia.
    apply validate_accounts_ok. exists keys. split_and!; [done|done|]. apply Forall_forall.
    intros k Hin. split; [apply not_elem_of_nil|]. by intros ->.
Qed.

(** A hook configuration is valid exactly when every enabled hook calls a
    program that is neither the zero key nor the channels program itself, stays
    within the account and data bounds, and names accounts that are distinct and
    none of which is the program it calls. *)
Theorem hooks_valid_iff h :
  validate h = Ok tt <-> forall hook, Some hook ∈ slots h -> valid_hook hook.
Proof.
  unfold validate. generalize (slots h). intros sl. induction sl as [|[hook|] sl IH]; cbn [validate_slots].
  - split; [by intros _ ? ?%not_elem_of_nil|done].
  - rewrite rbind_ok. setoid_rewrite elem_of_cons. split.
    + intros ([] & Hh%validate_hook_ok & Hrest) hook' [[= ->]|Hin]; [done|]. by apply (proj1 IH Hrest).
    + intros Hall. exists tt. split; [apply validate_hook_ok; by apply Hall; left|].
      apply IH. intros hook' Hin. apply Hall. by right.
  - setoid_rewrite elem_of_cons. rewrite IH. naive_solver.
Qed.
Lemma resolve_ok program version d :
  resolve program version = Ok d <->
  (program = default_program_id /\ default 1 version = 1 /\ d = {| dp_program_id := program; dp_version := 1 |}) \/
  (program <> default_program_id /\ parse_pubkey PAYMENT_CHANNELS_PROGRAM_ID = Ok program /\
   version = Some 2 /\ d = {| dp_program_id := program; dp_version := 2 |}).
Proof.
  unfold resolve. case_decide as Hp; cbn [rbind].
  - case_decide as Hv; [split; [done|intros [(_ & ? & _)|(? & _)]; done]|].
    split; [intros <-%ok_inj; by left|by intros [(_ & _ & ->)|(? & _)]].
  - destruct (parse_pubkey PAYMENT_CHANNELS_PROGRAM_ID) as [second|]; cbn [rbind].
    2:{ split; [done|intros [(? & _)|(_ & ? & _)]; done]. }
    case_decide as Hs; cbn [rbind].
    2:{ split; [done|intros [(? & _)|(_ & [= ?] & _)]; congruence]. }
    subst second. case_decide as Hv.
    + split; [done|]. intros [(? & _)|(_ & _ & -> & _)]; done.
    + split; [|intros [(? & _)|(_ & _ & _ & ->)]; done].
      intros <-%ok_inj. right. destruct version as [v|]; simpl in Hv; [|lia]. split_and!; [done|done|congruence|done].
Qed.
End keys.
