(* ===== verification/ChannelProgram.v ===== *)
(** The payment-channels program's wire forms
    (src/rust/crates/kit/src/core/payment_channel/v1.rs and the generated types it
    encodes): addresses, the Borsh layout of an open's arguments and of a channel
    account, the commitment to a distribution, the instruction builders and the
    scans of a message for channel instructions. *)
From stdpp Require Import base numbers option list strings pretty sets.
From S2P Require Import Prelude Bytes Voucher Tx Build Signing ChannelTx Deployments.
Open Scope Z_scope.

(** * Addresses

    A key is its base58 text. [solana_pubkey]'s bytes, the addresses it derives
    from seeds, SHA-256, and base58 of any length. *)
Class Addresses := {
  key_of_bytes : list byte -> Pubkey;
  key_bytes : Pubkey -> list byte;
  find_program_address : list (list byte) -> Pubkey -> Pubkey;
  sha256 : list byte -> list byte;
  bs58_into_vec : string -> option (list byte);
  encode_64 : list byte -> string;
}.

(** A 32-byte key and a 64-byte signature read back from their texts. *)
Class AddressesLaws `{Addresses} := {
  key_bytes_of l : length l = 32%nat -> key_bytes (key_of_bytes l) = l;
  bs58_encode_64 l : length l = 64%nat -> bs58_into_vec (encode_64 l) = Some l;
}.

Definition CHANNEL_SEED : list byte := str_bytes "channel".
Definition EVENT_AUTHORITY_SEED : list byte := str_bytes "event_authority".
Definition RENT_SYSVAR_ID : Pubkey := "SysvarRent111111111111111111111111111111111".
Definition ASSOCIATED_TOKEN_PROGRAM : Pubkey := "ATokenGPvbdGVxr1b2hvZbsiqW5xWH25efTNsLJA8knL".
Definition SYSTEM_PROGRAM : Pubkey := "11111111111111111111111111111111".
Definition FULL_SHARE_BPS : Z := 10000.
Definition OPEN_SLOT_WINDOW : Z := 1500.

Section addresses.
Context {Key : Type} `{Crypto Key, Addresses}.

(** Here a key is its text. *)
#[export] Instance text_pubkey : PubkeyRep Pubkey := {
  parse_pubkey value := rmap key_of_bytes
    (rmap_err (fun e => Other ("invalid pubkey " +:+ value +:+ ": " +:+ e)) (pubkey_from_str value));
  default_pubkey := key_of_bytes (replicate 32 Byte.x00);
}.

Definition find_channel_pda (payer payee mint authorized_signer : Pubkey) (salt open_slot : Z)
    (program_id : Pubkey) : Pubkey :=
  find_program_address [CHANNEL_SEED; key_bytes payer; key_bytes payee; key_bytes mint;
    key_bytes authorized_signer; u64_bytes salt; u64_bytes open_slot] program_id.

Definition find_event_authority_pda (program_id : Pubkey) : Pubkey :=
  find_program_address [EVENT_AUTHORITY_SEED] program_id.

Definition find_associated_token_address (owner mint token_program : Pubkey) : Pubkey :=
  find_program_address [key_bytes owner; key_bytes token_program; key_bytes mint]
    ASSOCIATED_TOKEN_PROGRAM.
End addresses.

(** * Borsh

    A reader takes a value off the front of the input; [None] is its end. *)

Definition read_bytes (n : nat) (l : list byte) : option (list byte * list byte) :=
  if decide (n <= length l)%nat then Some (take n l, drop n l) else None.
Definition read_le (n : nat) (l : list byte) : option (Z * list byte) :=
  '(b, l) ← read_bytes n l; Some (from_le b, l).
Definition read_i64 (l : list byte) : option (Z * list byte) :=
  '(b, l) ← read_bytes 8 l; Some (i64_from_le b, l).

Fixpoint read_many {A} (read : list byte -> option (A * list byte)) (n : nat) (l : list byte) :
    option (list A * list byte) :=
  match n with
  | O => Some ([], l)
  | S n => '(x, l) ← read l; '(xs, l) ← read_many read n l; Some (x :: xs, l)
  end.

Definition in_u16 (z : Z) : Prop := 0 <= z < 65536.
Definition in_u8 (z : Z) : Prop := 0 <= z < 256.

Section borsh.
Context `{Addresses, !AddressesLaws}.

Definition read_key (l : list byte) : option (Pubkey * list byte) :=
  '(b, l) ← read_bytes 32 l; Some (key_of_bytes b, l).

(** The text of 32 bytes. *)
Definition is_key (k : Pubkey) : Prop := exists l, length l = 32%nat /\ k = key_of_bytes l.

Lemma length_key_bytes k : is_key k -> length (key_bytes k) = 32%nat.
Proof. intros (l & Hl & ->). by rewrite key_bytes_of. Qed.
Lemma key_of_key_bytes k : is_key k -> key_of_bytes (key_bytes k) = k.
Proof. intros (l & Hl & ->). by rewrite key_bytes_of. Qed.

(** [reads read P w]: on exactly the values in [P] the reader inverts the writer,
    and it reads nothing else. *)
Definition reads {A} (read : list byte -> option (A * list byte)) (P : A -> Prop)
    (w : A -> list byte) : Prop :=
  forall l x rest, read l = Some (x, rest) <-> P x /\ l = w x ++ rest.

Lemma read_bytes_iff n l b rest :
  read_bytes n l = Some (b, rest) <-> length b = n /\ l = b ++ rest.
Proof.
  unfold read_bytes. case_decide as Hn; split.
  - intros [= <- <-]. rewrite length_take, take_drop. split; [lia|done].
  - intros [<- ->]. by rewrite take_app_length, drop_app_length.
  - done.
  - intros [<- ->]. rewrite length_app in Hn. lia.
Qed.

Lemma reads_bytes n : reads (read_bytes n) (fun b => length b = n) (fun b => b).
Proof. intros l b rest. apply read_bytes_iff. Qed.

Lemma reads_le n : reads (read_le n) (fun z => 0 <= z < 256 ^ Z.of_nat n) (le_bytes n).
Proof.
  intros l z rest. unfold read_le. rewrite bind_Some. split.
  - intros ([b r] & (Hb & ->)%read_bytes_iff & [= <- <-]). split.
    + rewrite <-Hb. apply from_le_range.
    + by rewrite <-Hb, le_bytes_from_le.
  - intros [Hz ->]. exists (le_bytes n z, rest). split; [by apply read_bytes_iff; rewrite length_le_bytes|].
    by rewrite from_le_bytes_small.
Qed.

Lemma i64_bytes_from_le l : length l = 8%nat -> i64_bytes (i64_from_le l) = l.
Proof.
  intros Hl. unfold i64_bytes, i64_from_le, i64_wrap. pose proof (from_le_range l) as Hr. rewrite Hl in Hr.
  change (256 ^ Z.of_nat 8) with (2 ^ 64) in Hr. rewrite Zplus_mod_idemp_l.
  replace (from_le l - i64_min + i64_min) with (from_le l) by lia.
  rewrite Z.mod_small by done. rewrite <-Hl. apply le_bytes_from_le.
Qed.

Lemma reads_i64 : reads read_i64 in_i64 i64_bytes.
Proof.
  intros l z rest. unfold read_i64. rewrite bind_Some. split.
  - intros ([b r] & (Hb & ->)%read_bytes_iff & [= <- <-]). split; [apply i64_from_le_range|].
    by rewrite i64_bytes_from_le.
  - intros [Hz ->]. exists (i64_bytes z, rest).
    split; [apply read_bytes_iff; split; [apply length_le_bytes|done]|]. by rewrite i64_from_le_bytes.
Qed.

Lemma reads_key : reads read_key is_key key_bytes.
Proof.
  intros l k rest. unfold read_key. rewrite bind_Some. split.
  - intros ([b r] & (Hb & ->)%read_bytes_iff & [= <- <-]). split; [by exists b|]. by rewrite key_bytes_of.
  - intros [Hk ->]. exists (key_bytes k, rest).
    split; [by apply read_bytes_iff; rewrite length_key_bytes|]. by rewrite key_of_key_bytes.
Qed.

Lemma reads_many {A} (read : list byte -> option (A * list byte)) P w :
  reads read P w ->
  forall n, reads (read_many read n) (fun xs => length xs = n /\ Forall P xs) (fun xs => mjoin (w <$> xs)).
Proof.
  intros Hr n. induction n as [|n IH]; intros l xs rest; cbn [read_many].
  - split; [intros [= <- <-]; done|]. intros [[Hl _] ->]. by destruct xs.
  - rewrite bind_Some. split.
    + intros ([x l'] & (Hx & ->)%Hr & Hrest). apply bind_Some in Hrest as ([ys l''] & Hys & [= <- <-]).
      apply IH in Hys as [[Hlen Hall] ->]. csimpl. rewrite <-app_assoc. split; [|done].
      split; [lia|by constructor].
    + intros [[Hlen Hall] ->]. destruct xs as [|x xs]; [done|]. apply Forall_cons in Hall as [Hx Hall].
      exists (x, mjoin (w <$> xs) ++ rest). split; [apply Hr; csimpl; by rewrite app_assoc|].
      rewrite bind_Some. exists (xs, rest). split; [|done]. apply IH. split; [|done].
      split; [simpl in Hlen; lia|done].
Qed.
End borsh.

(** * Data *)

Record Distribution := { dist_recipient : Pubkey; dist_bps : Z }.

#[export] Instance Distribution_eq_dec : EqDecision Distribution.
Proof. solve_decision. Defined.

Definition sole_recipient (recipient : Pubkey) : list Distribution :=
  [{| dist_recipient := recipient; dist_bps := FULL_SHARE_BPS |}].

Record OpenArgs := {
  oa_salt : Z;
  oa_deposit : Z;
  oa_grace_period : Z;
  oa_open_slot : Z;
  oa_recipients : list Distribution;
}.

(** A channel account. *)
Record ChannelAccount := {
  ca_discriminator : Z;
  ca_version : Z;
  ca_bump : Z;
  ca_status : Z;
  ca_salt : Z;
  ca_deposit : Z;
  ca_settled : Z;
  ca_payout_watermark : Z;
  ca_closure_started_at : Z;
  ca_payer_withdrawn_at : Z;
  ca_grace_period : Z;
  ca_distribution_hash : list byte;
  ca_payer : Pubkey;
  ca_payee : Pubkey;
  ca_authorized_signer : Pubkey;
  ca_mint : Pubkey;
  ca_rent_payer : Pubkey;
  ca_open_slot : Z;
}.

Inductive ChannelStatus := Open | Sealed | Closing | Distributed.
Definition status_u8 (s : ChannelStatus) : Z :=
  match s with Open => 0 | Sealed => 1 | Closing => 2 | Distributed => 3 end.

Definition CHANNEL_ACCOUNT_SIZE : nat := 256.
Definition CHANNEL_PAYER_OFFSET : nat := 88.
Definition CHANNEL_PAYEE_OFFSET : nat := 120.
Definition CHANNEL_AUTHORIZED_SIGNER_OFFSET : nat := 152.
Definition CHANNEL_RENT_PAYER_OFFSET : nat := 216.

(** Borsh's errors. *)
Definition ERR_UNEXPECTED_LENGTH : string := "Unexpected length of input".
Definition ERR_NOT_ALL_BYTES_READ : string := "Not all bytes read".

Section codec.
Context `{Addresses}.

Definition read_distribution (l : list byte) : option (Distribution * list byte) :=
  '(recipient, l) ← read_key l; '(bps, l) ← read_le 2 l;
  Some ({| dist_recipient := recipient; dist_bps := bps |}, l).
Definition distribution_bytes (d : Distribution) : list byte :=
  key_bytes (dist_recipient d) ++ le_bytes 2 (dist_bps d).

Definition read_open_args (l : list byte) : option (OpenArgs * list byte) :=
  '(salt, l) ← read_le 8 l; '(deposit, l) ← read_le 8 l; '(grace_period, l) ← read_le 4 l;
  '(open_slot, l) ← read_le 8 l; '(count, l) ← read_le 4 l;
  '(recipients, l) ← read_many read_distribution (Z.to_nat count) l;
  Some ({| oa_salt := salt; oa_deposit := deposit; oa_grace_period := grace_period;
           oa_open_slot := open_slot; oa_recipients := recipients |}, l).
Definition open_args_bytes (a : OpenArgs) : list byte :=
  u64_bytes (oa_salt a) ++ u64_bytes (oa_deposit a) ++ u32_bytes (oa_grace_period a) ++
  u64_bytes (oa_open_slot a) ++ u32_bytes (Z.of_nat (length (oa_recipients a))) ++
  mjoin (distribution_bytes <$> oa_recipients a).

(** [BorshDeserialize::try_from_slice]: nothing may follow. *)
Definition open_args_try_from_slice (data : list byte) : result OpenArgs string :=
  match read_open_args data with
  | Some (args, []) => Ok args
  | Some (_, _ :: _) => Err ERR_NOT_ALL_BYTES_READ
  | None => Err ERR_UNEXPECTED_LENGTH
  end.

Definition read_channel (l : list byte) : option (ChannelAccount * list byte) :=
  '(discriminator, l) ← read_le 1 l; '(version, l) ← read_le 1 l; '(bump, l) ← read_le 1 l;
  '(status, l) ← read_le 1 l; '(salt, l) ← read_le 8 l; '(deposit, l) ← read_le 8 l;
  '(settled, l) ← read_le 8 l; '(payout_watermark, l) ← read_le 8 l;
  '(closure_started_at, l) ← read_i64 l; '(payer_withdrawn_at, l) ← read_i64 l;
  '(grace_period, l) ← read_le 4 l; '(distribution_hash, l) ← read_bytes 32 l;
  '(payer, l) ← read_key l; '(payee, l) ← read_key l; '(authorized_signer, l) ← read_key l;
  '(mint, l) ← read_key l; '(rent_payer, l) ← read_key l; '(open_slot, l) ← read_le 8 l;
  Some ({| ca_discriminator := discriminator; ca_version := version; ca_bump := bump; ca_status := status;
           ca_salt := salt; ca_deposit := deposit; ca_settled := settled;
           ca_payout_watermark := payout_watermark; ca_closure_started_at := closure_started_at;
           ca_payer_withdrawn_at := payer_withdrawn_at; ca_grace_period := grace_period;
           ca_distribution_hash := distribution_hash; ca_payer := payer; ca_payee := payee;
           ca_authorized_signer := authorized_signer; ca_mint := mint; ca_rent_payer := rent_payer;
           ca_open_slot := open_slot |}, l).

(** [Channel::from_bytes], which leaves what follows the account unread. *)
Definition channel_from_bytes (data : list byte) : result ChannelAccount string :=
  match read_channel data with Some (channel, _) => Ok channel | None => Err ERR_UNEXPECTED_LENGTH end.

Definition channel_bytes (c : ChannelAccount) : list byte :=
  le_bytes 1 (ca_discriminator c) ++ le_bytes 1 (ca_version c) ++ le_bytes 1 (ca_bump c) ++
  le_bytes 1 (ca_status c) ++ u64_bytes (ca_salt c) ++ u64_bytes (ca_deposit c) ++
  u64_bytes (ca_settled c) ++ u64_bytes (ca_payout_watermark c) ++ i64_bytes (ca_closure_started_at c) ++
  i64_bytes (ca_payer_withdrawn_at c) ++ u32_bytes (ca_grace_period c) ++ ca_distribution_hash c ++
  key_bytes (ca_payer c) ++ key_bytes (ca_payee c) ++ key_bytes (ca_authorized_signer c) ++
  key_bytes (ca_mint c) ++ key_bytes (ca_rent_payer c) ++ u64_bytes (ca_open_slot c).

(** SHA-256 of the preimage the program commits to. *)
Definition distribution_hash (recipients : list Distribution) : list byte :=
  sha256 (u32_bytes (Z.of_nat (length recipients)) ++ mjoin (distribution_bytes <$> recipients)).
End codec.

(** ** Round trips *)

Definition distribution_wf `{Addresses} (d : Distribution) : Prop :=
  is_key (dist_recipient d) /\ in_u16 (dist_bps d).

Record open_args_wf `{Addresses} (a : OpenArgs) : Prop := {
  oaw_salt : in_u64 (oa_salt a);
  oaw_deposit : in_u64 (oa_deposit a);
  oaw_grace : in_u32 (oa_grace_period a);
  oaw_slot : in_u64 (oa_open_slot a);
  oaw_count : in_u32 (Z.of_nat (length (oa_recipients a)));
  oaw_recipients : Forall distribution_wf (oa_recipients a);
}.

Record channel_wf `{Addresses} (c : ChannelAccount) : Prop := {
  caw_discriminator : in_u8 (ca_discriminator c);
  caw_version : in_u8 (ca_version c);
  caw_bump : in_u8 (ca_bump c);
  caw_status : in_u8 (ca_status c);
  caw_salt : in_u64 (ca_salt c);
  caw_deposit : in_u64 (ca_deposit c);
  caw_settled : in_u64 (ca_settled c);
  caw_watermark : in_u64 (ca_payout_watermark c);
  caw_closure : in_i64 (ca_closure_started_at c);
  caw_withdrawn : in_i64 (ca_payer_withdrawn_at c);
  caw_grace : in_u32 (ca_grace_period c);
  caw_hash : length (ca_distribution_hash c) = 32%nat;
  caw_payer : is_key (ca_payer c);
  caw_payee : is_key (ca_payee c);
  caw_signer : is_key (ca_authorized_signer c);
  caw_mint : is_key (ca_mint c);
  caw_rent_payer : is_key (ca_rent_payer c);
  caw_open_slot : in_u64 (ca_open_slot c);
}.

Section roundtrip.
Context `{Addresses, !AddressesLaws}.

Lemma reads_u8 : reads (read_le 1) in_u8 (le_bytes 1).
Proof. exact (reads_le 1). Qed.
Lemma reads_u16 : reads (read_le 2) in_u16 (le_bytes 2).
Proof. exact (reads_le 2). Qed.
Lemma reads_u32 : reads (read_le 4) in_u32 u32_bytes.
Proof.
  intros l z rest. rewrite (reads_le 4 l z rest). change (256 ^ Z.of_nat 4) with 4294967296.
  split; intros [Hz ->]; (split; [zlia|done]).
Qed.
Lemma reads_u64 : reads (read_le 8) in_u64 u64_bytes.
Proof.
  intros l z rest. rewrite (reads_le 8 l z rest). change (256 ^ Z.of_nat 8) with 18446744073709551616.
  split; intros [Hz ->]; (split; [zlia|done]).
Qed.

(** A reader that starts with one field. *)
Lemma reads_bind {A B} (read : list byte -> option (A * list byte)) P w
    (k : A -> list byte -> option (B * list byte)) l b rest :
  reads read P w ->
  (('(x, l) ← read l; k x l) = Some (b, rest) <->
   exists x l', P x /\ l = w x ++ l' /\ k x l' = Some (b, rest)).
Proof.
  intros Hr. rewrite bind_Some. split.
  - intros ([x l'] & (Hx & ->)%Hr & Hk). eauto.
  - intros (x & l' & Hx & -> & Hk). exists (x, l'). split; [by apply Hr|done].
Qed.

Lemma reads_step {A B} (read : list byte -> option (A * list byte)) P w
    (k : A -> list byte -> option (B * list byte)) x l :
  reads read P w -> P x -> ('(x, l) ← read (w x ++ l); k x l) = k x l.
Proof. intros Hr Hx. rewrite (proj2 (Hr (w x ++ l) x l)) by done. done. Qed.

Lemma reads_step_bytes {B} n (k : list byte -> list byte -> option (B * list byte)) x l :
  length x = n -> ('(x, l) ← read_bytes n (x ++ l); k x l) = k x l.
Proof. intros Hx. by rewrite (reads_step _ _ _ k x l (reads_bytes n)). Qed.

Ltac reads_lemma :=
  first [exact reads_u8 | exact reads_u16 | exact reads_u32 | exact reads_u64 | exact reads_i64
        | exact reads_key | exact (reads_bytes 32)].
(** One field of the reader, read off the input of [H] or put back. *)
Ltac read_field H :=
  eapply reads_bind in H; [|reads_lemma]; destruct H as (? & ? & ? & -> & H).
Ltac write_field :=
  first [rewrite (reads_step _ _ _ _ _ _ reads_u8) by done | rewrite (reads_step _ _ _ _ _ _ reads_u32) by done
        | rewrite (reads_step _ _ _ _ _ _ reads_u64) by done | rewrite (reads_step _ _ _ _ _ _ reads_i64) by done
        | rewrite (reads_step _ _ _ _ _ _ reads_key) by done | rewrite reads_step_bytes by done].

(** [needs read n]: [n] bytes are enough for the reader, which takes them. *)
Definition needs {A} (read : list byte -> option (A * list byte)) (n : nat) : Prop :=
  forall l, (n <= length l)%nat -> exists x rest, read l = Some (x, rest) /\ length rest = (length l - n)%nat.

Lemma needs_bind {A B} (read : list byte -> option (A * list byte))
    (k : A -> list byte -> option (B * list byte)) n m :
  needs read n -> (forall x, needs (k x) m) -> needs (fun l => '(x, l) ← read l; k x l) (n + m).
Proof.
  intros Hr Hk l Hl. destruct (Hr l ltac:(lia)) as (x & l' & -> & Hl').
  destruct (Hk x l' ltac:(lia)) as (y & rest & Hy & Hrest). exists y, rest. split; [exact Hy|lia].
Qed.

Lemma needs_bytes n : needs (read_bytes n) n.
Proof.
  intros l Hn. unfold read_bytes. rewrite decide_True by done. do 2 eexists. split; [done|].
  apply length_drop.
Qed.

Lemma needs_map {A} (f : list byte -> A) n : needs (fun l => '(b, l) ← read_bytes n l; Some (f b, l)) n.
Proof.
  intros l Hl. destruct (needs_bytes n l Hl) as (b & rest & Hb & Hrest).
  exists (f b), rest. split; [by rewrite Hb|done].
Qed.

Lemma reads_distribution : reads read_distribution distribution_wf distribution_bytes.
Proof.
  intros l d rest. unfold read_distribution. rewrite (reads_bind _ _ _ _ _ _ _ reads_key).
  setoid_rewrite (reads_bind _ _ _ _ _ _ _ reads_u16). split.
  - intros (k & l1 & Hk & -> & b & l2 & Hb & -> & [= <- <-]). unfold distribution_bytes. simpl.
    rewrite <-app_assoc. done.
  - intros [[Hk Hb] ->]. exists (dist_recipient d), (le_bytes 2 (dist_bps d) ++ rest).
    split_and!; [done|unfold distribution_bytes; by rewrite <-app_assoc|].
    exists (dist_bps d), rest. split_and!; [done|done|by destruct d].
Qed.

Lemma reads_open_args : reads read_open_args open_args_wf open_args_bytes.
Proof.
  intros l a rest. unfold read_open_args. split.
  - intros Hread. do 5 read_field Hread.
    apply (reads_bind _ _ _ _ _ _ _ (reads_many _ _ _ reads_distribution _)) in Hread
      as (recipients & l' & [Hlen Hall] & -> & [= <- <-]).
    match goal with H : in_u32 ?count |- _ => assert (Hc : count = Z.of_nat (length recipients)) by zlia; subst count end.
    split; [by split|]. unfold open_args_bytes. by rewrite <-!app_assoc.
  - intros [[Hs Hd Hg Ho Hc Hr] ->]. unfold open_args_bytes. rewrite <-!app_assoc. do 5 write_field.
    rewrite Nat2Z.id. rewrite (reads_step _ _ _ _ _ _ (reads_many _ _ _ reads_distribution _)) by done.
    by destruct a.
Qed.

Lemma reads_channel : reads read_channel channel_wf channel_bytes.
Proof.
  intros l c rest. unfold read_channel. split.
  - intros Hread. do 18 read_field Hread. injection Hread as <- <-.
    split; [by split|]. unfold channel_bytes. by rewrite <-!app_assoc.
  - intros [[] ->]. unfold channel_bytes. rewrite <-!app_assoc. do 18 write_field. by destruct c.
Qed.

Lemma open_args_decode_iff data args :
  open_args_try_from_slice data = Ok args <-> open_args_wf args /\ data = open_args_bytes args.
Proof.
  unfold open_args_try_from_slice. rewrite <-(app_nil_r (open_args_bytes args)), <-(reads_open_args data args []).
  destruct (read_open_args data) as [[a [|b rest]]|]; split; intros Heq; congruence.
Qed.

(** Borsh's decoding of an open's arguments inverts its encoding exactly: a
    slice decodes if and only if it is the one encoding of those arguments, so
    trailing bytes, a short list and a wrong count are all refused. *)
Theorem open_args_roundtrip data args :
  open_args_try_from_slice data = Ok args <-> open_args_wf args /\ data = open_args_bytes args.
Proof. apply open_args_decode_iff. Qed.

Lemma needs_channel : needs read_channel CHANNEL_ACCOUNT_SIZE.
Proof.
  change CHANNEL_ACCOUNT_SIZE with (1 + (1 + (1 + (1 + (8 + (8 + (8 + (8 + (8 + (8 + (4 + (32 +
    (32 + (32 + (32 + (32 + (32 + (8 + 0))))))))))))))))))%nat.
  unfold read_channel. repeat (apply needs_bind; [apply needs_map || apply needs_bytes|intros ?]).
  intros l _. do 2 eexists. split; [done|lia].
Qed.

Lemma channel_from_bytes_iff data c :
  channel_from_bytes data = Ok c <-> channel_wf c /\ exists rest, data = channel_bytes c ++ rest.
Proof.
  unfold channel_from_bytes. split.
  - destruct (read_channel data) as [[c' rest]|] eqn:Hr; [|done]. intros [= <-].
    apply reads_channel in Hr as [Hwf ->]. eauto.
  - intros [Hwf [rest ->]]. rewrite (proj2 (reads_channel _ c rest)) by done. done.
Qed.

Lemma length_channel_bytes c : channel_wf c -> length (channel_bytes c) = CHANNEL_ACCOUNT_SIZE.
Proof.
  intros []. unfold channel_bytes, u64_bytes, u32_bytes, i64_bytes.
  rewrite !length_app, !length_le_bytes, !length_key_bytes by done. by rewrite caw_hash0.
Qed.

Lemma skip_field {n m} (x y : list byte) : length x = n -> drop (n + m) (x ++ y) = drop m y.
Proof. intros <-. rewrite <-drop_drop. by rewrite drop_app_length. Qed.

Lemma take_field n (x y : list byte) : length x = n -> take n (x ++ y) = x.
Proof. intros <-. apply take_app_length. Qed.

(** The channel's fields from an offset on. *)
Lemma channel_fields c rest :
  channel_wf c ->
  drop CHANNEL_PAYER_OFFSET (channel_bytes c ++ rest) =
  key_bytes (ca_payer c) ++ key_bytes (ca_payee c) ++ key_bytes (ca_authorized_signer c) ++
  key_bytes (ca_mint c) ++ key_bytes (ca_rent_payer c) ++ u64_bytes (ca_open_slot c) ++ rest.
Proof.
  intros []. unfold channel_bytes. rewrite <-!app_assoc.
  change CHANNEL_PAYER_OFFSET with (1 + (1 + (1 + (1 + (8 + (8 + (8 + (8 + (8 + (8 + (4 + (32 + 0))))))))))))%nat.
  rewrite !skip_field by (exact caw_hash0 || apply length_le_bytes). done.
Qed.

(** C37. A channel account decodes exactly when its bytes begin with the encoding
    of a channel, every 256 bytes do, and the offsets the discovery filters of the
    servers and clients compare at hold the fields they are named after. *)
Theorem channel_account_layout data :
  (is_ok (channel_from_bytes data) = true <-> (CHANNEL_ACCOUNT_SIZE <= length data)%nat) /\
  forall c, channel_from_bytes data = Ok c ->
    channel_wf c /\ take CHANNEL_ACCOUNT_SIZE data = channel_bytes c /\
    take 32 (drop CHANNEL_PAYER_OFFSET data) = key_bytes (ca_payer c) /\
    take 32 (drop CHANNEL_PAYEE_OFFSET data) = key_bytes (ca_payee c) /\
    take 32 (drop CHANNEL_AUTHORIZED_SIGNER_OFFSET data) = key_bytes (ca_authorized_signer c) /\
    take 32 (drop CHANNEL_RENT_PAYER_OFFSET data) = key_bytes (ca_rent_payer c).
Proof.
  split; [split|].
  - destruct (channel_from_bytes data) as [c|] eqn:Hc; [|done]. intros _.
    apply channel_from_bytes_iff in Hc as [Hwf [rest ->]]. rewrite length_app, length_channel_bytes by done. lia.
  - intros Hlen. unfold channel_from_bytes. destruct (read_channel data) as [[c rest]|] eqn:Hr; [done|].
    destruct (needs_channel data Hlen) as (? & ? & ? & _). congruence.
  - intros c [Hwf [rest ->]]%channel_from_bytes_iff. pose proof (length_channel_bytes _ Hwf) as Hl.
    pose proof (channel_fields c rest Hwf) as Hf. split; [done|]. split; [by rewrite <-Hl, take_app_length|].
    destruct Hwf. rewrite <-(Nat.add_0_r CHANNEL_PAYER_OFFSET) in Hf at 1.
    change CHANNEL_PAYEE_OFFSET with (CHANNEL_PAYER_OFFSET + (32 + 0))%nat.
    change CHANNEL_AUTHORIZED_SIGNER_OFFSET with (CHANNEL_PAYER_OFFSET + (32 + (32 + 0)))%nat.
    change CHANNEL_RENT_PAYER_OFFSET with (CHANNEL_PAYER_OFFSET + (32 + (32 + (32 + (32 + 0)))))%nat.
    rewrite <-!(drop_drop _ _ CHANNEL_PAYER_OFFSET). rewrite Nat.add_0_r in Hf. rewrite Hf.
    rewrite !skip_field, !drop_0, !take_field by by apply length_key_bytes. done.
Qed.
End roundtrip.

(** * Instruction builders *)

Definition OPEN_DISCRIMINATOR : Z := 1.
Definition SETTLE_DISCRIMINATOR : Z := 2.
Definition TOP_UP_DISCRIMINATOR : Z := 3.
Definition SETTLE_AND_SEAL_DISCRIMINATOR : Z := 4.
Definition REQUEST_CLOSE_DISCRIMINATOR : Z := 5.
Definition SEAL_DISCRIMINATOR : Z := 6.
Definition DISTRIBUTE_DISCRIMINATOR : Z := 7.
Definition WITHDRAW_PAYER_DISCRIMINATOR : Z := 8.
Definition RECLAIM_DISCRIMINATOR : Z := 9.

Definition ED25519_PROGRAM_ID : Pubkey := "Ed25519SigVerify111111111111111111111111111".
Definition INSTRUCTIONS_SYSVAR_ID : Pubkey := "Sysvar1nstructions1111111111111111111111111".

(** [AccountMeta::new], [AccountMeta::new_readonly]: the key, whether it signs,
    whether it is writable. *)
Definition meta_new (key : Pubkey) (signer : bool) : Pubkey * bool * bool := (key, signer, true).
Definition meta_readonly (key : Pubkey) (signer : bool) : Pubkey * bool * bool := (key, signer, false).
Definition meta_key (m : Pubkey * bool * bool) : Pubkey := m.1.1.

Definition MAX_VOUCHER_SETTLEMENTS_PER_TX : Z := 4.
Definition MAX_VOUCHER_SETTLEMENTS_PER_TX_V1 : Z := 18.
Definition max_voucher_settlements_per_tx (version : TxVersion) : Z :=
  match version with V0 => MAX_VOUCHER_SETTLEMENTS_PER_TX | V1 => MAX_VOUCHER_SETTLEMENTS_PER_TX_V1 end.
Definition MAX_RECLAIMS_PER_TX : Z := 28.
Definition MAX_RECLAIMS_PER_TX_V1 : Z := 62.
Definition max_reclaims_per_tx (version : TxVersion) : Z :=
  match version with V0 => MAX_RECLAIMS_PER_TX | V1 => MAX_RECLAIMS_PER_TX_V1 end.

Definition bytes_of (l : list Z) : list byte := byte_of_Z <$> l.
Definition TREASURY_OWNER : list byte := bytes_of
  [176; 65; 217; 211; 55; 183; 33; 190; 87; 137; 78; 182; 156; 59; 104; 9;
   165; 58; 14; 43; 106; 35; 153; 252; 125; 91; 126; 218; 140; 172; 137; 170].
Definition DEVNET_TREASURY_OWNER : list byte := bytes_of
  [59; 75; 74; 76; 62; 205; 126; 89; 214; 52; 174; 103; 229; 222; 187; 236;
   10; 208; 111; 32; 77; 240; 19; 166; 149; 163; 55; 106; 87; 185; 141; 5].

Record OpenChannelParams := {
  oc_payer : Pubkey;
  oc_rent_payer : Pubkey;
  oc_payee : Pubkey;
  oc_mint : Pubkey;
  oc_authorized_signer : Pubkey;
  oc_salt : Z;
  oc_open_slot : Z;
  oc_deposit : Z;
  oc_grace_period : Z;
  oc_recipients : list Distribution;
  oc_token_program : Pubkey;
  oc_program_id : Pubkey;
}.

Record ChannelAddresses := {
  ad_channel : Pubkey;
  ad_payer_token_account : Pubkey;
  ad_channel_token_account : Pubkey;
  ad_event_authority : Pubkey;
}.

(** [u64::from_le_bytes] over 8 random bytes. *)
Definition random_salt (random : list byte) : Z := from_le random.

Section builders.
Context `{Addresses}.

Definition treasury_owner : Pubkey := key_of_bytes TREASURY_OWNER.
Definition treasury_owner_for_cluster (cluster : string) : Pubkey :=
  if decide (cluster ∈ ["devnet"; "solana-devnet"; "solana:EtWTRABZaYq6iMfeYKouRu166VU2xqa1"])
  then key_of_bytes DEVNET_TREASURY_OWNER else key_of_bytes TREASURY_OWNER.

Definition build_create_associated_token_account_instruction (payer wallet mint token_program : Pubkey) :
    Instruction := {|
  program_id := ASSOCIATED_TOKEN_PROGRAM;
  account_metas := [
    meta_new payer true; meta_new (find_associated_token_address wallet mint token_program) false;
    meta_readonly wallet false; meta_readonly mint false; meta_readonly SYSTEM_PROGRAM false;
    meta_readonly token_program false];
  ix_data := [byte_of_Z 1] |}.

Definition derive_channel_addresses (params : OpenChannelParams) : ChannelAddresses :=
  let channel := find_channel_pda (oc_payer params) (oc_payee params) (oc_mint params)
    (oc_authorized_signer params) (oc_salt params) (oc_open_slot params) (oc_program_id params) in
  {| ad_channel := channel;
     ad_payer_token_account :=
       find_associated_token_address (oc_payer params) (oc_mint params) (oc_token_program params);
     ad_channel_token_account :=
       find_associated_token_address channel (oc_mint params) (oc_token_program params);
     ad_event_authority := find_event_authority_pda (oc_program_id params) |}.

Definition open_args_of (params : OpenChannelParams) : OpenArgs := {|
  oa_salt := oc_salt params; oa_deposit := oc_deposit params; oa_grace_period := oc_grace_period params;
  oa_open_slot := oc_open_slot params; oa_recipients := oc_recipients params |}.

Definition build_open_instruction (params : OpenChannelParams) : Instruction :=
  let addresses := derive_channel_addresses params in {|
  program_id := oc_program_id params;
  account_metas := [
    meta_new (oc_payer params) true; meta_new (oc_rent_payer params) true;
    meta_readonly (oc_payee params) false; meta_readonly (oc_mint params) false;
    meta_readonly (oc_authorized_signer params) false; meta_new (ad_channel addresses) false;
    meta_new (ad_payer_token_account addresses) false; meta_new (ad_channel_token_account addresses) false;
    meta_readonly (oc_token_program params) false; meta_readonly SYSTEM_PROGRAM false;
    meta_readonly RENT_SYSVAR_ID false; meta_readonly ASSOCIATED_TOKEN_PROGRAM false;
    meta_readonly (ad_event_authority addresses) false; meta_readonly (oc_program_id params) false];
  ix_data := byte_of_Z OPEN_DISCRIMINATOR :: open_args_bytes (open_args_of params) |}.

Definition build_top_up_instruction (payer channel mint : Pubkey) (amount : Z)
    (token_program program_id : Pubkey) : Instruction := {|
  Tx.program_id := program_id;
  account_metas := [
    meta_new payer true; meta_new channel false;
    meta_new (find_associated_token_address payer mint token_program) false;
    meta_new (find_associated_token_address channel mint token_program) false;
    meta_readonly mint false; meta_readonly token_program false];
  ix_data := byte_of_Z TOP_UP_DISCRIMINATOR :: u64_bytes amount |}.

(** [None] is the panic of [expect] on a message over 65,535 bytes. *)
Definition build_ed25519_verify_instruction (authorized_signer : Pubkey) (signature message : list byte) :
    option Instruction :=
  let public_key_offset := 16 in
  let signature_offset := public_key_offset + 32 in
  let message_data_offset := signature_offset + 64 in
  let current_instruction := 65535 in
  if decide (65535 < Z.of_nat (length message)) then None else Some {|
  program_id := ED25519_PROGRAM_ID;
  account_metas := [];
  ix_data := [byte_of_Z 1; byte_of_Z 0] ++ le_bytes 2 signature_offset ++ le_bytes 2 current_instruction ++
    le_bytes 2 public_key_offset ++ le_bytes 2 current_instruction ++ le_bytes 2 message_data_offset ++
    le_bytes 2 (Z.of_nat (length message)) ++ le_bytes 2 current_instruction ++
    key_bytes authorized_signer ++ signature ++ message |}.

Definition build_settle_instructions (channel authorized_signer : Pubkey) (signature : list byte)
    (cumulative_amount expires_at : Z) (program_id : Pubkey) : option (list Instruction) :=
  let message := voucher_message_bytes (key_bytes channel) cumulative_amount expires_at in
  verify ← build_ed25519_verify_instruction authorized_signer signature message;
  Some [verify; {| Tx.program_id := program_id;
                   account_metas := [meta_new channel false; meta_readonly INSTRUCTIONS_SYSVAR_ID false];
                   ix_data := [byte_of_Z SETTLE_DISCRIMINATOR] |}].

Definition build_settle_and_seal_instructions (payee channel authorized_signer : Pubkey)
    (signature : option (list byte)) (cumulative_amount expires_at : Z) (program_id : Pubkey) :
    option (list Instruction) :=
  let seal (has_voucher : Z) : Instruction := {|
    Tx.program_id := program_id;
    account_metas := [meta_readonly payee true; meta_new channel false;
                      meta_readonly INSTRUCTIONS_SYSVAR_ID false];
    ix_data := [byte_of_Z SETTLE_AND_SEAL_DISCRIMINATOR; byte_of_Z has_voucher] |} in
  match signature with
  | Some signature =>
      let message := voucher_message_bytes (key_bytes channel) cumulative_amount expires_at in
      verify ← build_ed25519_verify_instruction authorized_signer signature message;
      Some [verify; seal 1]
  | None => Some [seal 0]
  end.

Definition build_request_close_instruction (payer channel program_id : Pubkey) : Instruction := {|
  Tx.program_id := program_id;
  account_metas := [meta_readonly payer true; meta_new channel false];
  ix_data := [byte_of_Z REQUEST_CLOSE_DISCRIMINATOR] |}.

Definition build_seal_instruction (channel program_id : Pubkey) : Instruction := {|
  Tx.program_id := program_id;
  account_metas := [meta_new channel false];
  ix_data := [byte_of_Z SEAL_DISCRIMINATOR] |}.

Definition build_reclaim_instruction (channel rent_payer program_id : Pubkey) : Instruction := {|
  Tx.program_id := program_id;
  account_metas := [meta_new channel false; meta_new rent_payer false];
  ix_data := [byte_of_Z RECLAIM_DISCRIMINATOR] |}.

Definition build_distribute_instruction (channel payer rent_payer payee treasury mint : Pubkey)
    (recipients : list Distribution) (token_program program_id : Pubkey) : Instruction :=
  let ata owner := find_associated_token_address owner mint token_program in {|
  Tx.program_id := program_id;
  account_metas := [
    meta_new channel false; meta_new payer false; meta_new rent_payer false; meta_new (ata channel) false;
    meta_new (ata payer) false; meta_new (ata payee) false; meta_new (ata treasury) false;
    meta_readonly mint false; meta_readonly token_program false;
    meta_readonly (find_event_authority_pda program_id) false; meta_readonly program_id false] ++
    ((fun entry => meta_new (ata (dist_recipient entry)) false) <$> recipients);
  ix_data := byte_of_Z DISTRIBUTE_DISCRIMINATOR :: u32_bytes (Z.of_nat (length recipients)) ++
    mjoin (distribution_bytes <$> recipients) |}.
End builders.

(** * Scans of a message *)

(** The key at a slot of the instruction's accounts. *)
Definition account_at (ix : CompiledInstruction) (keys : list Pubkey) (slot : nat) : option Pubkey :=
  accounts ix !! slot ≫= fun i => keys !! i.

Definition OPEN_CHANNEL_ACCOUNT_INDEX : nat := 5.

(** [Iterator::find_map]. *)
Fixpoint find_map {A B} (f : A -> option B) (l : list A) : option B :=
  match l with [] => None | x :: l => match f x with Some y => Some y | None => find_map f l end end.

(** Where an instruction of the program, by its first byte, names its channel. *)
Definition channel_slot (discriminator : Z) : option nat :=
  if decide (discriminator = OPEN_DISCRIMINATOR) then Some OPEN_CHANNEL_ACCOUNT_INDEX else
  if decide (discriminator ∈ [TOP_UP_DISCRIMINATOR; SETTLE_AND_SEAL_DISCRIMINATOR;
      REQUEST_CLOSE_DISCRIMINATOR; WITHDRAW_PAYER_DISCRIMINATOR]) then Some 1%nat else
  if decide (discriminator ∈ [SETTLE_DISCRIMINATOR; DISTRIBUTE_DISCRIMINATOR; SEAL_DISCRIMINATOR;
      RECLAIM_DISCRIMINATOR]) then Some 0%nat else None.

Section scans.
Context `{Addresses}.

(** The closure of [decode_open_for_channel]'s [find_map]. *)
Definition open_for_channel (keys : list Pubkey) (channel program_id : Pubkey) (ix : CompiledInstruction) :
    option OpenArgs :=
  program ← keys !! program_id_index ix;
  if decide (program <> program_id \/ byte_to_Z <$> head (data ix) <> Some OPEN_DISCRIMINATOR) then None else
  named ← account_at ix keys OPEN_CHANNEL_ACCOUNT_INDEX;
  if decide (named <> channel) then None else
  '(args, rest) ← read_open_args (drop 1 (data ix));
  if decide (rest <> []) then None else
  payer ← account_at ix keys 0; payee ← account_at ix keys 2; mint ← account_at ix keys 3;
  authorized_signer ← account_at ix keys 4;
  if decide (find_channel_pda payer payee mint authorized_signer (oa_salt args) (oa_open_slot args)
               program_id = channel) then Some args else None.

Definition decode_open_for_channel (m : VersionedMessage) (channel program_id : Pubkey) : option OpenArgs :=
  find_map (open_for_channel (static_account_keys (body m)) channel program_id) (instructions (body m)).

(** The channel one instruction operates on. *)
Definition channel_of (keys : list Pubkey) (program_id : Pubkey) (ix : CompiledInstruction) : option Pubkey :=
  if decide (keys !! program_id_index ix <> Some program_id) then None else
  discriminator ← byte_to_Z <$> head (data ix);
  slot ← channel_slot discriminator;
  account_at ix keys slot.

(** One turn of the loop of [channels_in_message]. *)
Definition add_channel (keys : list Pubkey) (program_id : Pubkey) (channels : list Pubkey)
    (ix : CompiledInstruction) : list Pubkey :=
  match channel_of keys program_id ix with
  | Some channel => if decide (channel ∈ channels) then channels else channels ++ [channel]
  | None => channels
  end.

Definition channels_in_message (m : VersionedMessage) (program_id : Pubkey) : list Pubkey :=
  foldl (add_channel (static_account_keys (body m)) program_id) [] (instructions (body m)).

Lemma find_map_some {A B} (f : A -> option B) l y :
  find_map f l = Some y -> exists x, x ∈ l /\ f x = Some y.
Proof.
  induction l as [|x l IH]; simpl; [done|]. destruct (f x) eqn:Hf.
  - intros [= <-]. exists x. split; [left|done].
  - intros (z & Hz & Hy)%IH. exists z. split; [by right|done].
Qed.

Lemma find_map_none {A B} (f : A -> option B) l :
  find_map f l = None <-> Forall (fun x => f x = None) l.
Proof.
  induction l as [|x l IH]; simpl; [by split|]. rewrite Forall_cons.
  destruct (f x); [naive_solver|]. rewrite IH. naive_solver.
Qed.

(** A compiled instruction: its program, its accounts and its data in [keys]. *)
Record compiled (keys : list Pubkey) (ix : Instruction) (ci : CompiledInstruction) : Prop := {
  cp_program : keys !! program_id_index ci = Some (Tx.program_id ix);
  cp_accounts : (fun i => keys !! i) <$> accounts ci = Some ∘ meta_key <$> account_metas ix;
  cp_data : data ci = ix_data ix;
}.

Lemma compiled_account keys ix ci slot :
  compiled keys ix ci -> account_at ci keys slot = meta_key <$> account_metas ix !! slot.
Proof.
  intros [_ Ha _]. apply (f_equal (fun l => l !! slot)) in Ha. rewrite !list_lookup_fmap in Ha.
  unfold account_at. destruct (accounts ci !! slot), (account_metas ix !! slot); naive_solver.
Qed.

Lemma foldl_channels keys program_id ixs acc :
  NoDup acc ->
  let channels := foldl (add_channel keys program_id) acc ixs in
  NoDup channels /\ (acc `prefix_of` channels) /\
  forall c, c ∈ channels <-> c ∈ acc \/ exists ix, ix ∈ ixs /\ channel_of keys program_id ix = Some c.
Proof.
  revert acc. induction ixs as [|ix ixs IH]; intros acc Hnd; cbn [foldl].
  { split_and!; [done|done|]. intros c. split; [by left|]. intros [?|(? & []%not_elem_of_nil & _)]; done. }
  assert (Hstep : NoDup (add_channel keys program_id acc ix) /\
    acc `prefix_of` add_channel keys program_id acc ix /\
    forall c, c ∈ add_channel keys program_id acc ix <-> c ∈ acc \/ channel_of keys program_id ix = Some c).
  { unfold add_channel. destruct (channel_of _ _ ix) as [c|]; [case_decide as Hc|].
    - split_and!; [done|done|]. intros c'. split; [by left|]. by intros [?|[= <-]].
    - split_and!; [|by apply prefix_app_r|].
      + apply NoDup_app. split_and!; [done| |by apply NoDup_singleton]. by intros x Hx ->%list_elem_of_singleton.
      + intros c'. rewrite elem_of_app, list_elem_of_singleton. naive_solver.
    - split_and!; [done|done|]. naive_solver. }
  destruct Hstep as (Hnd' & Hpre & Hin). destruct (IH _ Hnd') as (Hnd'' & Hpre' & Hin').
  split_and!; [done|by etrans|]. intros c. rewrite Hin', Hin.
  setoid_rewrite elem_of_cons. naive_solver.
Qed.

(** The channels of a message are listed once each, and are exactly those
    its instructions of the program operate on: a transaction that settles
    several channels is never attributed to one of them. *)
Theorem channels_exact m program_id :
  let channels := channels_in_message m program_id in
  NoDup channels /\
  forall c, c ∈ channels <->
    exists ix, ix ∈ instructions (body m) /\
      channel_of (static_account_keys (body m)) program_id ix = Some c.
Proof.
  destruct (foldl_channels (static_account_keys (body m)) program_id (instructions (body m)) [])
    as (Hnd & _ & Hin); [constructor|].
  split; [done|]. intros c. rewrite Hin, elem_of_nil. naive_solver.
Qed.

(** What the scan returns is an open of this very channel. *)
Lemma decode_open_sound m channel program_id args :
  decode_open_for_channel m channel program_id = Some args ->
  exists ix, ix ∈ instructions (body m) /\
    static_account_keys (body m) !! program_id_index ix = Some program_id /\
    channel_of (static_account_keys (body m)) program_id ix = Some channel /\
    exists payer payee mint authorized_signer,
      channel = find_channel_pda payer payee mint authorized_signer (oa_salt args) (oa_open_slot args)
        program_id.
Proof.
  intros (ix & Hix & Hopen)%find_map_some. exists ix. unfold open_for_channel in Hopen.
  apply bind_Some in Hopen as (program & Hp & Hopen). case_decide as Hd; [done|].
  apply Decidable.not_or in Hd as [Hd1%dec_stable Hd2%dec_stable]. subst program.
  apply bind_Some in Hopen as (named & Hn & Hopen). case_decide as Hc; [done|]. subst named.
  apply bind_Some in Hopen as ([a rest] & _ & Hopen). case_decide; [done|].
  apply bind_Some in Hopen as (payer & _ & Hopen). apply bind_Some in Hopen as (payee & _ & Hopen).
  apply bind_Some in Hopen as (mint & _ & Hopen). apply bind_Some in Hopen as (signer & _ & Hopen).
  case_decide as Hpda; [|done]. injection Hopen as <-. split_and!; [done|done| |by eauto].
  unfold channel_of. rewrite decide_False by (intros Hne; by apply Hne). rewrite Hd2. exact Hn.
Qed.
End scans.

(** * What the builders give *)
Section built.
Context `{Addresses, !AddressesLaws}.

Lemma byte_tag z : in_u8 z -> byte_to_Z (byte_of_Z z) = z.
Proof. intros. rewrite byte_to_of_Z. by apply Z.mod_small. Qed.

(** The open a client builds is the open the scan finds. *)
Lemma built_open_found params keys ci :
  open_args_wf (open_args_of params) ->
  compiled keys (build_open_instruction params) ci ->
  open_for_channel keys (ad_channel (derive_channel_addresses params)) (oc_program_id params) ci =
  Some (open_args_of params).
Proof.
  intros Hwf Hc. unfold open_for_channel. pose proof Hc as [Hp _ Hd]. rewrite Hp. cbn [mbind option_bind].
  rewrite Hd. cbn [build_open_instruction ix_data head fmap option_fmap option_map drop Tx.program_id].
  rewrite byte_tag by done. rewrite decide_False by (intros [Hne|Hne]; by apply Hne).
  rewrite !(compiled_account _ _ _ _ Hc).
  cbn [build_open_instruction account_metas OPEN_CHANNEL_ACCOUNT_INDEX lookup list_lookup fmap option_fmap
    option_map meta_key meta_new meta_readonly fst mbind option_bind].
  rewrite decide_False by (intros Hne; by apply Hne). rewrite drop_0.
  rewrite (proj2 (reads_open_args (open_args_bytes (open_args_of params)) (open_args_of params) []))
    by (by rewrite app_nil_r). cbn [mbind option_bind].
  rewrite decide_False by (intros Hne; by apply Hne). by rewrite decide_True.
Qed.

(** A message that carries the open built for some parameters is recognised:
    the scan returns the open of the channel those parameters derive, and lists
    the channel as one the message operates on. *)
Theorem built_open_recognised params m ci :
  open_args_wf (open_args_of params) -> ci ∈ instructions (body m) ->
  compiled (static_account_keys (body m)) (build_open_instruction params) ci ->
  let channel := ad_channel (derive_channel_addresses params) in
  is_Some (decode_open_for_channel m channel (oc_program_id params)) /\
  channel ∈ channels_in_message m (oc_program_id params).
Proof.
  intros Hwf Hci Hc channel. split.
  - unfold decode_open_for_channel. destruct (find_map _ _) eqn:Hf; [done|].
    apply find_map_none in Hf. rewrite Forall_forall in Hf. specialize (Hf ci Hci).
    subst channel. by rewrite built_open_found in Hf.
  - apply (foldl_channels _ _ _ [] (NoDup_nil_2)). right. exists ci. split; [done|].
    unfold channel_of. pose proof Hc as [Hp _ Hd]. rewrite decide_False by (rewrite Hp; intros Hne; by apply Hne).
    rewrite Hd. cbn [build_open_instruction ix_data head fmap option_fmap option_map].
    rewrite byte_tag by done. cbn [mbind option_bind]. change (channel_slot OPEN_DISCRIMINATOR) with (Some 5%nat).
    cbn [mbind option_bind]. by rewrite (compiled_account _ _ _ _ Hc).
Qed.

(** ** The Ed25519 precompile

    The bytes the precompile verifies, by the offsets in the instruction's
    header: an index of 65535 is this instruction's own data. *)
Record Ed25519Offsets := {
  count : Z;
  signature_offset : Z;
  signature_instruction : Z;
  key_offset : Z;
  key_instruction : Z;
  message_offset : Z;
  message_size : Z;
  message_instruction : Z;
}.

Definition ed25519_offsets (d : list byte) : Ed25519Offsets :=
  let u16 at_ := from_le (take 2 (drop at_ d)) in {|
  count := from_le (take 1 d); signature_offset := u16 2%nat; signature_instruction := u16 4%nat;
  key_offset := u16 6%nat; key_instruction := u16 8%nat; message_offset := u16 10%nat;
  message_size := u16 12%nat; message_instruction := u16 14%nat |}.

Definition window (d : list byte) (offset size : Z) : list byte :=
  take (Z.to_nat size) (drop (Z.to_nat offset) d).

Lemma window_at p x rest offset size :
  length p = Z.to_nat offset -> length x = Z.to_nat size -> window (p ++ x ++ rest) offset size = x.
Proof. intros Hp Hx. unfold window. by rewrite <-Hp, drop_app_length, <-Hx, take_app_length. Qed.

(** The verification instruction points the precompile at one signature, one
    key and one message, all in its own data, and they are the voucher's: the
    precompile checks that the channel's authorized signer signed exactly the
    50 bytes of the channel, the cumulative amount and the expiry. *)
Theorem ed25519_reads_voucher channel authorized_signer signature cumulative expires_at :
  is_key channel -> is_key authorized_signer -> length signature = 64%nat ->
  exists ix,
    build_ed25519_verify_instruction authorized_signer signature
      (voucher_message_bytes (key_bytes channel) cumulative expires_at) = Some ix /\
    let d := ix_data ix in let o := ed25519_offsets d in
    count o = 1 /\
    (signature_instruction o = 65535 /\ key_instruction o = 65535 /\ message_instruction o = 65535) /\
    window d (key_offset o) 32 = key_bytes authorized_signer /\
    window d (signature_offset o) 64 = signature /\
    window d (message_offset o) (message_size o) =
      voucher_message_bytes (key_bytes channel) cumulative expires_at.
Proof.
  intros Hch Hk Hs. set (message := voucher_message_bytes _ _ _).
  assert (Hm : length message = 50%nat).
  { unfold message, voucher_message_bytes, u64_bytes, i64_bytes.
    rewrite !length_app, !length_le_bytes, length_key_bytes by done. done. }
  apply length_key_bytes in Hk. unfold build_ed25519_verify_instruction. rewrite Hm.
  rewrite decide_False by done. eexists. split; [done|]. cbn [ix_data].
  rewrite !app_assoc, <-(app_assoc _ signature), <-(app_assoc _ (key_bytes authorized_signer)).
  match goal with |- context [?h ++ key_bytes authorized_signer ++ _] => set (header := h) end.
  assert (Hh : length header = 16%nat) by done.
  assert (Ho : forall d, ed25519_offsets (header ++ d) = {| count := 1; signature_offset := 48;
    signature_instruction := 65535; key_offset := 16; key_instruction := 65535; message_offset := 112;
    message_size := 50; message_instruction := 65535 |}) by (intros d; reflexivity).
  cbv zeta. rewrite Ho. cbn [count signature_instruction key_instruction message_instruction key_offset
    signature_offset message_offset message_size].
  split_and!; try done.
  - apply window_at; [by rewrite Hh|by rewrite Hk].
  - rewrite app_assoc. apply window_at; [by rewrite length_app, Hh, Hk|by rewrite Hs].
  - rewrite !app_assoc. rewrite <-(app_nil_r message) at 1. rewrite <-!app_assoc.
    rewrite !app_assoc, <-(app_assoc _ message). apply window_at; [by rewrite !length_app, Hh, Hk, Hs|by rewrite Hm].
Qed.
End built.

(** * Building an open's transaction *)

Record OpenTxOptions := {
  opt_memo : option string;
  opt_binding_memo : option string;
  opt_version : TxVersion;
  opt_compute_budget : option ComputeBudget;
}.

Record PaymentChannelOpenTransaction := {
  po_channel_id : Pubkey;
  po_transaction : string;
}.

Definition memo_instruction (memo : string) : Instruction :=
  {| program_id := MEMO_PROGRAM; account_metas := []; ix_data := str_bytes memo |}.

(** The loop over the memos that are present. *)
Fixpoint memo_instructions (memos : list string) : result (list Instruction) Error :=
  match memos with
  | [] => Ok []
  | memo :: memos =>
      if decide (OPEN_MAX_MEMO_BYTES < length (str_bytes memo))%nat
      then Err (Other ("channel open memo is " +:+ pretty (length (str_bytes memo)) +:+ " bytes, over the "
        +:+ pretty OPEN_MAX_MEMO_BYTES +:+ "-byte maximum")) else
      let? rest := memo_instructions memos in Ok (memo_instruction memo :: rest)
  end.

Section open_tx.
Context `{V1Format} `{Codec} `{Addresses}.

(** The budget a version-1 open without one is given. *)
Definition open_budget (options : OpenTxOptions) (count : nat) : option ComputeBudget :=
  match opt_version options, opt_compute_budget options with
  | V1, None =>
      let budget := runtime_default count in
      Some {| unit_limit := Z.min (unit_limit budget) OPEN_MAX_COMPUTE_UNIT_LIMIT;
              unit_price_micro_lamports := unit_price_micro_lamports budget;
              loaded_accounts_data_size_limit := loaded_accounts_data_size_limit budget |}
  | _, budget => budget
  end.

Definition build_open_payment_channel_tx_with_options (signer : TransactionSigner)
    (payee mint authorized_signer : Pubkey) (salt open_slot deposit grace_period : Z)
    (recipients : list Distribution) (token_program program_id fee_payer : Pubkey)
    (recent_blockhash : list byte) (options : OpenTxOptions) :
    result PaymentChannelOpenTransaction Error :=
  let params := {| oc_payer := signer_pubkey signer; oc_rent_payer := fee_payer; oc_payee := payee;
    oc_mint := mint; oc_authorized_signer := authorized_signer; oc_salt := salt; oc_open_slot := open_slot;
    oc_deposit := deposit; oc_grace_period := grace_period; oc_recipients := recipients;
    oc_token_program := token_program; oc_program_id := program_id |} in
  let channel_id := ad_channel (derive_channel_addresses params) in
  let? memos := memo_instructions (option_list (opt_memo options) ++ option_list (opt_binding_memo options)) in
  let instructions := build_open_instruction params :: memos in
  let budget := open_budget options (length instructions) in
  let? tx := build_unsigned (opt_version options) fee_payer instructions recent_blockhash budget in
  let? tx := rmap_err (fun e => Other ("payment-channel open signing failed: " +:+ core_error_text e))
    (sign_versioned_transaction_slot signer tx) in
  let? transaction := encode tx in
  Ok {| po_channel_id := channel_id; po_transaction := transaction |}.

(** A version-1 open never asks for more units than a sponsor accepts. *)
Lemma open_budget_capped options count :
  opt_version options = V1 -> opt_compute_budget options = None ->
  exists budget, open_budget options count = Some budget /\ unit_limit budget <= OPEN_MAX_COMPUTE_UNIT_LIMIT.
Proof. intros Hv Hb. unfold open_budget. rewrite Hv, Hb. eexists. split; [done|]. simpl. lia. Qed.
End open_tx.

(** * Concrete addresses *)
Module AddressesDemo.
Export CryptoDemo.

#[global] Instance addresses : Addresses := {
  key_of_bytes := String.string_of_list_byte;
  key_bytes k := pad 32 (str_bytes k);
  find_program_address seeds program :=
    String.string_of_list_byte (pad 32 (text (pretty (digest (mjoin seeds ++ str_bytes program)))));
  sha256 l := pad 32 (text (pretty (digest l)));
  bs58_into_vec s := Some (str_bytes s);
  encode_64 := String.string_of_list_byte;
}.

Lemma pad_full n l : length l = n -> pad n l = l.
Proof. intros <-. unfold pad. by rewrite take_app_length. Qed.

#[global] Instance addresses_laws : AddressesLaws.
Proof.
  assert (Hs : forall l, str_bytes (String.string_of_list_byte l) = l)
    by exact String.list_byte_of_string_of_list_byte.
  split; intros l Hl; simpl; rewrite Hs; [by apply pad_full|done].
Qed.

(** The key the demo parses from a name. *)
Definition key (name : string) : Pubkey := String.string_of_list_byte (pad 32 (text name)).

Lemma is_key_demo name : is_key (key name).
Proof.
  exists (pad 32 (text name)). split; [|done]. unfold pad. rewrite length_take, length_app, length_replicate. lia.
Qed.

Definition params : OpenChannelParams := {|
  oc_payer := key "payer"; oc_rent_payer := key "sponsor"; oc_payee := key "sponsor"; oc_mint := key "mint";
  oc_authorized_signer := key "signer"; oc_salt := 7; oc_open_slot := 1000; oc_deposit := 500;
  oc_grace_period := 900; oc_recipients := sole_recipient (key "receiver");
  oc_token_program := key "token program"; oc_program_id := key "program" |}.

Lemma params_wf : open_args_wf (open_args_of params).
Proof.
  split; try (vm_compute; split; discriminate).
  apply Forall_singleton. split; [apply is_key_demo|vm_compute; done].
Qed.

(** The message an open compiles to, its accounts in order. *)
Definition open_message : VersionedMessage :=
  let metas := account_metas (build_open_instruction params) in
  MessageV0 {| num_required_signatures := 2; num_readonly_signed_accounts := 0;
    num_readonly_unsigned_accounts := 9; static_account_keys := meta_key <$> metas;
    instructions := [{| program_id_index := 13; accounts := seq 0 14;
                        data := ix_data (build_open_instruction params) |}];
    recent_blockhash := [] |} [].

Definition channel_account : ChannelAccount := {|
  ca_discriminator := 1; ca_version := 1; ca_bump := 254; ca_status := 0; ca_salt := 7; ca_deposit := 500;
  ca_settled := 0; ca_payout_watermark := 0; ca_closure_started_at := 0; ca_payer_withdrawn_at := 0;
  ca_grace_period := 900; ca_distribution_hash := distribution_hash (sole_recipient (key "receiver"));
  ca_payer := key "payer"; ca_payee := key "sponsor"; ca_authorized_signer := key "signer";
  ca_mint := key "mint"; ca_rent_payer := key "sponsor"; ca_open_slot := 1000 |}.
End AddressesDemo.

Example open_decodes :
  open_args_try_from_slice (open_args_bytes (open_args_of AddressesDemo.params)) =
  Ok (open_args_of AddressesDemo.params).
Proof. vm_compute. reflexivity. Qed.

Example open_trailing_byte :
  open_args_try_from_slice (open_args_bytes (open_args_of AddressesDemo.params) ++ [Byte.x00]) =
  Err ERR_NOT_ALL_BYTES_READ.
Proof. vm_compute. reflexivity. Qed.

Example channel_decodes :
  channel_from_bytes (channel_bytes AddressesDemo.channel_account) = Ok AddressesDemo.channel_account.
Proof. vm_compute. reflexivity. Qed.

Lemma built_open_recognised_witness :
  let channel := ad_channel (derive_channel_addresses AddressesDemo.params) in
  is_Some (decode_open_for_channel AddressesDemo.open_message channel (AddressesDemo.key "program")) /\
  channel ∈ channels_in_message AddressesDemo.open_message (AddressesDemo.key "program").
Proof.
  apply (built_open_recognised AddressesDemo.params AddressesDemo.open_message
    {| program_id_index := 13; accounts := seq 0 14; data := ix_data (build_open_instruction AddressesDemo.params) |}).
  - exact AddressesDemo.params_wf.
  - vm_compute. left.
  - split; vm_compute; reflexivity.
Defined.

Lemma ed25519_reads_voucher_witness :
  exists ix,
    build_ed25519_verify_instruction (AddressesDemo.key "signer") (replicate 64 Byte.x07)
      (voucher_message_bytes (key_bytes (AddressesDemo.key "channel")) 500 0) = Some ix /\
    window (ix_data ix) (key_offset (ed25519_offsets (ix_data ix))) 32 = key_bytes (AddressesDemo.key "signer").
Proof.
  destruct (ed25519_reads_voucher (AddressesDemo.key "channel") (AddressesDemo.key "signer")
    (replicate 64 Byte.x07) 500 0) as (ix & Hix & _ & _ & Hk & _).
  - apply AddressesDemo.is_key_demo.
  - apply AddressesDemo.is_key_demo.
  - reflexivity.
  - exists ix. split; [exact Hix|exact Hk].
Defined.

Lemma open_args_roundtrip_witness :
  open_args_try_from_slice (open_args_bytes (open_args_of AddressesDemo.params)) =
  Ok (open_args_of AddressesDemo.params).
Proof.
  apply (open_args_roundtrip (open_args_bytes (open_args_of AddressesDemo.params))
    (open_args_of AddressesDemo.params)).
  split; [exact AddressesDemo.params_wf|reflexivity].
Defined.

Lemma channel_account_layout_witness :
  channel_wf AddressesDemo.channel_account /\
  take 32 (drop CHANNEL_PAYER_OFFSET (channel_bytes AddressesDemo.channel_account)) =
  key_bytes (AddressesDemo.key "payer").
Proof.
  assert (Hc : channel_from_bytes (channel_bytes AddressesDemo.channel_account) =
    Ok AddressesDemo.channel_account) by (vm_compute; reflexivity).
  destruct (channel_account_layout (channel_bytes AddressesDemo.channel_account)) as [_ Hall].
  destruct (Hall AddressesDemo.channel_account Hc) as (Hwf & _ & Hp & _). split; [exact Hwf|exact Hp].
Defined.
