(* ===== verification/ChannelHooks.v ===== *)
(** The second version of the payment-channels ABI
    (src/rust/crates/kit/src/core/payment_channel/v2.rs): the two encodings of the hooks of [Deployments], the decoding of a channel account that carries them, deployments,
    and the builders that append a hook's accounts to an instruction. *)
From stdpp Require Import base numbers option list strings pretty sets.
From S2P Require Import Prelude Bytes Voucher Tx Build Signing ChannelTx Deployments ChannelProgram.
Open Scope Z_scope.

Definition CHANNEL_V2_ACCOUNT_SIZE : nat := 1121.
Definition HOOK_DESCRIPTOR_SIZE : nat := 206.

(** [Pubkey::default]. *)
Definition zero_key : list byte := replicate 32 Byte.x00.

(** A key's text parses to its bytes, and only 32 bytes parse. *)
Class KeyText (Key : Type) `{Crypto Key, Addresses} := {
  key_text_parses l : length l = 32%nat -> pubkey_from_str (key_of_bytes l) = Ok l;
  key_text_length s l : pubkey_from_str s = Ok l -> length l = 32%nat;
}.

Definition flag (b : bool) : byte := if b then Byte.x01 else Byte.x00.
Definition count_byte (n : nat) : byte := byte_of_Z (Z.of_nat n).

(** [out\[offset..offset + src.len()\].copy_from_slice(src)]. *)
Definition splice (offset : nat) (src out : list byte) : list byte :=
  take offset out ++ src ++ drop (offset + length src) out.

Section hooks.
Context {Key : Type} `{Crypto Key, Addresses}.

(** ** The compact suffix of an open *)

Fixpoint suffix_accounts (accounts : list HookAccount) : result (list byte) Error :=
  match accounts with
  | [] => Ok []
  | account :: accounts =>
      let? address := parse_pubkey (ha_address account) in
      let? rest := suffix_accounts accounts in
      Ok (key_bytes address ++ flag (ha_writable account) :: rest)
  end.

Fixpoint suffix_slots (slots : list (option HookDescriptor)) : result (list byte) Error :=
  match slots with
  | [] => Ok []
  | None :: slots => let? rest := suffix_slots slots in Ok (flag false :: rest)
  | Some hook :: slots =>
      let? program := parse_pubkey (hd_program_id hook) in
      let? accounts := suffix_accounts (hd_accounts hook) in
      let? rest := suffix_slots slots in
      Ok (flag true :: key_bytes program ++ hd_entrypoint hook ++ count_byte (length (hd_accounts hook)) ::
          count_byte (length (hd_static_data hook)) :: hd_static_data hook ++ accounts ++ rest)
  end.

Definition encode_open_suffix (h : ChannelHooks) : result (list byte) Error :=
  let? _ := validate h in suffix_slots (slots h).

(** ** The fixed representation *)

(** [74 + index * 33]. *)
Definition account_offset (index : nat) : nat := 74 + index * 33.

(** The writes of one account after another. *)
Fixpoint put_accounts (index : nat) (accounts : list HookAccount) (out : list byte) : result (list byte) Error :=
  match accounts with
  | [] => Ok out
  | account :: accounts =>
      let offset := account_offset index in
      let? address := parse_pubkey (ha_address account) in
      put_accounts (S index) accounts
        (splice (offset + 32) [flag (ha_writable account)] (splice offset (key_bytes address) out))
  end.

(** What one enabled slot writes into its zeroed bytes. *)
Definition put_hook (hook : HookDescriptor) (out : list byte) : result (list byte) Error :=
  let? program := parse_pubkey (hd_program_id hook) in
  let out := splice 0 (key_bytes program) out in
  let out := splice 32 (hd_entrypoint hook) out in
  let out := splice 40 [count_byte (length (hd_accounts hook))] out in
  let out := splice 41 [count_byte (length (hd_static_data hook))] out in
  let out := splice 42 (hd_static_data hook) out in
  put_accounts 0 (hd_accounts hook) out.

Definition zero_slot : list byte := replicate HOOK_DESCRIPTOR_SIZE Byte.x00.

(** Each slot writes its own 206 bytes of the array. *)
Fixpoint fixed_slots (slots : list (option HookDescriptor)) : result (list byte) Error :=
  match slots with
  | [] => Ok []
  | slot :: slots =>
      let? own := match slot with Some hook => put_hook hook zero_slot | None => Ok zero_slot end in
      let? rest := fixed_slots slots in
      Ok (own ++ rest)
  end.

Definition encode_fixed (h : ChannelHooks) : result (list byte) Error :=
  let? _ := validate h in fixed_slots (slots h).

Definition config_hash (h : ChannelHooks) : result (list byte) Error := rmap sha256 (encode_fixed h).

(** * Decoding *)

Record ChannelState := {
  cs_channel : ChannelAccount;
  cs_hooks : ChannelHooks;
  cs_guard : Z;
  cs_operation_sequence : Z;
  cs_config_hash : list byte;
}.

Definition window_of (offset size : nat) (data : list byte) : list byte := take size (drop offset data).
Definition nonzero (l : list byte) : bool := existsb (fun b => negb (bool_decide (b = Byte.x00))) l.
Definition byte_at (i : nat) (data : list byte) : Z := default 0 (byte_to_Z <$> data !! i).

Definition decode_base (data : list byte) (version : Z) : result ChannelAccount Error :=
  if decide (length data <> 256%nat \/ byte_at 0 data <> 1 \/ byte_at 1 data <> version \/ 3 < byte_at 3 data)
  then Err (invalid "invalid channel length, version, or status") else
  rmap_err (fun _ => invalid "invalid channel account") (channel_from_bytes data).

(** The account loop of one slot. *)
Fixpoint decode_accounts (raw : list byte) (index count : nat) : result (list HookAccount) Error :=
  match count with
  | O => Ok []
  | S count =>
      let offset := account_offset index in
      if decide (1 < byte_at (offset + 32) raw) then Err (invalid "invalid hook writable flag") else
      let? rest := decode_accounts raw (S index) count in
      Ok ({| ha_address := key_of_bytes (window_of offset 32 raw);
             ha_writable := bool_decide (byte_at (offset + 32) raw = 1) |} :: rest)
  end.

Definition decode_slot (raw : list byte) : result (option HookDescriptor) Error :=
  if decide (take 32 raw = zero_key) then
    if nonzero raw then Err (invalid "disabled hook has nonzero payload") else Ok None
  else
  let count := Z.to_nat (byte_at 40 raw) in
  let len := Z.to_nat (byte_at 41 raw) in
  if decide (MAX_HOOK_ACCOUNTS < count \/ MAX_STATIC_DATA < len)%nat
  then Err (invalid "invalid hook bounds") else
  if nonzero (window_of (42 + len) (74 - (42 + len)) raw) || nonzero (drop (account_offset count) raw)
  then Err (invalid "noncanonical hook padding") else
  let? accounts := decode_accounts raw 0 count in
  Ok (Some {| hd_program_id := key_of_bytes (take 32 raw); hd_entrypoint := window_of 32 8 raw;
              hd_accounts := accounts; hd_static_data := window_of 42 len raw |}).

(** The slot loop; the slots take the rest of the account. *)
Fixpoint decode_slots (n : nat) (data : list byte) : result (list (option HookDescriptor)) Error :=
  match n with
  | O => Ok []
  | S n =>
      let? slot := decode_slot (take HOOK_DESCRIPTOR_SIZE data) in
      let? rest := decode_slots n (drop HOOK_DESCRIPTOR_SIZE data) in
      Ok (slot :: rest)
  end.

Definition decode_channel (data : list byte) : result ChannelState Error :=
  if decide (length data <> CHANNEL_V2_ACCOUNT_SIZE) then Err (invalid "invalid V2 channel length") else
  let? channel := decode_base (take 256 data) 2 in
  if decide (byte_at 256 data <> 0) then Err (invalid "channel callback guard is active") else
  let? slots := decode_slots 4 (drop 297 data) in
  let slot i := default None (slots !! i) in
  let hooks := {| pre_fund := slot 0%nat; post_fund := slot 1%nat; pre_distribute := slot 2%nat;
                  post_distribute := slot 3%nat |} in
  let? _ := validate hooks in
  let? hash := config_hash hooks in
  if decide (hash <> window_of 265 32 data) then Err (invalid "hook configuration hash mismatch") else
  Ok {| cs_channel := channel; cs_hooks := hooks; cs_guard := 0;
        cs_operation_sequence := from_le (window_of 257 8 data);
        cs_config_hash := window_of 265 32 data |}.

(** * Deployments *)

Definition deployment_decode_channel (d : Deployment Pubkey) (data : list byte) : result ChannelState Error :=
  let? _ := resolve (dp_program_id d) (Some (dp_version d)) in
  if decide (dp_version d = 2) then decode_channel data else
  let? channel := decode_base data 1 in
  Ok {| cs_channel := channel; cs_hooks := no_hooks; cs_guard := 0; cs_operation_sequence := 0;
        cs_config_hash := zero_key |}.

Definition decode_account (d : Deployment Pubkey) (owner : Pubkey) (data : list byte) : result ChannelState Error :=
  if decide (owner <> dp_program_id d) then Err (invalid "channel account owner mismatch")
  else deployment_decode_channel d data.

(** * Callbacks *)

Definition find_callback_authority (channel : Pubkey) (hash : list byte) (phase : Z)
    (target program_id : Pubkey) : result Pubkey Error :=
  let? _ := resolve program_id (Some 2) in
  if decide (3 < phase) then Err (invalid "invalid callback phase") else
  Ok (find_program_address
    [str_bytes "channel_hook"; key_bytes channel; hash; [byte_of_Z phase]; key_bytes target] program_id).

(** The extra accounts of one callback. *)
Fixpoint hook_metas (channel authority : Pubkey) (accounts : list HookAccount) :
    result (list (Pubkey * bool * bool)) Error :=
  match accounts with
  | [] => Ok []
  | account :: accounts =>
      let? address := parse_pubkey (ha_address account) in
      if decide (address = channel \/ address = authority)
      then Err (invalid "hook extra aliases channel or callback authority") else
      let? rest := hook_metas channel authority accounts in
      Ok ((if ha_writable account then meta_new address false else meta_readonly address false) :: rest)
  end.

Fixpoint phase_metas (channel : Pubkey) (h : ChannelHooks) (hash : list byte) (program : Pubkey)
    (phases : list nat) : result (list (Pubkey * bool * bool)) Error :=
  match phases with
  | [] => Ok []
  | phase :: phases =>
      match default None (slots h !! phase) with
      | None => phase_metas channel h hash program phases
      | Some hook =>
          let? target := parse_pubkey (hd_program_id hook) in
          let? authority := find_callback_authority channel hash (Z.of_nat phase) target program in
          let? extra := hook_metas channel authority (hd_accounts hook) in
          let? rest := phase_metas channel h hash program phases in
          Ok (meta_readonly target false :: meta_readonly authority false :: extra ++ rest)
      end
  end.

Definition with_accounts (ix : Instruction) (extra : list (Pubkey * bool * bool)) : Instruction :=
  {| program_id := program_id ix; account_metas := account_metas ix ++ extra; ix_data := ix_data ix |}.
Definition with_data (ix : Instruction) (extra : list byte) : Instruction :=
  {| program_id := program_id ix; account_metas := account_metas ix; ix_data := ix_data ix ++ extra |}.

Definition append_hooks (ix : Instruction) (channel : Pubkey) (h : ChannelHooks) (phases : list nat) :
    result Instruction Error :=
  let? _ := resolve (program_id ix) (Some 2) in
  let? hash := config_hash h in
  let? extra := phase_metas channel h hash (program_id ix) phases in
  Ok (with_accounts ix extra).

Definition fund_phases : list nat := [0; 1]%nat.
Definition distribute_phases : list nat := [2; 3]%nat.

Definition build_open_instruction_v2 (params : OpenChannelParams) (h : ChannelHooks) :
    result Instruction Error :=
  let instruction := build_open_instruction params in
  let? suffix := encode_open_suffix h in
  append_hooks (with_data instruction suffix) (ad_channel (derive_channel_addresses params)) h fund_phases.

Definition build_top_up_instruction_v2 (payer channel mint : Pubkey) (amount : Z)
    (token_program program_id : Pubkey) (h : ChannelHooks) : result Instruction Error :=
  append_hooks (build_top_up_instruction payer channel mint amount token_program program_id) channel h
    fund_phases.

Definition build_distribute_instruction_v2 (channel payer rent_payer payee treasury mint : Pubkey)
    (recipients : list Distribution) (token_program program_id : Pubkey) (h : ChannelHooks) :
    result Instruction Error :=
  append_hooks (build_distribute_instruction channel payer rent_payer payee treasury mint recipients
    token_program program_id) channel h distribute_phases.

Definition withdraw_payer_instruction (payer channel mint token_program program_id : Pubkey) :
    Instruction := {|
  Tx.program_id := program_id;
  account_metas := [
    meta_readonly payer true; meta_new channel false;
    meta_new (find_associated_token_address channel mint token_program) false;
    meta_new (find_associated_token_address payer mint token_program) false;
    meta_readonly mint false; meta_readonly token_program false];
  ix_data := [byte_of_Z WITHDRAW_PAYER_DISCRIMINATOR] |}.

Definition build_withdraw_payer_instruction (payer channel mint token_program program_id : Pubkey)
    (h : ChannelHooks) : result Instruction Error :=
  append_hooks (withdraw_payer_instruction payer channel mint token_program program_id) channel h
    distribute_phases.
End hooks.

(** * One configuration, one encoding *)
Ltac olia := unfold account_offset in *; lia.

Section canonical.
Context {Key : Type} `{Crypto Key, Addresses, !AddressesLaws, !KeyText Key}.

Lemma parse_key_ok k : is_key k -> parse_pubkey k = Ok k.
Proof. intros (l & Hl & ->). simpl. by rewrite key_text_parses. Qed.

Lemma parse_is_key s k : parse_pubkey s = Ok k -> is_key k.
Proof.
  simpl. destruct (pubkey_from_str s) as [l|] eqn:Hs; [|done]. intros [= <-].
  exists l. split; [by eapply key_text_length|done].
Qed.

(** ** Windows *)

Lemma window_app p x q n m : length p = n -> length x = m -> window_of n m (p ++ x ++ q) = x.
Proof. intros <- <-. unfold window_of. by rewrite drop_app_length, take_app_length. Qed.

Lemma window_cut n m l : drop n l = window_of n m l ++ drop (n + m) l.
Proof. unfold window_of. by rewrite <-drop_drop, take_drop. Qed.

Lemma length_window n m l : (n + m <= length l)%nat -> length (window_of n m l) = m.
Proof. intros. unfold window_of. rewrite length_take, length_drop. lia. Qed.

Lemma byte_at_app p b q n : length p = n -> byte_at n (p ++ b :: q) = byte_to_Z b.
Proof. intros <-. unfold byte_at. by rewrite list_lookup_middle. Qed.

Lemma byte_cut n l : (n < length l)%nat -> exists b, byte_at n l = byte_to_Z b /\ drop n l = b :: drop (S n) l.
Proof.
  intros Hn. destruct (lookup_lt_is_Some_2 l n Hn) as [b Hb]. exists b. unfold byte_at. rewrite Hb.
  split; [done|]. by apply drop_S.
Qed.

Lemma nonzero_false l : nonzero l = false <-> l = replicate (length l) Byte.x00.
Proof.
  unfold nonzero. induction l as [|b l IH]; [done|]. simpl. rewrite orb_false_iff, negb_false_iff, bool_decide_eq_true, IH.
  split; [intros [-> ->]; by rewrite length_replicate|intros [= -> Heq]; split; [done|]; by rewrite <-Heq].
Qed.

Lemma nonzero_zeros n : nonzero (replicate n Byte.x00) = false.
Proof. apply nonzero_false. by rewrite length_replicate. Qed.

Lemma splice_zeros p src n m :
  length p = n -> splice n src (p ++ replicate (length src + m) Byte.x00) = p ++ src ++ replicate m Byte.x00.
Proof.
  intros <-. unfold splice. rewrite take_app_length, <-drop_drop, drop_app_length, replicate_add.
  by rewrite drop_app_length' by by rewrite length_replicate.
Qed.

Lemma count_byte_Z n : (n < 256)%nat -> byte_to_Z (count_byte n) = Z.of_nat n.
Proof. intros. unfold count_byte. rewrite byte_to_of_Z. apply Z.mod_small. lia. Qed.

Lemma count_byte_to b : count_byte (Z.to_nat (byte_to_Z b)) = b.
Proof.
  pose proof (byte_to_Z_range b). apply byte_to_Z_inj. rewrite count_byte_Z by lia. lia.
Qed.

(** ** The bytes of a hook *)

Definition account_bytes (a : HookAccount) : list byte := key_bytes (ha_address a) ++ [flag (ha_writable a)].
Definition accounts_bytes (l : list HookAccount) : list byte := mjoin (account_bytes <$> l).

Definition hook_bytes (h : HookDescriptor) : list byte :=
  key_bytes (hd_program_id h) ++ hd_entrypoint h ++ count_byte (length (hd_accounts h)) ::
  count_byte (length (hd_static_data h)) :: hd_static_data h ++
  replicate (32 - length (hd_static_data h)) Byte.x00 ++ accounts_bytes (hd_accounts h) ++
  replicate (132 - 33 * length (hd_accounts h)) Byte.x00.

(** What the wire can hold: keys in their canonical text, within the bounds. *)
Record hook_wf (h : HookDescriptor) : Prop := {
  hw_program : is_key (hd_program_id h);
  hw_nonzero : key_bytes (hd_program_id h) <> zero_key;
  hw_entrypoint : length (hd_entrypoint h) = 8%nat;
  hw_accounts : (length (hd_accounts h) <= MAX_HOOK_ACCOUNTS)%nat;
  hw_static : (length (hd_static_data h) <= MAX_STATIC_DATA)%nat;
  hw_keys : Forall (fun a => is_key (ha_address a)) (hd_accounts h);
}.

Lemma length_account_bytes a : is_key (ha_address a) -> length (account_bytes a) = 33%nat.
Proof. intros. unfold account_bytes. by rewrite length_app, length_key_bytes. Qed.

Lemma accounts_bytes_cons a l : accounts_bytes (a :: l) = account_bytes a ++ accounts_bytes l.
Proof. done. Qed.

Lemma length_accounts_bytes l :
  Forall (fun a => is_key (ha_address a)) l -> length (accounts_bytes l) = (33 * length l)%nat.
Proof.
  unfold accounts_bytes. induction 1 as [|a l Ha _ IH]; [done|]. csimpl.
  rewrite length_app, length_account_bytes, IH by done. lia.
Qed.

Lemma length_hook_bytes h : hook_wf h -> length (hook_bytes h) = HOOK_DESCRIPTOR_SIZE.
Proof.
  intros [Hp _ He Ha Hs Hk]. unfold hook_bytes, MAX_HOOK_ACCOUNTS, MAX_STATIC_DATA, HOOK_DESCRIPTOR_SIZE in *.
  rewrite !length_app, length_key_bytes by done. cbn [length].
  rewrite !length_app, length_accounts_bytes, !length_replicate by done. lia.
Qed.

Lemma put_accounts_bytes l : forall index p m,
  Forall (fun a => is_key (ha_address a)) l -> length p = account_offset index ->
  put_accounts index l (p ++ replicate (33 * length l + m) Byte.x00) =
  Ok (p ++ accounts_bytes l ++ replicate m Byte.x00).
Proof.
  induction l as [|a l IH]; intros index p m Hk Hp; [done|].
  apply Forall_cons in Hk as [Ha Hk]. cbn [put_accounts]. rewrite (parse_key_ok _ Ha). cbn [rbind].
  pose proof (length_key_bytes _ Ha) as Hl.
  replace (33 * length (a :: l) + m)%nat with (length (key_bytes (ha_address a)) + (1 + (33 * length l + m)))%nat
    by (cbn [length]; olia).
  rewrite splice_zeros by done. rewrite app_assoc.
  change (1 + (33 * length l + m))%nat with (length [flag (ha_writable a)] + (33 * length l + m))%nat.
  rewrite splice_zeros by (rewrite length_app; olia). rewrite app_assoc, IH; [|done|].
  - unfold accounts_bytes, account_bytes. csimpl. by rewrite <-!app_assoc.
  - rewrite !length_app, Hp, Hl. simpl. olia.
Qed.

Lemma put_hook_bytes h : hook_wf h -> put_hook h zero_slot = Ok (hook_bytes h).
Proof.
  intros [Hp _ He Ha Hs Hk]. unfold put_hook. rewrite (parse_key_ok _ Hp). cbn [rbind].
  pose proof (length_key_bytes _ Hp) as Hl. unfold MAX_HOOK_ACCOUNTS, MAX_STATIC_DATA in *.
  set (kb := key_bytes _) in *. set (n := length (hd_accounts h)) in *. set (d := hd_static_data h) in *.
  change zero_slot with ([] ++ replicate 206 Byte.x00).
  replace 206%nat with (length kb + (length (hd_entrypoint h) + (1 + (1 + (length d + ((32 - length d) +
    (33 * n + (132 - 33 * n))))))))%nat by olia.
  rewrite splice_zeros by done. rewrite app_nil_l, splice_zeros by done.
  rewrite (app_assoc kb).
  rewrite (splice_zeros (kb ++ _) [count_byte n]) by (rewrite length_app; olia). rewrite app_assoc.
  rewrite (splice_zeros _ [count_byte (length d)]) by (rewrite !length_app; simpl; olia). rewrite app_assoc.
  rewrite splice_zeros by (rewrite !length_app; simpl; olia).
  rewrite (replicate_add (32 - length d)), !app_assoc.
  rewrite put_accounts_bytes; [|done|rewrite !length_app, length_replicate; simpl; olia].
  unfold hook_bytes. fold kb n d. by rewrite <-!app_assoc.
Qed.

(** ** Decoding a slot *)

Lemma decode_accounts_bytes l : forall index p q,
  Forall (fun a => is_key (ha_address a)) l -> length p = account_offset index ->
  decode_accounts (p ++ accounts_bytes l ++ q) index (length l) = Ok l.
Proof.
  induction l as [|a l IH]; intros index p q Hk Hp; [done|].
  apply Forall_cons in Hk as [Ha Hk]. pose proof (length_key_bytes _ Ha) as Hl.
  cbn [length decode_accounts]. unfold accounts_bytes, account_bytes. csimpl. rewrite <-!app_assoc.
  rewrite (window_app p (key_bytes (ha_address a))) by (done || olia).
  rewrite (app_assoc p). change ([flag (ha_writable a)] ++ ?l) with (flag (ha_writable a) :: l).
  rewrite byte_at_app by (rewrite length_app; olia). rewrite cons_middle, app_assoc.
  change (mjoin _) with (accounts_bytes l). rewrite IH; [|done|rewrite !length_app; simpl; olia].
  cbn [rbind]. rewrite key_of_key_bytes by done. destruct a as [address []]; done.
Qed.

Lemma decode_accounts_ok raw : forall count index l,
  (account_offset (index + count) <= length raw)%nat -> decode_accounts raw index count = Ok l ->
  length l = count /\ Forall (fun a => is_key (ha_address a)) l /\
  drop (account_offset index) raw = accounts_bytes l ++ drop (account_offset (index + count)) raw.
Proof.
  intros count. induction count as [|count IH]; intros index l Hlen; cbn [decode_accounts].
  - intros [= <-]. rewrite Nat.add_0_r. done.
  - case_decide as Hf; [done|]. intros (rest & Hrest & <-%ok_inj)%rbind_ok.
    apply IH in Hrest as (Hl & Hk & Hd); [|olia].
    pose proof (length_window (account_offset index) 32 raw ltac:(olia)) as Hw.
    split; [simpl; olia|]. split; [constructor; [by exists (window_of (account_offset index) 32 raw)|done]|].
    rewrite accounts_bytes_cons. unfold account_bytes. cbn [ha_address ha_writable].
    rewrite (window_cut _ 32), key_bytes_of by done. rewrite <-!app_assoc. f_equal.
    destruct (byte_cut (account_offset index + 32) raw ltac:(olia)) as (b & Hb & ->). rewrite Hb in Hf. rewrite Hb.
    change ([?x] ++ ?l) with (x :: l). f_equal.
    + pose proof (byte_to_Z_range b) as Hr. apply byte_to_Z_inj. unfold flag.
      case_bool_decide as Hbit; [rewrite Hbit; done|]. replace (byte_to_Z b) with 0 by olia. done.
    + replace (S (account_offset index + 32)) with (account_offset (S index)) by (olia). rewrite Hd.
      by replace (S index + count)%nat with (index + S count)%nat by olia.
Qed.

(** The bytes of a slot. *)
Definition slot_bytes (slot : option HookDescriptor) : list byte :=
  match slot with Some h => hook_bytes h | None => zero_slot end.
Definition slot_wf (slot : option HookDescriptor) : Prop :=
  match slot with Some h => hook_wf h | None => True end.

Lemma decode_slot_bytes slot : slot_wf slot -> decode_slot (slot_bytes slot) = Ok slot.
Proof.
  destruct slot as [h|]; [|intros _; vm_compute; reflexivity].
  intros [Hp Hz He Ha Hs Hk]. simpl. unfold decode_slot, hook_bytes, MAX_HOOK_ACCOUNTS, MAX_STATIC_DATA in *.
  pose proof (length_key_bytes _ Hp) as Hl. pose proof (length_accounts_bytes _ Hk) as Hal.
  set (kb := key_bytes _) in *. set (n := length (hd_accounts h)) in *. set (d := hd_static_data h) in *.
  set (tail := d ++ _).
  rewrite take_app_length' by done. rewrite decide_False by done.
  assert (Hb40 : byte_at 40 (kb ++ hd_entrypoint h ++ count_byte n :: count_byte (length d) :: tail) = Z.of_nat n).
  { rewrite app_assoc, byte_at_app by (rewrite length_app; olia). apply count_byte_Z. olia. }
  assert (Hb41 : byte_at 41 (kb ++ hd_entrypoint h ++ count_byte n :: count_byte (length d) :: tail) =
    Z.of_nat (length d)).
  { transitivity (byte_at 41 (((kb ++ hd_entrypoint h) ++ [count_byte n]) ++ count_byte (length d) :: tail)).
    { by rewrite <-!app_assoc. }
    rewrite byte_at_app by (rewrite !length_app; simpl; lia). apply count_byte_Z. lia. }
  rewrite Hb40, Hb41, !Nat2Z.id. rewrite decide_False by olia.
  rewrite (window_app kb (hd_entrypoint h) _ 32 8) by done.
  change (kb ++ hd_entrypoint h ++ count_byte n :: count_byte (length d) :: tail)
    with (kb ++ hd_entrypoint h ++ [count_byte n; count_byte (length d)] ++ tail).
  rewrite !(app_assoc kb), !(app_assoc (kb ++ hd_entrypoint h)).
  set (p := (kb ++ _) ++ _). assert (Hp42 : length p = 42%nat) by (unfold p; rewrite !length_app; simpl; olia).
  unfold tail. rewrite (window_app p d _ 42 (length d)) by done.
  rewrite (app_assoc p d). set (pd := p ++ d).
  assert (Hpd : length pd = (42 + length d)%nat) by (unfold pd; rewrite length_app; olia).
  rewrite (window_app pd (replicate (32 - length d) Byte.x00)) by (done || rewrite length_replicate; olia).
  rewrite nonzero_zeros, orb_false_l.
  rewrite (app_assoc pd). set (p74 := pd ++ _).
  assert (Hp74 : length p74 = 74%nat) by (unfold p74; rewrite length_app, length_replicate; olia).
  pose proof (decode_accounts_bytes (hd_accounts h) 0 p74 (replicate (132 - 33 * n) Byte.x00) Hk Hp74) as Hda.
  fold n in Hda. rewrite Hda.
  assert (Hnz : nonzero (drop (account_offset n) (p74 ++ accounts_bytes (hd_accounts h) ++
    replicate (132 - 33 * n) Byte.x00)) = false).
  { rewrite app_assoc, drop_app_length' by (rewrite length_app, Hal; olia). apply nonzero_zeros. }
  rewrite Hnz. cbn [rbind]. unfold kb. rewrite key_of_key_bytes by done. by destruct h.
Qed.

Lemma decode_slot_ok raw slot :
  length raw = HOOK_DESCRIPTOR_SIZE -> decode_slot raw = Ok slot -> slot_wf slot /\ raw = slot_bytes slot.
Proof.
  unfold HOOK_DESCRIPTOR_SIZE, decode_slot, MAX_HOOK_ACCOUNTS, MAX_STATIC_DATA. intros Hlen. case_decide as Hz.
  { destruct (nonzero raw) eqn:Hnz; [done|]. intros [= <-]. apply nonzero_false in Hnz. rewrite Hlen in Hnz. done. }
  set (n := Z.to_nat (byte_at 40 raw)). set (len := Z.to_nat (byte_at 41 raw)).
  case_decide as Hb; [done|]. destruct (nonzero (window_of _ _ raw)) eqn:Hn1; [done|].
  destruct (nonzero (drop _ raw)) eqn:Hn2; [done|]. cbn [orb].
  intros (accounts & Ha & [= <-])%rbind_ok.
  apply decode_accounts_ok in Ha as (Hal & Hk & Hd); [|unfold n in *; olia].
  assert (Hkb : length (take 32 raw) = 32%nat) by (rewrite length_take; olia).
  assert (Hst : length (window_of 42 len raw) = len) by (apply length_window; olia).
  split.
  - split; cbn; [by exists (take 32 raw)|by rewrite key_bytes_of|by apply length_window; olia| | |done];
      unfold MAX_HOOK_ACCOUNTS, MAX_STATIC_DATA; olia.
  - unfold slot_bytes, hook_bytes. cbn [hd_program_id hd_entrypoint hd_accounts hd_static_data].
    rewrite Hst, Hal, key_bytes_of by done. rewrite <-(take_drop 32 raw) at 1. f_equal.
    rewrite (window_cut 32 8). f_equal. change (32 + 8)%nat with 40%nat.
    destruct (byte_cut 40 raw ltac:(olia)) as (b40 & Hb40 & ->).
    destruct (byte_cut 41 raw ltac:(olia)) as (b41 & Hb41 & ->).
    unfold n, len. rewrite Hb40, Hb41, !count_byte_to. do 2 f_equal. rewrite <-Hb40, <-Hb41. fold n len.
    rewrite (window_cut 42 len) at 1. f_equal.
    rewrite (window_cut (42 + len) (74 - (42 + len))). apply nonzero_false in Hn1, Hn2.
    rewrite length_window in Hn1 by olia. rewrite length_drop, Hlen in Hn2. f_equal.
    + by rewrite Hn1.
    + replace (42 + len + (74 - (42 + len)))%nat with (account_offset 0) by olia. rewrite Hd. f_equal.
      change (0 + n)%nat with n. rewrite Hn2. f_equal. olia.
Qed.

(** ** Accounts *)

Definition hooks_wf (h : ChannelHooks) : Prop := Forall slot_wf (slots h).
Definition hooks_bytes (h : ChannelHooks) : list byte := mjoin (slot_bytes <$> slots h).

Lemma length_slot_bytes slot : slot_wf slot -> length (slot_bytes slot) = HOOK_DESCRIPTOR_SIZE.
Proof. destruct slot as [h|]; [apply length_hook_bytes|done]. Qed.

Lemma fixed_slots_bytes sl : Forall slot_wf sl -> fixed_slots sl = Ok (mjoin (slot_bytes <$> sl)).
Proof.
  induction 1 as [|slot sl Hs _ IH]; [done|]. cbn [fixed_slots]. rewrite IH.
  destruct slot as [h|]; [|done]. by rewrite (put_hook_bytes h Hs).
Qed.

Lemma decode_slots_iff n : forall data sl,
  length data = (n * HOOK_DESCRIPTOR_SIZE)%nat ->
  decode_slots n data = Ok sl <-> length sl = n /\ Forall slot_wf sl /\ data = mjoin (slot_bytes <$> sl).
Proof.
  induction n as [|n IH]; intros data sl Hlen; cbn [decode_slots].
  { destruct data; [|done]. split; [by intros <-%ok_inj|]. by intros (Hsl & _); destruct sl. }
  assert (Htake : length (take HOOK_DESCRIPTOR_SIZE data) = HOOK_DESCRIPTOR_SIZE) by (rewrite length_take; lia).
  assert (Hdrop : length (drop HOOK_DESCRIPTOR_SIZE data) = (n * HOOK_DESCRIPTOR_SIZE)%nat)
    by (rewrite length_drop; lia).
  split.
  - intros (slot & Hslot & (rest & Hrest & <-%ok_inj)%rbind_ok)%rbind_ok.
    apply decode_slot_ok in Hslot as [Hwf Hraw]; [|done]. apply IH in Hrest as (Hl & Hall & Hd); [|done].
    split_and!; [simpl; lia|by constructor|]. rewrite fmap_cons. change (mjoin (?x :: ?l)) with (x ++ mjoin l).
    by rewrite <-Hraw, <-Hd, take_drop.
  - intros (Hl & Hall & ->). destruct sl as [|slot sl]; [done|]. apply Forall_cons in Hall as [Hs Hall].
    rewrite fmap_cons in *. change (mjoin (?x :: ?l)) with (x ++ mjoin l) in *.
    pose proof (length_slot_bytes _ Hs) as Hsl.
    rewrite take_app_length' in * by done. rewrite drop_app_length' in * by done.
    rewrite decode_slot_bytes by done. cbn [rbind].
    rewrite (proj2 (IH _ sl Hdrop)) by (split_and!; [simpl in Hl; lia|done|done]). done.
Qed.

Lemma decode_base_iff data version c :
  decode_base data version = Ok c <->
  channel_wf c /\ data = channel_bytes c /\ ca_discriminator c = 1 /\ ca_version c = version /\ ca_status c <= 3.
Proof.
  assert (Hat : channel_wf c -> byte_at 0 (channel_bytes c) = ca_discriminator c /\
    byte_at 1 (channel_bytes c) = ca_version c /\ byte_at 3 (channel_bytes c) = ca_status c).
  { intros []. unfold byte_at, channel_bytes. cbn [le_bytes app lookup list_lookup fmap option_fmap option_map default].
    split_and!; by apply byte_tag. }
  unfold decode_base. split.
  - case_decide as Hc; [done|]. intros Hok%rmap_err_ok. apply channel_from_bytes_iff in Hok as [Hwf [rest ->]].
    rewrite length_app, length_channel_bytes in Hc by done. destruct rest; [|simpl in Hc; unfold CHANNEL_ACCOUNT_SIZE in Hc; lia].
    rewrite app_nil_r in *. destruct (Hat Hwf) as (H0' & H1' & H3'). rewrite H0', H1', H3' in Hc.
    split_and!; try done; lia.
  - intros (Hwf & -> & Hd & Hv & Hs). destruct (Hat Hwf) as (H0' & H1' & H3').
    rewrite decide_False by (rewrite H0', H1', H3', length_channel_bytes by done; unfold CHANNEL_ACCOUNT_SIZE; lia).
    rewrite (proj2 (channel_from_bytes_iff _ c)); [done|]. split; [done|]. exists []. by rewrite app_nil_r.
Qed.

(** A version-2 account and the one encoding of it. *)
Record state_wf (st : ChannelState) : Prop := {
  sw_channel : channel_wf (cs_channel st);
  sw_discriminator : ca_discriminator (cs_channel st) = 1;
  sw_version : ca_version (cs_channel st) = 2;
  sw_status : ca_status (cs_channel st) <= 3;
  sw_guard : cs_guard st = 0;
  sw_sequence : in_u64 (cs_operation_sequence st);
  sw_hooks : hooks_wf (cs_hooks st);
  sw_valid : validate (cs_hooks st) = Ok tt;
  sw_hash : cs_config_hash st = sha256 (hooks_bytes (cs_hooks st));
  sw_hash_length : length (cs_config_hash st) = 32%nat;
}.

Definition state_bytes (st : ChannelState) : list byte :=
  channel_bytes (cs_channel st) ++ [Byte.x00] ++ u64_bytes (cs_operation_sequence st) ++ cs_config_hash st ++
  hooks_bytes (cs_hooks st).

Lemma encode_fixed_bytes h : hooks_wf h -> validate h = Ok tt -> encode_fixed h = Ok (hooks_bytes h).
Proof. intros Hwf Hv. unfold encode_fixed. rewrite Hv. cbn [rbind]. by apply fixed_slots_bytes. Qed.

Lemma length_hooks_bytes h : hooks_wf h -> length (hooks_bytes h) = 824%nat.
Proof.
  unfold hooks_wf, hooks_bytes, slots. rewrite !Forall_cons. intros (H0' & H1' & H2' & H3' & _). csimpl.
  rewrite !length_app, !length_slot_bytes by done. done.
Qed.

(** C28. An account of the second version decodes exactly when it is the one
    encoding of a channel and its hooks: the length, the discriminator, the idle
    guard, every unused byte of every hook slot and the commitment to the hooks
    are determined by what is decoded, so two different accounts never read as
    the same channel and an encoded one always reads back. *)
Theorem account_v2_roundtrip data st :
  decode_channel data = Ok st <-> state_wf st /\ data = state_bytes st.
Proof.
  unfold decode_channel, CHANNEL_V2_ACCOUNT_SIZE. split.
  - case_decide as Hlen; [done|].
    intros (c & (Hwf & Hc & Hdisc & Hver & Hst)%decode_base_iff & Hrest)%rbind_ok. case_decide as Hg; [done|].
    apply rbind_ok in Hrest as (sl & Hsl & Hrest).
    apply decode_slots_iff in Hsl as (Hl & Hall & Hd); [|rewrite length_drop, Hlen; done].
    destruct sl as [|s0 [|s1 [|s2 [|s3 [|]]]]]; try done. cbn [lookup list_lookup default from_option id] in Hrest.
    set (hooks := {| pre_fund := s0; post_fund := s1; pre_distribute := s2; post_distribute := s3 |}) in Hrest.
    assert (Hhw : hooks_wf hooks) by done.
    apply rbind_ok in Hrest as ([] & Hval & Hrest). unfold config_hash in Hrest.
    rewrite (encode_fixed_bytes _ Hhw Hval) in Hrest. cbn [rmap rbind] in Hrest.
    case_decide as Hh; [done|]. apply ok_inj in Hrest as <-.
    pose proof (length_window 257 8 data ltac:(lia)) as H8.
    pose proof (length_window 265 32 data ltac:(lia)) as H32. split.
    + split; try done; cbn [cs_operation_sequence]. by apply from_le_in_u64.
    + unfold state_bytes. cbn [cs_channel cs_operation_sequence cs_config_hash cs_hooks]. rewrite <-Hc.
      rewrite <-(take_drop 256 data) at 1. f_equal.
      destruct (byte_cut 256 data ltac:(lia)) as (b & Hb & ->). rewrite Hb in Hg.
      assert (b = Byte.x00) as -> by (apply byte_to_Z_inj; by rewrite Hg).
      change ([?x] ++ ?l) with (x :: l). f_equal.
      rewrite (window_cut 257 8), (window_cut (257 + 8) 32). f_equal.
      * pose proof (le_bytes_from_le (window_of 257 8 data)) as Hle. rewrite H8 in Hle.
        unfold u64_bytes. by rewrite Hle.
      * f_equal. exact Hd.
  - intros [[Hwf Hdisc Hver Hst Hg Hseq Hhw Hval Hh Hhl] ->].
    pose proof (length_channel_bytes _ Hwf) as Hlc. unfold CHANNEL_ACCOUNT_SIZE in Hlc.
    pose proof (length_hooks_bytes _ Hhw) as Hlh. unfold state_bytes.
    assert (H8 : length (u64_bytes (cs_operation_sequence st)) = 8%nat) by apply length_le_bytes.
    rewrite decide_False by (rewrite !length_app, Hlc, H8, Hhl, Hlh; simpl; lia).
    rewrite take_app_length' by done.
    rewrite (proj2 (decode_base_iff _ 2 (cs_channel st))) by done. cbn [rbind].
    change ([Byte.x00] ++ ?l) with (Byte.x00 :: l). rewrite byte_at_app by done.
    change (byte_to_Z Byte.x00 <> 0) with (0 <> 0). rewrite decide_False by auto.
    rewrite cons_middle, !app_assoc. rewrite (drop_app_length' (_ ++ cs_config_hash st))
      by (rewrite !length_app, Hlc, H8, Hhl; done).
    rewrite (proj2 (decode_slots_iff 4 (hooks_bytes (cs_hooks st)) (slots (cs_hooks st)) Hlh)) by done.
    cbn [rbind].
    cbn [slots lookup list_lookup default from_option id].
    assert (Heta : {| pre_fund := pre_fund (cs_hooks st); post_fund := post_fund (cs_hooks st);
      pre_distribute := pre_distribute (cs_hooks st); post_distribute := post_distribute (cs_hooks st) |} =
      cs_hooks st) by (by destruct (cs_hooks st)).
    rewrite Heta, Hval. cbn [rbind]. unfold config_hash. rewrite (encode_fixed_bytes _ Hhw Hval). cbn [rmap rbind].
    rewrite <-!app_assoc, (app_assoc (channel_bytes _)), (app_assoc _ (u64_bytes _)).
    rewrite (window_app _ (cs_config_hash st) _ 265 32) by (done || rewrite !length_app, Hlc, H8; done).
    rewrite decide_False by (rewrite Hh; auto).
    rewrite <-!app_assoc, (app_assoc (channel_bytes _)).
    rewrite (window_app _ (u64_bytes _) _ 257 8) by (done || rewrite !length_app, Hlc; done).
    rewrite from_le_u64 by done. rewrite <-Hg. by destruct st.
Qed.

(** ** The suffix of an open *)

Lemma suffix_accounts_bytes l :
  Forall (fun a => is_key (ha_address a)) l -> suffix_accounts l = Ok (accounts_bytes l).
Proof.
  induction 1 as [|a l Ha _ IH]; [done|]. cbn [suffix_accounts]. rewrite (parse_key_ok _ Ha), IH. cbn [rbind].
  rewrite accounts_bytes_cons. unfold account_bytes. by rewrite <-app_assoc.
Qed.

Lemma key_bytes_inj k k' : is_key k -> is_key k' -> key_bytes k = key_bytes k' -> k = k'.
Proof. intros Hk Hk' Heq. by rewrite <-(key_of_key_bytes k), <-(key_of_key_bytes k'), Heq by done. Qed.

Lemma accounts_bytes_inj l : forall l',
  Forall (fun a => is_key (ha_address a)) l -> Forall (fun a => is_key (ha_address a)) l' ->
  length l = length l' -> accounts_bytes l = accounts_bytes l' -> l = l'.
Proof.
  induction l as [|a l IH]; intros [|a' l'] Hk Hk' Hlen Heq; try done.
  apply Forall_cons in Hk as [Ha Hk]. apply Forall_cons in Hk' as [Ha' Hk']. rewrite !accounts_bytes_cons in Heq.
  apply app_inj_1 in Heq as [Heq1 Heq2]; [|by rewrite !length_account_bytes].
  apply app_inj_1 in Heq1 as [Hkey Hflag]; [|by rewrite !length_key_bytes].
  f_equal; [|apply IH; try done; simpl in Hlen; lia]. apply key_bytes_inj in Hkey; [|done|done].
  destruct a as [k b], a' as [k' b']. simpl in *. subst k'. f_equal. by destruct b, b'.
Qed.

Lemma suffix_slots_some h sl :
  hook_wf h -> suffix_slots (Some h :: sl) =
  let? rest := suffix_slots sl in
  Ok (flag true :: key_bytes (hd_program_id h) ++ hd_entrypoint h ++ count_byte (length (hd_accounts h)) ::
      count_byte (length (hd_static_data h)) :: hd_static_data h ++ accounts_bytes (hd_accounts h) ++ rest).
Proof.
  intros [Hp _ _ _ _ Hk]. cbn [suffix_slots]. by rewrite (parse_key_ok _ Hp), (suffix_accounts_bytes _ Hk).
Qed.

Lemma count_byte_inj n m : (n < 256)%nat -> (m < 256)%nat -> count_byte n = count_byte m -> n = m.
Proof. intros Hn Hm Heq. apply (f_equal byte_to_Z) in Heq. rewrite !count_byte_Z in Heq by done. lia. Qed.

Lemma suffix_slots_inj sl : forall sl' s,
  Forall slot_wf sl -> Forall slot_wf sl' -> length sl = length sl' ->
  suffix_slots sl = Ok s -> suffix_slots sl' = Ok s -> sl = sl'.
Proof.
  induction sl as [|slot sl IH]; intros [|slot' sl'] s Hwf Hwf' Hlen Hs Hs'; try done.
  apply Forall_cons in Hwf as [Hh Hwf]. apply Forall_cons in Hwf' as [Hh' Hwf'].
  destruct slot as [h|], slot' as [h'|].
  - rewrite suffix_slots_some in Hs, Hs' by done.
    apply rbind_ok in Hs as (rest & Hr & <-%ok_inj). apply rbind_ok in Hs' as (rest' & Hr' & Heq%ok_inj).
    destruct Hh as [Hp _ He Ha Hd Hk], Hh' as [Hp' _ He' Ha' Hd' Hk'].
    unfold MAX_HOOK_ACCOUNTS, MAX_STATIC_DATA in *. injection Heq as Heq.
    apply app_inj_1 in Heq as [Hprog Heq]; [|by rewrite !length_key_bytes].
    apply app_inj_1 in Heq as [Hentry Heq]; [|congruence]. injection Heq as Hcount Hlens Heq.
    apply count_byte_inj in Hcount, Hlens; [|lia..].
    apply app_inj_1 in Heq as [Hst Heq]; [|done].
    apply app_inj_1 in Heq as [Hacc Heq]; [|by rewrite !length_accounts_bytes, Hcount].
    subst rest'. f_equal; [|eapply IH; try done; simpl in Hlen; lia].
    apply key_bytes_inj in Hprog; [|done|done]. apply accounts_bytes_inj in Hacc; [|done..].
    destruct h, h'; simpl in *; congruence.
  - rewrite suffix_slots_some in Hs by done. cbn [suffix_slots] in Hs'.
    apply rbind_ok in Hs as (? & _ & <-%ok_inj). apply rbind_ok in Hs' as (? & _ & Heq%ok_inj). done.
  - rewrite suffix_slots_some in Hs' by done. cbn [suffix_slots] in Hs.
    apply rbind_ok in Hs' as (? & _ & <-%ok_inj). apply rbind_ok in Hs as (? & _ & Heq%ok_inj). done.
  - cbn [suffix_slots] in Hs, Hs'. apply rbind_ok in Hs as (rest & Hr & <-%ok_inj).
    apply rbind_ok in Hs' as (rest' & Hr' & Heq%ok_inj). injection Heq as ->. f_equal.
    eapply IH; try done. simpl in Hlen. lia.
Qed.

(** Two configurations never open with the same bytes. *)
Theorem open_suffix_inj h h' s :
  hooks_wf h -> hooks_wf h' -> encode_open_suffix h = Ok s -> encode_open_suffix h' = Ok s -> h = h'.
Proof.
  intros Hwf Hwf' (_ & _ & Hs)%rbind_ok (_ & _ & Hs')%rbind_ok.
  assert (Heq : slots h = slots h') by (by eapply suffix_slots_inj).
  destruct h, h'. unfold slots in Heq. simpl in Heq. congruence.
Qed.

End canonical.

(** * Callbacks *)
Section callbacks.
Context {Key : Type} `{Crypto Key, Addresses}.

(** An extra account of a callback: never a signer; its key is the hook's
    program, its callback authority, or one of the hook's own accounts, which
    alone may be writable and never the channel. *)
Definition extra_meta (channel : Pubkey) (h : ChannelHooks) (hash : list byte) (program : Pubkey)
    (phase : nat) (m : Pubkey * bool * bool) : Prop :=
  let '(key, signer, writable) := m in
  signer = false /\
  exists hook target authority, slots h !! phase = Some (Some hook) /\
    parse_pubkey (hd_program_id hook) = Ok target /\
    find_callback_authority channel hash (Z.of_nat phase) target program = Ok authority /\
    ((writable = false /\ (key = target \/ key = authority)) \/
     (key <> channel /\ key <> authority /\ exists a, a ∈ hd_accounts hook /\
        parse_pubkey (ha_address a) = Ok key /\ writable = ha_writable a)).

Lemma hook_metas_ok channel authority accounts metas :
  hook_metas channel authority accounts = Ok metas ->
  Forall (fun '(key, signer, writable) => signer = false /\ key <> channel /\ key <> authority /\
    exists a, a ∈ accounts /\ parse_pubkey (ha_address a) = Ok key /\ writable = ha_writable a) metas /\
  length metas = length accounts.
Proof.
  revert metas. induction accounts as [|a accounts IH]; intros metas; cbn [hook_metas].
  { intros <-%ok_inj. done. }
  intros (key & Hkey & Hrest)%rbind_ok. case_decide as Hd; [done|].
  apply rbind_ok in Hrest as (rest & Hrest & <-%ok_inj). apply IH in Hrest as [Hall Hlen].
  split; [|simpl; lia]. constructor.
  - assert (Hm : exists w, (if ha_writable a then meta_new key false else meta_readonly key false) =
      (key, false, w) /\ w = ha_writable a) by (destruct (ha_writable a); eexists; done).
    destruct Hm as (w & -> & ->). split_and!; [done|tauto|tauto|]. exists a. split_and!; [left|done|done].
  - eapply Forall_impl; [exact Hall|]. intros [[k s] w] (Hs & Hc & Hau & b & Hb & Hrest). split_and!; try done.
    exists b. split; [by right|done].
Qed.

Lemma phase_metas_ok channel h hash program phases metas :
  phase_metas channel h hash program phases = Ok metas ->
  Forall (fun m => exists phase, phase ∈ phases /\ extra_meta channel h hash program phase m) metas.
Proof.
  revert metas. induction phases as [|phase phases IH]; intros metas; cbn [phase_metas].
  { intros <-%ok_inj. constructor. }
  assert (Hweaken : forall l, Forall (fun m => exists phase, phase ∈ phases /\ extra_meta channel h hash program phase m) l ->
    Forall (fun m => exists p, p ∈ phase :: phases /\ extra_meta channel h hash program p m) l).
  { intros l Hl. eapply Forall_impl; [exact Hl|]. intros m (p & Hp & Hm). exists p. split; [by right|done]. }
  destruct (slots h !! phase) as [[hook|]|] eqn:Hslot; cbn [default from_option]; [|by intros Hm; apply Hweaken, IH..].
  intros (target & Ht & (authority & Hau & (extra & Hx & (rest & Hr & <-%ok_inj)%rbind_ok)%rbind_ok)%rbind_ok)%rbind_ok.
  assert (Hhere : forall m, extra_meta channel h hash program phase m ->
    exists p, p ∈ phase :: phases /\ extra_meta channel h hash program p m).
  { intros m Hm. exists phase. split; [left|done]. }
  constructor; [|constructor; [|apply Forall_app; split; [|by apply Hweaken, IH]]].
  - apply Hhere. split; [done|]. exists hook, target, authority. split_and!; try done. left. auto.
  - apply Hhere. split; [done|]. exists hook, target, authority. split_and!; try done. left. auto.
  - apply hook_metas_ok in Hx as [Hall _]. eapply Forall_impl; [exact Hall|].
    intros [[key signer] writable] (Hs & Hc & Hna & Ha). apply Hhere. split; [done|].
    exists hook, target, authority. split_and!; try done. by right.
Qed.

(** Appending a channel's hooks to an instruction keeps its program, its data
    and its own accounts, and adds only accounts that sign nothing: each hook's
    program and callback authority, read-only, and the accounts the hook
    declares, which alone may be writable and are never the channel. Only the
    second version's program takes hooks, and only valid ones. *)
Theorem append_hooks_unprivileged ix channel h phases ix' :
  append_hooks ix channel h phases = Ok ix' ->
  parse_pubkey PAYMENT_CHANNELS_PROGRAM_ID = Ok (program_id ix) /\ validate h = Ok tt /\
  program_id ix' = program_id ix /\ ix_data ix' = ix_data ix /\
  exists hash extra, config_hash h = Ok hash /\ account_metas ix' = account_metas ix ++ extra /\
    Forall (fun m => exists phase, phase ∈ phases /\ extra_meta channel h hash (program_id ix) phase m) extra.
Proof.
  unfold append_hooks. intros (d & Hd & (hash & Hh & (extra & Hx & <-%ok_inj)%rbind_ok)%rbind_ok)%rbind_ok.
  apply resolve_ok in Hd as [(_ & ? & _)|(_ & Hp & _)]; [done|].
  assert (Hv : validate h = Ok tt).
  { unfold config_hash, encode_fixed in Hh. destruct (validate h) as [[]|]; [done|]. by simpl in Hh. }
  split_and!; try done. exists hash, extra. split_and!; [done|done|]. by apply phase_metas_ok.
Qed.

(** An instruction without enabled hooks in its phases is left as it is. *)
Lemma append_no_hooks ix channel hash phases :
  parse_pubkey PAYMENT_CHANNELS_PROGRAM_ID = Ok (program_id ix) -> program_id ix <> default_program_id ->
  config_hash no_hooks = Ok hash -> Forall (fun p => (p < 4)%nat) phases ->
  append_hooks ix channel no_hooks phases = Ok ix.
Proof.
  intros Hp Hne Hh Hph. unfold append_hooks.
  rewrite (proj2 (resolve_ok _ _ {| dp_program_id := program_id ix; dp_version := 2 |})) by (right; done).
  cbn [rbind]. rewrite Hh. cbn [rbind].
  assert (Hnil : phase_metas channel no_hooks hash (program_id ix) phases = Ok []).
  { induction Hph as [|p phases Hlt _ IH]; [done|]. cbn [phase_metas].
    by destruct p as [|[|[|[|]]]]. }
  rewrite Hnil. cbn [rbind]. unfold with_accounts. rewrite app_nil_r. by destruct ix.
Qed.

(** RPC data is decoded only under the deployment it belongs to: the account is
    owned by the selected program, that program is known, and the version selected
    is that program's own; a first-version account carries no hooks. *)
Theorem decode_account_fails_closed d owner data st :
  decode_account d owner data = Ok st ->
  owner = dp_program_id d /\
  ((owner = default_program_id /\ dp_version d = 1 /\ cs_hooks st = no_hooks /\
    decode_base data 1 = Ok (cs_channel st)) \/
   (owner <> default_program_id /\ parse_pubkey PAYMENT_CHANNELS_PROGRAM_ID = Ok owner /\ dp_version d = 2 /\
    decode_channel data = Ok st)).
Proof.
  unfold decode_account, deployment_decode_channel. case_decide as Ho; [done|]. subst owner.
  intros (d' & Hd & Hrest)%rbind_ok. split; [done|].
  apply resolve_ok in Hd as [(Hp & Hv & ->)|(Hp & Hparse & [= Hv] & ->)]; simpl in *.
  - left. rewrite decide_False in Hrest by lia. apply rbind_ok in Hrest as (c & Hc & <-%ok_inj). done.
  - right. rewrite decide_True in Hrest by done. done.
Qed.
End callbacks.

(** * A concrete configuration *)
Module HooksDemo.
Export AddressesDemo.

#[global] Instance key_text : KeyText (list byte).
Proof.
  split.
  - intros l Hl. simpl. unfold text. f_equal.
    rewrite (String.list_byte_of_string_of_list_byte l). by apply pad_full.
  - intros s l. simpl. intros [= <-]. unfold pad. rewrite length_take, length_app, length_replicate. lia.
Qed.

Definition hook : HookDescriptor := {|
  hd_program_id := key "callee"; hd_entrypoint := text "prefund!";
  hd_accounts := [{| ha_address := key "ledger"; ha_writable := true |};
                  {| ha_address := key "oracle"; ha_writable := false |}];
  hd_static_data := [Byte.x04; Byte.x05] |}.

Definition hooks : ChannelHooks :=
  {| pre_fund := Some hook; post_fund := None; pre_distribute := None; post_distribute := None |}.

Definition second_program : Pubkey := default "" (match parse_pubkey PAYMENT_CHANNELS_PROGRAM_ID with
  Ok key => Some key | Err _ => None end).

Definition base : ChannelAccount := {|
  ca_discriminator := 1; ca_version := 2; ca_bump := 254; ca_status := 0; ca_salt := 7; ca_deposit := 500;
  ca_settled := 0; ca_payout_watermark := 0; ca_closure_started_at := 0; ca_payer_withdrawn_at := 0;
  ca_grace_period := 900; ca_distribution_hash := distribution_hash (sole_recipient (key "receiver"));
  ca_payer := key "payer"; ca_payee := key "sponsor"; ca_authorized_signer := key "signer";
  ca_mint := key "mint"; ca_rent_payer := key "sponsor"; ca_open_slot := 1000 |}.

Definition state : ChannelState := {|
  cs_channel := base; cs_hooks := hooks; cs_guard := 0; cs_operation_sequence := 9;
  cs_config_hash := sha256 (hooks_bytes hooks) |}.

Definition top_up : result Instruction Error :=
  build_top_up_instruction_v2 (key "payer") (key "channel") (key "mint") 500 (key "token program")
    second_program hooks.
End HooksDemo.

Example state_reads_back : decode_channel (state_bytes HooksDemo.state) = Ok HooksDemo.state.
Proof. vm_compute. reflexivity. Qed.

Example active_guard_refused :
  is_ok (decode_channel (take 256 (state_bytes HooksDemo.state) ++ Byte.x01 ::
    drop 257 (state_bytes HooksDemo.state))) = false.
Proof. vm_compute. reflexivity. Qed.

Example noncanonical_padding_refused :
  is_ok (decode_channel (take 1120 (state_bytes HooksDemo.state) ++ [Byte.x01])) = false.
Proof. vm_compute. reflexivity. Qed.

Lemma open_suffix_inj_witness :
  exists s, encode_open_suffix HooksDemo.hooks = Ok s /\ HooksDemo.hooks = HooksDemo.hooks.
Proof.
  destruct (encode_open_suffix HooksDemo.hooks) as [s|e] eqn:Hs.
  - exists s. split; [reflexivity|].
    assert (Hwf : hooks_wf HooksDemo.hooks).
    { repeat constructor; try apply AddressesDemo.is_key_demo; vm_compute; discriminate. }
    exact (open_suffix_inj HooksDemo.hooks HooksDemo.hooks s Hwf Hwf Hs Hs).
  - vm_compute in Hs. discriminate Hs.
Defined.

Lemma append_hooks_unprivileged_witness :
  exists ix', HooksDemo.top_up = Ok ix' /\
    ix_data ix' = byte_of_Z TOP_UP_DISCRIMINATOR :: u64_bytes 500 /\ length (account_metas ix') = 10%nat.
Proof.
  destruct HooksDemo.top_up as [ix'|e] eqn:Hix; [|vm_compute in Hix; discriminate Hix].
  exists ix'. split; [reflexivity|]. split; [|vm_compute in Hix; injection Hix as <-; reflexivity].
  destruct (append_hooks_unprivileged _ _ _ _ _ Hix) as (_ & _ & _ & Hd & _). exact Hd.
Defined.

Lemma decode_account_fails_closed_witness :
  let d := {| dp_program_id := HooksDemo.second_program; dp_version := 2 |} in
  decode_account d HooksDemo.second_program (state_bytes HooksDemo.state) = Ok HooksDemo.state /\
  HooksDemo.second_program = dp_program_id d.
Proof.
  intros d. assert (Hd : decode_account d HooksDemo.second_program (state_bytes HooksDemo.state) =
    Ok HooksDemo.state) by (vm_compute; reflexivity).
  split; [exact Hd|]. exact (proj1 (decode_account_fails_closed d _ _ _ Hd)).
Defined.

Lemma account_v2_roundtrip_witness :
  decode_channel (state_bytes HooksDemo.state) = Ok HooksDemo.state /\
  state_wf HooksDemo.state /\ length (state_bytes HooksDemo.state) = CHANNEL_V2_ACCOUNT_SIZE.
Proof.
  assert (Hd : decode_channel (state_bytes HooksDemo.state) = Ok HooksDemo.state) by (vm_compute; reflexivity).
  split; [exact Hd|]. split; [|vm_compute; reflexivity].
  exact (proj1 (proj1 (account_v2_roundtrip (state_bytes HooksDemo.state) HooksDemo.state) Hd)).
Defined.
