(* ===== verification/X402Batch.v ===== *)
(** The x402 [batch-settlement] scheme without its transactions
    (src/rust/crates/kit/src/x402/protocol/schemes/batch_settlement/errors.rs,
    types.rs, verify.rs): the errors and the codes the counterparty reads, the wire
    types, and the stateless checks on a channel configuration, a voucher and a
    close authorization. *)
From stdpp Require Import base numbers option list strings pretty sets.
From S2P Require Import Prelude Bytes Units Voucher Tx ChannelTx Deployments ChannelProgram.
Open Scope Z_scope.

(** * Errors *)

Definition INVALID_PAYLOAD_TYPE : string := "invalid_batch_settlement_svm_payload_type".
Definition INVALID_PAYMENT_FLOW : string := "invalid_batch_settlement_svm_payment_flow".
Definition INVALID_TOKEN_PROGRAM : string := "invalid_batch_settlement_svm_token_program".
Definition INVALID_VOUCHER_SIGNATURE : string := "invalid_batch_settlement_svm_voucher_signature".
Definition INVALID_CHANNEL_ID_MISMATCH : string := "invalid_batch_settlement_svm_channel_id_mismatch".
Definition INVALID_FEE_PAYER_MISMATCH : string := "invalid_batch_settlement_svm_fee_payer_mismatch".
Definition INVALID_RECEIVER_AUTHORIZER_MISMATCH : string :=
  "invalid_batch_settlement_svm_receiver_authorizer_mismatch".
Definition INVALID_CLOSE_AUTHORIZATION : string := "invalid_batch_settlement_svm_close_authorization".
Definition INVALID_CLOSE_AMOUNT_UNSUPPORTED : string :=
  "invalid_batch_settlement_svm_close_amount_unsupported".
Definition INVALID_CLOSE_STATE : string := "invalid_batch_settlement_svm_close_state".
Definition INVALID_WITHDRAW_DELAY_MISMATCH : string :=
  "invalid_batch_settlement_svm_withdraw_delay_mismatch".
Definition INVALID_WITHDRAW_DELAY_OUT_OF_RANGE : string :=
  "invalid_batch_settlement_svm_withdraw_delay_out_of_range".
Definition INVALID_CUMULATIVE_AMOUNT_MISMATCH : string :=
  "invalid_batch_settlement_svm_cumulative_amount_mismatch".
Definition INVALID_CUMULATIVE_EXCEEDS_DEPOSIT : string :=
  "invalid_batch_settlement_svm_cumulative_exceeds_deposit".
Definition INVALID_VOUCHER_EXPIRY : string := "invalid_batch_settlement_svm_voucher_expiry".
Definition INVALID_SETUP_TRANSACTION : string := "invalid_batch_settlement_svm_setup_transaction".
Definition INVALID_SETTLEMENT_SIMULATION : string :=
  "invalid_batch_settlement_svm_settlement_simulation".
Definition INVALID_CHANNEL_STATE : string := "invalid_batch_settlement_svm_channel_state".
Definition INVALID_REFUND_TRANSACTION : string := "invalid_batch_settlement_svm_refund_transaction".
Definition INVALID_CHANNEL_CLOSING : string := "invalid_batch_settlement_svm_channel_closing".
Definition INVALID_PAYOUT_ATTRIBUTION_AMBIGUOUS : string :=
  "invalid_batch_settlement_svm_payout_attribution_ambiguous".
Definition INVALID_RECEIVER_BINDING_UNAVAILABLE : string :=
  "invalid_batch_settlement_svm_receiver_binding_unavailable".
Definition INVALID_X402_VERSION : string := "invalid_x402_version".
Definition INVALID_PAYMENT_REQUIREMENTS : string := "invalid_payment_requirements".
Definition UNSUPPORTED_TRANSACTION_VERSION : string := "unsupported_transaction_version".
Definition DUPLICATE_SETTLEMENT : string := "duplicate_settlement".

Definition ALL_CODES : list string := [
  INVALID_PAYLOAD_TYPE; INVALID_PAYMENT_FLOW; INVALID_TOKEN_PROGRAM; INVALID_VOUCHER_SIGNATURE;
  INVALID_CHANNEL_ID_MISMATCH; INVALID_FEE_PAYER_MISMATCH; INVALID_RECEIVER_AUTHORIZER_MISMATCH;
  INVALID_CLOSE_AUTHORIZATION; INVALID_CLOSE_AMOUNT_UNSUPPORTED; INVALID_CLOSE_STATE;
  INVALID_WITHDRAW_DELAY_MISMATCH; INVALID_WITHDRAW_DELAY_OUT_OF_RANGE;
  INVALID_CUMULATIVE_AMOUNT_MISMATCH; INVALID_CUMULATIVE_EXCEEDS_DEPOSIT; INVALID_VOUCHER_EXPIRY;
  INVALID_SETUP_TRANSACTION; INVALID_SETTLEMENT_SIMULATION; INVALID_CHANNEL_STATE;
  INVALID_REFUND_TRANSACTION; INVALID_CHANNEL_CLOSING; INVALID_PAYOUT_ATTRIBUTION_AMBIGUOUS;
  INVALID_RECEIVER_BINDING_UNAVAILABLE; INVALID_X402_VERSION; INVALID_PAYMENT_REQUIREMENTS;
  UNSUPPORTED_TRANSACTION_VERSION; DUPLICATE_SETTLEMENT].

Record BatchError := { code : string; detail : string }.

#[export] Instance BatchError_eq_dec : EqDecision BatchError.
Proof. solve_decision. Defined.

(** [Display]. *)
Definition batch_error_text (e : BatchError) : string := code e +:+ ": " +:+ detail e.

(** [str::strip_prefix], [str::contains]. *)
Fixpoint strip_prefix (prefix s : string) : option string :=
  match prefix, s with
  | EmptyString, _ => Some s
  | String a prefix, String b s => if Ascii.eqb a b then strip_prefix prefix s else None
  | String _ _, EmptyString => None
  end.
Fixpoint contains (s part : string) : bool :=
  bool_decide (is_Some (strip_prefix part s)) ||
  match s with EmptyString => false | String _ s => contains s part end.

(** The first code whose test passes ([Iterator::find]). *)
Definition find_code (f : string -> bool) : option string := head (filter (fun c => f c = true) ALL_CODES).

Definition leads (message code : string) : bool :=
  match strip_prefix code message with
  | Some rest => bool_decide (is_Some (strip_prefix ": " rest))
  | None => false
  end.
Definition leading_code (message : string) : option string := find_code (leads message).

Definition classify (message : string) : string :=
  match leading_code message with
  | Some code => code
  | None => default "transaction_failed" (find_code (contains message))
  end.

Lemma strip_prefix_some prefix s rest : strip_prefix prefix s = Some rest <-> s = prefix +:+ rest.
Proof.
  revert s. induction prefix as [|a prefix IH]; intros s; simpl.
  - split; [by intros [= ->]|by intros ->].
  - destruct s as [|b s]; [done|]. destruct (Ascii.eqb_spec a b) as [->|Hne].
    + rewrite IH. split; [by intros ->|by intros [= ->]].
    + split; [done|]. intros Heq. by injection Heq as -> _.
Qed.

Lemma leads_iff message c : leads message c = true <-> exists rest, message = c +:+ ": " +:+ rest.
Proof.
  unfold leads. destruct (strip_prefix c message) as [r|] eqn:Hs.
  - apply strip_prefix_some in Hs as ->. rewrite bool_decide_eq_true. split.
    + intros [rest Hr%strip_prefix_some]. subst. eauto.
    + intros [rest Hr]. exists rest. apply strip_prefix_some.
      by apply append_length_inj in Hr as [_ ->].
  - split; [done|]. intros [rest Hr]. assert (strip_prefix c message = Some (": " +:+ rest)) by
      (by apply strip_prefix_some). congruence.
Qed.

Lemma codes_no_colon : Forall (fun c => no_colon c = true) ALL_CODES.
Proof. apply (bool_decide_unpack _). vm_compute. exact I. Qed.

Lemma head_filter_unique {A} (f : A -> bool) (l : list A) a :
  a ∈ l -> f a = true -> (forall b, b ∈ l -> f b = true -> b = a) ->
  head (filter (fun x => f x = true) l) = Some a.
Proof.
  intros Hin Hf Hu. destruct (filter (fun x => f x = true) l) as [|b k] eqn:Hk.
  - assert (a ∈ filter (fun x => f x = true) l) as Ha by (by apply list_elem_of_filter).
    rewrite Hk in Ha. by apply not_elem_of_nil in Ha.
  - assert (b ∈ filter (fun x => f x = true) l) as Hb by (rewrite Hk; set_solver).
    apply list_elem_of_filter in Hb as [Hfb Hb]. simpl. by rewrite (Hu b).
Qed.

(** C38. The code of an error survives its text: whatever the detail quotes, the
    server that only kept the message reports the code the check raised. *)
Theorem classify_code e : code e ∈ ALL_CODES -> classify (batch_error_text e) = code e.
Proof.
  intros Hin. unfold classify, leading_code, find_code.
  rewrite (head_filter_unique _ _ (code e)); [done|done|apply leads_iff; eauto|].
  intros c Hc [rest Heq]%leads_iff. pose proof codes_no_colon as Hno. rewrite Forall_forall in Hno.
  unfold batch_error_text in Heq.
  change (code e +:+ ":" +:+ (" " +:+ detail e) = c +:+ ":" +:+ (" " +:+ rest)) in Heq.
  symmetry. eapply append_colon_inv; [by apply Hno|by apply Hno|exact Heq].
Qed.

Lemma classify_code_witness :
  classify "invalid_batch_settlement_svm_channel_state: invalid_x402_version" = INVALID_CHANNEL_STATE.
Proof.
  apply (classify_code {| code := INVALID_CHANNEL_STATE; detail := "invalid_x402_version" |}).
  apply (bool_decide_unpack _). vm_compute. exact I.
Defined.

(** * Wire types *)

Definition MIN_WITHDRAW_DELAY_SECONDS : Z := 900.
Definition MAX_WITHDRAW_DELAY_SECONDS : Z := 2592000.
Definition V1_MAX_CLAIM_CHANNELS : nat := 18.
Definition V1_MAX_SETTLE_CHANNELS : nat := 13.
Definition VOUCHER_EXPIRES_AT : Z := 0.
Definition PAYMENT_FLOW_AUTHORIZATION : string := "authorization".
Definition TOKEN_PROGRAM : string := "TokenkegQfeZyiNwAJbNbGKPFXCWuBvf9Ss623VQ5DA".
Definition TOKEN_2022_PROGRAM : string := "TokenzQdBNbLqP5VEhdkAS6EPFLC1PHnBqCXEpPxuEb".

Record ChannelStateSnapshot := {
  cs_channel_id : string;
  balance : string;
  total_claimed : string;
  withdraw_requested_at : Z;
  charged_cumulative_amount : option string;
}.

Record VoucherState := {
  vs_signed_max_claimable : string;
  vs_expires_at : Z;
  vs_signature : string;
}.

Record BatchExtra := {
  payment_flow : option string;
  ex_fee_payer : string;
  transaction_versions : option (list TxVersion);
  ex_receiver_authorizer : option string;
  ex_withdraw_delay : Z;
  ex_token_program : string;
  ex_memo : option string;
  ex_recent_blockhash : option string;
  ex_recent_slot : option Z;
  min_deposit : option string;
  ex_voucher_signer : option string;
  ex_operator : option string;
  max_idle_secs : option Z;
  max_claim_channels : option Z;
  max_settle_channels : option Z;
  channel_state : option ChannelStateSnapshot;
  voucher_state : option VoucherState;
}.

Record BatchRequirements := {
  scheme : string;
  network : string;
  rq_amount : string;
  asset : string;
  pay_to : string;
  max_timeout_seconds : Z;
  extra : BatchExtra;
}.

Record BatchChannelConfig := {
  cc_payer : string;
  cc_payer_authorizer : string;
  cc_receiver : string;
  cc_receiver_authorizer : option string;
  cc_token : string;
  cc_withdraw_delay : Z;
  cc_salt : string;
  cc_open_slot : Z;
  cc_voucher_signer : option string;
}.

Record BatchVoucher := {
  bv_channel_id : string;
  bv_max_claimable_amount : string;
  bv_expires_at : Z;
  bv_signature : string;
}.

Record BatchAuthorization := {
  ba_kind : string;
  ba_channel_id : string;
  ba_payer : string;
  ba_request_id : string;
  ba_authorized_amount : string;
  ba_expires_at : Z;
  ba_signature : string;
}.

Record CloseAuthorization := { valid_before : Z; ca_signature : string }.
Record BatchDeposit := { bd_amount : string; bd_transaction : string }.

Inductive RefundSigner := RefundClient (v : BatchVoucher) | RefundServer (a : BatchAuthorization).

Record BatchRefund := {
  rf_channel_config : BatchChannelConfig;
  rf_signer : RefundSigner;
  rf_transaction : option string;
  rf_close_authorization : option CloseAuthorization;
  rf_amount : option string;
}.

Record RawRefund := {
  raw_channel_config : BatchChannelConfig;
  raw_voucher : option BatchVoucher;
  raw_authorization : option BatchAuthorization;
  raw_transaction : option string;
  raw_close_authorization : option CloseAuthorization;
  raw_amount : option string;
}.

Inductive BatchPayload :=
| Deposit (config : BatchChannelConfig) (voucher : option BatchVoucher) (deposit : BatchDeposit)
    (authorization : option BatchAuthorization)
| PaidVoucher (config : BatchChannelConfig) (voucher : BatchVoucher)
| Authorization (config : BatchChannelConfig) (authorization : BatchAuthorization)
| Refund (refund : BatchRefund).

(** [TryFrom<RawRefund>], [From<BatchRefund>]. *)
Definition refund_of_raw (raw : RawRefund) : result BatchRefund string :=
  let? signer :=
    match raw_voucher raw, raw_authorization raw with
    | Some v, None => Ok (RefundClient v)
    | None, Some a => Ok (RefundServer a)
    | None, None => Err (INVALID_PAYLOAD_TYPE +:+ ": a refund carries the accepted voucher in client mode or the payer authorization in server mode, and this one carries neither")
    | Some _, Some _ => Err (INVALID_PAYLOAD_TYPE +:+ ": a refund carries a voucher (client mode) or an authorization (server mode), not both")
    end in
  Ok {| rf_channel_config := raw_channel_config raw; rf_signer := signer;
        rf_transaction := raw_transaction raw;
        rf_close_authorization := raw_close_authorization raw; rf_amount := raw_amount raw |}.

Definition raw_of_refund (refund : BatchRefund) : RawRefund := {|
  raw_channel_config := rf_channel_config refund;
  raw_voucher := match rf_signer refund with RefundClient v => Some v | RefundServer _ => None end;
  raw_authorization := match rf_signer refund with RefundClient _ => None | RefundServer a => Some a end;
  raw_transaction := rf_transaction refund;
  raw_close_authorization := rf_close_authorization refund;
  raw_amount := rf_amount refund;
|}.

Definition refund_client (config : BatchChannelConfig) (voucher : BatchVoucher) : BatchRefund := {|
  rf_channel_config := config; rf_signer := RefundClient voucher; rf_transaction := None;
  rf_close_authorization := None; rf_amount := None |}.

Definition refund_voucher (refund : BatchRefund) : option BatchVoucher :=
  match rf_signer refund with RefundClient v => Some v | RefundServer _ => None end.

Definition channel_config (payload : BatchPayload) : BatchChannelConfig :=
  match payload with
  | Deposit config _ _ _ | PaidVoucher config _ | Authorization config _ => config
  | Refund refund => rf_channel_config refund
  end.

Definition charge_voucher (payload : BatchPayload) : option BatchVoucher :=
  match payload with
  | Deposit _ voucher _ _ => voucher
  | PaidVoucher _ voucher => Some voucher
  | Authorization _ _ | Refund _ => None
  end.

Definition type_name (payload : BatchPayload) : string :=
  match payload with
  | Deposit _ _ _ _ => "deposit"
  | PaidVoucher _ _ => "voucher"
  | Authorization _ _ => "authorization"
  | Refund _ => "refund"
  end.

Definition is_corrective (requirements : BatchRequirements) : bool :=
  bool_decide (is_Some (channel_state (extra requirements))).

Definition commitment_id (voucher : BatchVoucher) : string :=
  bv_channel_id voucher +:+ ":" +:+ bv_max_claimable_amount voucher.

(** [RedemptionBatch::new], for an entry type's [MAX_PER_REQUEST]. *)
Definition redemption_batch {T} (max : nat) (entries : list T) : result (list T) string :=
  if decide (entries = [] \/ (max < length entries)%nat)
  then Err ("a redemption batch must carry 1 through " +:+ pretty max +:+ " entries, got "
    +:+ pretty (length entries))
  else Ok entries.

(** [Debug] of a string, whose escapes read the Unicode tables. *)
Class DebugText := debug_text : string -> string.

(** The [Err] side is the text of [Error::Other]. *)
Definition parse_amount `{DebugText} (value field : string) : result Z string :=
  ok_or (parse_u64 value) ("invalid " +:+ field +:+ ": " +:+ debug_text value).
Definition salt `{DebugText} (config : BatchChannelConfig) : result Z string :=
  parse_amount (cc_salt config) "channelConfig.salt".
Definition max_claimable `{DebugText} (voucher : BatchVoucher) : result Z string :=
  parse_amount (bv_max_claimable_amount voucher) "voucher.maxClaimableAmount".
Definition deposit_amount `{DebugText} (deposit : BatchDeposit) : result Z string :=
  parse_amount (bd_amount deposit) "deposit.amount".
Definition requirement_amount `{DebugText} (requirements : BatchRequirements) : result Z string :=
  parse_amount (rq_amount requirements) "amount".
Definition signed_max_claimable `{DebugText} (state : VoucherState) : result Z string :=
  parse_amount (vs_signed_max_claimable state) "voucherState.signedMaxClaimable".

Lemma refund_roundtrip refund : refund_of_raw (raw_of_refund refund) = Ok refund.
Proof. by destruct refund as [config [v|a] tx close amount]. Qed.

Lemma refund_parse_exact raw refund : refund_of_raw raw = Ok refund -> raw_of_refund refund = raw.
Proof.
  unfold refund_of_raw. destruct raw as [config [v|] [a|] tx close amount]; simpl; try done; by intros [= <-].
Qed.

(** * Stateless checks (verify.rs) *)

Definition RECEIVER_BINDING_MEMO_PREFIX : string := "x402:batch-settlement:svm:rcvauth:v1:".
Definition receiver_binding_memo (receiver_authorizer : Pubkey) : string :=
  RECEIVER_BINDING_MEMO_PREFIX +:+ receiver_authorizer.

(** The text between double quotes. *)
Definition in_quotes (s : string) : string :=
  let mark := String (Ascii.ascii_of_nat 34) EmptyString in mark +:+ s +:+ mark.

Definition batch_err (code detail : string) : BatchError := {| code := code; detail := detail |}.

Definition check_withdraw_delay (withdraw_delay max_timeout_seconds : Z) : result unit BatchError :=
  if decide (MIN_WITHDRAW_DELAY_SECONDS <= withdraw_delay <= MAX_WITHDRAW_DELAY_SECONDS) then
    if decide (withdraw_delay < max_timeout_seconds)
    then Err (batch_err INVALID_WITHDRAW_DELAY_OUT_OF_RANGE ("withdrawDelay " +:+ pretty withdraw_delay
      +:+ " is shorter than maxTimeoutSeconds " +:+ pretty max_timeout_seconds))
    else Ok tt
  else Err (batch_err INVALID_WITHDRAW_DELAY_OUT_OF_RANGE ("withdrawDelay " +:+ pretty withdraw_delay
    +:+ " is outside " +:+ pretty MIN_WITHDRAW_DELAY_SECONDS +:+ "..="
    +:+ pretty MAX_WITHDRAW_DELAY_SECONDS +:+ " seconds")).

Definition check_voucher_expiry (expires_at : Z) : result unit BatchError :=
  if decide (expires_at <> VOUCHER_EXPIRES_AT)
  then Err (batch_err INVALID_VOUCHER_EXPIRY ("voucher expiresAt must be 0, got " +:+ pretty expires_at))
  else Ok tt.

Definition check_client_signed_payload (payload : BatchPayload) : result unit BatchError :=
  let refused :=
    match payload with
    | Authorization _ _ => true
    | Deposit _ voucher _ authorization =>
        bool_decide (is_Some authorization) || negb (bool_decide (is_Some voucher))
    | Refund refund => match rf_signer refund with RefundServer _ => true | RefundClient _ => false end
    | PaidVoucher _ _ => false
    end in
  if refused
  then Err (batch_err INVALID_PAYLOAD_TYPE (type_name payload +:+ " payloads belong to server-signed channels, which this implementation does not offer; send a client-signed voucher"))
  else Ok tt.

Definition check_no_client_close_authorization (payload : BatchPayload) : result unit BatchError :=
  match payload with
  | Refund refund =>
      match rf_close_authorization refund with
      | Some _ => Err (batch_err INVALID_CLOSE_AUTHORIZATION "a client-authored refund must not carry closeAuthorization; the server adds it")
      | None => Ok tt
      end
  | _ => Ok tt
  end.

Section checks.
Context {Key : Type} `{Crypto Key, Addresses, DebugText}.

Definition parse_key (value field : string) : result Pubkey BatchError :=
  rmap_err (fun e => batch_err INVALID_CHANNEL_STATE (field +:+ ": " +:+ core_error_text e))
    (parse_pubkey value).

(** [filter] on the round trip of the key refuses a second spelling of it. *)
Definition parse_receiver_binding_memo (data : list byte) : option (result Pubkey BatchError) :=
  if starts_with data RECEIVER_BINDING_MEMO_PREFIX then
    let key := drop (length (str_bytes RECEIVER_BINDING_MEMO_PREFIX)) data in
    let err := batch_err INVALID_RECEIVER_AUTHORIZER_MISMATCH
      "receiver-binding memo does not name a base58 Solana address" in
    Some (if utf8_valid key then
            match parse_pubkey (String.string_of_list_byte key) with
            | Ok parsed => if decide (str_bytes (receiver_binding_memo parsed) = data)
                           then Ok parsed else Err err
            | Err _ => Err err
            end
          else Err err)
  else None.

Definition check_payment_flow (payment_flow : option string) : result unit BatchError :=
  match payment_flow with
  | None => Ok tt
  | Some flow =>
      if decide (flow = PAYMENT_FLOW_AUTHORIZATION) then Ok tt
      else Err (batch_err INVALID_PAYMENT_FLOW
        ("extra.paymentFlow must be " +:+ in_quotes "authorization" +:+ ", got " +:+ debug_text flow))
  end.

Definition check_token_program (token_program : string) : result Pubkey BatchError :=
  if decide (token_program <> TOKEN_PROGRAM /\ token_program <> TOKEN_2022_PROGRAM)
  then Err (batch_err INVALID_TOKEN_PROGRAM ("unsupported tokenProgram " +:+ token_program))
  else rmap_err (fun e => batch_err INVALID_TOKEN_PROGRAM (detail e))
    (parse_key token_program "extra.tokenProgram").

Definition derive_channel_id (config : BatchChannelConfig) (fee_payer : string) (program_id : Pubkey) :
    result Pubkey BatchError :=
  let? payer := parse_key (cc_payer config) "channelConfig.payer" in
  let? payee := parse_key fee_payer "extra.feePayer" in
  let? token := parse_key (cc_token config) "channelConfig.token" in
  let? authorized_signer := parse_key (cc_payer_authorizer config) "channelConfig.payerAuthorizer" in
  let? salt := rmap_err (batch_err INVALID_CHANNEL_STATE) (salt config) in
  Ok (find_channel_pda payer payee token authorized_signer salt (cc_open_slot config) program_id).

Definition err_state (text : string) : BatchError := batch_err INVALID_CHANNEL_STATE text.

(** The voucher-signing mode both sides must name, [client]. *)
Definition check_voucher_mode (config : BatchChannelConfig) (extra : BatchExtra) : result unit BatchError :=
  let config_mode := default "client" (cc_voucher_signer config) in
  let extra_mode := default "client" (ex_voucher_signer extra) in
  if decide (config_mode <> extra_mode)
  then Err (err_state ("channelConfig.voucherSigner " +:+ debug_text config_mode
    +:+ " does not match                  extra.voucherSigner " +:+ debug_text extra_mode)) else
  if decide (extra_mode <> "client" \/ is_Some (ex_operator extra))
  then Err (err_state ("server-signed channels (extra.voucherSigner "
    +:+ in_quotes "server" +:+ " / extra.operator) are not supported by this implementation; use client-signed vouchers"))
  else Ok tt.

Definition check_channel_config (config : BatchChannelConfig) (requirements : BatchRequirements) :
    result unit BatchError :=
  let extra := extra requirements in
  let? _ := check_payment_flow (payment_flow extra) in
  let? _ := check_withdraw_delay (ex_withdraw_delay extra) (max_timeout_seconds requirements) in
  let? _ := check_token_program (ex_token_program extra) in
  if decide (cc_payer config = ex_fee_payer extra \/ cc_payer_authorizer config = ex_fee_payer extra)
  then Err (batch_err INVALID_FEE_PAYER_MISMATCH
    "channelConfig.payer and payerAuthorizer must not equal extra.feePayer") else
  if decide (cc_receiver config <> pay_to requirements)
  then Err (err_state ("channelConfig.receiver " +:+ cc_receiver config +:+ " does not match payTo "
    +:+ pay_to requirements)) else
  if decide (cc_token config <> asset requirements)
  then Err (err_state ("channelConfig.token " +:+ cc_token config +:+ " does not match asset "
    +:+ asset requirements)) else
  if decide (cc_withdraw_delay config <> ex_withdraw_delay extra)
  then Err (batch_err INVALID_WITHDRAW_DELAY_MISMATCH ("channelConfig.withdrawDelay "
    +:+ pretty (cc_withdraw_delay config) +:+ " does not match extra.withdrawDelay "
    +:+ pretty (ex_withdraw_delay extra))) else
  match cc_receiver_authorizer config, ex_receiver_authorizer extra with
  | Some ours, Some theirs =>
      if decide (ours = theirs) then check_voucher_mode config extra
      else Err (batch_err INVALID_RECEIVER_AUTHORIZER_MISMATCH "channelConfig.receiverAuthorizer and extra.receiverAuthorizer must both be present and equal")
  | _, _ => Err (batch_err INVALID_RECEIVER_AUTHORIZER_MISMATCH "channelConfig.receiverAuthorizer and extra.receiverAuthorizer must both be present and equal")
  end.

Definition check_no_refund_amount (payload : BatchPayload) : result unit BatchError :=
  match payload with
  | Refund refund =>
      match rf_amount refund with
      | Some amount => Err (batch_err INVALID_CLOSE_AMOUNT_UNSUPPORTED ("refund carries amount "
          +:+ debug_text amount +:+ "; this scheme returns the full unused escrow"))
      | None => Ok tt
      end
  | _ => Ok tt
  end.

(** verify.rs's wrapper of the core verifier. *)
Definition batch_voucher_signature (channel_id : string) (max_claimable expires_at : Z)
    (signature payer_authorizer : string) : result unit BatchError :=
  rmap_err (fun e => batch_err INVALID_VOUCHER_SIGNATURE (core_error_text e))
    (verify_voucher_signature channel_id max_claimable expires_at signature payer_authorizer 0 0).

(** What [check_voucher] and [check_voucher_batched] check before the curve. *)
Definition check_voucher_terms (voucher : BatchVoucher) (channel_id : Pubkey) : result Z BatchError :=
  if decide (bv_channel_id voucher <> channel_id)
  then Err (batch_err INVALID_CHANNEL_ID_MISMATCH ("voucher.channelId " +:+ bv_channel_id voucher
    +:+ " does not match the derived PDA " +:+ channel_id)) else
  let? _ := check_voucher_expiry (bv_expires_at voucher) in
  rmap_err (batch_err INVALID_VOUCHER_SIGNATURE) (max_claimable voucher).

Definition check_voucher (voucher : BatchVoucher) (config : BatchChannelConfig) (channel_id : Pubkey) :
    result Z BatchError :=
  let? max_claimable := check_voucher_terms voucher channel_id in
  let? _ := batch_voucher_signature (bv_channel_id voucher) max_claimable (bv_expires_at voucher)
    (bv_signature voucher) (cc_payer_authorizer config) in
  Ok max_claimable.

(** [verifier] is the process's batch verifier, when it runs one. *)
Definition check_voucher_batched (verifier : option (list byte -> Key -> list byte -> bool))
    (voucher : BatchVoucher) (config : BatchChannelConfig) (channel_id : Pubkey) : result Z BatchError :=
  let? max_claimable := check_voucher_terms voucher channel_id in
  match verifier with
  | None =>
      let? _ := batch_voucher_signature (bv_channel_id voucher) max_claimable (bv_expires_at voucher)
        (bv_signature voucher) (cc_payer_authorizer config) in
      Ok max_claimable
  | Some verify =>
      let? parts := rmap_err (fun e => batch_err INVALID_VOUCHER_SIGNATURE (core_error_text e))
        (voucher_verify_parts (bv_channel_id voucher) max_claimable (bv_expires_at voucher)
          (bv_signature voucher) (cc_payer_authorizer config) 0 0) in
      if verify (message parts) (verifying_key parts) (signature parts) then Ok max_claimable
      else Err (batch_err INVALID_VOUCHER_SIGNATURE "Voucher signature verification failed")
  end.

Definition check_corrective_voucher_state (state : VoucherState) (channel_id payer_authorizer : string)
    (charged_cumulative_amount : Z) : result Z BatchError :=
  let? _ := check_voucher_expiry (vs_expires_at state) in
  let? signed := rmap_err (batch_err INVALID_CUMULATIVE_AMOUNT_MISMATCH) (signed_max_claimable state) in
  let? _ := batch_voucher_signature channel_id signed (vs_expires_at state) (vs_signature state)
    payer_authorizer in
  if decide (signed < charged_cumulative_amount)
  then Err (batch_err INVALID_CUMULATIVE_AMOUNT_MISMATCH ("corrective chargedCumulativeAmount "
    +:+ pretty charged_cumulative_amount +:+ " exceeds the proven signedMaxClaimable " +:+ pretty signed))
  else Ok charged_cumulative_amount.

(** ** Close authorizations *)

Definition CLOSE_AUTHORIZATION_DOMAIN : list byte := str_bytes "x402:batch-settlement:svm:close:v1".

Record CloseAuthorizationScope := {
  sc_network : string;
  sc_program_id : Pubkey;
  sc_fee_payer : Pubkey;
  sc_channel_id : Pubkey;
  sc_max_claimable_amount : Z;
  sc_voucher_expires_at : Z;
}.

(** The bytes the digest hashes. *)
Definition close_preimage (scope : CloseAuthorizationScope) (valid_before : Z) : list byte :=
  let network := str_bytes (sc_network scope) in
  CLOSE_AUTHORIZATION_DOMAIN ++ [Byte.x00] ++ le_bytes 2 (Z.of_nat (length network)) ++ network ++
  key_bytes (sc_program_id scope) ++ key_bytes (sc_fee_payer scope) ++
  key_bytes (sc_channel_id scope) ++ u64_bytes (sc_max_claimable_amount scope) ++
  i64_bytes (sc_voucher_expires_at scope) ++ i64_bytes valid_before.

Definition close_authorization_digest (scope : CloseAuthorizationScope) (valid_before : Z) :
    result (list byte) BatchError :=
  if decide (65535 < Z.of_nat (length (str_bytes (sc_network scope))))
  then Err (batch_err INVALID_CLOSE_AUTHORIZATION "network identifier is longer than 65535 bytes")
  else Ok (sha256 (close_preimage scope valid_before)).

(** [sign_message] is the remote signer. *)
Definition sign_close_authorization (sign_message : list byte -> result (list byte) string)
    (scope : CloseAuthorizationScope) (valid_before : Z) : result CloseAuthorization BatchError :=
  let? digest := close_authorization_digest scope valid_before in
  let? signature := rmap_err
    (fun e => batch_err INVALID_CLOSE_AUTHORIZATION ("close authorization signing failed: " +:+ e))
    (sign_message digest) in
  Ok {| valid_before := valid_before; ca_signature := encode_64 signature |}.

Definition close_err (text : string) : BatchError := batch_err INVALID_CLOSE_AUTHORIZATION text.

(** [horizon] saturates, and a timeout beyond [i64] counts as its maximum. *)
Definition close_horizon (now max_timeout_seconds : Z) : Z :=
  i64_saturating_add now (if decide (max_timeout_seconds <= i64_max) then max_timeout_seconds else i64_max).

Definition verify_close_authorization (authorization : CloseAuthorization)
    (bound_receiver_authorizer : Pubkey) (scope : CloseAuthorizationScope)
    (now max_timeout_seconds : Z) : result unit BatchError :=
  let horizon := close_horizon now max_timeout_seconds in
  if decide (valid_before authorization <= now)
  then Err (close_err ("closeAuthorization expired at " +:+ pretty (valid_before authorization)
    +:+ " (now " +:+ pretty now +:+ ")")) else
  if decide (horizon < valid_before authorization)
  then Err (close_err ("closeAuthorization validBefore " +:+ pretty (valid_before authorization)
    +:+ " is beyond now + maxTimeoutSeconds (" +:+ pretty horizon +:+ ")")) else
  let? digest := close_authorization_digest scope (valid_before authorization) in
  let? signature := ok_or
    (bytes ← bs58_into_vec (ca_signature authorization);
     if decide (length bytes = 64%nat) then Some bytes else None)
    (close_err "closeAuthorization signature is not 64 base58 bytes") in
  let? key := rmap_err
    (fun e => close_err ("bound receiver authorizer is not an Ed25519 key: " +:+ e))
    (key_from_bytes (key_bytes bound_receiver_authorizer)) in
  if verify_strict key digest signature then Ok tt
  else Err (close_err "closeAuthorization is not signed by the bound receiver authorizer").

(** ** What the checks accept *)

Lemma check_withdraw_delay_ok delay timeout :
  check_withdraw_delay delay timeout = Ok tt <->
  MIN_WITHDRAW_DELAY_SECONDS <= delay <= MAX_WITHDRAW_DELAY_SECONDS /\ timeout <= delay.
Proof. unfold check_withdraw_delay. repeat case_decide; split; try done; lia. Qed.

Lemma check_voucher_expiry_ok e : check_voucher_expiry e = Ok tt <-> e = 0.
Proof. unfold check_voucher_expiry, VOUCHER_EXPIRES_AT. case_decide; split; try done; lia. Qed.

Lemma check_payment_flow_ok flow :
  check_payment_flow flow = Ok tt <-> flow = None \/ flow = Some PAYMENT_FLOW_AUTHORIZATION.
Proof. unfold check_payment_flow. destruct flow as [f|]; [case_decide|]; naive_solver. Qed.

Lemma check_voucher_mode_ok config extra :
  check_voucher_mode config extra = Ok tt <->
  default "client" (cc_voucher_signer config) = "client" /\
  default "client" (ex_voucher_signer extra) = "client" /\ ex_operator extra = None.
Proof.
  unfold check_voucher_mode. case_decide as Hm; [split; [done|intros (Hc & He & _); congruence]|].
  case_decide as Hc.
  - split; [done|]. intros (_ & He & Ho). destruct Hc as [Hc|[? Hc]]; congruence.
  - split; [|done]. intros _. apply Decidable.not_or in Hc as [He Ho].
    assert (default "client" (ex_voucher_signer extra) = "client") as He' by (by apply dec_stable).
    split_and!; [congruence|done|]. destruct (ex_operator extra); [by destruct Ho|done].
Qed.

(** A channel configuration is accepted for a route exactly when it is the
    channel the route describes: the route's own terms are in range, its sponsor
    is neither the payer nor the voucher signer, the receiver, the token, the
    grace period and the receiver authorizer are the route's, and the vouchers
    are the client's to sign. *)
Theorem channel_config_iff config requirements :
  let extra := extra requirements in
  check_channel_config config requirements = Ok tt <->
  (payment_flow extra = None \/ payment_flow extra = Some PAYMENT_FLOW_AUTHORIZATION) /\
  (MIN_WITHDRAW_DELAY_SECONDS <= ex_withdraw_delay extra <= MAX_WITHDRAW_DELAY_SECONDS /\
   max_timeout_seconds requirements <= ex_withdraw_delay extra) /\
  is_ok (check_token_program (ex_token_program extra)) = true /\
  cc_payer config <> ex_fee_payer extra /\ cc_payer_authorizer config <> ex_fee_payer extra /\
  cc_receiver config = pay_to requirements /\ cc_token config = asset requirements /\
  cc_withdraw_delay config = ex_withdraw_delay extra /\
  (exists key, cc_receiver_authorizer config = Some key /\ ex_receiver_authorizer extra = Some key) /\
  default "client" (cc_voucher_signer config) = "client" /\
  default "client" (ex_voucher_signer extra) = "client" /\ ex_operator extra = None.
Proof.
  cbn zeta. unfold check_channel_config.
  rewrite rbind_ok, <-check_payment_flow_ok, <-check_withdraw_delay_ok, <-check_voucher_mode_ok.
  destruct (check_payment_flow _) as [[]|]; [|naive_solver].
  destruct (check_withdraw_delay _ _) as [[]|]; simpl; [|naive_solver].
  destruct (check_token_program _) as [tp|]; simpl; [|naive_solver].
  repeat case_decide; try naive_solver.
  destruct (cc_receiver_authorizer config) as [ours|], (ex_receiver_authorizer (extra requirements)) as [theirs|];
    try (case_decide); naive_solver.
Qed.

Lemma rmap_err_iff {A E F} (f : E -> F) (m : result A E) a : rmap_err f m = Ok a <-> m = Ok a.
Proof. destruct m; simpl; naive_solver. Qed.

Lemma batch_voucher_signature_ok id n sig signer :
  batch_voucher_signature id n 0 sig signer = Ok tt <-> signed_by signer id n 0 sig.
Proof.
  unfold batch_voucher_signature. rewrite rmap_err_iff, verify_voucher_ok.
  split; [by intros [_ ?]|by intros ?; split].
Qed.

Lemma parse_amount_ok value field n : parse_amount value field = Ok n <-> parse_u64 value = Some n.
Proof. unfold parse_amount. destruct (parse_u64 value); simpl; naive_solver. Qed.

Lemma check_voucher_terms_ok voucher id n :
  check_voucher_terms voucher id = Ok n <->
  bv_channel_id voucher = id /\ bv_expires_at voucher = 0 /\
  parse_u64 (bv_max_claimable_amount voucher) = Some n.
Proof.
  unfold check_voucher_terms. case_decide; [naive_solver|].
  rewrite rbind_ok. unfold max_claimable.
  split.
  - intros ([] & He%check_voucher_expiry_ok & Hn%rmap_err_iff%parse_amount_ok). by split_and!.
  - intros (Hid & He & Hn). exists tt. by rewrite check_voucher_expiry_ok, rmap_err_iff, parse_amount_ok.
Qed.

(** A paid request's voucher is accepted exactly when it names the channel
    derived from its configuration, never expires, and is signed by the
    configured payer authorizer over this channel and the amount answered. *)
Theorem check_voucher_iff voucher config id n :
  check_voucher voucher config id = Ok n <->
  bv_channel_id voucher = id /\ bv_expires_at voucher = 0 /\
  parse_u64 (bv_max_claimable_amount voucher) = Some n /\
  signed_by (cc_payer_authorizer config) id n 0 (bv_signature voucher).
Proof.
  unfold check_voucher. rewrite rbind_ok. setoid_rewrite check_voucher_terms_ok. split.
  - intros (m & (Hid & He & Hm) & Hs). apply rbind_ok in Hs as ([] & Hs & [= <-]).
    rewrite He in Hs. apply batch_voucher_signature_ok in Hs. subst. by split_and!.
  - intros (Hid & He & Hm & Hs). exists n. split; [by split_and!|].
    rewrite He, Hid, (proj2 (batch_voucher_signature_ok _ _ _ _) Hs). done.
Qed.

(** The batched path answers as the synchronous one, error included, when the
    batch verifier answers as the strict one does. *)
Theorem check_voucher_batched_agrees verifier voucher config id :
  (forall verify m k s, verifier = Some verify -> verify m k s = verify_strict k m s) ->
  check_voucher_batched verifier voucher config id = check_voucher voucher config id.
Proof.
  intros Hv. unfold check_voucher_batched, check_voucher.
  destruct (check_voucher_terms voucher id) as [n|]; [|done]. simpl.
  destruct verifier as [verify|]; [|done].
  unfold batch_voucher_signature, verify_voucher_signature.
  destruct (voucher_verify_parts _ _ _ _ _ _ _) as [parts|e]; [|done]. simpl.
  rewrite (Hv verify) by done. by destruct (verify_strict _ _ _).
Qed.

(** A client adopts a server's corrective snapshot only up to an amount the
    client itself signed on this channel. *)
Theorem corrective_iff state id signer charged n :
  check_corrective_voucher_state state id signer charged = Ok n <->
  n = charged /\ vs_expires_at state = 0 /\
  exists signed, parse_u64 (vs_signed_max_claimable state) = Some signed /\
    signed_by signer id signed 0 (vs_signature state) /\ charged <= signed.
Proof.
  unfold check_corrective_voucher_state. rewrite rbind_ok. split.
  - intros ([] & He%check_voucher_expiry_ok & Hs). apply rbind_ok in Hs as (signed & Hp%rmap_err_iff & Hs).
    unfold signed_max_claimable in Hp. rewrite parse_amount_ok in Hp.
    apply rbind_ok in Hs as ([] & Hs & Hc). rewrite He in Hs. apply batch_voucher_signature_ok in Hs.
    case_decide; [done|]. injection Hc as <-. split_and!; [done|done|]. exists signed. split_and!; [done|done|lia].
  - intros (-> & He & signed & Hp & Hs & Hle). exists tt. split; [by apply check_voucher_expiry_ok|].
    unfold signed_max_claimable. rewrite (proj2 (rmap_err_iff _ _ signed) (proj2 (parse_amount_ok _ _ _) Hp)).
    cbn [rbind]. rewrite He, (proj2 (batch_voucher_signature_ok _ _ _ _) Hs). cbn [rbind].
    by rewrite decide_False by lia.
Qed.

(** ** Close authorizations *)

Definition sized_key (k : Pubkey) : Prop := length (key_bytes k) = 32%nat.

(** What the chain's own encodings guarantee of a scope. *)
Record scope_ok (scope : CloseAuthorizationScope) : Prop := {
  scope_network : Z.of_nat (length (str_bytes (sc_network scope))) <= 65535;
  scope_keys : sized_key (sc_program_id scope) /\ sized_key (sc_fee_payer scope) /\
    sized_key (sc_channel_id scope);
  scope_amount : in_u64 (sc_max_claimable_amount scope);
  scope_expiry : in_i64 (sc_voucher_expires_at scope);
}.

Lemma str_bytes_inj s t : str_bytes s = str_bytes t -> s = t.
Proof.
  intros Heq. rewrite <-(String.string_of_list_byte_of_string s), <-(String.string_of_list_byte_of_string t).
  by f_equal.
Qed.

Lemma i64_bytes_inj a b : in_i64 a -> in_i64 b -> i64_bytes a = i64_bytes b -> a = b.
Proof. intros Ha Hb Heq. by rewrite <-(i64_from_le_bytes a), <-(i64_from_le_bytes b), Heq. Qed.

Lemma u64_bytes_inj a b : in_u64 a -> in_u64 b -> u64_bytes a = u64_bytes b -> a = b.
Proof. intros Ha Hb Heq. by rewrite <-(from_le_u64 a), <-(from_le_u64 b), Heq. Qed.

Ltac split_app H name :=
  apply app_inj_1 in H as [name H]; [|unfold u64_bytes, i64_bytes; rewrite ?length_le_bytes; lia || congruence].

(** The bytes a receiver authorizer signs to close a channel determine the
    network, the program, the sponsor, the channel, the amount, the voucher's
    expiry and the deadline: a signature authorizes one close. *)
Theorem close_preimage_inj scope scope' v v' :
  scope_ok scope -> scope_ok scope' -> in_i64 v -> in_i64 v' ->
  close_preimage scope v = close_preimage scope' v' ->
  sc_network scope = sc_network scope' /\
  key_bytes (sc_program_id scope) = key_bytes (sc_program_id scope') /\
  key_bytes (sc_fee_payer scope) = key_bytes (sc_fee_payer scope') /\
  key_bytes (sc_channel_id scope) = key_bytes (sc_channel_id scope') /\
  sc_max_claimable_amount scope = sc_max_claimable_amount scope' /\
  sc_voucher_expires_at scope = sc_voucher_expires_at scope' /\ v = v'.
Proof.
  intros [Hn (Hp & Hf & Hc) Ha He] [Hn' (Hp' & Hf' & Hc') Ha' He'] Hv Hv' Heq.
  unfold close_preimage, sized_key in *. apply app_inv_head in Heq.
  apply (app_inv_head [Byte.x00]) in Heq.
  split_app Heq Hlen. 
  apply (f_equal from_le) in Hlen. rewrite !from_le_bytes_small in Hlen by (cbn; lia).
  split_app Heq Hnet. split_app Heq Hprog. split_app Heq Hfee. split_app Heq Hchan.
  split_app Heq Ham. split_app Heq Hexp.
  split_and!; [by apply str_bytes_inj|done|done|done|by apply u64_bytes_inj|by apply i64_bytes_inj..].
Qed.

(** A close authorization is accepted exactly inside its window, signed by the
    key the channel is bound to over this close. *)
Theorem verify_close_iff authorization bound scope now timeout :
  verify_close_authorization authorization bound scope now timeout = Ok tt <->
  now < valid_before authorization <= close_horizon now timeout /\
  exists digest signature key,
    close_authorization_digest scope (valid_before authorization) = Ok digest /\
    bs58_into_vec (ca_signature authorization) = Some signature /\ length signature = 64%nat /\
    key_from_bytes (key_bytes bound) = Ok key /\ verify_strict key digest signature = true.
Proof.
  unfold verify_close_authorization.
  case_decide as Hl; [split; [done|intros [? _]; lia]|].
  case_decide as Hh; [split; [done|intros [? _]; lia]|]. split.
  - intros (digest & Hd & Hrest)%rbind_ok. split; [lia|]. exists digest.
    destruct (bs58_into_vec (ca_signature authorization)) as [sig|]; simpl in *; [|done].
    case_decide as Hs; simpl in *; [|done].
    apply rbind_ok in Hrest as (key & Hk%rmap_err_iff & Hrest). exists sig, key.
    by destruct (verify_strict _ _ _).
  - intros (_ & digest & sig & key & -> & -> & Hs & Hk & Hv). simpl. rewrite decide_True by done. simpl.
    rewrite Hk. simpl. by rewrite Hv.
Qed.

(** An authorization this server signs is accepted by the facilitator inside its
    window. *)
Theorem close_signed_accepted `{!AddressesLaws} sign bound scope v authorization now timeout key :
  sign_close_authorization sign scope v = Ok authorization ->
  key_from_bytes (key_bytes bound) = Ok key ->
  (forall m s, sign m = Ok s -> length s = 64%nat /\ verify_strict key m s = true) ->
  now < v <= close_horizon now timeout ->
  verify_close_authorization authorization bound scope now timeout = Ok tt.
Proof.
  intros (digest & Hd & (sig & Hs%rmap_err_iff & [= <-])%rbind_ok)%rbind_ok Hk Hsign Hnow.
  apply verify_close_iff. simpl. split; [done|]. destruct (Hsign _ _ Hs) as [Hlen Hv].
  exists digest, sig, key. by rewrite bs58_encode_64.
Qed.

(** ** Receiver bindings *)

Lemma starts_with_iff d prefix : starts_with d prefix = true <-> exists rest, d = str_bytes prefix ++ rest.
Proof. unfold starts_with. by rewrite bool_decide_eq_true. Qed.

Lemma str_bytes_app s t : str_bytes (s +:+ t) = str_bytes s ++ str_bytes t.
Proof.
  induction s as [|c s IH]; [done|]. change (str_bytes (String c s +:+ t)) with
    (Ascii.byte_of_ascii c :: str_bytes (s +:+ t)). by rewrite IH.
Qed.

(** A binding memo binds one key, in its one spelling. *)
Lemma binding_memo_iff d key :
  utf8_valid (str_bytes key) = true ->
  parse_receiver_binding_memo d = Some (Ok key) <->
  d = str_bytes (receiver_binding_memo key) /\ parse_pubkey key = Ok key.
Proof.
  intros Hu. unfold parse_receiver_binding_memo, receiver_binding_memo. split.
  - destruct (starts_with d _) eqn:Hs; [|done]. apply starts_with_iff in Hs as [rest ->].
    rewrite drop_app_length. intros Heq. destruct (utf8_valid rest); [|done].
    destruct (parse_pubkey _) as [k|] eqn:Hk; [|done]. case_decide as Hd; [|done]. simplify_eq.
    split; [done|]. rewrite str_bytes_app in Hd. apply app_inv_head in Hd as <-.
    by rewrite String.string_of_list_byte_of_string in Hk.
  - intros [-> Hk]. rewrite str_bytes_app.
    rewrite (proj2 (starts_with_iff _ _)) by eauto. rewrite drop_app_length, Hu.
    rewrite String.string_of_list_byte_of_string, Hk. by rewrite decide_True.
Qed.
End checks.

(** * A concrete scheme *)
Module X402Demo.
Export AddressesDemo.

#[global] Instance debug_demo : DebugText := in_quotes.

Definition config : BatchChannelConfig := {|
  cc_payer := "payer"; cc_payer_authorizer := "signer"; cc_receiver := "receiver";
  cc_receiver_authorizer := Some "authorizer"; cc_token := "mint"; cc_withdraw_delay := 900;
  cc_salt := "7"; cc_open_slot := 1000; cc_voucher_signer := None |}.

Definition scope : CloseAuthorizationScope := {|
  sc_network := "solana:demo"; sc_program_id := key "program"; sc_fee_payer := key "sponsor";
  sc_channel_id := key "channel"; sc_max_claimable_amount := 500; sc_voucher_expires_at := 0 |}.

(** The authorizer's signature, as the demo's verifier accepts it. *)
Definition sign_message (m : list byte) : result (list byte) string :=
  Ok (pad 64 (text (pretty (digest (pad 32 (text "authorizer") ++ m))))).
End X402Demo.

Lemma close_preimage_inj_witness :
  sc_max_claimable_amount X402Demo.scope = 500 /\ 100 = 100.
Proof.
  assert (Hok : scope_ok X402Demo.scope) by (split; [vm_compute; discriminate|..|split; vm_compute; discriminate|split; vm_compute; discriminate]; repeat split).
  destruct (close_preimage_inj X402Demo.scope X402Demo.scope 100 100 Hok Hok) as (_ & _ & _ & _ & _ & _ & Hv).
  - split; vm_compute; discriminate.
  - split; vm_compute; discriminate.
  - reflexivity.
  - split; [reflexivity|exact Hv].
Defined.

Lemma check_voucher_batched_agrees_witness :
  check_voucher_batched (Some (fun m k s => verify_strict k m s))
    {| bv_channel_id := "chan"; bv_max_claimable_amount := "500"; bv_expires_at := 0;
       bv_signature := CryptoDemo.sign "signer" "chan" 500 0 |} X402Demo.config "chan" = Ok 500.
Proof.
  rewrite (check_voucher_batched_agrees (Some (fun m k s => verify_strict k m s))).
  - vm_compute. reflexivity.
  - intros verify m k s Heq. injection Heq as <-. reflexivity.
Defined.

Lemma close_signed_accepted_witness :
  exists authorization,
    verify_close_authorization authorization (AddressesDemo.key "authorizer") X402Demo.scope 100 60 = Ok tt.
Proof.
  eexists. eapply (close_signed_accepted X402Demo.sign_message _ _ 130).
  - vm_compute. reflexivity.
  - vm_compute. reflexivity.
  - intros m s Heq. injection Heq as <-. split.
    + unfold CryptoDemo.pad. rewrite length_take, length_app, length_replicate. lia.
    + apply bool_decide_eq_true. reflexivity.
  - split; [reflexivity|vm_compute; discriminate].
Defined.
