(* ===== verification/X402BatchTx.v ===== *)
(** What the [batch-settlement] sponsor co-signs
    (src/rust/crates/kit/src/x402/protocol/schemes/batch_settlement/tx_policy.rs):
    the static checks on a client's [open], [top_up] or [request_close] transaction
    before the sponsor adds the signature that pays for it. *)
From stdpp Require Import base numbers option list strings pretty sets.
From S2P Require Import Prelude Bytes Voucher Tx Build Policy ChannelTx Deployments ChannelProgram X402Batch.
Open Scope Z_scope.

Definition DISTRIBUTION_ENTRY_LEN : nat := 34.
Definition OPEN_ARGS_PREFIX_LEN : nat := 1 + 8 + 8 + 4 + 8.

Inductive SetupForm := FormOpen | FormTopUp.

#[export] Instance SetupForm_eq_dec : EqDecision SetupForm.
Proof. solve_decision. Defined.

Definition form_label (form : SetupForm) : string :=
  match form with FormOpen => "open" | FormTopUp => "top_up" end.
Definition form_discriminator (form : SetupForm) : Z :=
  match form with FormOpen => OPEN_DISCRIMINATOR | FormTopUp => TOP_UP_DISCRIMINATOR end.

Record TransactionExpectations := {
  te_program_id : Pubkey;
  te_fee_payer : Pubkey;
  te_config : BatchChannelConfig;
  te_channel_id : Pubkey;
  te_token_program : Pubkey;
  te_receiver : Pubkey;
  te_memo : option string;
  te_receiver_authorizer : Pubkey;
  te_accepted_versions : list TxVersion;
}.

Record ValidatedTransaction := { vt_transaction : VersionedTransaction; vt_payer : Pubkey }.

Definition setup_err (text : string) : BatchError := batch_err INVALID_SETUP_TRANSACTION text.

(** * Accounts *)

Definition expect_account (ix : CompiledInstruction) (keys : list Pubkey) (position : nat)
    (want : Pubkey) (role label : string) : result unit BatchError :=
  let other := account_at ix keys position in
  if decide (other = Some want) then Ok tt
  else Err (setup_err (label +:+ " " +:+ role +:+ " mismatch: expected " +:+ want +:+ ", got "
    +:+ default "<none>" other)).

(** [expect_account] at consecutive positions. *)
Fixpoint expect_accounts (ix : CompiledInstruction) (keys : list Pubkey) (position : nat)
    (wants : list (Pubkey * string)) (label : string) : result unit BatchError :=
  match wants with
  | [] => Ok tt
  | (want, role) :: wants =>
      let? _ := expect_account ix keys position want role label in
      expect_accounts ix keys (S position) wants label
  end.

Definition reject_fee_payer_account (ix : CompiledInstruction) (keys : list Pubkey)
    (fee_payer : Pubkey) (label : string) : result unit BatchError :=
  if names keys fee_payer ix
  then Err (setup_err (label +:+ " instruction must not reference the fee payer")) else Ok tt.

(** The subtraction wraps in a release build when the header counts more
    read-only signers than signers; a debug build panics there. *)
Definition is_writable (tx : VersionedTransaction) (index : nat) : bool :=
  let b := body (message tx) in
  let signers := num_required_signatures b in
  let total := length (static_account_keys b) in
  if decide (index < signers)%nat
  then bool_decide (Z.of_nat index < u64_wrap (Z.of_nat signers - Z.of_nat (num_readonly_signed_accounts b)))
  else bool_decide (index < total - num_readonly_unsigned_accounts b)%nat.

(** The one [Privilege] is [Writable]. *)
Definition check_privileges (tx : VersionedTransaction) (ix : CompiledInstruction) (position : nat)
    (role label : string) : result unit BatchError :=
  let? index := ok_or (accounts ix !! position)
    (setup_err (label +:+ " " +:+ role +:+ " account position " +:+ pretty position +:+ " is missing")) in
  if is_writable tx index then Ok tt
  else Err (setup_err (label +:+ " " +:+ role +:+ " must be writable")).

Fixpoint check_all_privileges (tx : VersionedTransaction) (ix : CompiledInstruction)
    (roles : list (nat * string)) (label : string) : result unit BatchError :=
  match roles with
  | [] => Ok tt
  | (position, role) :: roles =>
      let? _ := check_privileges tx ix position role label in check_all_privileges tx ix roles label
  end.

Section policy.
Context {Key : Type} `{Crypto Key, Addresses, DebugText} `{V1Format} `{Codec}.
Context (message_serialize : VersionedMessage -> list byte).
Context (signature_verify : list byte -> Pubkey -> list byte -> bool).

Definition batch_decode (transaction_b64 label : string) : result VersionedTransaction BatchError :=
  rmap_err (fun e => setup_err (label +:+ " transaction could not be decoded: " +:+ core_error_text e))
    (decode transaction_b64).

(** * The form of a setup *)

Definition form_of (keys : list Pubkey) (program_id : Pubkey) (ix : CompiledInstruction) : option SetupForm :=
  if decide (keys !! program_id_index ix = Some program_id) then
    match byte_to_Z <$> head (data ix) with
    | Some discriminator =>
        if decide (discriminator = OPEN_DISCRIMINATOR) then Some FormOpen
        else if decide (discriminator = TOP_UP_DISCRIMINATOR) then Some FormTopUp else None
    | None => None
    end
  else None.

Definition setup_form_from_transaction (transaction_b64 : string) (program_id : Pubkey) :
    result SetupForm BatchError :=
  let? tx := batch_decode transaction_b64 "setup" in
  let b := body (message tx) in
  match omap (form_of (static_account_keys b) program_id) (instructions b) with
  | [form] => Ok form
  | _ => Err (setup_err "transaction must contain exactly one open or top_up instruction")
  end.

(** * The envelope *)

Definition batch_check_envelope (tx : VersionedTransaction) (expected : TransactionExpectations)
    (label : string) : result Pubkey BatchError :=
  let err e := setup_err (label +:+ " transaction: " +:+ core_error_text e) in
  let version := version_of (message tx) in
  if decide (version ∉ te_accepted_versions expected)
  then Err (batch_err UNSUPPORTED_TRANSACTION_VERSION (label +:+ " transaction is version "
    +:+ version_text version +:+ ", which this sponsor does not accept")) else
  let? _ := rmap_err err (check_envelope tx (te_accepted_versions expected)) in
  let? _ := rmap_err err (check_v1_budget_caps_with (message tx) OPEN_MAX_COMPUTE_UNIT_LIMIT
    MAX_COMPUTE_UNIT_PRICE_MICROLAMPORTS Present) in
  let? _ := rmap_err err (reject_v1_heap_request (message tx)) in
  let? payer := rmap_err (fun e => setup_err ("channelConfig.payer: " +:+ core_error_text e))
    (parse_pubkey (cc_payer (te_config expected))) in
  if decide (payer = te_fee_payer expected)
  then Err (batch_err INVALID_FEE_PAYER_MISMATCH "channelConfig.payer must not equal extra.feePayer") else
  let keys := static_account_keys (body (message tx)) in
  if decide (head keys <> Some (te_fee_payer expected))
  then Err (setup_err (label +:+ " transaction fee payer must be " +:+ te_fee_payer expected)) else
  let required := num_required_signatures (body (message tx)) in
  if decide (required <> 2%nat)
  then Err (setup_err (label +:+ " transaction must require exactly 2 signatures, got "
    +:+ pretty required)) else
  if decide (keys !! 1%nat <> Some payer)
  then Err (setup_err (label +:+ " transaction second signer must be the channel payer " +:+ payer)) else
  if decide (length (signatures tx) <> required)
  then Err (setup_err (label +:+ " transaction has " +:+ pretty (length (signatures tx))
    +:+ " signature slots but requires " +:+ pretty required)) else
  if signature_verify (default [] (signatures tx !! 1%nat)) payer (message_serialize (message tx))
  then Ok payer
  else Err (setup_err (label +:+ " transaction is missing a valid channel-payer signature")).

(** * The channel instruction *)

(** The binding memos of the whole message. *)
Definition bound_keys (tx : VersionedTransaction) (keys : list Pubkey) : list (result Pubkey BatchError) :=
  omap (fun ix => if decide (keys !! program_id_index ix = Some MEMO_PROGRAM)
                  then parse_receiver_binding_memo (data ix) else None)
    (instructions (body (message tx))).

Definition check_receiver_binding (tx : VersionedTransaction) (keys : list Pubkey)
    (expected : TransactionExpectations) : result unit BatchError :=
  let? key := match bound_keys tx keys with
              | [key] => key
              | _ => Err (setup_err "open transaction must carry exactly one receiver-binding Memo")
              end in
  if decide (key <> te_receiver_authorizer expected)
  then Err (batch_err INVALID_RECEIVER_AUTHORIZER_MISMATCH ("open binds receiver authorizer " +:+ key
    +:+ ", not extra.receiverAuthorizer " +:+ te_receiver_authorizer expected)) else Ok tt.

Definition parse_config_key (value field : string) : result Pubkey BatchError :=
  rmap_err (fun e => setup_err (field +:+ ": " +:+ core_error_text e)) (parse_pubkey value).

Definition check_open_accounts (ix : CompiledInstruction) (keys : list Pubkey) (payer : Pubkey)
    (expected : TransactionExpectations) (label : string) : result unit BatchError :=
  if decide (length (accounts ix) <> 14%nat)
  then Err (setup_err ("open must have exactly 14 accounts and no remaining accounts, got "
    +:+ pretty (length (accounts ix)))) else
  let? mint := parse_config_key (cc_token (te_config expected)) "channelConfig.token" in
  let? authorized_signer := parse_config_key (cc_payer_authorizer (te_config expected))
    "channelConfig.payerAuthorizer" in
  let token_program := te_token_program expected in
  expect_accounts ix keys 0 [
    (payer, "payer"); (te_fee_payer expected, "rent_payer"); (te_fee_payer expected, "payee");
    (mint, "mint"); (authorized_signer, "authorized_signer"); (te_channel_id expected, "channel");
    (find_associated_token_address payer mint token_program, "payer_token_account");
    (find_associated_token_address (te_channel_id expected) mint token_program, "channel_token_account");
    (token_program, "token_program"); (SYSTEM_PROGRAM, "system_program"); (RENT_SYSVAR_ID, "rent");
    (ASSOCIATED_TOKEN_PROGRAM, "associated_token_program");
    (find_event_authority_pda (te_program_id expected), "event_authority");
    (te_program_id expected, "self_program")] label.

Definition check_top_up_accounts (ix : CompiledInstruction) (keys : list Pubkey) (payer : Pubkey)
    (expected : TransactionExpectations) (label : string) : result unit BatchError :=
  if decide (length (accounts ix) <> 6%nat)
  then Err (setup_err ("top_up must have exactly 6 accounts and no remaining accounts, got "
    +:+ pretty (length (accounts ix)))) else
  let? mint := parse_config_key (cc_token (te_config expected)) "channelConfig.token" in
  let token_program := te_token_program expected in
  expect_accounts ix keys 0 [
    (payer, "payer"); (te_channel_id expected, "channel");
    (find_associated_token_address payer mint token_program, "payer_token_account");
    (find_associated_token_address (te_channel_id expected) mint token_program, "channel_token_account");
    (mint, "mint"); (token_program, "token_program")] label.

(** Bytes [first..last] of the data. *)
Definition slice (first last : nat) (l : list byte) : list byte := take (last - first) (drop first l).

Definition derive_from_args (expected : TransactionExpectations) (salt open_slot : Z) :
    result Pubkey BatchError :=
  let parse value := rmap_err (fun e => setup_err (core_error_text e)) (parse_pubkey value) in
  let? payer := parse (cc_payer (te_config expected)) in
  let? mint := parse (cc_token (te_config expected)) in
  let? authorized_signer := parse (cc_payer_authorizer (te_config expected)) in
  Ok (find_channel_pda payer (te_fee_payer expected) mint authorized_signer salt open_slot
    (te_program_id expected)).

(** The open slot inside the program's freshness window. *)
Definition check_slot_window (open_slot : Z) (recent_slot : option Z) : result unit BatchError :=
  match recent_slot with
  | Some recent_slot =>
      if decide (recent_slot < open_slot)
      then Err (setup_err ("open open_slot " +:+ pretty open_slot +:+ " is ahead of the current slot "
        +:+ pretty recent_slot)) else
      if decide (OPEN_SLOT_WINDOW < recent_slot - open_slot)
      then Err (setup_err ("open open_slot " +:+ pretty open_slot +:+ " is outside the "
        +:+ pretty OPEN_SLOT_WINDOW +:+ "-slot window of the current slot " +:+ pretty recent_slot))
      else Ok tt
  | None => Ok tt
  end.

Definition check_open_args (ix : CompiledInstruction) (expected : TransactionExpectations)
    (deposit_amount : Z) (recent_slot : option Z) : result unit BatchError :=
  let config := te_config expected in
  let want_len := (OPEN_ARGS_PREFIX_LEN + 4 + DISTRIBUTION_ENTRY_LEN)%nat in
  if decide (length (data ix) <> want_len)
  then Err (setup_err ("open args must be exactly " +:+ pretty want_len
    +:+ " bytes for a single-recipient distribution, got " +:+ pretty (length (data ix)))) else
  let salt := from_le (slice 1 9 (data ix)) in
  let deposit := from_le (slice 9 17 (data ix)) in
  let grace_period := from_le (slice 17 21 (data ix)) in
  let open_slot := from_le (slice 21 29 (data ix)) in
  let? want_salt := rmap_err (fun e => setup_err ("channelConfig.salt: " +:+ e)) (X402Batch.salt config) in
  if decide (salt <> want_salt)
  then Err (setup_err ("open salt " +:+ pretty salt +:+ " does not match channelConfig.salt "
    +:+ pretty want_salt)) else
  if decide (deposit <> deposit_amount)
  then Err (setup_err ("open deposit " +:+ pretty deposit +:+ " does not match deposit.amount "
    +:+ pretty deposit_amount)) else
  if decide (grace_period <> cc_withdraw_delay config)
  then Err (batch_err INVALID_WITHDRAW_DELAY_MISMATCH ("open grace_period " +:+ pretty grace_period
    +:+ " does not match withdrawDelay " +:+ pretty (cc_withdraw_delay config))) else
  if decide (open_slot <> cc_open_slot config)
  then Err (setup_err ("open open_slot " +:+ pretty open_slot +:+ " does not match channelConfig.openSlot "
    +:+ pretty (cc_open_slot config))) else
  let count := from_le (slice OPEN_ARGS_PREFIX_LEN (OPEN_ARGS_PREFIX_LEN + 4) (data ix)) in
  if decide (count <> 1)
  then Err (setup_err ("open distribution must have exactly one recipient, got " +:+ pretty count)) else
  let entry := drop (OPEN_ARGS_PREFIX_LEN + 4) (data ix) in
  let recipient := key_of_bytes (take 32 entry) in
  let bps := from_le (slice 32 34 entry) in
  if decide (recipient <> te_receiver expected \/ bps <> FULL_SHARE_BPS)
  then Err (setup_err ("open distribution must pay 100% to " +:+ te_receiver expected +:+ ", got "
    +:+ recipient +:+ " at " +:+ pretty bps +:+ " bps")) else
  let? derived := derive_from_args expected salt open_slot in
  if decide (derived <> te_channel_id expected)
  then Err (batch_err INVALID_CHANNEL_ID_MISMATCH ("open channel " +:+ te_channel_id expected
    +:+ " is not the PDA derived from its own args (" +:+ derived +:+ ")")) else
  check_slot_window open_slot recent_slot.

Definition check_top_up_args (ix : CompiledInstruction) (deposit_amount : Z) (label : string) :
    result unit BatchError :=
  if decide (length (data ix) <> 9%nat)
  then Err (setup_err (label +:+ " args must be exactly 9 bytes, got " +:+ pretty (length (data ix)))) else
  let amount := from_le (slice 1 9 (data ix)) in
  if decide (amount <> deposit_amount)
  then Err (setup_err (label +:+ " amount " +:+ pretty amount +:+ " does not match deposit.amount "
    +:+ pretty deposit_amount)) else Ok tt.

(** * The two validations *)

Definition open_writable : list (nat * string) :=
  [(0%nat, "payer"); (1%nat, "rent_payer"); (5%nat, "channel"); (6%nat, "payer_token_account");
   (7%nat, "channel_token_account")].
Definition top_up_writable : list (nat * string) :=
  [(0%nat, "payer"); (1%nat, "channel"); (2%nat, "payer_token_account"); (3%nat, "channel_token_account")].

Definition memo_policy (form : SetupForm) (memo : option string) : MemoPolicy :=
  match form with
  | FormOpen => RequiredWithBinding memo RECEIVER_BINDING_MEMO_PREFIX
  | FormTopUp => Required memo
  end.

Definition validate_setup_transaction (transaction_b64 : string) (form : SetupForm)
    (expected : TransactionExpectations) (deposit_amount : Z) (recent_slot : option Z) :
    result ValidatedTransaction BatchError :=
  let label := form_label form in
  let? tx := batch_decode transaction_b64 label in
  let? payer := batch_check_envelope tx expected label in
  let keys := static_account_keys (body (message tx)) in
  let? ix := rmap_err (fun e => setup_err (core_error_text e))
    (scan_channel_tx_layout tx keys (te_program_id expected) (form_discriminator form) label
      (memo_policy form (te_memo expected))) in
  let? _ :=
    match form with
    | FormOpen =>
        let? _ := check_receiver_binding tx keys expected in
        let? _ := check_open_accounts ix keys payer expected label in
        let? _ := check_open_args ix expected deposit_amount recent_slot in
        check_all_privileges tx ix open_writable label
    | FormTopUp =>
        let? _ := check_top_up_accounts ix keys payer expected label in
        let? _ := check_top_up_args ix deposit_amount label in
        let? _ := check_all_privileges tx ix top_up_writable label in
        reject_fee_payer_account ix keys (te_fee_payer expected) label
    end in
  Ok {| vt_transaction := tx; vt_payer := payer |}.

Definition refund_err (text : string) : BatchError := batch_err INVALID_REFUND_TRANSACTION text.
Definition as_refund (e : BatchError) : BatchError := refund_err (detail e).

Definition validate_request_close_transaction (transaction_b64 : string)
    (expected : TransactionExpectations) : result ValidatedTransaction BatchError :=
  let label := "request_close" in
  let? tx := rmap_err as_refund (batch_decode transaction_b64 label) in
  let? payer := rmap_err
    (fun e => if decide (code e = UNSUPPORTED_TRANSACTION_VERSION) then e else as_refund e)
    (batch_check_envelope tx expected label) in
  let keys := static_account_keys (body (message tx)) in
  let? ix := rmap_err (fun e => refund_err (core_error_text e))
    (scan_channel_tx_layout tx keys (te_program_id expected) REQUEST_CLOSE_DISCRIMINATOR label
      (Required (te_memo expected))) in
  if decide (length (accounts ix) <> 2%nat)
  then Err (refund_err ("request_close must have exactly 2 accounts, got "
    +:+ pretty (length (accounts ix)))) else
  let? _ := rmap_err as_refund (expect_account ix keys 0 payer "payer" label) in
  let? _ := rmap_err as_refund (expect_account ix keys 1 (te_channel_id expected) "channel" label) in
  if decide (length (data ix) <> 1%nat)
  then Err (refund_err ("request_close takes no arguments, got " +:+ pretty (length (data ix))
    +:+ " data bytes")) else
  let? _ := rmap_err as_refund (check_privileges tx ix 1 "channel" label) in
  let? _ := rmap_err as_refund (reject_fee_payer_account ix keys (te_fee_payer expected) label) in
  Ok {| vt_transaction := tx; vt_payer := payer |}.

(** * What is accepted *)

(** ** The envelope *)

(** The sponsor's and the payer's signatures are the only ones the transaction
    needs, and the payer's is there. *)
Record sponsored_envelope (tx : VersionedTransaction) (sponsor payer : Pubkey) : Prop := {
  env_keys : exists rest, static_account_keys (body (message tx)) = sponsor :: payer :: rest;
  env_distinct : payer <> sponsor;
  env_required : num_required_signatures (body (message tx)) = 2%nat;
  env_signed : exists own signature, signatures tx = [own; signature] /\
    signature_verify signature payer (message_serialize (message tx)) = true;
}.

Lemma batch_envelope_ok tx expected label payer :
  batch_check_envelope tx expected label = Ok payer ->
  sponsored_envelope tx (te_fee_payer expected) payer /\
  parse_pubkey (cc_payer (te_config expected)) = Ok payer /\
  version_of (message tx) ∈ te_accepted_versions expected /\
  require_static_accounts (message tx) = Ok tt.
Proof.
  unfold batch_check_envelope. case_decide as Hver; [done|].
  intros (v & Henv%rmap_err_iff & Hrest)%rbind_ok.
  apply rbind_ok in Hrest as (caps & _ & Hrest). apply rbind_ok in Hrest as ([] & _ & Hrest).
  apply rbind_ok in Hrest as (p & Hp%rmap_err_iff & Hrest).
  repeat (case_decide; [done|]). destruct (signature_verify _ _ _) eqn:Hsig; [|done].
  injection Hrest as <-. split_and!; [|done|done|].
  - split; [|done|done|].
    + destruct (static_account_keys _) as [|k [|k' rest]]; simplify_eq/=. eauto.
    + destruct (signatures tx) as [|own [|sig [|]]]; simplify_eq/=; [lia..|eauto|lia].
  - unfold check_envelope in Henv. rewrite decide_False in Henv by (by intros ?).
    apply rbind_ok in Henv as ([] & Hs & _). done.
Qed.

(** ** Accounts *)

(** The keys the instruction's accounts are. *)
Definition account_keys (keys : list Pubkey) (ix : CompiledInstruction) : list (option Pubkey) :=
  (fun i : nat => keys !! i) <$> accounts ix.

Lemma account_at_keys ix keys i :
  account_at ix keys i = mjoin (account_keys keys ix !! i).
Proof. unfold account_at, account_keys. rewrite list_lookup_fmap. by destruct (accounts ix !! i). Qed.

Lemma expect_account_ok ix keys i want role label :
  expect_account ix keys i want role label = Ok tt <-> account_keys keys ix !! i = Some (Some want).
Proof.
  unfold expect_account. rewrite account_at_keys.
  case_decide as Hd; destruct (account_keys keys ix !! i) as [[k|]|]; simplify_eq/=; split; congruence.
Qed.

Lemma expect_accounts_ok ix keys i wants label :
  expect_accounts ix keys i wants label = Ok tt <->
  forall j want role, wants !! j = Some (want, role) -> account_keys keys ix !! (i + j)%nat = Some (Some want).
Proof.
  revert i. induction wants as [|[want role] wants IH]; intros i; cbn [expect_accounts].
  { split; [intros _ j ? ?; by rewrite lookup_nil|done]. }
  rewrite rbind_ok. split.
  - intros ([] & Hw%expect_account_ok & Hr) [|j] want' role' Hj; simplify_eq/=.
    + by rewrite Nat.add_0_r.
    + rewrite <-Nat.add_succ_comm. by eapply IH.
  - intros Hall. exists tt. split.
    + apply expect_account_ok. rewrite <-(Nat.add_0_r i). by apply (Hall 0%nat want role).
    + apply IH. intros j want' role' Hj. rewrite Nat.add_succ_comm. by eapply (Hall (S j)).
Qed.

Lemma expect_table_ok ix keys wants label :
  length (accounts ix) = length wants ->
  expect_accounts ix keys 0 wants label = Ok tt <-> account_keys keys ix = Some <$> wants.*1.
Proof.
  intros Hlen. rewrite expect_accounts_ok. simpl. split.
  - intros Hall. apply list_eq_same_length with (n := length wants); [by rewrite !length_fmap|
      unfold account_keys; by rewrite length_fmap|].
    intros j x y Hj Hx Hy. rewrite !list_lookup_fmap in Hy.
    destruct (wants !! j) as [[want role]|] eqn:Hw; [|done]. simplify_eq/=.
    specialize (Hall _ _ _ Hw). congruence.
  - intros -> j want role Hj. by rewrite !list_lookup_fmap, Hj.
Qed.

Lemma names_account_keys keys key ix : names keys key ix = true <-> Some key ∈ account_keys keys ix.
Proof.
  unfold names, account_keys. rewrite existsb_exists, list_elem_of_fmap. split.
  - intros (i & Hi%list_elem_of_In & Hk%bool_decide_eq_true). eauto.
  - intros (i & Hk & Hi). exists i. split; [by apply list_elem_of_In|by apply bool_decide_eq_true].
Qed.

(** ** Arguments *)

Definition open_args (salt deposit grace_period open_slot : Z) (recipient : list byte) : list byte :=
  u64_bytes salt ++ u64_bytes deposit ++ u32_bytes grace_period ++ u64_bytes open_slot ++
  u32_bytes 1 ++ recipient ++ le_bytes 2 FULL_SHARE_BPS.

Lemma slice_cut a b l : (a <= b)%nat -> drop a l = slice a b l ++ drop b l.
Proof.
  intros Hab. unfold slice. rewrite <-(take_drop (b - a) (drop a l)) at 1. rewrite drop_drop.
  by replace (a + (b - a))%nat with b by lia.
Qed.

Lemma length_slice a b l : (a <= b <= length l)%nat -> length (slice a b l) = (b - a)%nat.
Proof. intros. unfold slice. rewrite length_take, length_drop. lia. Qed.

Lemma slice_le_bytes n a b l :
  (a <= b <= length l)%nat -> n = (b - a)%nat -> slice a b l = le_bytes n (from_le (slice a b l)).
Proof. intros Hab ->. rewrite <-(length_slice a b l) by lia. by rewrite le_bytes_from_le. Qed.

Lemma slice_app_at p l s a b :
  length p = a -> length l = (b - a)%nat -> slice a b (p ++ l ++ s) = l.
Proof. intros <- Hl. unfold slice. rewrite drop_app_length. rewrite <-Hl. apply take_app_length. Qed.

(** The data an accepted [open] carries. *)
Lemma open_data_split d :
  length d = (OPEN_ARGS_PREFIX_LEN + 4 + DISTRIBUTION_ENTRY_LEN)%nat ->
  exists tag, d = tag :: slice 1 9 d ++ slice 9 17 d ++ slice 17 21 d ++ slice 21 29 d ++
    slice OPEN_ARGS_PREFIX_LEN (OPEN_ARGS_PREFIX_LEN + 4) d ++
    take 32 (drop (OPEN_ARGS_PREFIX_LEN + 4) d) ++ slice 32 34 (drop (OPEN_ARGS_PREFIX_LEN + 4) d).
Proof.
  intros Hlen. destruct d as [|tag d]; [done|]. exists tag. set (l := tag :: d) in *.
  change (slice OPEN_ARGS_PREFIX_LEN (OPEN_ARGS_PREFIX_LEN + 4) l) with (slice 29 33 l).
  change (drop (OPEN_ARGS_PREFIX_LEN + 4) l) with (drop 33 l).
  assert (Hend : drop 33 l = take 32 (drop 33 l) ++ slice 32 34 (drop 33 l)).
  { unfold slice. rewrite <-(take_drop 32 (drop 33 l)) at 1. f_equal.
    rewrite take_ge; [done|]. rewrite !length_drop, Hlen. done. }
  rewrite <-Hend, <-(slice_cut 29), <-(slice_cut 21), <-(slice_cut 17), <-(slice_cut 9), <-(slice_cut 1)
    by lia. done.
Qed.

Lemma slice_in p l s a b d :
  d = p ++ l ++ s -> length p = a -> length l = (b - a)%nat -> slice a b d = l.
Proof. intros ->. apply slice_app_at. Qed.

Lemma open_args_read tag salt deposit grace slot recipient :
  in_u64 salt -> in_u64 deposit -> in_u32 grace -> in_u64 slot -> length recipient = 32%nat ->
  let d := tag :: open_args salt deposit grace slot recipient in
  length d = (OPEN_ARGS_PREFIX_LEN + 4 + DISTRIBUTION_ENTRY_LEN)%nat /\
  from_le (slice 1 9 d) = salt /\ from_le (slice 9 17 d) = deposit /\
  from_le (slice 17 21 d) = grace /\ from_le (slice 21 29 d) = slot /\
  from_le (slice OPEN_ARGS_PREFIX_LEN (OPEN_ARGS_PREFIX_LEN + 4) d) = 1 /\
  take 32 (drop (OPEN_ARGS_PREFIX_LEN + 4) d) = recipient /\
  from_le (slice 32 34 (drop (OPEN_ARGS_PREFIX_LEN + 4) d)) = FULL_SHARE_BPS.
Proof.
  intros Hs Hd Hg Ho Hr d. unfold d, open_args.
  set (a := u64_bytes salt). set (b := u64_bytes deposit). set (c := u32_bytes grace).
  set (e := u64_bytes slot). set (one := u32_bytes 1). set (full := le_bytes 2 FULL_SHARE_BPS).
  assert (length a = 8 /\ length b = 8 /\ length c = 4 /\ length e = 8 /\ length one = 4)%nat
    as (La & Lb & Lc & Le & L1) by (repeat split; apply length_le_bytes).
  assert (from_le a = salt /\ from_le b = deposit /\ from_le c = grace /\ from_le e = slot /\
    from_le one = 1 /\ from_le full = FULL_SHARE_BPS /\ length full = 2%nat)
    as (Fa & Fb & Fc & Fe & F1 & Ff & Lf)
    by (split_and!; first [by apply from_le_u64|by apply from_le_u32|done]).
  clearbody a b c e one full.
  assert (Hdrop : drop 33 (tag :: a ++ b ++ c ++ e ++ one ++ recipient ++ full) = recipient ++ full).
  { replace (tag :: a ++ b ++ c ++ e ++ one ++ recipient ++ full) with
      ((tag :: a ++ b ++ c ++ e ++ one) ++ recipient ++ full) by (by rewrite <-?app_comm_cons, <-!app_assoc).
    apply drop_app_length'. simpl. rewrite !length_app. lia. }
  change (OPEN_ARGS_PREFIX_LEN + 4)%nat with 33%nat. rewrite Hdrop.
  split_and!.
  - simpl. rewrite !length_app. unfold OPEN_ARGS_PREFIX_LEN, DISTRIBUTION_ENTRY_LEN. lia.
  - rewrite (slice_in [tag] a (b ++ c ++ e ++ one ++ recipient ++ full)) by done. done.
  - rewrite (slice_in (tag :: a) b (c ++ e ++ one ++ recipient ++ full)) by (done || simpl; lia).
    done.
  - rewrite (slice_in (tag :: a ++ b) c (e ++ one ++ recipient ++ full)).
    + done.
    + by rewrite <-app_comm_cons, <-!app_assoc.
    + simpl. rewrite length_app. lia.
    + done.
  - rewrite (slice_in (tag :: a ++ b ++ c) e (one ++ recipient ++ full)).
    + done.
    + by rewrite <-app_comm_cons, <-!app_assoc.
    + simpl. rewrite !length_app. lia.
    + done.
  - rewrite (slice_in (tag :: a ++ b ++ c ++ e) one (recipient ++ full)).
    + done.
    + by rewrite <-app_comm_cons, <-!app_assoc.
    + simpl. rewrite !length_app. unfold OPEN_ARGS_PREFIX_LEN. lia.
    + done.
  - by apply take_app_length'.
  - rewrite (slice_in recipient full []) by (done || by rewrite app_nil_r). done.
Qed.

(** An [open]'s arguments are accepted exactly when they are the encoding of the
    configuration: its salt and slot, which derive the channel's address, the
    declared deposit, the grace period, and the whole payout to the receiver. *)
Theorem open_args_iff ix expected amount recent :
  in_u64 amount -> in_u32 (cc_withdraw_delay (te_config expected)) ->
  in_u64 (cc_open_slot (te_config expected)) ->
  check_open_args ix expected amount recent = Ok tt <->
  exists tag n recipient,
    data ix = tag :: open_args n amount (cc_withdraw_delay (te_config expected))
      (cc_open_slot (te_config expected)) recipient /\
    X402Batch.salt (te_config expected) = Ok n /\
    length recipient = 32%nat /\ key_of_bytes recipient = te_receiver expected /\
    derive_from_args expected n (cc_open_slot (te_config expected)) = Ok (te_channel_id expected) /\
    check_slot_window (cc_open_slot (te_config expected)) recent = Ok tt.
Proof.
  intros Ha Hg Ho. unfold check_open_args. split.
  - case_decide as Hlen; [done|]. intros (n & Hn%rmap_err_iff & Hrest)%rbind_ok.
    repeat (case_decide; [done|]). apply rbind_ok in Hrest as (derived & Hd & Hrest).
    case_decide as Hder; [done|]. apply Decidable.not_or in H9 as [Hr Hb].
    apply dec_stable in Hr, Hb. destruct (open_data_split _ Hlen) as [tag Hsplit].
    assert (Hcut : forall n a b z, from_le (slice a b (data ix)) = z -> (a <= b <= 67)%nat ->
      n = (b - a)%nat -> slice a b (data ix) = le_bytes n z).
    { intros k a b z <- Hab Hk. apply slice_le_bytes; [|done]. rewrite Hlen. exact Hab. }
    exists tag, n, (take 32 (drop (OPEN_ARGS_PREFIX_LEN + 4) (data ix))). split_and!.
    + rewrite Hsplit at 1. unfold open_args, u64_bytes, u32_bytes.
      rewrite (Hcut 8%nat 1%nat 9%nat n), (Hcut 8%nat 9%nat 17%nat amount),
        (Hcut 4%nat 17%nat 21%nat _ H6), (Hcut 8%nat 21%nat 29%nat _ H7),
        (Hcut 4%nat OPEN_ARGS_PREFIX_LEN (OPEN_ARGS_PREFIX_LEN + 4)%nat 1)
        by (done || unfold OPEN_ARGS_PREFIX_LEN; lia).
      repeat f_equal. rewrite <-Hb. apply slice_le_bytes; [|done]. rewrite length_drop, Hlen.
      unfold OPEN_ARGS_PREFIX_LEN, DISTRIBUTION_ENTRY_LEN. lia.
    + done.
    + rewrite length_take, length_drop, Hlen. done.
    + done.
    + congruence.
    + congruence.
  - intros (tag & n & recipient & Hd & Hn & Hlen & Hr & Hder & Hw). rewrite Hd.
    assert (Hn64 : in_u64 n).
    { unfold X402Batch.salt in Hn. apply parse_amount_ok in Hn. by eapply Units.parse_u64_range. }
    destruct (open_args_read tag n amount _ _ recipient Hn64 Ha Hg Ho Hlen)
      as (-> & -> & -> & -> & -> & -> & -> & ->).
    rewrite decide_False by auto. rewrite Hn. cbn [rmap_err rbind].
    rewrite !decide_False by (auto || by intros [|]). rewrite Hder. cbn [rbind].
    by rewrite decide_False by auto.
Qed.

(** ** What the sponsor's signature authorizes *)

Lemma check_all_privileges_ok tx ix roles label :
  check_all_privileges tx ix roles label = Ok tt <->
  Forall (fun '(position, _) => exists i, accounts ix !! position = Some i /\ is_writable tx i = true) roles.
Proof.
  induction roles as [|[position role] roles IH]; simpl; [by split|].
  rewrite Forall_cons, <-IH, rbind_ok. unfold check_privileges.
  destruct (accounts ix !! position) as [i|]; simpl.
  2:{ split; [by intros (? & ? & _)|by intros [(? & ? & _) _]]. }
  destruct (is_writable tx i) eqn:Hw; split.
  - intros ([] & _ & Hr). eauto.
  - intros [_ Hr]. by exists tt.
  - by intros (? & ? & _).
  - intros [(j & [= <-] & Hj) _]. congruence.
Qed.

(** The client's transaction, as far as its sponsor is concerned: one
    instruction of the channel program on exactly these accounts and with this
    data, and nothing else that names the sponsor. *)
Record sponsored_call (tx : VersionedTransaction) (expected : TransactionExpectations) (payer : Pubkey)
    (ix : CompiledInstruction) (table : list Pubkey) : Prop := {
  call_envelope : sponsored_envelope tx (te_fee_payer expected) payer;
  call_split : exists budget suffix,
    instructions (body (message tx)) = budget ++ ix :: suffix /\
    Forall (fun ix => names (static_account_keys (body (message tx))) (te_fee_payer expected) ix = false)
      (budget ++ suffix);
  call_program : runs (static_account_keys (body (message tx))) (te_program_id expected) ix;
  call_accounts : account_keys (static_account_keys (body (message tx))) ix = Some <$> table;
  call_fee : runtime_fee (message tx) <= MAX_SPONSORED_PRIORITY_FEE_LAMPORTS;
}.

Lemma sponsored_call_intro tx expected label payer ix discriminator policy table :
  batch_check_envelope tx expected label = Ok payer ->
  scan_channel_tx_layout tx (static_account_keys (body (message tx))) (te_program_id expected)
    discriminator label policy = Ok ix ->
  account_keys (static_account_keys (body (message tx))) ix = Some <$> table ->
  sponsored_call tx expected payer ix table /\ byte_to_Z <$> head (data ix) = Some discriminator.
Proof.
  intros (Henv & _)%batch_envelope_ok Hscan Htable.
  assert (Hhd : head (static_account_keys (body (message tx))) = Some (te_fee_payer expected)).
  { destruct Henv as [[rest ->] _ _ _]. done. }
  destruct (layout_sponsor _ _ _ _ _ _ _ _ Hscan Hhd) as (budget & suffix & Hixs & Hn & Hrun & Hd & Hfee).
  split; [|done]. split; try done. eauto.
Qed.

(** A call whose own accounts leave the sponsor out is one no instruction of
    which names the sponsor. *)
Lemma sponsored_call_fee_only tx expected payer ix table :
  sponsored_call tx expected payer ix table ->
  names (static_account_keys (body (message tx))) (te_fee_payer expected) ix = false ->
  Forall (fun ix => names (static_account_keys (body (message tx))) (te_fee_payer expected) ix = false)
    (instructions (body (message tx))).
Proof.
  intros [_ (budget & suffix & -> & Hn) _ _ _] Hix. apply Forall_app in Hn as [Hb Hs].
  apply Forall_app. split; [done|]. by constructor.
Qed.

(** The payer's token accounts of a configuration. *)
Definition top_up_table (expected : TransactionExpectations) (payer mint : Pubkey) : list Pubkey := [
  payer; te_channel_id expected;
  find_associated_token_address payer mint (te_token_program expected);
  find_associated_token_address (te_channel_id expected) mint (te_token_program expected);
  mint; te_token_program expected].

Definition open_table (expected : TransactionExpectations) (payer mint authorized_signer : Pubkey) :
    list Pubkey := [
  payer; te_fee_payer expected; te_fee_payer expected; mint; authorized_signer; te_channel_id expected;
  find_associated_token_address payer mint (te_token_program expected);
  find_associated_token_address (te_channel_id expected) mint (te_token_program expected);
  te_token_program expected; SYSTEM_PROGRAM; RENT_SYSVAR_ID; ASSOCIATED_TOKEN_PROGRAM;
  find_event_authority_pda (te_program_id expected); te_program_id expected].

Lemma reject_account_ok ix keys key label :
  reject_fee_payer_account ix keys key label = Ok tt <-> names keys key ix = false.
Proof. unfold reject_fee_payer_account. destruct (names keys key ix); naive_solver. Qed.

Lemma check_top_up_args_ok ix amount label :
  check_top_up_args ix amount label = Ok tt -> exists tag, data ix = tag :: u64_bytes amount.
Proof.
  unfold check_top_up_args. case_decide as Hlen; [done|]. case_decide as Ha; [done|]. intros _.
  destruct (data ix) as [|tag d] eqn:Hd; [done|]. exists tag. f_equal. simpl in Hlen. injection Hlen as Hlen.
  rewrite <-Ha. unfold slice. simpl. rewrite drop_0, take_ge by lia.
  unfold u64_bytes. rewrite <-Hlen. by rewrite le_bytes_from_le.
Qed.

(** C15. The sponsor of a top-up pays the network fee and nothing else: no
    instruction names its key, the fee is bounded, its co-signer is the payer,
    who signed this message, and the one channel call moves the declared amount
    from the payer's token account to this channel's. *)
Theorem top_up_fee_only b64 expected amount recent v :
  validate_setup_transaction b64 FormTopUp expected amount recent = Ok v ->
  let tx := vt_transaction v in
  exists ix mint tag,
    sponsored_call tx expected (vt_payer v) ix (top_up_table expected (vt_payer v) mint) /\
    Forall (fun ix => names (static_account_keys (body (message tx))) (te_fee_payer expected) ix = false)
      (instructions (body (message tx))) /\
    parse_pubkey (cc_token (te_config expected)) = Ok mint /\
    data ix = tag :: u64_bytes amount /\ byte_to_Z tag = TOP_UP_DISCRIMINATOR.
Proof.
  unfold validate_setup_transaction. cbn [form_label form_discriminator memo_policy].
  intros (tx & _ & (payer & Henv & (ix & Hscan%rmap_err_iff & Hrest)%rbind_ok)%rbind_ok)%rbind_ok.
  apply rbind_ok in Hrest as ([] & Hrest & [= <-]).
  apply rbind_ok in Hrest as ([] & Hacc & Hrest). apply rbind_ok in Hrest as ([] & Hargs & Hrest).
  apply rbind_ok in Hrest as ([] & _ & Hrej%reject_account_ok).
  unfold check_top_up_accounts in Hacc. case_decide as Hlen; [done|].
  apply rbind_ok in Hacc as (mint & Hmint%rmap_err_iff & Htable).
  apply expect_table_ok in Htable; [|exact Hlen].
  destruct (sponsored_call_intro _ _ _ _ _ _ _ _ Henv Hscan Htable) as [Hcall Hdisc].
  destruct (check_top_up_args_ok _ _ _ Hargs) as [tag Hd].
  exists ix, mint, tag. split_and!; [done| |done|done|].
  - by eapply sponsored_call_fee_only.
  - rewrite Hd in Hdisc. by injection Hdisc.
Qed.

(** C25. The sponsor of an open funds exactly the channel the payload describes:
    its key appears in the open call alone, in the rent-payer and payee seats the
    scheme gives it, the call's accounts and arguments are the ones the
    configuration encodes, all of the payout goes to the receiver, and the one
    binding memo names this server's authorizer. *)
Theorem open_sponsored b64 expected amount recent v :
  in_u64 amount -> in_u32 (cc_withdraw_delay (te_config expected)) ->
  in_u64 (cc_open_slot (te_config expected)) ->
  validate_setup_transaction b64 FormOpen expected amount recent = Ok v ->
  let tx := vt_transaction v in
  exists ix mint authorized_signer tag n recipient,
    sponsored_call tx expected (vt_payer v) ix
      (open_table expected (vt_payer v) mint authorized_signer) /\
    data ix = tag :: open_args n amount (cc_withdraw_delay (te_config expected))
      (cc_open_slot (te_config expected)) recipient /\
    byte_to_Z tag = OPEN_DISCRIMINATOR /\
    length recipient = 32%nat /\ key_of_bytes recipient = te_receiver expected /\
    X402Batch.salt (te_config expected) = Ok n /\
    te_channel_id expected = find_channel_pda (vt_payer v) (te_fee_payer expected) mint authorized_signer
      n (cc_open_slot (te_config expected)) (te_program_id expected) /\
    bound_keys tx (static_account_keys (body (message tx))) = [Ok (te_receiver_authorizer expected)].
Proof.
  intros Ha Hg Ho. unfold validate_setup_transaction. cbn [form_label form_discriminator memo_policy].
  intros (tx & _ & (payer & Henv & (ix & Hscan%rmap_err_iff & Hrest)%rbind_ok)%rbind_ok)%rbind_ok.
  apply rbind_ok in Hrest as ([] & Hrest & [= <-]).
  apply rbind_ok in Hrest as ([] & Hbind & Hrest). apply rbind_ok in Hrest as ([] & Hacc & Hrest).
  apply rbind_ok in Hrest as ([] & Hargs & _).
  unfold check_open_accounts in Hacc. case_decide as Hlen; [done|].
  apply rbind_ok in Hacc as (mint & Hmint%rmap_err_iff & Hacc).
  apply rbind_ok in Hacc as (signer & Hsigner%rmap_err_iff & Htable).
  apply expect_table_ok in Htable; [|exact Hlen].
  destruct (sponsored_call_intro _ _ _ _ _ _ _ _ Henv Hscan Htable) as [Hcall Hdisc].
  apply open_args_iff in Hargs as (tag & n & recipient & Hd & Hn & Hr & Hrk & Hder & _); [|done..].
  exists ix, mint, signer, tag, n, recipient. split_and!; try done.
  - rewrite Hd in Hdisc. by injection Hdisc.
  - apply batch_envelope_ok in Henv as (_ & Hp & _).
    unfold derive_from_args in Hder. rewrite Hp, Hmint, Hsigner in Hder. by injection Hder.
  - unfold check_receiver_binding in Hbind. apply rbind_ok in Hbind as (key & Hkey & Hbind).
    case_decide as Hk; [done|]. simpl. destruct (bound_keys _ _) as [|k [|]]; try done. by subst.
Qed.

(** A refund's transaction does one thing: the payer, who signed it, asks to
    close this channel; the sponsor's key is in no instruction. *)
Theorem request_close_only b64 expected v :
  validate_request_close_transaction b64 expected = Ok v ->
  let tx := vt_transaction v in
  exists ix tag,
    sponsored_call tx expected (vt_payer v) ix [vt_payer v; te_channel_id expected] /\
    Forall (fun ix => names (static_account_keys (body (message tx))) (te_fee_payer expected) ix = false)
      (instructions (body (message tx))) /\
    data ix = [tag] /\ byte_to_Z tag = REQUEST_CLOSE_DISCRIMINATOR.
Proof.
  unfold validate_request_close_transaction.
  intros (tx & _ & (payer & Henv%rmap_err_iff & (ix & Hscan%rmap_err_iff & Hrest)%rbind_ok)%rbind_ok)%rbind_ok.
  case_decide as Hlen; [done|]. apply rbind_ok in Hrest as ([] & H0'%rmap_err_iff & Hrest).
  apply rbind_ok in Hrest as ([] & H1'%rmap_err_iff & Hrest). case_decide as Hdata; [done|].
  apply rbind_ok in Hrest as ([] & _ & Hrest). apply rbind_ok in Hrest as ([] & Hrej%rmap_err_iff & Hrest).
  injection Hrest as <-. apply reject_account_ok in Hrej. apply expect_account_ok in H0', H1'.
  assert (Htable : account_keys (static_account_keys (body (message tx))) ix =
    Some <$> [payer; te_channel_id expected]).
  { unfold account_keys in *. destruct (accounts ix) as [|a [|b [|]]]; simplify_eq/=. congruence. }
  destruct (sponsored_call_intro _ _ _ _ _ _ _ _ Henv Hscan Htable) as [Hcall Hdisc].
  destruct (data ix) as [|tag [|]] eqn:Hd; simplify_eq/=. exists ix, tag. split_and!; try done.
  by eapply sponsored_call_fee_only.
Qed.
End policy.

(** * Concrete transactions *)
Module BatchTxDemo.
Import X402Demo.
#[global] Existing Instance CodecDemo.v1_format.

(** A codec that decodes to one transaction. *)
Definition codec_of (tx : VersionedTransaction) : Codec := {|
  compile_v0 _ _ _ := Err "unsupported"; compile_v1 _ _ _ _ := Err "unsupported";
  wincode_serialize _ := Ok [Byte.x01]; wincode_deserialize _ := Ok tx;
  b64_encode _ := "tx"; b64_decode _ := Ok [Byte.x01] |}.

Definition mint : Pubkey := key "mint".
Definition token_program : Pubkey := key "token program".
Definition channel : Pubkey :=
  find_channel_pda (key "payer") (key "sponsor") mint (key "signer") 7 1000 (key "program").

Definition expected : TransactionExpectations := {|
  te_program_id := key "program"; te_fee_payer := key "sponsor"; te_config := config;
  te_channel_id := channel; te_token_program := token_program; te_receiver := key "receiver";
  te_memo := Some "order 7"; te_receiver_authorizer := key "authorizer";
  te_accepted_versions := [V0] |}.

Definition keys : list Pubkey := [
  key "sponsor"; key "payer"; channel; find_associated_token_address (key "payer") mint token_program;
  find_associated_token_address channel mint token_program; mint; token_program; key "program";
  COMPUTE_BUDGET_PROGRAM_ID; MEMO_PROGRAM; key "signer"; SYSTEM_PROGRAM; RENT_SYSVAR_ID;
  ASSOCIATED_TOKEN_PROGRAM; find_event_authority_pda (key "program")].

Definition call (program : nat) (accounts : list nat) (data : list byte) : CompiledInstruction :=
  {| program_id_index := program; accounts := accounts; data := data |}.

Definition memo : CompiledInstruction := call 9 [] (str_bytes "order 7").
Definition binding : CompiledInstruction := call 9 [] (str_bytes (receiver_binding_memo (key "authorizer"))).

Definition wrap (ixs : list CompiledInstruction) : VersionedTransaction := {|
  signatures := [default_signature; [Byte.x01]];
  message := MessageV0 {|
    num_required_signatures := 2; num_readonly_signed_accounts := 0;
    num_readonly_unsigned_accounts := 10; static_account_keys := keys;
    instructions := call 8 [] (ix_data (unit_limit_instruction 100000)) ::
      call 8 [] (ix_data (unit_price_instruction 5000)) :: ixs;
    recent_blockhash := [] |} [] |}.

Definition top_up : VersionedTransaction :=
  wrap [call 7 [1; 2; 3; 4; 5; 6]%nat (byte_of_Z 3 :: u64_bytes 500); memo].
Definition open : VersionedTransaction :=
  wrap [call 7 [1; 0; 0; 5; 10; 2; 3; 4; 6; 11; 12; 13; 14; 7]%nat
          (byte_of_Z 1 :: open_args 7 500 900 1000 (key_bytes (key "receiver"))); memo; binding].
Definition request_close : VersionedTransaction := wrap [call 7 [1; 2]%nat [byte_of_Z 5]; memo].

Definition setup (tx : VersionedTransaction) (form : SetupForm) : result ValidatedTransaction BatchError :=
  validate_setup_transaction (H3 := codec_of tx) (fun _ => []) (fun _ _ _ => true) "tx" form expected 500
    (Some 1200).
Definition close (tx : VersionedTransaction) : result ValidatedTransaction BatchError :=
  validate_request_close_transaction (H3 := codec_of tx) (fun _ => []) (fun _ _ _ => true) "tx" expected.
End BatchTxDemo.

Lemma top_up_fee_only_witness :
  exists ix mint tag,
    sponsored_call (fun _ => []) (fun _ _ _ => true) BatchTxDemo.top_up BatchTxDemo.expected
      (AddressesDemo.key "payer") ix (top_up_table BatchTxDemo.expected (AddressesDemo.key "payer") mint) /\
    data ix = tag :: u64_bytes 500.
Proof.
  destruct (top_up_fee_only (H3 := BatchTxDemo.codec_of BatchTxDemo.top_up) (fun _ => []) (fun _ _ _ => true)
    "tx" BatchTxDemo.expected 500 (Some 1200)
    {| vt_transaction := BatchTxDemo.top_up; vt_payer := AddressesDemo.key "payer" |})
    as (ix & mint & tag & Hcall & _ & _ & Hd & _).
  - vm_compute. reflexivity.
  - exists ix, mint, tag. split; [exact Hcall|exact Hd].
Defined.

Lemma open_sponsored_witness :
  exists tag n recipient, key_of_bytes recipient = AddressesDemo.key "receiver" /\
    byte_to_Z tag = 1 /\ X402Batch.salt X402Demo.config = Ok n.
Proof.
  destruct (open_sponsored (H3 := BatchTxDemo.codec_of BatchTxDemo.open) (fun _ => []) (fun _ _ _ => true)
    "tx" BatchTxDemo.expected 500 (Some 1200)
    {| vt_transaction := BatchTxDemo.open; vt_payer := AddressesDemo.key "payer" |})
    as (ix & mint & signer & tag & n & recipient & _ & _ & Htag & _ & Hr & Hn & _).
  - split; vm_compute; discriminate.
  - split; vm_compute; discriminate.
  - split; vm_compute; discriminate.
  - vm_compute. reflexivity.
  - exists tag, n, recipient. split; [exact Hr|split; [exact Htag|exact Hn]].
Defined.

Lemma request_close_only_witness :
  exists ix tag, data ix = [tag] /\ byte_to_Z tag = 5.
Proof.
  destruct (request_close_only (H3 := BatchTxDemo.codec_of BatchTxDemo.request_close) (fun _ => [])
    (fun _ _ _ => true) "tx" BatchTxDemo.expected
    {| vt_transaction := BatchTxDemo.request_close; vt_payer := AddressesDemo.key "payer" |})
    as (ix & tag & _ & _ & Hd & Ht).
  - vm_compute. reflexivity.
  - exists ix, tag. split; [exact Hd|exact Ht].
Defined.

Lemma open_args_iff_witness :
  check_open_args (BatchTxDemo.call 7 [] (byte_of_Z 1 ::
    open_args 7 500 900 1000 (key_bytes (AddressesDemo.key "receiver")))) BatchTxDemo.expected 500 (Some 1200) = Ok tt.
Proof.
  apply open_args_iff.
  - split; vm_compute; discriminate.
  - split; vm_compute; discriminate.
  - split; vm_compute; discriminate.
  - exists (byte_of_Z 1), 7, (key_bytes (AddressesDemo.key "receiver")).
    repeat split; vm_compute; reflexivity.
Defined.

(** A transfer that rides along, a sponsor among the top-up's accounts and a slot
    outside the window are refused. *)
Example smuggled_transfer :
  is_ok (BatchTxDemo.setup (BatchTxDemo.wrap
    [BatchTxDemo.call 7 [1; 2; 3; 4; 5; 6]%nat (byte_of_Z 3 :: u64_bytes 500); BatchTxDemo.memo;
     BatchTxDemo.call 11 [0; 1]%nat [byte_of_Z 2]]) FormTopUp) = false.
Proof. vm_compute. reflexivity. Qed.
Example sponsor_in_memo :
  is_ok (BatchTxDemo.setup (BatchTxDemo.wrap
    [BatchTxDemo.call 7 [1; 2; 3; 4; 5; 6]%nat (byte_of_Z 3 :: u64_bytes 500);
     BatchTxDemo.call 9 [0]%nat (str_bytes "order 7")]) FormTopUp) = false.
Proof. vm_compute. reflexivity. Qed.

(** With more read-only signers than signers, the wrapped subtraction counts every
    signer as writable: the privilege table alone does not refuse such a header. *)
Lemma header_underflow tx index :
  (num_required_signatures (body (message tx)) < num_readonly_signed_accounts (body (message tx)))%nat ->
  (num_readonly_signed_accounts (body (message tx)) <= 255)%nat ->
  (index < num_required_signatures (body (message tx)))%nat ->
  is_writable tx index = true.
Proof.
  intros Hlt Hro Hi. unfold is_writable. rewrite decide_True by done. apply bool_decide_eq_true.
  unfold u64_wrap. rewrite <-(Z.mod_add _ 1) by lia. rewrite Z.mod_small; lia.
Qed.
