(* ===== verification/PayerRefund.v ===== *)
(** Whether a sealed [distribute] refunds the payer
    (src/rust/crates/kit/src/core/payment_channel/token_account.rs, payer_refund.rs):
    reading a token account as the program reads a payout destination, and the
    bounded deferral of a refund whose account cannot take it. *)
From stdpp Require Import base numbers option list strings pretty.
From S2P Require Import Prelude Bytes Voucher Tx Deployments ChannelProgram.
Open Scope Z_scope.

(** * Token accounts *)

Definition TOKEN_ACCOUNT_LEN : nat := 165.
Definition TOKEN_ACCOUNT_INITIALIZED : Z := 1.
Definition TOKEN_ACCOUNT_FROZEN : Z := 2.
Definition TOKEN_ACCOUNT_TYPE : Z := 2.
Definition EXTENSION_IMMUTABLE_OWNER : Z := 7.
Definition u16_max : Z := 65535.

Record TokenAccount := {
  ta_mint : Pubkey;
  ta_owner : Pubkey;
  ta_state : Z;
  unsupported_extension : option Z;
}.

Definition is_zero (b : byte) : bool := bool_decide (byte_to_Z b = 0).

(** The extension list from the cursor on; [None] is fuel that ran out. Every
    turn consumes a header, so the length of the list is enough. *)
Fixpoint extension_walk (fuel : nat) (rest : list byte) : option (option Z) :=
  match fuel with
  | O => if decide (rest = []) then Some None else None
  | S fuel =>
      if decide (rest = []) then Some None else
      if forallb is_zero rest then Some None else
      match rest with
      | h0 :: h1 :: h2 :: h3 :: body =>
          let extension := from_le [h0; h1] in
          let length := Z.to_nat (from_le [h2; h3]) in
          if decide (extension <> EXTENSION_IMMUTABLE_OWNER) then Some (Some extension) else
          if decide (List.length body < length)%nat then Some (Some u16_max) else
          extension_walk fuel (drop length body)
      | _ => Some (Some u16_max)
      end
  end.

Definition unsupported_account_extension (data : list byte) : option Z :=
  if decide (length data = TOKEN_ACCOUNT_LEN) then None else
  match drop TOKEN_ACCOUNT_LEN data with
  | kind :: rest =>
      if decide (byte_to_Z kind <> TOKEN_ACCOUNT_TYPE) then Some (byte_to_Z kind)
      else default None (extension_walk (length rest) rest)
  | [] => None
  end.

Section refund.
Context `{Addresses}.

Definition decode_token_account (data : list byte) : option TokenAccount :=
  if decide (length data < TOKEN_ACCOUNT_LEN)%nat then None else
  Some {| ta_mint := key_of_bytes (take 32 data); ta_owner := key_of_bytes (take 32 (drop 32 data));
          ta_state := default 0 (byte_to_Z <$> data !! 108%nat);
          unsupported_extension := unsupported_account_extension data |}.

(** batch_settlement.rs's check of a payout destination, with the program that
    owns the account. *)
Definition unusable_settlement_account (program : Pubkey) (data : list byte)
    (owner mint token_program : Pubkey) : option string :=
  if decide (program <> token_program) then Some "is not owned by the declared token program" else
  match decode_token_account data with
  | None => Some "is not an initialized token account"
  | Some decoded =>
      if decide (ta_mint decoded <> mint)
      then Some ("holds mint " +:+ ta_mint decoded +:+ " rather than " +:+ mint) else
      if decide (ta_owner decoded <> owner)
      then Some ("is owned by " +:+ ta_owner decoded +:+ " rather than " +:+ owner) else
      if decide (ta_state decoded = TOKEN_ACCOUNT_FROZEN) then Some "is frozen" else
      match unsupported_extension decoded with
      | Some extension => Some ("carries token account extension " +:+ pretty extension
          +:+ ", which this server will not settle through")
      | None =>
          if decide (ta_state decoded <> TOKEN_ACCOUNT_INITIALIZED)
          then Some ("is in account state " +:+ pretty (ta_state decoded)) else None
      end
  end.

(** * The refund *)

(** Only [payer_refund] makes one. *)
Record DistributeClearance := { cleared_channel : Pubkey }.

Inductive PayerRefund :=
| Clear (clearance : DistributeClearance)
| Deferred (refund : Z) (payer_token_account : Pubkey) (reason : string) (until : Z)
| Forfeit (clearance : DistributeClearance) (refund : Z) (payer_token_account : Pubkey) (reason : string).

Definition clearance (decision : PayerRefund) : option DistributeClearance :=
  match decision with
  | Clear clearance | Forfeit clearance _ _ _ => Some clearance
  | Deferred _ _ _ _ => None
  end.

Record RefundDeadline := { rd_sealed_at : Z; rd_grace_period : Z }.
Definition deadline_until (d : RefundDeadline) : Z := i64_saturating_add (rd_sealed_at d) (rd_grace_period d).

Record ObservedAccount := { oa_program : Pubkey; oa_data : list byte }.

Record SealedRefundTerms := {
  st_channel : Pubkey;
  st_payer : Pubkey;
  st_mint : Pubkey;
  st_token_program : Pubkey;
  st_deposit : Z;
  st_settled : Z;
  st_payer_withdrawn_at : Z;
}.

Definition payer_token_account (terms : SealedRefundTerms) : Pubkey :=
  find_associated_token_address (st_payer terms) (st_mint terms) (st_token_program terms).

Definition refund_due (terms : SealedRefundTerms) : Z :=
  if decide (st_payer_withdrawn_at terms <> 0) then 0
  else u64_saturating_sub (st_deposit terms) (st_settled terms).

Definition unpayable_reason (terms : SealedRefundTerms) (account : option ObservedAccount) : option string :=
  match account with
  | None => Some "does not exist"
  | Some account =>
      if decide (oa_program account <> st_token_program terms)
      then Some "is not owned by the channel's token program" else
      match decode_token_account (oa_data account) with
      | None => Some "is not an initialized token account"
      | Some decoded =>
          if decide (ta_state decoded = TOKEN_ACCOUNT_FROZEN) then Some "is frozen" else
          if decide (ta_state decoded <> TOKEN_ACCOUNT_INITIALIZED) then Some "is not initialized" else
          if decide (ta_mint decoded <> st_mint terms \/ ta_owner decoded <> st_payer terms)
          then Some "is not held by the payer for the channel's mint" else
          match unsupported_extension decoded with
          | Some _ => Some "carries a token account extension the program will not pay into"
          | None => None
          end
      end
  end.

Definition payer_refund (terms : SealedRefundTerms) (account : option ObservedAccount)
    (deadline : RefundDeadline) (now : Z) : PayerRefund :=
  let clearance := {| cleared_channel := st_channel terms |} in
  let refund := refund_due terms in
  match (if decide (0 < refund) then unpayable_reason terms account else None) with
  | None => Clear clearance
  | Some reason =>
      let until := deadline_until deadline in
      if decide (until <= now) then Forfeit clearance refund (payer_token_account terms) reason
      else Deferred refund (payer_token_account terms) reason until
  end.

(** * The extension list *)

(** The extension lists a payout account may carry: immutable-owner entries, then
    padding. *)
Inductive inert : list byte -> Prop :=
| inert_end rest : Forall (fun b => is_zero b = true) rest -> inert rest
| inert_owner h0 h1 h2 h3 value rest :
    from_le [h0; h1] = EXTENSION_IMMUTABLE_OWNER -> Z.of_nat (length value) = from_le [h2; h3] ->
    inert rest -> inert (h0 :: h1 :: h2 :: h3 :: value ++ rest).

Lemma extension_walk_total fuel rest :
  (length rest <= fuel)%nat -> exists r, extension_walk fuel rest = Some r.
Proof.
  revert rest. induction fuel as [|fuel IH]; intros rest Hlen; cbn [extension_walk].
  { destruct rest; [|simpl in Hlen; lia]. simpl. eauto. }
  case_decide; [eauto|]. destruct (forallb is_zero rest); [eauto|].
  destruct rest as [|h0 [|h1 [|h2 [|h3 rest]]]]; eauto. repeat case_decide; eauto.
  apply IH. rewrite length_drop. simpl in Hlen. lia.
Qed.

Lemma forallb_zero rest : forallb is_zero rest = true <-> Forall (fun b => is_zero b = true) rest.
Proof. rewrite forallb_forall, Forall_forall. by setoid_rewrite list_elem_of_In. Qed.

Lemma zero_header h0 h1 h2 h3 rest :
  Forall (fun b => is_zero b = true) (h0 :: h1 :: h2 :: h3 :: rest) ->
  from_le [h0; h1] <> EXTENSION_IMMUTABLE_OWNER.
Proof.
  intros Hz. apply Forall_cons in Hz as [H0 Hz]. apply Forall_cons in Hz as [H1 _].
  apply bool_decide_eq_true in H0, H1. simpl. rewrite H0, H1. done.
Qed.

Lemma extension_walk_inert fuel rest :
  (length rest <= fuel)%nat -> extension_walk fuel rest = Some None <-> inert rest.
Proof.
  revert rest. induction fuel as [|fuel IH]; intros rest Hlen; cbn [extension_walk].
  { destruct rest; [|simpl in Hlen; lia]. split; [intros _; by constructor|done]. }
  case_decide as Hnil; [subst; split; [intros _; by constructor|done]|].
  destruct (forallb is_zero rest) eqn:Hz.
  { split; [intros _; constructor; by apply forallb_zero|done]. }
  assert (Hnz : ~ Forall (fun b => is_zero b = true) rest) by (rewrite <-forallb_zero, Hz; done).
  destruct rest as [|h0 [|h1 [|h2 [|h3 rest]]]];
    try (split; [done|intros Hi; inversion Hi; contradiction]).
  pose proof (from_le_range [h2; h3]) as Hr. case_decide as He.
  { split; [done|]. intros Hi. inversion Hi; contradiction. }
  case_decide as Hl.
  { split; [done|]. intros Hi. inversion Hi; subst; [contradiction|].
    rewrite length_app in Hl. simpl length in *. lia. }
  simpl in Hlen. rewrite IH by (rewrite length_drop; lia). split.
  - intros Hi. rewrite <-(take_drop (Z.to_nat (from_le [h2; h3])) rest).
    apply inert_owner; [done| |done]. rewrite length_take. lia.
  - intros Hi. inversion Hi as [|? ? ? ? value rest' _ Hv Hrest]; subst; [contradiction|].
    rewrite <-Hv, Nat2Z.id, drop_app_length. done.
Qed.

Lemma extension_walk_more fuel fuel' rest answer :
  extension_walk fuel rest = Some answer -> (fuel <= fuel')%nat -> extension_walk fuel' rest = Some answer.
Proof.
  revert fuel' rest. induction fuel as [|fuel IH]; intros fuel' rest; cbn [extension_walk].
  - case_decide; [|done]. subst. intros [= <-] _. by destruct fuel'.
  - intros Hw Hle. destruct fuel' as [|fuel']; [lia|]. cbn [extension_walk].
    repeat (case_match; try done). apply IH; [done|lia].
Qed.

(** C36. The walk over a token account's extensions terminates on any bytes: the
    length of the list is fuel enough, more fuel changes nothing, and the answer
    is that the account carries nothing unknown exactly when its extensions are
    immutable-owner entries and padding. *)
Theorem extension_walk_ends rest :
  exists answer, (forall fuel, (length rest <= fuel)%nat -> extension_walk fuel rest = Some answer) /\
    (answer = None <-> inert rest).
Proof.
  destruct (extension_walk_total (length rest) rest) as [answer Ha]; [done|]. exists answer. split.
  - intros fuel Hf. by apply (extension_walk_more (length rest)).
  - rewrite <-(extension_walk_inert (length rest) rest) by done. rewrite Ha. naive_solver.
Qed.

(** What a payout account must be for its refund or settlement to be paid. *)
Record payable (data : list byte) (mint owner : Pubkey) : Prop := {
  pay_length : (TOKEN_ACCOUNT_LEN <= length data)%nat;
  pay_mint : key_of_bytes (take 32 data) = mint;
  pay_owner : key_of_bytes (take 32 (drop 32 data)) = owner;
  pay_state : byte_to_Z <$> data !! 108%nat = Some TOKEN_ACCOUNT_INITIALIZED;
  pay_extensions : length data = TOKEN_ACCOUNT_LEN \/
    exists kind rest, drop TOKEN_ACCOUNT_LEN data = kind :: rest /\
      byte_to_Z kind = TOKEN_ACCOUNT_TYPE /\ inert rest;
}.

Lemma unsupported_none data :
  (TOKEN_ACCOUNT_LEN <= length data)%nat ->
  unsupported_account_extension data = None <->
  length data = TOKEN_ACCOUNT_LEN \/
  exists kind rest, drop TOKEN_ACCOUNT_LEN data = kind :: rest /\
    byte_to_Z kind = TOKEN_ACCOUNT_TYPE /\ inert rest.
Proof.
  intros Hlen. unfold unsupported_account_extension. case_decide as Hl; [naive_solver|].
  assert (Hd : length (drop TOKEN_ACCOUNT_LEN data) <> 0%nat) by (rewrite length_drop; lia).
  destruct (drop TOKEN_ACCOUNT_LEN data) as [|kind rest]; [done|].
  case_decide as Hk; [naive_solver|].
  destruct (extension_walk_total (length rest) rest) as [r Hr]; [done|].
  pose proof (extension_walk_inert (length rest) rest ltac:(done)) as Hi. rewrite Hr in *. simpl. split.
  - intros ->. right. exists kind, rest. split_and!; [done|done|]. by apply Hi.
  - intros [?|(k & r' & Heq & _ & Hin)]; [done|]. injection Heq as <- <-. apply Hi in Hin. congruence.
Qed.

Lemma state_byte data :
  (TOKEN_ACCOUNT_LEN <= length data)%nat ->
  byte_to_Z <$> data !! 108%nat = Some (default 0 (byte_to_Z <$> data !! 108%nat)).
Proof.
  intros Hl. destruct (lookup_lt_is_Some_2 data 108) as [b ->]; [|done].
  unfold TOKEN_ACCOUNT_LEN in Hl. lia.
Qed.

Lemma unpayable_none terms account :
  unpayable_reason terms account = None <->
  exists a, account = Some a /\ oa_program a = st_token_program terms /\
    payable (oa_data a) (st_mint terms) (st_payer terms).
Proof.
  destruct account as [a|]; simpl; [|naive_solver].
  case_decide as Hp; [split; [done|intros (? & [= <-] & ? & _); done]|].
  unfold decode_token_account. case_decide as Hl.
  { split; [done|]. intros (? & [= <-] & _ & [? _ _ _ _]). lia. }
  simpl. pose proof (state_byte (oa_data a) ltac:(lia)) as Hst.
  pose proof (unsupported_none (oa_data a) ltac:(lia)) as Hu.
  set (state := default 0 _) in *. case_decide as Hf.
  { split; [done|]. intros (? & [= <-] & _ & [_ _ _ Hs _]). rewrite Hs in Hst. by injection Hst as <-. }
  case_decide as Hi.
  { split; [done|]. intros (? & [= <-] & _ & [_ _ _ Hs _]). rewrite Hs in Hst. by injection Hst as <-. }
  case_decide as Hm.
  { split; [done|]. intros (? & [= <-] & _ & [_ Hm1 Ho1 _ _]). by destruct Hm. }
  apply Decidable.not_or in Hm as [Hm Ho]. apply dec_stable in Hm, Ho. split.
  - intros Hn. exists a. split_and!; [done|done|]. split; [lia|done|done|congruence|].
    apply Hu. by destruct (unsupported_account_extension (oa_data a)).
  - intros (? & [= <-] & _ & [_ _ _ _ He]). by rewrite (proj2 Hu He).
Qed.

(** C26. A sealed channel's distribute waits only for a refund that is due and an
    account that cannot take it, and never past the grace period after the seal:
    it is cleared exactly when there is nothing to refund, the payer's account
    can be paid, or the deadline has passed - and only then is a refund
    forfeited. *)
Theorem refund_decision terms account deadline now :
  let decision := payer_refund terms account deadline now in
  let usable := exists a, account = Some a /\ oa_program a = st_token_program terms /\
    payable (oa_data a) (st_mint terms) (st_payer terms) in
  (clearance decision = Some {| cleared_channel := st_channel terms |} <->
     refund_due terms <= 0 \/ usable \/ deadline_until deadline <= now) /\
  ((exists c refund ata reason, decision = Forfeit c refund ata reason) <->
     0 < refund_due terms /\ ~ usable /\ deadline_until deadline <= now) /\
  (forall refund ata reason until, decision = Deferred refund ata reason until ->
     refund = refund_due terms /\ 0 < refund /\ ata = payer_token_account terms /\
     until = deadline_until deadline /\ now < until).
Proof.
  cbn zeta. rewrite <-unpayable_none. unfold payer_refund.
  destruct (decide (0 < refund_due terms)) as [Hd|Hd].
  2:{ split_and!; [naive_solver lia|naive_solver lia|naive_solver]. }
  destruct (unpayable_reason terms account) as [reason|].
  2:{ split_and!; [naive_solver|naive_solver|naive_solver]. }
  case_decide as Hn; split_and!.
  - split; [auto|done].
  - split; [intros _; split_and!; [done|done|done]|eauto].
  - done.
  - split; [done|]. intros [?|[?|?]]; [lia|done|lia].
  - split; [naive_solver|]. intros (_ & _ & ?). lia.
  - intros ? ? ? ? [= <- <- <- <-]. split_and!; [done|done|done|done|lia].
Qed.

(** The check of a payout destination accepts the same accounts. *)
Theorem settlement_account_iff program data owner mint token_program :
  unusable_settlement_account program data owner mint token_program = None <->
  program = token_program /\ payable data mint owner.
Proof.
  set (terms := {| st_channel := ""; st_payer := owner; st_mint := mint; st_token_program := token_program;
    st_deposit := 0; st_settled := 0; st_payer_withdrawn_at := 0 |}).
  assert (Heq : unusable_settlement_account program data owner mint token_program = None <->
    unpayable_reason terms (Some {| oa_program := program; oa_data := data |}) = None).
  { unfold unusable_settlement_account, unpayable_reason. simpl.
    case_decide; [done|]. destruct (decode_token_account data) as [d|]; [|done].
    repeat case_decide; destruct (unsupported_extension d); try tauto; try done; split; try done; tauto. }
  rewrite Heq, unpayable_none. simpl. naive_solver.
Qed.
End refund.
