(* ===== verification/X402Upto.v ===== *)
(** The x402 [upto] scheme
    (src/rust/crates/kit/src/x402/protocol/schemes/upto/types.rs, verify.rs,
    x402/error.rs, x402/server/upto.rs): the payload a client authorizes a maximum
    with, the checks on the [open] transaction the sponsor co-signs, the binding of
    the opened channel, and the ceiling of its settlement. *)
From stdpp Require Import base numbers option list gmap strings pretty sets.
From S2P Require Import Prelude Bytes Units Voucher Tx Build Policy ChannelTx Signing Deployments ChannelProgram X402Batch X402BatchTx PayerRefund.
Open Scope Z_scope.

(** * Errors (x402/error.rs) *)

Inductive X402Error :=
| XRpc (m : string)
| XTransactionNotFound
| XTransactionFailed (m : string)
| XNoTransferInstruction
| XAmountMismatch (expected actual : string)
| XRecipientMismatch (expected actual : string)
| XMintMismatch (expected actual : string)
| XAtaMismatch
| XWrongNetwork (expected received : string)
| XSignatureConsumed
| XSettlementPending (m : string)
| XSimulationFailed (m : string)
| XMissingTransaction
| XMissingSignature
| XInvalidPayloadType (m : string)
| XHttp (m : string)
| XInvalidPaymentRequired (m : string)
| XMissingPaymentHeader
| XPaymentIdentifierRequired (m : string)
| XAcceptedMismatch
| XOther (m : string).

(** [From<core::Error>]. *)
Definition x402_of_core (e : Error) : X402Error :=
  match e with SerializationError m | Other m => XOther m end.

Definition http_status (e : X402Error) : Z :=
  match e with XPaymentIdentifierRequired _ => 400 | _ => 402 end.

(** * Wire types *)

Record UptoExtra := {
  ux_token_program : option string;
  ux_fee_payer : string;
  ux_receiver_authorizer : string;
  ux_transaction_versions : option (list TxVersion);
  ux_withdraw_delay : Z;
  ux_recent_blockhash : option string;
  ux_last_valid_block_height : option string;
  ux_recent_slot : option Z;
  ux_valid_after : option Z;
  ux_memo : option string;
}.

Record UptoRequirements := {
  ur_scheme : string;
  ur_network : string;
  ur_amount : string;
  ur_asset : string;
  ur_pay_to : string;
  ur_max_timeout_seconds : Z;
  ur_extra : UptoExtra;
}.

(** [nonce] and [open_slot] are the numbers of their newtypes. *)
Record UptoPayload := {
  up_from : string;
  up_max_amount : string;
  up_expires_at : Z;
  up_valid_after : Z;
  up_nonce : Z;
  up_channel_id : string;
  up_deposit : string;
  up_authorized_signer : string;
  up_open_slot : Z;
  up_open_transaction : option string;
}.

Definition parse_or (value what : string) : result Z X402Error :=
  ok_or (parse_u64 value) (XOther ("invalid upto " +:+ what +:+ ": " +:+ value)).
Definition requirements_max_amount (r : UptoRequirements) : result Z X402Error := parse_or (ur_amount r) "amount".
Definition payload_max_amount (p : UptoPayload) : result Z X402Error := parse_or (up_max_amount p) "maxAmount".
Definition payload_deposit (p : UptoPayload) : result Z X402Error := parse_or (up_deposit p) "deposit".

(** A run of digits, without the sign [u64::from_str] would take. *)
Definition decimal_u64 (s : string) : option Z :=
  let digits := String.list_ascii_of_string s in
  if bool_decide (digits = []) || negb (all_digits digits) then None else parse_u64 s.

(** [serde_json::Value] as far as the parser looks into it. *)
Class JsonScalar (Value : Type) := {
  as_str : Value -> option string;
  as_u64 : Value -> option Z;
  value_text : Value -> string;
}.

Record RawUptoPayload {Value : Type} := {
  rw_from : string;
  rw_max_amount : string;
  rw_expires_at : Z;
  rw_valid_after : Z;
  rw_nonce : Value;
  rw_channel_id : string;
  rw_deposit : string;
  rw_authorized_signer : string;
  rw_open_slot : Value;
  rw_open_transaction : option string;
  rw_voucher_signature : option Value;
  rw_settle_type : option Value;
}.
Arguments RawUptoPayload : clear implicits.

Definition ERR_UNEXPECTED_VOUCHER : string := "invalid_upto_svm_payload_unexpected_voucher".
Definition ERR_PAYLOAD_TYPE : string := "invalid_upto_svm_payload_type".

Definition slot_from_value `{JsonScalar Value} (value : Value) : option Z :=
  match as_str value with Some s => decimal_u64 s | None => as_u64 value end.

Definition payload_of_raw `{JsonScalar Value} (raw : RawUptoPayload Value) : result UptoPayload string :=
  if decide (is_Some (rw_voucher_signature raw))
  then Err (ERR_UNEXPECTED_VOUCHER +:+ ": voucherSignature is claim-only and server-owned; a client payload must not carry it") else
  if decide (is_Some (rw_settle_type raw))
  then Err (ERR_PAYLOAD_TYPE +:+ ": type is set per settle by the resource server; a client payload must not carry it") else
  let? nonce := ok_or (as_str (rw_nonce raw) ≫= decimal_u64)
    ("invalid payload: nonce " +:+ value_text (rw_nonce raw) +:+ " is not a decimal u64") in
  let? open_slot := ok_or (slot_from_value (rw_open_slot raw))
    ("invalid payload: openSlot " +:+ value_text (rw_open_slot raw) +:+ " is not a u64") in
  Ok {| up_from := rw_from raw; up_max_amount := rw_max_amount raw; up_expires_at := rw_expires_at raw;
        up_valid_after := rw_valid_after raw; up_nonce := nonce; up_channel_id := rw_channel_id raw;
        up_deposit := rw_deposit raw; up_authorized_signer := rw_authorized_signer raw;
        up_open_slot := open_slot; up_open_transaction := rw_open_transaction raw |}.

(** A slot or a salt as this server prints it reads back. *)
Lemma decimal_roundtrip n : in_u64 n -> decimal_u64 (pretty n) = Some n.
Proof.
  intros Hn. unfold decimal_u64, parse_u64.
  assert (Hd : String.list_ascii_of_string (pretty n) = print (Z.to_N n)) by (destruct n; done || zlia).
  rewrite Hd. destruct (print_digits (Z.to_N n)) as (Hdig & Hne & Hv).
  rewrite bool_decide_false, Hdig by done. simpl. rewrite parse_u128_digits, Hv by done.
  destruct (N.leb_spec (Z.to_N n) u128_max) as [_|Hl].
  2:{ unfold u128_max in Hl. zlia. }
  rewrite decide_True by zlia. f_equal. zlia.
Qed.

(** * The payload (verify.rs) *)

Definition ERR_SETTLEMENT_EXCEEDS_AMOUNT : string :=
  "invalid_upto_svm_payload_settlement_exceeds_amount".
Definition ERR_CHANNEL_LIFETIME_EXCEEDED : string :=
  "invalid_upto_svm_payload_channel_lifetime_exceeded".
Definition ERR_EXPIRES_AT_MISMATCH : string := "invalid_upto_svm_payload_expires_at_mismatch".
Definition EXPIRES_AT_CLOCK_SKEW_SECONDS : Z := 60.

(** [MaxChannelLifetime::from_secs]; the lifetime is its seconds. *)
Definition max_channel_lifetime (seconds : Z) : option Z :=
  if decide (seconds = 0) then None else Some seconds.

(** [i64::try_from(s).unwrap_or(i64::MAX)], [i64::saturating_sub]. *)
Definition as_secs (s : Z) : Z := if decide (s <= i64_max) then s else i64_max.
Definition i64_saturating_sub (a b : Z) : Z := Z.max i64_min (Z.min (a - b) i64_max).

Definition verify_upto_lifetime (payload : UptoPayload) (requirements : UptoRequirements)
    (lifetime now : Z) : result unit X402Error :=
  if decide (lifetime < ur_max_timeout_seconds requirements)
  then Err (XOther (ERR_CHANNEL_LIFETIME_EXCEEDED +:+ ": maxTimeoutSeconds "
    +:+ pretty (ur_max_timeout_seconds requirements) +:+ " exceeds maxChannelLifetimeSecs "
    +:+ pretty lifetime)) else
  let remaining := i64_saturating_sub (up_expires_at payload) now in
  if decide (i64_saturating_add (as_secs lifetime) EXPIRES_AT_CLOCK_SKEW_SECONDS < remaining)
  then Err (XOther (ERR_CHANNEL_LIFETIME_EXCEEDED +:+ ": expiresAt is " +:+ pretty remaining
    +:+ "s away, over maxChannelLifetimeSecs " +:+ pretty lifetime)) else
  let window_end := i64_saturating_add
    (i64_saturating_add now (as_secs (ur_max_timeout_seconds requirements)))
    EXPIRES_AT_CLOCK_SKEW_SECONDS in
  if decide (window_end < up_expires_at payload)
  then Err (XOther (ERR_EXPIRES_AT_MISMATCH +:+ ": expiresAt " +:+ pretty (up_expires_at payload)
    +:+ " is later than now + maxTimeoutSeconds (" +:+ pretty (ur_max_timeout_seconds requirements)
    +:+ ") plus " +:+ pretty EXPIRES_AT_CLOCK_SKEW_SECONDS +:+ "s skew"))
  else Ok tt.

Definition verify_upto_payload (payload : UptoPayload) (requirements : UptoRequirements)
    (receiver_authorizer : string) (lifetime now : Z) : result unit X402Error :=
  let? max := requirements_max_amount requirements in
  let? signed_max := payload_max_amount payload in
  if decide (signed_max <> max) then Err (XAmountMismatch (pretty max) (pretty signed_max)) else
  let? deposit := payload_deposit payload in
  if decide (deposit <> max)
  then Err (XOther ("channel deposit " +:+ pretty deposit +:+ " != authorized maximum " +:+ pretty max
    +:+ ": the deposit is the enforced ceiling and `topUp` can raise it, so it must equal the authorized amount exactly, not merely cover it")) else
  if decide (now < up_valid_after payload)
  then Err (XOther ("authorization not yet active (validAfter " +:+ pretty (up_valid_after payload)
    +:+ " > now " +:+ pretty now +:+ ")")) else
  if decide (up_expires_at payload = 0 \/ up_expires_at payload <= now)
  then Err (XOther ("authorization expired (expiresAt " +:+ pretty (up_expires_at payload)
    +:+ " < now " +:+ pretty now +:+ ")")) else
  let? _ := verify_upto_lifetime payload requirements lifetime now in
  if decide (up_authorized_signer payload <> receiver_authorizer)
  then Err (XOther "voucher authorized_signer must be the advertised receiver authorizer")
  else Ok tt.

Definition assert_settlement_within_ceiling (actual max : Z) : result unit X402Error :=
  if decide (max < actual) then Err (XOther ERR_SETTLEMENT_EXCEEDS_AMOUNT) else Ok tt.

Lemma parse_or_ok value what n : parse_or value what = Ok n <-> parse_u64 value = Some n.
Proof. unfold parse_or. destruct (parse_u64 value); simpl; naive_solver. Qed.

Lemma verify_upto_lifetime_ok payload requirements lifetime now :
  in_i64 (up_expires_at payload) -> 0 <= now <= i64_max -> in_u64 lifetime ->
  in_u64 (ur_max_timeout_seconds requirements) -> now < up_expires_at payload ->
  verify_upto_lifetime payload requirements lifetime now = Ok tt <->
  ur_max_timeout_seconds requirements <= lifetime /\
  up_expires_at payload <= now + ur_max_timeout_seconds requirements + EXPIRES_AT_CLOCK_SKEW_SECONDS.
Proof.
  intros He Hn Hl Ht Hlt. unfold verify_upto_lifetime.
  case_decide as H1; [split; [done|lia]|]. unfold as_secs, i64_saturating_sub, i64_saturating_add in *.
  assert (Hcap : forall s, (if decide (s <= i64_max) then s else i64_max) = Z.min s i64_max)
    by (intros s; case_decide; lia).
  rewrite !Hcap. unfold EXPIRES_AT_CLOCK_SKEW_SECONDS in *.
  case_decide as H2.
  { split; [done|]. intros [Ht1 Hw]. exfalso. zlia. }
  case_decide as H3.
  { split; [done|]. intros [Ht1 Hw]. exfalso. zlia. }
  split; [zlia|done].
Qed.

(** An [upto] payload is accepted exactly when the three amounts - the
    route's, the signed maximum and the channel's deposit - are one number, the
    authorization is active and not expired, its deadline lies within the
    challenge's window, the window within the sponsor's channel lifetime, and
    the voucher signer is the advertised one. No saturation widens the window. *)
Theorem upto_payload_iff payload requirements authorizer lifetime now :
  in_i64 (up_expires_at payload) -> 0 <= now <= i64_max -> in_u64 lifetime ->
  in_u64 (ur_max_timeout_seconds requirements) ->
  verify_upto_payload payload requirements authorizer lifetime now = Ok tt <->
  (exists max, parse_u64 (ur_amount requirements) = Some max /\
     parse_u64 (up_max_amount payload) = Some max /\ parse_u64 (up_deposit payload) = Some max) /\
  up_valid_after payload <= now /\ up_expires_at payload <> 0 /\ now < up_expires_at payload /\
  ur_max_timeout_seconds requirements <= lifetime /\
  up_expires_at payload <= now + ur_max_timeout_seconds requirements + EXPIRES_AT_CLOCK_SKEW_SECONDS /\
  up_authorized_signer payload = authorizer.
Proof.
  intros He Hn Hl Ht. unfold verify_upto_payload, requirements_max_amount, payload_max_amount, payload_deposit.
  split.
  - intros (max & Hm%parse_or_ok & Hrest)%rbind_ok. apply rbind_ok in Hrest as (smax & Hs%parse_or_ok & Hrest).
    case_decide; [done|]. apply rbind_ok in Hrest as (dep & Hd%parse_or_ok & Hrest).
    repeat (case_decide; [done|]). apply rbind_ok in Hrest as ([] & Hlife & Hrest).
    case_decide; [done|]. apply verify_upto_lifetime_ok in Hlife as [? ?]; [|done|done|done|done|lia].
    subst. split_and!; [eauto|lia|lia|lia|done|done|done].
  - intros ((max & Hm & Hs & Hd) & Hva & Hz & Hlt & Hlife & Hwin & Hauth).
    rewrite (proj2 (parse_or_ok _ _ _) Hm). cbn [rbind]. rewrite (proj2 (parse_or_ok _ _ _) Hs). cbn [rbind].
    rewrite decide_False by auto. rewrite (proj2 (parse_or_ok _ _ _) Hd). cbn [rbind].
    rewrite !decide_False by (auto || lia).
    rewrite (proj2 (verify_upto_lifetime_ok _ _ _ _ He Hn Hl Ht Hlt)) by done. done.
Qed.

(** * The open transaction (server/upto.rs) *)

Definition OPEN_INSTRUCTION_DISCRIMINATOR : Z := 1.
Definition OPEN_ACCOUNT_COUNT : nat := 14.
Definition OPEN_WRITABLE_POSITIONS : list nat := [0; 1; 5; 6; 7]%nat.
Definition OPEN_SIGNER_POSITIONS : list nat := [0; 1]%nat.
Definition CHANNEL_STATUS_OPEN : Z := 0.
Definition MIN_SETTLEMENT_VOUCHER_TTL_SECONDS : Z := 60.
Definition ERR_CHANNEL_ALREADY_OPEN : string := "invalid_upto_svm_channel_already_open".

Definition x_other (text : string) : X402Error := XOther text.

(** ** Privileges *)

Definition header_signer (b : MessageBody) (i : nat) : bool :=
  bool_decide (i < num_required_signatures b)%nat.
Definition header_writable (b : MessageBody) (keys : list Pubkey) (i : nat) : bool :=
  if decide (i < num_required_signatures b)%nat
  then bool_decide (i < num_required_signatures b - num_readonly_signed_accounts b)%nat
  else bool_decide (i < length keys - num_readonly_unsigned_accounts b)%nat.

(** [ix.accounts\[pos\]]: the caller checked the count. *)
Definition index_at (ix : CompiledInstruction) (pos : nat) : nat := default 0%nat (accounts ix !! pos).

Definition check_open_privileges (b : MessageBody) (keys : list Pubkey) (ix : CompiledInstruction)
    (payer fee_payer : Pubkey) : result unit X402Error :=
  let signed := num_required_signatures b in
  if decide (length keys < signed \/ signed < num_readonly_signed_accounts b \/
             length keys - signed < num_readonly_unsigned_accounts b)%nat
  then Err (x_other "invalid open transaction header: signer counts exceed the account keys") else
  match head (filter (fun key => key <> payer /\ key <> fee_payer) (take signed keys)) with
  | Some key => Err (x_other ("open requires an unexpected signer " +:+ key
      +:+ ": the required signers must be exactly payload.from and extra.feePayer"))
  | None =>
  match head (filter (fun pos => header_signer b (index_at ix pos) = false) OPEN_SIGNER_POSITIONS) with
  | Some pos => Err (x_other ("open instruction account #" +:+ pretty pos +:+ " must be a signer"))
  | None =>
  match head (filter (fun pos => header_writable b keys (index_at ix pos) = false) OPEN_WRITABLE_POSITIONS) with
  | Some pos => Err (x_other ("open instruction account #" +:+ pretty pos +:+ " must be writable"))
  | None =>
  match head (filter (fun i => header_writable b keys i = true /\ i ∉ (index_at ix <$> OPEN_WRITABLE_POSITIONS))
          (seq 0 (length keys))) with
  | Some i => Err (x_other ("open instruction leaves " +:+ default "" (keys !! i)
      +:+ " writable outside the open's writable roles"))
  | None => Ok tt
  end end end end.

Lemma head_filter_none {A} (P : A -> Prop) `{forall x, Decision (P x)} (l : list A) :
  head (filter P l) = None <-> Forall (fun x => ~ P x) l.
Proof.
  induction l as [|x l IH]; [by split|]. rewrite filter_cons, Forall_cons.
  case_decide; simpl; [split; [done|tauto]|]. rewrite IH. tauto.
Qed.

Lemma refuse_first_ok {A} (P : A -> Prop) `{forall x, Decision (P x)} (l : list A)
    (err : A -> X402Error) (k : result unit X402Error) :
  match head (filter P l) with Some x => Err (err x) | None => k end = Ok tt <->
  Forall (fun x => ~ P x) l /\ k = Ok tt.
Proof.
  pose proof (head_filter_none P l) as Hf. destruct (head (filter P l)).
  - split; [done|]. intros [Hall _]. by apply Hf in Hall.
  - split; [intros Hk; split; [by apply Hf|done]|by intros [_ ?]].
Qed.

(** What the check establishes. *)
Record open_privileges (b : MessageBody) (keys : list Pubkey) (ix : CompiledInstruction)
    (payer fee_payer : Pubkey) : Prop := {
  op_signers_in : (num_required_signatures b <= length keys)%nat;
  op_readonly_signed : (num_readonly_signed_accounts b <= num_required_signatures b)%nat;
  op_readonly_unsigned : (num_readonly_unsigned_accounts b <= length keys - num_required_signatures b)%nat;
  op_signers : Forall (fun key => key = payer \/ key = fee_payer) (take (num_required_signatures b) keys);
  op_signer_roles : Forall (fun pos => header_signer b (index_at ix pos) = true) OPEN_SIGNER_POSITIONS;
  op_writable_roles :
    Forall (fun i => header_writable b keys i = true) (index_at ix <$> OPEN_WRITABLE_POSITIONS);
  op_writable : forall i, (i < length keys)%nat -> header_writable b keys i = true ->
    i ∈ (index_at ix <$> OPEN_WRITABLE_POSITIONS);
}.

Lemma check_open_privileges_ok b keys ix payer fee_payer :
  check_open_privileges b keys ix payer fee_payer = Ok tt <-> open_privileges b keys ix payer fee_payer.
Proof.
  unfold check_open_privileges. case_decide as Hh; [split; [done|intros []; lia]|].
  rewrite !refuse_first_ok.
  assert (Hsigner : forall l, Forall (fun key => ~ (key <> payer /\ key <> fee_payer)) l <->
    Forall (fun key => key = payer \/ key = fee_payer) l).
  { intros l. apply Forall_proper; [|done]. intros key. destruct (decide (key = payer)), (decide (key = fee_payer)); tauto. }
  assert (Hbool : forall (f : nat -> bool) l, Forall (fun x => ~ f x = false) l <-> Forall (fun x => f x = true) l).
  { intros f l. apply Forall_proper; [|done]. intros x. destruct (f x); naive_solver. }
  rewrite Hsigner, !(Hbool (fun pos => header_signer b (index_at ix pos))),
    (Hbool (fun pos => header_writable b keys (index_at ix pos))).
  assert (Hrest : Forall (fun i => ~ (header_writable b keys i = true /\
      i ∉ (index_at ix <$> OPEN_WRITABLE_POSITIONS))) (seq 0 (length keys)) <->
    forall i, (i < length keys)%nat -> header_writable b keys i = true ->
      i ∈ (index_at ix <$> OPEN_WRITABLE_POSITIONS)).
  { rewrite Forall_forall. setoid_rewrite elem_of_seq. split.
    - intros Hall i Hi Hw. destruct (decide (i ∈ (index_at ix <$> OPEN_WRITABLE_POSITIONS))); [done|].
      exfalso. apply (Hall i); [lia|done].
    - intros Hall i Hi [Hw Hn]. apply Hn, Hall; [lia|done]. }
  rewrite Hrest. split.
  - intros (Hs & Hsg & Hw & Hr & _). split; try done; try lia. by apply Forall_fmap.
  - intros [_ _ _ Hs Hsg Hw%Forall_fmap Hr]. split_and!; done.
Qed.

(** The open's privileges follow the scheme's table exactly: the signers are
    the payer and the sponsor and no one else, and the accounts the message
    makes writable are the open's five writable roles and no other. *)
Theorem open_privileges_iff b keys ix payer fee_payer :
  check_open_privileges b keys ix payer fee_payer = Ok tt <-> open_privileges b keys ix payer fee_payer.
Proof. apply check_open_privileges_ok. Qed.

(** ** The validation *)

(** What [validate_open_instruction] is called with, [None] leaving a check out. *)
Record ExpectedUptoOpen := {
  eo_program_id : Pubkey;
  eo_rent_payer : Pubkey;
  eo_authorized_signer : Pubkey;
  eo_payer : Pubkey;
  eo_payee : Pubkey;
  eo_mint : Pubkey;
  eo_token_program : Pubkey;
  eo_channel_id : Pubkey;
  eo_max_amount : option Z;
  eo_grace_period : option Z;
  eo_nonce : option Z;
  eo_open_slot : option Z;
  eo_recent_slot : option Z;
  eo_memo : option string;
  eo_recipients : option (list Distribution);
}.

(** A check that an expectation of [None] leaves out. *)
Definition expect_value (expected : option Z) (got : Z) (err : Z -> string) : result unit X402Error :=
  match expected with
  | Some want => if decide (want <> got) then Err (x_other (err want)) else Ok tt
  | None => Ok tt
  end.

Fixpoint upto_expect_accounts (ix : CompiledInstruction) (keys : list Pubkey) (position : nat)
    (wants : list (Pubkey * string)) : result unit X402Error :=
  match wants with
  | [] => Ok tt
  | (want, label) :: wants =>
      let other := account_at ix keys position in
      if decide (other = Some want) then upto_expect_accounts ix keys (S position) wants
      else Err (x_other ("open transaction " +:+ label +:+ " mismatch: expected " +:+ want
        +:+ ", got " +:+ default "<none>" other))
  end.

Section server.
Context {Key : Type} `{Crypto Key, Addresses} `{V1Format} `{Codec}.
Context (message_serialize : VersionedMessage -> list byte).
Context (signature_verify : list byte -> Pubkey -> list byte -> bool).

Definition find_canonical_open_instruction (tx : VersionedTransaction) (keys : list Pubkey)
    (program_id : Pubkey) (expected_memo : option string) : result CompiledInstruction X402Error :=
  rmap_err x402_of_core
    (scan_channel_tx_layout tx keys program_id OPEN_INSTRUCTION_DISCRIMINATOR "open"
      (match expected_memo with Some memo => Required (Some memo) | None => Optional end)).

Definition open_positions (e : ExpectedUptoOpen) : list (Pubkey * string) := [
  (eo_payer e, "payer"); (eo_rent_payer e, "rent_payer"); (eo_payee e, "payee"); (eo_mint e, "mint");
  (eo_authorized_signer e, "authorized_signer"); (eo_channel_id e, "channel");
  (find_associated_token_address (eo_payer e) (eo_mint e) (eo_token_program e), "payer_token_account");
  (find_associated_token_address (eo_channel_id e) (eo_mint e) (eo_token_program e), "channel_token_account");
  (eo_token_program e, "token_program"); (SYSTEM_PROGRAM, "system_program"); (RENT_SYSVAR_ID, "rent_sysvar");
  (ASSOCIATED_TOKEN_PROGRAM, "associated_token_program");
  (find_event_authority_pda (eo_program_id e), "event_authority"); (eo_program_id e, "self_program")].

Definition upto_open_args (ix : CompiledInstruction) : result OpenArgs X402Error :=
  match data ix with
  | [] => Err (x_other "open instruction data is empty")
  | _ :: args => rmap_err (fun e => x_other ("open instruction args are malformed: " +:+ e))
      (open_args_try_from_slice args)
  end.

Definition check_upto_args (args : OpenArgs) (e : ExpectedUptoOpen) : result unit X402Error :=
  let? _ := match eo_recipients e with
            | Some expected =>
                if decide (oa_recipients args <> expected)
                then Err (x_other "open distribution does not match the expected recipient split") else Ok tt
            | None => Ok tt
            end in
  let? _ := expect_value (eo_nonce e) (oa_salt args) (fun want =>
    "open salt " +:+ pretty (oa_salt args) +:+ " does not match payload nonce " +:+ pretty want) in
  let? _ := expect_value (eo_open_slot e) (oa_open_slot args) (fun want =>
    "open slot " +:+ pretty (oa_open_slot args) +:+ " does not match payload openSlot " +:+ pretty want) in
  let? _ := expect_value (eo_grace_period e) (oa_grace_period args) (fun want =>
    "open withdraw delay " +:+ pretty (oa_grace_period args)
    +:+ " must equal the advertised withdrawDelay " +:+ pretty want) in
  let derived := find_channel_pda (eo_payer e) (eo_payee e) (eo_mint e) (eo_authorized_signer e)
    (oa_salt args) (oa_open_slot args) (eo_program_id e) in
  if decide (derived <> eo_channel_id e)
  then Err (x_other ("open channel PDA " +:+ eo_channel_id e +:+ " != derived " +:+ derived)) else
  let? _ := expect_value (eo_max_amount e) (oa_deposit args) (fun want =>
    "open deposit " +:+ pretty (oa_deposit args) +:+ " must equal the authorized maximum " +:+ pretty want) in
  match eo_recent_slot e with
  | Some recent_slot =>
      if decide (recent_slot < oa_open_slot args)
      then Err (x_other ("open openSlot " +:+ pretty (oa_open_slot args)
        +:+ " is ahead of the challenged recentSlot " +:+ pretty recent_slot)) else
      if decide (OPEN_SLOT_WINDOW < recent_slot - oa_open_slot args)
      then Err (x_other ("open openSlot " +:+ pretty (oa_open_slot args) +:+ " is outside the "
        +:+ pretty OPEN_SLOT_WINDOW +:+ "-slot freshness window of the challenged recentSlot "
        +:+ pretty recent_slot))
      else Ok tt
  | None => Ok tt
  end.

Definition validate_open_instruction (tx : VersionedTransaction) (accepted_versions : list TxVersion)
    (e : ExpectedUptoOpen) : result unit X402Error :=
  let? _ := rmap_err x402_of_core (check_envelope tx accepted_versions) in
  let? _ := rmap_err x402_of_core (check_v1_budget_caps_with (message tx) OPEN_MAX_COMPUTE_UNIT_LIMIT
    MAX_COMPUTE_UNIT_PRICE_MICROLAMPORTS Present) in
  let? _ := rmap_err x402_of_core (reject_v1_heap_request (message tx)) in
  let keys := static_account_keys (body (message tx)) in
  let? ix := find_canonical_open_instruction tx keys (eo_program_id e) (eo_memo e) in
  if decide (length (accounts ix) <> OPEN_ACCOUNT_COUNT)
  then Err (x_other ("open instruction has " +:+ pretty (length (accounts ix))
    +:+ " accounts; it must have exactly " +:+ pretty OPEN_ACCOUNT_COUNT
    +:+ " and no remaining accounts")) else
  let? _ := upto_expect_accounts ix keys 0 (open_positions e) in
  let? _ := check_open_privileges (body (message tx)) keys ix (eo_payer e) (eo_rent_payer e) in
  let? args := upto_open_args ix in
  check_upto_args args e.

(** [signature.verify] by the payer's slot among the signers. *)
Definition verify_payer_signature (tx : VersionedTransaction) (payer : Pubkey) : result unit X402Error :=
  let b := body (message tx) in
  let? index := ok_or
    (position (fun key => bool_decide (key = payer)) (take (num_required_signatures b) (static_account_keys b)))
    (x_other "invalid payload: payload.from does not sign the open") in
  let valid := match signatures tx !! index with
               | Some signature => signature_verify signature payer (message_serialize (message tx))
               | None => false
               end in
  if valid then Ok tt
  else Err (x_other "invalid payload: the payload.from signature on the open is missing or invalid").

(** ** Acceptance *)

Lemma upto_expect_accounts_ok ix keys wants i label :
  upto_expect_accounts ix keys i wants = Ok tt <-> expect_accounts ix keys i wants label = Ok tt.
Proof.
  revert i. induction wants as [|[want role] wants IH]; intros i; simpl; [done|].
  unfold expect_account. case_decide; simpl; [apply IH|done].
Qed.

Lemma expect_value_ok expected got err :
  expect_value expected got err = Ok tt <-> forall want, expected = Some want -> got = want.
Proof. unfold expect_value. destruct expected; [case_decide|]; naive_solver. Qed.

(** What the decoded arguments of an accepted open are. *)
Record args_match (args : OpenArgs) (e : ExpectedUptoOpen) : Prop := {
  am_recipients : forall l, eo_recipients e = Some l -> oa_recipients args = l;
  am_salt : forall n, eo_nonce e = Some n -> oa_salt args = n;
  am_slot : forall n, eo_open_slot e = Some n -> oa_open_slot args = n;
  am_grace : forall n, eo_grace_period e = Some n -> oa_grace_period args = n;
  am_channel : eo_channel_id e = find_channel_pda (eo_payer e) (eo_payee e) (eo_mint e)
    (eo_authorized_signer e) (oa_salt args) (oa_open_slot args) (eo_program_id e);
  am_deposit : forall n, eo_max_amount e = Some n -> oa_deposit args = n;
  am_window : forall n, eo_recent_slot e = Some n ->
    oa_open_slot args <= n <= oa_open_slot args + OPEN_SLOT_WINDOW;
}.

Lemma check_upto_args_ok args e : check_upto_args args e = Ok tt <-> args_match args e.
Proof.
  unfold check_upto_args. split.
  - intros ([] & Hr & Hrest)%rbind_ok. apply rbind_ok in Hrest as ([] & Hn & Hrest).
    apply rbind_ok in Hrest as ([] & Hs & Hrest). apply rbind_ok in Hrest as ([] & Hg & Hrest).
    rewrite expect_value_ok in Hn, Hs, Hg. case_decide as Hc; [done|].
    apply rbind_ok in Hrest as ([] & Hm & Hw). rewrite expect_value_ok in Hm.
    split; try done.
    + intros l Hl. rewrite Hl in Hr. by case_decide.
    + intros n Hn'. rewrite Hn' in Hw. repeat (case_decide; [done|]). lia.
  - intros [Hr Hn Hs Hg Hc Hm Hw]. rewrite rbind_ok. exists tt. split.
    { destruct (eo_recipients e); [|done]. rewrite decide_False; [done|]. intros Hne. by apply Hne, Hr. }
    rewrite (proj2 (expect_value_ok _ _ _) Hn), (proj2 (expect_value_ok _ _ _) Hs),
      (proj2 (expect_value_ok _ _ _) Hg). cbn [rbind]. rewrite decide_False by auto.
    rewrite (proj2 (expect_value_ok _ _ _) Hm). cbn [rbind].
    destruct (eo_recent_slot e) as [n|]; [|done]. specialize (Hw n eq_refl).
    by rewrite !decide_False by lia.
Qed.

Lemma verify_payer_signature_ok tx payer :
  verify_payer_signature tx payer = Ok tt -> exists i signature,
    (i < num_required_signatures (body (message tx)))%nat /\
    static_account_keys (body (message tx)) !! i = Some payer /\ signatures tx !! i = Some signature /\
    signature_verify signature payer (message_serialize (message tx)) = true.
Proof.
  unfold verify_payer_signature. intros (i & Hi & Hv)%rbind_ok.
  destruct (Prelude.position _ _) as [j|] eqn:Hp; simplify_eq/=.
  apply position_some in Hp as (key & Hkey & Hk%bool_decide_eq_true). subst key.
  apply lookup_take_Some in Hkey as [Hkey Hlt].
  destruct (signatures tx !! i) as [sig|] eqn:Hsig; [|done].
  destruct (signature_verify _ _ _) eqn:Hs; [|done]. exists i, sig. by split_and!.
Qed.

(** ** What an accepted open is *)

Record upto_open (tx : VersionedTransaction) (e : ExpectedUptoOpen) (ix : CompiledInstruction)
    (args : OpenArgs) : Prop := {
  uo_split : exists fee_payer budget suffix,
    head (static_account_keys (body (message tx))) = Some fee_payer /\
    instructions (body (message tx)) = budget ++ ix :: suffix /\
    Forall (fun ix => names (static_account_keys (body (message tx))) fee_payer ix = false) (budget ++ suffix);
  uo_program : runs (static_account_keys (body (message tx))) (eo_program_id e) ix;
  uo_accounts : account_keys (static_account_keys (body (message tx))) ix = Some <$> (open_positions e).*1;
  uo_data : exists tag, data ix = tag :: open_args_bytes args /\ byte_to_Z tag = OPEN_INSTRUCTION_DISCRIMINATOR;
  uo_wf : open_args_wf args;
  uo_match : args_match args e;
  uo_privileges : open_privileges (body (message tx)) (static_account_keys (body (message tx))) ix
    (eo_payer e) (eo_rent_payer e);
  uo_fee : runtime_fee (message tx) <= MAX_SPONSORED_PRIORITY_FEE_LAMPORTS;
}.

Lemma upto_open_args_ok `{!AddressesLaws} ix args :
  upto_open_args ix = Ok args -> open_args_wf args /\ exists tag, data ix = tag :: open_args_bytes args.
Proof.
  unfold upto_open_args. destruct (data ix) as [|tag rest]; [done|].
  intros [Hwf ->]%rmap_err_ok%open_args_decode_iff. eauto.
Qed.

Lemma upto_expect_table ix keys wants :
  length (accounts ix) = length wants ->
  upto_expect_accounts ix keys 0 wants = Ok tt <-> account_keys keys ix = Some <$> wants.*1.
Proof. intros Hlen. rewrite (upto_expect_accounts_ok _ _ _ _ ""). by apply expect_table_ok. Qed.

Lemma validate_open_ok `{!AddressesLaws} tx accepted e :
  validate_open_instruction tx accepted e = Ok tt ->
  (exists version, check_envelope tx accepted = Ok version) /\ exists ix args, upto_open tx e ix args.
Proof.
  unfold validate_open_instruction. intros (version & Henv%rmap_err_ok & Hrest)%rbind_ok. split; [by exists version|].
  apply rbind_ok in Hrest as (? & _ & Hrest). apply rbind_ok in Hrest as (? & _ & Hrest).
  apply rbind_ok in Hrest as (ix & Hscan%rmap_err_ok & Hrest). case_decide as Hlen; [done|].
  apply rbind_ok in Hrest as ([] & Hacc & Hrest). apply rbind_ok in Hrest as ([] & Hpriv & Hrest).
  apply rbind_ok in Hrest as (args & Hargs & Hmatch). exists ix, args.
  pose proof (scan_layout_ok _ _ _ _ _ _ _ Hscan) as (fee_payer & _ & _ & Hhd & _).
  destruct (layout_sponsor _ _ _ _ _ _ _ _ Hscan Hhd) as (budget & suffix & Hixs & Hn & Hrun & Hd & Hfee).
  apply upto_open_args_ok in Hargs as [Hwf [tag Hdata]]. split; try done.
  - by exists fee_payer, budget, suffix.
  - by apply upto_expect_table in Hacc.
  - exists tag. split; [done|]. rewrite Hdata in Hd. by injection Hd.
  - by apply check_upto_args_ok.
  - by apply check_open_privileges_ok.
Qed.

(** C14. The open the sponsor is asked to co-sign is the challenged one: one call
    of the channel program with the canonical fourteen accounts of this payer,
    payee, mint and channel, its arguments decode whole and are the expected
    deposit, salt, slot, grace period and payout split of the channel's own
    address, no other instruction names the fee payer, the privileges are the
    table's and the priority fee is bounded. *)
Theorem upto_open_exact `{!AddressesLaws} tx accepted e :
  validate_open_instruction tx accepted e = Ok tt -> exists ix args, upto_open tx e ix args.
Proof. intros Hok. by apply validate_open_ok in Hok as [_ ?]. Qed.

(** ** The client's side *)

(** The parameters a client builds its open from, for the expected open. *)
Record params_for (params : OpenChannelParams) (e : ExpectedUptoOpen) : Prop := {
  pf_payer : oc_payer params = eo_payer e;
  pf_rent_payer : oc_rent_payer params = eo_rent_payer e;
  pf_payee : oc_payee params = eo_payee e;
  pf_mint : oc_mint params = eo_mint e;
  pf_signer : oc_authorized_signer params = eo_authorized_signer e;
  pf_token_program : oc_token_program params = eo_token_program e;
  pf_program : oc_program_id params = eo_program_id e;
  pf_channel : eo_channel_id e = ad_channel (derive_channel_addresses params);
  pf_recipients : forall l, eo_recipients e = Some l -> oc_recipients params = l;
  pf_salt : forall n, eo_nonce e = Some n -> oc_salt params = n;
  pf_slot : forall n, eo_open_slot e = Some n -> oc_open_slot params = n;
  pf_grace : forall n, eo_grace_period e = Some n -> oc_grace_period params = n;
  pf_deposit : forall n, eo_max_amount e = Some n -> oc_deposit params = n;
  pf_window : forall n, eo_recent_slot e = Some n ->
    oc_open_slot params <= n <= oc_open_slot params + OPEN_SLOT_WINDOW;
}.

(** The client's builder and the server's check agree: the open instruction
    built from the challenged parameters, compiled anywhere, has the account
    table, the argument bytes and the values the server accepts. *)
Theorem built_open_accepted `{!AddressesLaws} params e keys ci :
  params_for params e -> open_args_wf (open_args_of params) ->
  compiled keys (build_open_instruction params) ci ->
  length (accounts ci) = OPEN_ACCOUNT_COUNT /\
  upto_expect_accounts ci keys 0 (open_positions e) = Ok tt /\
  upto_open_args ci = Ok (open_args_of params) /\ check_upto_args (open_args_of params) e = Ok tt.
Proof.
  intros [Hpa Hrp Hpe Hmi Hsi Htp Hpr Hch Hre Hsa Hsl Hgr Hde Hwi] Hwf [_ Ha Hd].
  assert (Hlen : length (accounts ci) = OPEN_ACCOUNT_COUNT).
  { apply (f_equal length) in Ha. rewrite !length_fmap in Ha. done. }
  split_and!; [done| | |].
  - apply upto_expect_table; [done|]. unfold account_keys. rewrite Ha. unfold open_positions.
    rewrite Hch, <-Hpa, <-Hrp, <-Hpe, <-Hmi, <-Hsi, <-Htp, <-Hpr. done.
  - unfold upto_open_args. rewrite Hd. cbn [build_open_instruction ix_data].
    by rewrite (proj2 (open_args_decode_iff _ (open_args_of params))).
  - apply check_upto_args_ok. split; try done. rewrite Hch. unfold derive_channel_addresses. cbn [ad_channel open_args_of oa_salt oa_open_slot].
    by rewrite Hpa, Hpe, Hmi, Hsi, Hpr.
Qed.
End server.

(** * Concrete opens *)
Module UptoDemo.
Export AddressesDemo.
#[global] Existing Instance CodecDemo.v1_format.

Definition channel : Pubkey := ad_channel (derive_channel_addresses params).

Definition keys : list Pubkey := [
  key "sponsor"; key "payer"; channel;
  find_associated_token_address (key "payer") (key "mint") (key "token program");
  find_associated_token_address channel (key "mint") (key "token program");
  key "mint"; key "signer"; key "token program"; SYSTEM_PROGRAM; RENT_SYSVAR_ID; ASSOCIATED_TOKEN_PROGRAM;
  find_event_authority_pda (key "program"); key "program"; COMPUTE_BUDGET_PROGRAM_ID].

Definition open_call : CompiledInstruction := {|
  program_id_index := 12; accounts := [1; 0; 0; 5; 6; 2; 3; 4; 7; 8; 9; 10; 11; 12]%nat;
  data := ix_data (build_open_instruction params) |}.

Definition budget (ix : Instruction) : CompiledInstruction :=
  {| program_id_index := 13; accounts := []; data := ix_data ix |}.

Definition open_with (ixs : list CompiledInstruction) (readonly : nat) : VersionedTransaction := {|
  signatures := [default_signature; [Byte.x01]];
  message := MessageV0 {|
    num_required_signatures := 2; num_readonly_signed_accounts := 0;
    num_readonly_unsigned_accounts := readonly; static_account_keys := keys;
    instructions := budget (unit_limit_instruction 100000) :: budget (unit_price_instruction 5000) :: ixs;
    recent_blockhash := [] |} [] |}.

Definition open : VersionedTransaction := open_with [open_call] 9.

Definition expected : ExpectedUptoOpen := {|
  eo_program_id := key "program"; eo_rent_payer := key "sponsor"; eo_authorized_signer := key "signer";
  eo_payer := key "payer"; eo_payee := key "sponsor"; eo_mint := key "mint";
  eo_token_program := key "token program"; eo_channel_id := channel; eo_max_amount := Some 500;
  eo_grace_period := Some 900; eo_nonce := Some 7; eo_open_slot := Some 1000; eo_recent_slot := Some 1200;
  eo_memo := None; eo_recipients := Some (sole_recipient (key "receiver")) |}.

Definition check (tx : VersionedTransaction) : result unit X402Error :=
  validate_open_instruction (H2 := BatchTxDemo.codec_of tx) tx [V0] expected.

Definition requirements : UptoRequirements := {|
  ur_scheme := "upto"; ur_network := "solana:demo"; ur_amount := "500"; ur_asset := key "mint";
  ur_pay_to := key "receiver"; ur_max_timeout_seconds := 300;
  ur_extra := {| ux_token_program := Some (key "token program"); ux_fee_payer := key "sponsor";
    ux_receiver_authorizer := key "signer"; ux_transaction_versions := None; ux_withdraw_delay := 900;
    ux_recent_blockhash := None; ux_last_valid_block_height := None; ux_recent_slot := None;
    ux_valid_after := None; ux_memo := None |} |}.

Definition payload : UptoPayload := {|
  up_from := key "payer"; up_max_amount := "500"; up_expires_at := 1250; up_valid_after := 900; up_nonce := 7;
  up_channel_id := channel; up_deposit := "500"; up_authorized_signer := key "signer"; up_open_slot := 1000;
  up_open_transaction := Some "tx" |}.
End UptoDemo.

Example open_accepted : UptoDemo.check UptoDemo.open = Ok tt.
Proof. vm_compute. reflexivity. Qed.

(** A ninth writable account is one the table does not grant. *)
Example extra_writable_refused : is_ok (UptoDemo.check (UptoDemo.open_with [UptoDemo.open_call] 8)) = false.
Proof. vm_compute. reflexivity. Qed.

Example second_open_refused :
  is_ok (UptoDemo.check (UptoDemo.open_with [UptoDemo.open_call; UptoDemo.open_call] 9)) = false.
Proof. vm_compute. reflexivity. Qed.

Lemma upto_open_exact_witness :
  exists ix args, upto_open UptoDemo.open UptoDemo.expected ix args.
Proof.
  apply (upto_open_exact (H2 := BatchTxDemo.codec_of UptoDemo.open) UptoDemo.open [V0]). vm_compute. reflexivity.
Defined.

Lemma upto_payload_iff_witness :
  verify_upto_payload UptoDemo.payload UptoDemo.requirements (AddressesDemo.key "signer") 3600 1000 = Ok tt.
Proof.
  apply upto_payload_iff.
  - split; vm_compute; discriminate.
  - split; vm_compute; discriminate.
  - split; vm_compute; discriminate.
  - split; vm_compute; discriminate.
  - split.
    + exists 500. split; [reflexivity|split; reflexivity].
    + repeat split; vm_compute; discriminate.
Defined.

Lemma built_open_accepted_witness :
  upto_expect_accounts UptoDemo.open_call UptoDemo.keys 0 (open_positions UptoDemo.expected) = Ok tt /\
  check_upto_args (open_args_of AddressesDemo.params) UptoDemo.expected = Ok tt.
Proof.
  destruct (built_open_accepted AddressesDemo.params UptoDemo.expected UptoDemo.keys UptoDemo.open_call)
    as (_ & Hacc & _ & Hargs).
  - split; try reflexivity; intros n Hn; try injection Hn as <-; try reflexivity. split; vm_compute; discriminate.
  - exact AddressesDemo.params_wf.
  - split; vm_compute; reflexivity.
  - split; [exact Hacc|exact Hargs].
Defined.
