(* ===== verification/MppBase.v ===== *)
(** What the MPP servers share: errors (src/rust/crates/kit/src/mpp/error.rs),
    the session payloads (mpp/protocol/intents/session.rs), Solana networks and
    stablecoin mints (mpp/protocol/solana.rs, core/mints.rs). *)
From Stdlib Require Import Ascii.
From stdpp Require Import base numbers option list gmap strings pretty.
From S2P Require Import Prelude Bytes Json Voucher Store Session Units.
Open Scope Z_scope.

(** * Errors ([mpp::error::Error]) *)

Inductive MppError :=
| Rpc (message : string)
| TransactionNotFound
| TransactionFailed (message : string)
| NoTransferInstruction
| AmountMismatch (expected actual : string)
| RecipientMismatch (expected actual : string)
| MintMismatch (expected actual : string)
| AtaMismatch
| SignatureConsumed
| SimulationFailed (message : string)
| MissingTransaction
| MissingSignature
| InvalidPayloadType (message : string)
| SplitsExceedAmount
| TooManySplits
| InvalidConfig (message : string)
| InvalidChallenge (message : string)
| PayerFundedAtaCreationDeclined
| ChallengeExpired (message : string)
| ChallengeMismatch
| TransactionTooLarge (size limit : nat)
| MppOther (message : string).

(** [Display]. *)
Definition mpp_error_text (e : MppError) : string :=
  match e with
  | Rpc m => "RPC error: " +:+ m
  | TransactionNotFound => "Transaction not found or not yet confirmed"
  | TransactionFailed m => "Transaction failed on-chain: " +:+ m
  | NoTransferInstruction => "No matching transfer instruction found"
  | AmountMismatch e a => "Amount mismatch: expected " +:+ e +:+ ", got " +:+ a
  | RecipientMismatch e a => "Recipient mismatch: expected " +:+ e +:+ ", got " +:+ a
  | MintMismatch e a => "Token mint mismatch: expected " +:+ e +:+ ", got " +:+ a
  | AtaMismatch => "Destination ATA does not belong to expected recipient"
  | SignatureConsumed => "Transaction signature already consumed"
  | SimulationFailed m => "Simulation failed: " +:+ m
  | MissingTransaction => "Missing transaction data in credential payload"
  | MissingSignature => "Missing signature in credential payload"
  | InvalidPayloadType m => "Invalid payload type: " +:+ m
  | SplitsExceedAmount => "Splits consume the entire amount"
  | TooManySplits => "Splits exceed maximum of 8 entries"
  | InvalidConfig m => "Invalid configuration: " +:+ m
  | InvalidChallenge m => "Invalid challenge: " +:+ m
  | PayerFundedAtaCreationDeclined =>
      "challenge declined: a split sets ataCreationRequired and the client is the fee payer, so the spec requires the client to fund that ATA rent, which this client declines"
  | ChallengeExpired m => "Challenge expired at " +:+ m
  | ChallengeMismatch => "Challenge ID mismatch — not issued by this server"
  | TransactionTooLarge size limit => "Prepared transaction is " +:+ pretty size
      +:+ " bytes, exceeding Solana's " +:+ pretty limit +:+ "-byte packet limit"
  | MppOther m => m
  end.

(** [From<core::Error>], and this file's [store_err]. *)
Definition of_core_error (e : Error) : MppError :=
  match e with SerializationError m | Other m => MppOther m end.
Definition server_store_err (e : StoreError) : MppError := MppOther (store_error_text e).

Abbreviation parse_u64 := Units.parse_u64.
Abbreviation parse_u64_range := Units.parse_u64_range.

(** * Wire data (mpp/protocol/intents/session.rs) *)

Inductive VoucherSigner := Client | Operator.

#[export] Instance VoucherSigner_eq_dec : EqDecision VoucherSigner.
Proof. solve_decision. Defined.

Record SessionAuthentication := {
  sa_challenge_id : string;
  sa_payer : string;
  sa_signature : string;
}.

Record VoucherData := {
  vd_channel_id : string;
  vd_cumulative_amount : string;
  vd_expires_at : option Z;
}.

Record SignedVoucher := {
  sv_data : VoucherData;
  sv_signer : string;
  sv_signature : string;
}.

Record SessionSplit := { ss_recipient : string; share_bps : Z }.

Record OpenPayload {Value : Type} := {
  op_channel_id : string;
  op_payer : string;
  op_payee : string;
  op_mint : string;
  op_authorized_signer : string;
  op_salt : Z;
  op_deposit_amount : string;
  op_grace_period_seconds : Z;
  op_idle_timeout_seconds : option Z;
  op_open_slot : Z;
  op_distribution_splits : list SessionSplit;
  authorization_policy : option Value;
  op_authentication : option SessionAuthentication;
  op_transaction : string;
  capabilities : option Value;
}.
Arguments OpenPayload : clear implicits.

Record VoucherPayload := { vp_channel_id : string; vp_voucher : SignedVoucher }.
Record UsePayload := { up_channel_id : string; up_authentication : SessionAuthentication }.
Record TopUpPayload := { tp_channel_id : string; additional_amount : string; transaction : string }.
Record CommitPayload := { cp_delivery_id : string; cp_voucher : SignedVoucher }.
Record ClosePayload := {
  cl_channel_id : string;
  cl_authentication : option SessionAuthentication;
  cl_voucher : option SignedVoucher;
}.

Record MeteringDirective := {
  md_delivery_id : string;
  md_session_id : string;
  md_amount : string;
  md_currency : string;
  md_sequence : Z;
  md_expires_at : Z;
  md_commit_url : option string;
  md_proof : option string;
}.

Inductive CommitStatus := Committed | Replayed.

Record CommitReceipt := {
  cr_delivery_id : string;
  cr_session_id : string;
  cr_amount : string;
  cr_cumulative : string;
  cr_status : CommitStatus;
}.

Definition DEFAULT_SESSION_EXPIRES_AT : Z := 4102444800.
Definition SESSION_AUTHENTICATION_DOMAIN : string := "mpp-session-auth-v1".

(** * Third-party cryptography

    The curve beyond what [Crypto] has: base58 text, an operator's key, the
    non-strict verification of proofs and the canonical JSON they sign; SHA-256,
    the addresses Solana derives from seeds, and RFC 3339 dates (in nanoseconds). *)
Class SessionCrypto (Key SigningKey : Type) `{Crypto Key} := {
  bs58_encode : list byte -> string;
  bs58_decode : string -> result (list byte) string;
  verifying_bytes : SigningKey -> list byte;
  sign_bytes : SigningKey -> list byte -> list byte;
  verify_loose : Key -> list byte -> list byte -> bool;
  sha256 : list byte -> list byte;
  is_on_curve : list byte -> bool;
  find_program_address : list (list byte) -> list byte -> list byte;
  parse_rfc3339 : string -> option Z;
  jcs_object : list (string * string) -> result (list byte) string;
  authentication_text : SessionAuthentication -> result string string;
}.

(** Base58 text has one spelling. *)
Class SessionCryptoLaws (Key SigningKey : Type) `{SessionCrypto Key SigningKey} := {
  bs58_canonical : forall text bytes, bs58_decode text = Ok bytes -> bs58_encode bytes = text;
}.

(** * Idle timeouts (mpp/protocol/intents/session.rs) *)

Definition MAX_IDLE_TIMEOUT_SECONDS : Z := 2592000.

Fixpoint idle_options_increase (previous : Z) (options : list Z) : result unit MppError :=
  match options with
  | [] => Ok tt
  | value :: options =>
      if decide (value = 0 \/ MAX_IDLE_TIMEOUT_SECONDS < value)
      then Err (MppOther ("idle timeout must be between 1 and " +:+ pretty MAX_IDLE_TIMEOUT_SECONDS)) else
      if decide (value <= previous)
      then Err (MppOther "idleTimeoutOptionsSeconds must be strictly increasing")
      else idle_options_increase value options
  end.

Definition validate_idle_timeout_options (options : list Z) : result unit MppError :=
  if decide (options = []) then Err (MppOther "idleTimeoutOptionsSeconds must not be empty")
  else idle_options_increase 0 options.

Definition resolve_idle_timeout_seconds (default_seconds : Z) (options : option (list Z))
    (selected : option Z) : result Z MppError :=
  if decide (default_seconds = 0 \/ MAX_IDLE_TIMEOUT_SECONDS < default_seconds)
  then Err (MppOther ("default idle timeout must be between 1 and " +:+ pretty MAX_IDLE_TIMEOUT_SECONDS)) else
  let? _ := match options with Some options => validate_idle_timeout_options options | None => Ok tt end in
  match selected, options with
  | Some value, Some options =>
      if decide (value ∈ options) then Ok value
      else Err (MppOther "idleTimeoutSeconds was not one of the advertised options")
  | Some _, None =>
      Err (MppOther "idleTimeoutSeconds is not allowed when no options were advertised")
  | None, Some options =>
      Ok (if decide (default_seconds ∈ options) then default_seconds
          else default default_seconds (head options))
  | None, None => Ok default_seconds
  end.

(** * Networks and mints *)

Definition NETWORK_MAINNET : string := "mainnet".
Definition NETWORK_DEVNET : string := "devnet".
Definition NETWORK_LOCALNET : string := "localnet".
Definition DEFAULT_NETWORK : string := NETWORK_MAINNET.

Definition validate_network (network : string) : result unit MppError :=
  if decide (network = NETWORK_MAINNET \/ network = NETWORK_DEVNET \/ network = NETWORK_LOCALNET)
  then Ok tt else
  if decide (network = "")
  then Err (InvalidConfig "network must not be empty (one of `mainnet`, `devnet`, `localnet`)")
  else Err (InvalidConfig ("Unknown network `" +:+ network
         +:+ "` (allowed: `mainnet`, `devnet`, `localnet`)")).

Definition canonical_network (network : option string) : option string :=
  match network with
  | None => Some NETWORK_MAINNET
  | Some n =>
      if decide (n = NETWORK_MAINNET \/ n = "mainnet-beta") then Some NETWORK_MAINNET else
      if decide (n = NETWORK_DEVNET) then Some NETWORK_DEVNET else
      if decide (n = NETWORK_LOCALNET) then Some NETWORK_LOCALNET else None
  end.

Definition default_rpc_url (network : string) : string :=
  if decide (network = NETWORK_DEVNET) then "https://api.devnet.solana.com" else
  if decide (network = NETWORK_LOCALNET) then "http://localhost:8899"
  else "https://api.mainnet-beta.solana.com".

Module mints.
Definition USDC_MAINNET : string := "EPjFWdd5AufqSSqeM2qN1xzybapC8G4wEGGkZwyTDt1v".
Definition USDC_DEVNET : string := "4zMMC9srt5Ri5X14GAgXhaHii3GnPAEERYPJgZJDncDU".
Definition USDC_TESTNET : string := USDC_DEVNET.
Definition USDTEST_DEVNET : string := "6MJyWHwFpPsaTEuYarEz49ngtsSKPYn6yHqtJUW2a9St".
Definition USDT_MAINNET : string := "Es9vMFrzaCERmJfrF4H2FYD4KCoNkY11McCe8BenwNYB".
Definition USDG_MAINNET : string := "2u1tszSeqZ3qBWF3uNGPFc8TzMk2tdiwknnRMWGWjGWH".
Definition USDG_DEVNET : string := "4F6PM96JJxngmHnZLBh9n58RH4aTVNWvDs2nuwrT5BP7".
Definition USDG_TESTNET : string := USDG_DEVNET.
Definition PYUSD_MAINNET : string := "2b1kV6DkPAnxd5ixfnxCpjxmKwqjjaYmCZfHsFu24GXo".
Definition PYUSD_DEVNET : string := "CXk2AMBfi3TwaEL2468s6zP8xq9NxTXjp9gjMgzeUynM".
Definition PYUSD_TESTNET : string := PYUSD_DEVNET.
Definition CASH_MAINNET : string := "CASHx9KJUStyftLFWGvEVf59SGeG9sh5FfcnZMVPCASH".
Definition USDPT_MAINNET : string := "HVWf8JmLoHs99Lw8Psf3fyqAtA4crWxCPkrmSdNjhNH3".
End mints.

Definition TOKEN_PROGRAM : string := "TokenkegQfeZyiNwAJbNbGKPFXCWuBvf9Ss623VQ5DA".
Definition TOKEN_2022_PROGRAM : string := "TokenzQdBNbLqP5VEhdkAS6EPFLC1PHnBqCXEpPxuEb".

Definition upper_ascii (c : ascii) : ascii :=
  let n := nat_of_ascii c in
  if decide (97 <= n <= 122)%nat then ascii_of_nat (n - 32) else c.

(** [str::to_uppercase] of UTF-8 text, as far as a comparison with the upper-case
    symbols below can tell: the long s and the ligatures of st are the only
    characters outside ASCII that become letters the symbols have. *)
Fixpoint to_uppercase (s : string) : string :=
  match s with
  | EmptyString => EmptyString
  | String c rest =>
      match nat_of_ascii c, rest with
      | 197%nat, String d rest' =>
          if decide (nat_of_ascii d = 191%nat) then String "S" (to_uppercase rest')
          else String c (to_uppercase rest)
      | 239%nat, String d (String e rest') =>
          if decide (nat_of_ascii d = 172%nat /\ (nat_of_ascii e = 133%nat \/ nat_of_ascii e = 134%nat))
          then String "S" (String "T" (to_uppercase rest'))
          else String c (to_uppercase rest)
      | _, _ => String (upper_ascii c) (to_uppercase rest)
      end
  end.

(** [str::eq_ignore_ascii_case]. *)
Fixpoint ascii_upper (s : string) : string :=
  match s with EmptyString => EmptyString | String c s => String (upper_ascii c) (ascii_upper s) end.
Definition eq_ignore_ascii_case (a b : string) : bool := bool_decide (ascii_upper a = ascii_upper b).

Definition resolve_stablecoin_mint (currency : string) (network : option string) : option string :=
  let by_network devnet testnet mainnet :=
    if decide (network = Some "devnet") then devnet else
    if decide (network = Some "testnet") then testnet else mainnet in
  let symbol := to_uppercase currency in
  if decide (symbol = "SOL") then None else
  if decide (symbol = "USDC")
  then Some (by_network mints.USDC_DEVNET mints.USDC_TESTNET mints.USDC_MAINNET) else
  if decide (symbol = "USDTEST" /\ network = Some NETWORK_DEVNET) then Some mints.USDTEST_DEVNET else
  if decide (symbol = "USDT") then Some mints.USDT_MAINNET else
  if decide (symbol = "USDG")
  then Some (by_network mints.USDG_DEVNET mints.USDG_TESTNET mints.USDG_MAINNET) else
  if decide (symbol = "PYUSD")
  then Some (by_network mints.PYUSD_DEVNET mints.PYUSD_TESTNET mints.PYUSD_MAINNET) else
  if decide (symbol = "CASH") then Some mints.CASH_MAINNET else
  if decide (symbol = "USDPT") then Some mints.USDPT_MAINNET else Some currency.

Definition try_resolve_stablecoin_mint (currency : string) (network : option string) :
    result (option string) MppError :=
  let is_usdtest := eq_ignore_ascii_case currency "USDtest" ||
                    bool_decide (currency = mints.USDTEST_DEVNET) in
  if is_usdtest && negb (bool_decide (network = Some NETWORK_DEVNET))
  then Err (InvalidConfig ("USDtest is devnet-only; set network to `devnet` (got `"
         +:+ default DEFAULT_NETWORK network +:+ "`)"))
  else Ok (resolve_stablecoin_mint currency network).

Definition stablecoin_uses_token_2022 (mint : string) : bool :=
  eq_ignore_ascii_case mint "USDtest" ||
  bool_decide (mint ∈ [mints.USDTEST_DEVNET; mints.PYUSD_MAINNET; mints.PYUSD_DEVNET;
                       mints.USDG_MAINNET; mints.USDG_DEVNET; mints.CASH_MAINNET;
                       mints.USDPT_MAINNET]).

Definition stablecoin_supports_confidential (mint : string) : bool :=
  bool_decide (mint = mints.USDPT_MAINNET).

Definition is_known_stablecoin_mint (mint : string) : bool :=
  bool_decide (mint ∈ [mints.USDC_MAINNET; mints.USDC_DEVNET; mints.USDTEST_DEVNET;
                       mints.USDT_MAINNET; mints.USDG_MAINNET; mints.USDG_DEVNET;
                       mints.PYUSD_MAINNET; mints.PYUSD_DEVNET; mints.CASH_MAINNET;
                       mints.USDPT_MAINNET]).

Definition default_token_program_for_currency (currency : string) (network : option string) : string :=
  match resolve_stablecoin_mint currency network with
  | Some mint => if stablecoin_uses_token_2022 mint then TOKEN_2022_PROGRAM else TOKEN_PROGRAM
  | None => TOKEN_PROGRAM
  end.

(** ** A resolved mint is its own name *)

Definition symbols : list string := ["SOL"; "USDC"; "USDTEST"; "USDT"; "USDG"; "PYUSD"; "CASH"; "USDPT"].

Lemma resolve_plain currency network :
  to_uppercase currency ∉ symbols -> resolve_stablecoin_mint currency network = Some currency.
Proof.
  intros Hn. unfold resolve_stablecoin_mint.
  unfold symbols in Hn. rewrite !not_elem_of_cons in Hn. destruct Hn as (? & ? & ? & ? & ? & ? & ? & ? & _).
  by rewrite !decide_False by (try intros [? _]; done).
Qed.

Definition well_known (m : string) : Prop :=
  to_uppercase m ∉ symbols /\ eq_ignore_ascii_case m "USDtest" = false /\ m <> mints.USDTEST_DEVNET.

Definition resolves_to (currency : string) (network : option string) (m : string) : Prop :=
  m = currency \/ m = mints.USDTEST_DEVNET /\ network = Some NETWORK_DEVNET \/ well_known m.

Lemma known_mints :
  Forall well_known [mints.USDC_DEVNET; mints.USDC_TESTNET; mints.USDC_MAINNET; mints.USDT_MAINNET;
    mints.USDG_DEVNET; mints.USDG_TESTNET; mints.USDG_MAINNET; mints.PYUSD_DEVNET; mints.PYUSD_TESTNET;
    mints.PYUSD_MAINNET; mints.CASH_MAINNET; mints.USDPT_MAINNET].
Proof.
  repeat (apply Forall_cons; split; [apply (bool_decide_unpack _); vm_compute; exact I|]). apply Forall_nil_2.
Qed.

(** What a currency resolves to: itself, or one of the well-known mints. *)
Lemma resolve_cases currency network m :
  resolve_stablecoin_mint currency network = Some m -> resolves_to currency network m.
Proof.
  pose proof known_mints as Hk. rewrite !Forall_cons in Hk.
  destruct Hk as (? & ? & ? & ? & ? & ? & ? & ? & ? & ? & ? & ? & _).
  unfold resolve_stablecoin_mint, resolves_to. cbv zeta.
  case_decide; [done|].
  case_decide; [intros [= <-]; right; right; by repeat case_decide|].
  case_decide as Hd; [intros [= <-]; right; left; by destruct Hd|].
  case_decide; [intros [= <-]; by right; right|].
  case_decide; [intros [= <-]; right; right; by repeat case_decide|].
  case_decide; [intros [= <-]; right; right; by repeat case_decide|].
  case_decide; [intros [= <-]; by right; right|].
  case_decide; [intros [= <-]; by right; right|]. intros [= <-]. by left.
Qed.

Lemma mint_pinned currency network m :
  try_resolve_stablecoin_mint currency network = Ok (Some m) ->
  try_resolve_stablecoin_mint m network = Ok (Some m) /\
  default_token_program_for_currency m network = default_token_program_for_currency currency network.
Proof.
  unfold try_resolve_stablecoin_mint, default_token_program_for_currency.
  destruct (_ && _) eqn:Hu; [done|]. intros [= Hm].
  assert (Hr : resolve_stablecoin_mint m network = Some m).
  { destruct (resolve_cases _ _ _ Hm) as [->|[[-> _]|(Hn & _)]]; [done| |by apply resolve_plain].
    apply resolve_plain, (bool_decide_unpack _). vm_compute. exact I. }
  rewrite Hr, Hm. split; [|done].
  destruct (resolve_cases _ _ _ Hm) as [->|[[-> ->]|(_ & He & Hne)]]; [by rewrite Hu|done|].
  rewrite He. by rewrite (bool_decide_false (m = _)).
Qed.
