(* ===== verification/X402Open.v ===== *)
(** The server of the x402 [upto] scheme
    (src/rust/crates/kit/src/x402/server/upto.rs, x402/server/mod.rs,
    x402/protocol/schemes/exact/types.rs): what it offers, the open it co-signs,
    broadcasts and binds to the chain, and the settlement of the metered amount.
    A request is a program over the shared in-flight set, the node and the clock. *)
From stdpp Require Import base numbers option list gmap strings pretty sets relations.
From S2P Require Import Prelude Effects Bytes Units Voucher Tx Build Policy ChannelTx Signing Deployments ChannelProgram X402Batch X402BatchTx PayerRefund X402Upto MppBase.
Open Scope Z_scope.

(** * Networks and mints of the x402 crate *)

Definition SOLANA_MAINNET : string := "solana:5eykt4UsFv8P8NJdTREpY1vzqKqZKvdp".
Definition SOLANA_DEVNET : string := "solana:EtWTRABZaYq6iMfeYKouRu166VU2xqa1".
Definition SOLANA_TESTNET : string := "solana:4uhcVJyU9pJkvQyS88uRDiswHXSCkY3z".

Definition x402_rpc_url (cluster : string) : string :=
  if decide (cluster ∈ ["devnet"; "solana-devnet"; SOLANA_DEVNET]) then "https://api.devnet.solana.com" else
  if decide (cluster ∈ ["testnet"; "solana-testnet"; SOLANA_TESTNET]) then "https://api.testnet.solana.com" else
  if decide (cluster = "localnet") then "http://localhost:8899" else "https://api.mainnet-beta.solana.com".

Definition caip2_network_for_cluster (cluster : string) : string :=
  if decide (cluster ∈ [SOLANA_TESTNET; "testnet"; "solana-testnet"]) then SOLANA_TESTNET else
  if decide (cluster ∈ ["devnet"; "localnet"; SOLANA_DEVNET; "solana-devnet"]) then SOLANA_DEVNET
  else SOLANA_MAINNET.

(** [resolve_stablecoin_mint] of the x402 crate. *)
Definition x402_resolve_mint (currency : string) (cluster : option string) : option string :=
  let by_cluster devnet testnet mainnet :=
    if decide (cluster ∈ [Some SOLANA_DEVNET; Some "devnet"; Some "localnet"]) then devnet else
    if decide (cluster ∈ [Some SOLANA_TESTNET; Some "testnet"]) then testnet else mainnet in
  if eq_ignore_ascii_case currency "SOL" then None else
  let symbol := to_uppercase currency in
  if decide (symbol = "USDC")
  then Some (by_cluster mints.USDC_DEVNET mints.USDC_TESTNET mints.USDC_MAINNET) else
  if decide (symbol = "USDTEST" /\ cluster ∈ [Some SOLANA_DEVNET; Some "devnet"; Some "solana-devnet"])
  then Some mints.USDTEST_DEVNET else
  if decide (symbol = "USDT") then Some mints.USDT_MAINNET else
  if decide (symbol = "USDG")
  then Some (by_cluster mints.USDG_DEVNET mints.USDG_TESTNET mints.USDG_MAINNET) else
  if decide (symbol = "PYUSD")
  then Some (by_cluster mints.PYUSD_DEVNET mints.PYUSD_TESTNET mints.PYUSD_MAINNET) else
  if decide (symbol = "CASH") then Some mints.CASH_MAINNET else Some currency.

Definition x402_try_resolve_mint (currency : string) (cluster : option string) :
    result (option string) X402Error :=
  let is_devnet := bool_decide (cluster ∈ [Some SOLANA_DEVNET; Some "devnet"; Some "solana-devnet"]) in
  let is_usdtest := eq_ignore_ascii_case currency "USDtest" || bool_decide (currency = mints.USDTEST_DEVNET) in
  if is_usdtest && negb is_devnet
  then Err (XOther ("USDtest is devnet-only; set cluster to `devnet` (got `"
    +:+ default "mainnet-beta" cluster +:+ "`)"))
  else Ok (x402_resolve_mint currency cluster).

(** [stablecoin_symbol] of the x402 crate. *)
Definition stablecoin_symbol (currency_or_mint : string) : option string :=
  if eq_ignore_ascii_case currency_or_mint "SOL" then None else
  let upper := to_uppercase currency_or_mint in
  if decide (upper ∈ ["USDC"; "USDTEST"; "USDT"; "USDG"; "PYUSD"; "CASH"]) then Some upper else
  if decide (currency_or_mint ∈ [mints.USDC_MAINNET; mints.USDC_DEVNET]) then Some "USDC" else
  if decide (currency_or_mint = mints.USDTEST_DEVNET) then Some "USDTEST" else
  if decide (currency_or_mint = mints.USDT_MAINNET) then Some "USDT" else
  if decide (currency_or_mint ∈ [mints.USDG_MAINNET; mints.USDG_DEVNET]) then Some "USDG" else
  if decide (currency_or_mint ∈ [mints.PYUSD_MAINNET; mints.PYUSD_DEVNET]) then Some "PYUSD" else
  if decide (currency_or_mint = mints.CASH_MAINNET) then Some "CASH" else None.

Definition x402_uses_token_2022 (currency_or_mint : string) : bool :=
  bool_decide (stablecoin_symbol currency_or_mint ∈ [Some "USDTEST"; Some "USDG"; Some "PYUSD"; Some "CASH"]).

Definition x402_default_token_program (currency : string) (cluster : option string) : string :=
  let mint := default currency (x402_resolve_mint currency cluster) in
  if x402_uses_token_2022 mint then TOKEN_2022_PROGRAM else TOKEN_PROGRAM.

(** * The server *)

Record CurrencyConfig := {
  cu_currency : string;
  cu_decimals : nat;
  cu_token_program : option string;
}.

Inductive UptoPayout := ReceiverKeepsAll | Beneficiary (address : string).

Record UptoConfig := {
  uc_payout : UptoPayout;
  uc_currencies : list CurrencyConfig;
  uc_cluster : string;
  uc_resource : string;
  uc_description : option string;
  uc_max_timeout_seconds : Z;
  uc_max_channel_lifetime : Z;
  uc_program_id : option string;
  uc_withdraw_delay : Z;
  uc_fee_payer_signer : TransactionSigner;
  uc_receiver_authorizer_signer : option Pubkey;
}.

(** [X402Upto], less the node, the caches and the worker it holds. *)
Record UptoServer := {
  us_accepted_versions : list TxVersion;
  us_config : UptoConfig;
  us_fee_payer : Pubkey;
  us_receiver_authorizer : Pubkey;
}.

(** [with_withdraw_delay]: the configuration the constructor keeps. *)
Definition with_withdraw_delay (delay : Z) (c : UptoConfig) : UptoConfig := {|
  uc_payout := uc_payout c; uc_currencies := uc_currencies c; uc_cluster := uc_cluster c;
  uc_resource := uc_resource c; uc_description := uc_description c;
  uc_max_timeout_seconds := uc_max_timeout_seconds c; uc_max_channel_lifetime := uc_max_channel_lifetime c;
  uc_program_id := uc_program_id c; uc_withdraw_delay := delay;
  uc_fee_payer_signer := uc_fee_payer_signer c;
  uc_receiver_authorizer_signer := uc_receiver_authorizer_signer c |}.

Definition DEFAULT_GRACE_PERIOD_SECONDS : Z := 900.
Definition UPTO_SCHEME : string := "upto".

Section server.
Context {Key : Type} `{Crypto Key, Addresses} `{V1Format} `{Codec}.

(** [Pubkey::from_str] with the error's prefix. *)
Definition x402_key (what value : string) : result Pubkey X402Error :=
  rmap_err (fun e => XOther (what +:+ ": " +:+ e)) (rmap key_of_bytes (pubkey_from_str value)).

Fixpoint check_currencies (cluster : string) (l : list CurrencyConfig) : result unit X402Error :=
  match l with
  | [] => Ok tt
  | cc :: l => let? _ := x402_try_resolve_mint (cu_currency cc) (Some cluster) in check_currencies cluster l
  end.

Definition new_upto (config : UptoConfig) : result UptoServer X402Error :=
  if decide (uc_currencies config = []) then Err (XOther "at least one currency is required") else
  let? _ := check_currencies (uc_cluster config) (uc_currencies config) in
  let? _ := match uc_payout config with
            | Beneficiary address => rmap (fun _ => tt) (x402_key "Invalid recipient pubkey" address)
            | ReceiverKeepsAll => Ok tt
            end in
  let config := if decide (uc_withdraw_delay config = 0)
                then with_withdraw_delay DEFAULT_GRACE_PERIOD_SECONDS config else config in
  let fee_payer := signer_pubkey (uc_fee_payer_signer config) in
  Ok {| us_accepted_versions := [V0]; us_config := config; us_fee_payer := fee_payer;
        us_receiver_authorizer := default fee_payer (uc_receiver_authorizer_signer config) |}.

Context (srv : UptoServer).
Let config := us_config srv.

Definition upto_program_id : result Pubkey X402Error :=
  match uc_program_id config with
  | Some value => x402_key "invalid programId" value
  | None => Ok default_program_id
  end.

Definition upto_treasury_owner : Pubkey :=
  if decide (is_Some (uc_program_id config)) then treasury_owner
  else treasury_owner_for_cluster (uc_cluster config).

Definition mint_for (cc : CurrencyConfig) : result Pubkey X402Error :=
  let? resolved := x402_try_resolve_mint (cu_currency cc) (Some (uc_cluster config)) in
  let? mint := ok_or resolved (XOther "upto requires an SPL token (not native SOL)") in
  x402_key "invalid mint" mint.

Definition token_program_for (cc : CurrencyConfig) : result Pubkey X402Error :=
  x402_key "invalid token program"
    (default (x402_default_token_program (cu_currency cc) (Some (uc_cluster config))) (cu_token_program cc)).

Definition pay_to : string :=
  match uc_payout config with
  | Beneficiary address => address
  | ReceiverKeepsAll => us_receiver_authorizer srv
  end.

Definition distribution : result (list Distribution) X402Error :=
  rmap sole_recipient (x402_key "invalid recipient" pay_to).

(** ** What it offers *)

Definition hex_digit (n : Z) : Ascii.ascii := Ascii.ascii_of_N (Z.to_N (if decide (n < 10) then 48 + n else 87 + n)).
Definition hex_byte (b : byte) : string :=
  String (hex_digit (byte_to_Z b / 16)) (String (hex_digit (byte_to_Z b mod 16)) EmptyString).

Definition route_memo (route : string) : string :=
  let digest := ChannelProgram.sha256 (str_bytes "x402-upto-route" ++ [Byte.x00] ++ str_bytes route) in
  "x402-upto:" +:+ String.concat "" (hex_byte <$> take 16 digest).

Definition upto_requirements_for_base_units (cc : CurrencyConfig) (base_units : string)
    (route : option string) : result UptoRequirements X402Error :=
  let? mint := mint_for cc in
  let? token_program := token_program_for cc in
  Ok {| ur_scheme := UPTO_SCHEME; ur_network := caip2_network_for_cluster (uc_cluster config);
        ur_amount := base_units; ur_asset := mint; ur_pay_to := pay_to;
        ur_max_timeout_seconds := uc_max_timeout_seconds config;
        ur_extra := {|
          ux_token_program := Some token_program; ux_fee_payer := us_fee_payer srv;
          ux_receiver_authorizer := us_receiver_authorizer srv;
          ux_transaction_versions := Policy.advertised (us_accepted_versions srv);
          ux_withdraw_delay := uc_withdraw_delay config; ux_recent_blockhash := None;
          ux_last_valid_block_height := None; ux_recent_slot := None; ux_valid_after := None;
          ux_memo := route_memo <$> route |} |}.

Definition upto_requirements_for_route (cc : CurrencyConfig) (max_amount : string) (route : option string) :
    result UptoRequirements X402Error :=
  let? base_units := rmap_err x402_of_core
    (Units.parse_units (String.list_ascii_of_string max_amount) (cu_decimals cc)) in
  upto_requirements_for_base_units cc (String.string_of_list_ascii base_units) route.

Definition offered (max_amount : string) (route : option string) : result (list UptoRequirements) X402Error :=
  collect (fun cc => upto_requirements_for_route cc max_amount route) (uc_currencies config).

(** A recent blockhash with its height and slot, stamped on a requirement. *)
Record CachedBlockhash := { cb_blockhash : string; cb_last_valid_block_height : Z; cb_slot : Z }.

Definition set_hints (blockhash height : option string) (slot : option Z) (r : UptoRequirements) :
    UptoRequirements :=
  let x := ur_extra r in {|
  ur_scheme := ur_scheme r; ur_network := ur_network r; ur_amount := ur_amount r; ur_asset := ur_asset r;
  ur_pay_to := ur_pay_to r; ur_max_timeout_seconds := ur_max_timeout_seconds r;
  ur_extra := {|
    ux_token_program := ux_token_program x; ux_fee_payer := ux_fee_payer x;
    ux_receiver_authorizer := ux_receiver_authorizer x;
    ux_transaction_versions := ux_transaction_versions x; ux_withdraw_delay := ux_withdraw_delay x;
    ux_recent_blockhash := blockhash; ux_last_valid_block_height := height; ux_recent_slot := slot;
    ux_valid_after := ux_valid_after x; ux_memo := ux_memo x |} |}.

Definition with_hint (hint : CachedBlockhash) : UptoRequirements -> UptoRequirements :=
  set_hints (Some (cb_blockhash hint)) (Some (pretty (cb_last_valid_block_height hint))) (Some (cb_slot hint)).

(** The [accepts] of the 402 challenge. *)
Definition challenge (hint : CachedBlockhash) (max_amount : string) (route : option string) :
    result (list UptoRequirements) X402Error :=
  collect (fun cc => rmap (with_hint hint) (upto_requirements_for_route cc max_amount route))
    (uc_currencies config).

(** ** What comes back *)

Definition strip_upto_blockhash_hints : UptoRequirements -> UptoRequirements := set_hints None None None.
End server.

#[export] Instance UptoRequirements_eq_dec : EqDecision UptoRequirements.
Proof.
  assert (EqDecision UptoExtra) by solve_decision. solve_decision.
Defined.

(** The decoded [PAYMENT-SIGNATURE] header: what the server reads of the raw
    [accepted], and [accepted] as its typed reading. *)
Record UptoSignatureEnvelope := {
  ue_scheme : option string;
  ue_network : option string;
  ue_accepted : result UptoRequirements string;
  ue_payload : UptoPayload;
}.

(** base64 and JSON. *)
Class EnvelopeCodec := decode_envelope : string -> result UptoSignatureEnvelope string.

Definition parse_payment_signature `{EnvelopeCodec} (header : string) :
    result UptoSignatureEnvelope X402Error :=
  let? envelope := rmap_err XInvalidPaymentRequired (decode_envelope header) in
  let scheme := default "" (ue_scheme envelope) in
  if decide (scheme <> UPTO_SCHEME) then Err (XInvalidPayloadType scheme) else Ok envelope.

Definition match_offered_requirement (offered : list UptoRequirements)
    (accepted : result UptoRequirements string) : result UptoRequirements X402Error :=
  let? accepted := rmap_err (fun e => XInvalidPaymentRequired ("invalid accepted requirement: " +:+ e)) accepted in
  ok_or (list_find (fun r => strip_upto_blockhash_hints r = strip_upto_blockhash_hints accepted) offered
           ≫= fun '(_, r) => Some r)
    (XOther "credential's accepted does not match any offered currency option").

(** * Requests as programs *)

(** How a settlement's broadcast ended ([core::rpc::BroadcastFailure]). *)
Inductive BroadcastFailure := NotLanded (e : string) | FailedOnChain (e : string) | Unknown (e : string).

Inductive upto_op : Type -> Type :=
| TryEnter (channel : Pubkey) : upto_op bool
| Leave (channel : Pubkey) : upto_op unit
| NowUnix : upto_op Z
| RecentSlot : upto_op (option Z)
| GetAccount (key : Pubkey) : upto_op (result (option ObservedAccount) string)
| GetAccountData (key : Pubkey) : upto_op (result (list byte) string)
| SendOpen (tx : VersionedTransaction) : upto_op (result unit string)
| LatestBlockhash : upto_op (result (list byte) string)
| SendSettlement (tx : VersionedTransaction) : upto_op (result string BroadcastFailure).

Record PreparedOpen := {
  pr_tx : VersionedTransaction;
  pr_requirements : UptoRequirements;
  pr_payer : Pubkey;
  pr_channel_id : Pubkey;
  pr_max : Z;
  pr_expected_mint : Pubkey;
  pr_token_program : Pubkey;
  pr_program_id : Pubkey;
  pr_expected_payee : Pubkey;
  pr_expected_distribution : list Distribution;
  pr_expires_at : Z;
}.

Record VerifiedUptoOpen := {
  vo_channel_id : Pubkey;
  vo_payer : Pubkey;
  vo_rent_payer : Pubkey;
  vo_mint : Pubkey;
  vo_token_program : Pubkey;
  vo_program_id : Pubkey;
  vo_deposit : Z;
  vo_max_amount : Z;
  vo_expires_at : Z;
  vo_network : string;
  vo_payee : Pubkey;
  vo_distribution : list Distribution;
}.

Record UptoSettlementResponse := {
  sr_success : bool;
  sr_payer : option string;
  sr_transaction : string;
  sr_network : string;
  sr_amount : string;
}.

Abbreviation upto_prog A := (prog upto_op (result A X402Error)).

Definition fail {A} (e : X402Error) : upto_prog A := Ret (Err e).
Definition pure {A} (r : result A X402Error) : upto_prog A := Ret r.
(** A node's answer, its error mapped. *)
Definition ask {A} (op : upto_op (result A string)) (err : string -> X402Error) : upto_prog A :=
  pbind (fun r => Ret (rmap_err err r)) (perform op).

(** The in-flight guard in scope: an error drops it, a success keeps it. *)
Definition guarded {A} (channel : Pubkey) (p : upto_prog A) : upto_prog A :=
  pbind (fun r => match r with
                  | Ok a => Ret (Ok a)
                  | Err e => pbind (fun _ => Ret (Err e)) (perform (Leave channel))
                  end) p.

Section requests.
Context {Key : Type} `{Crypto Key, Addresses} `{V1Format} `{Codec} `{EnvelopeCodec} `{DebugText}.
Context (message_serialize : VersionedMessage -> list byte).
Context (signature_verify : list byte -> Pubkey -> list byte -> bool).
Context (srv : UptoServer).

(** What [prepare_open] establishes before it takes the in-flight slot. *)
Record OpenRequest := {
  rq_payload : UptoPayload;
  rq_requirements : UptoRequirements;
  rq_program_id : Pubkey;
  rq_mint : Pubkey;
  rq_token_program : Pubkey;
  rq_distribution : list Distribution;
  rq_channel_id : Pubkey;
  rq_payer : Pubkey;
  rq_max : Z;
}.

Definition open_request (header : string) (offered : list UptoRequirements) (now : Z) :
    result OpenRequest X402Error :=
  let? envelope := parse_payment_signature header in
  let payload := ue_payload envelope in
  let? requirements := match_offered_requirement offered (ue_accepted envelope) in
  let? _ := verify_upto_payload payload requirements (us_receiver_authorizer srv)
    (uc_max_channel_lifetime (us_config srv)) now in
  if decide (ue_network envelope <> Some (ur_network requirements))
  then Err (XOther ("network mismatch: payload "
    +:+ match ue_network envelope with Some n => "Some(" +:+ debug_text n +:+ ")" | None => "None" end
    +:+ ", expected " +:+ ur_network requirements)) else
  let? program_id := upto_program_id srv in
  let? mint := x402_key "invalid matched asset mint" (ur_asset requirements) in
  let? token_program_text := ok_or (ux_token_program (ur_extra requirements))
    (XOther "matched requirement missing token program") in
  let? token_program := x402_key "invalid matched token program" token_program_text in
  let? distribution := distribution srv in
  let? channel_id := x402_key "invalid channelId" (X402Upto.up_channel_id payload) in
  let? payer := x402_key "invalid payer" (up_from payload) in
  let? max := payload_max_amount payload in
  Ok {| rq_payload := payload; rq_requirements := requirements; rq_program_id := program_id; rq_mint := mint;
        rq_token_program := token_program; rq_distribution := distribution; rq_channel_id := channel_id;
        rq_payer := payer; rq_max := max |}.

Definition ensure_channel_absent (channel_id : Pubkey) : upto_prog unit :=
  await? existing := ask (GetAccount channel_id) (fun e => XRpc ("channel account read failed: " +:+ e)) in
  if decide (is_Some existing)
  then fail (XOther (ERR_CHANNEL_ALREADY_OPEN +:+ ": channel " +:+ channel_id
    +:+ " already exists; deposit settle must open it"))
  else Ret (Ok tt).

Definition expected_open (rq : OpenRequest) (recent_slot : option Z) : ExpectedUptoOpen := {|
  eo_program_id := rq_program_id rq; eo_rent_payer := us_fee_payer srv;
  eo_authorized_signer := us_receiver_authorizer srv; eo_payer := rq_payer rq; eo_payee := us_fee_payer srv;
  eo_mint := rq_mint rq; eo_token_program := rq_token_program rq; eo_channel_id := rq_channel_id rq;
  eo_max_amount := Some (rq_max rq); eo_grace_period := Some (uc_withdraw_delay (us_config srv));
  eo_nonce := Some (up_nonce (rq_payload rq)); eo_open_slot := Some (up_open_slot (rq_payload rq));
  eo_recent_slot := recent_slot; eo_memo := ux_memo (ur_extra (rq_requirements rq));
  eo_recipients := Some (rq_distribution rq) |}.

(** The checks under the guard. *)
Definition open_checks (rq : OpenRequest) : upto_prog PreparedOpen :=
  await? open_tx := pure (ok_or (up_open_transaction (rq_payload rq))
    (XOther "payment-channel asset transfer method requires openTransaction (pull)")) in
  await? tx := pure (rmap_err x402_of_core (decode open_tx)) in
  await? _ := ensure_channel_absent (rq_channel_id rq) in
  await recent_slot := perform RecentSlot in
  await? _ := pure (validate_open_instruction tx (us_accepted_versions srv) (expected_open rq recent_slot)) in
  await? _ := pure (verify_payer_signature message_serialize signature_verify tx (rq_payer rq)) in
  Ret (Ok {| pr_tx := tx; pr_requirements := rq_requirements rq; pr_payer := rq_payer rq;
             pr_channel_id := rq_channel_id rq; pr_max := rq_max rq; pr_expected_mint := rq_mint rq;
             pr_token_program := rq_token_program rq; pr_program_id := rq_program_id rq;
             pr_expected_payee := us_fee_payer srv; pr_expected_distribution := rq_distribution rq;
             pr_expires_at := up_expires_at (rq_payload rq) |}).

Definition prepare_open (header : string) (offered : list UptoRequirements) (now : Z) :
    upto_prog PreparedOpen :=
  await? rq := pure (open_request header offered now) in
  await entered := perform (TryEnter (rq_channel_id rq)) in
  if (entered : bool) then guarded (rq_channel_id rq) (open_checks rq)
  else fail (XOther "channel is already being processed (concurrent request)").

(** The loop over the recipients other than the fee payer. *)
Fixpoint ensure_payouts (mint token_program : Pubkey) (entries : list Distribution) : upto_prog unit :=
  match entries with
  | [] => Ret (Ok tt)
  | entry :: entries =>
      let recipient := dist_recipient entry in
      let ata := find_associated_token_address recipient mint token_program in
      await? account := ask (GetAccount ata) (fun e => XRpc ("payout token account read failed: " +:+ e)) in
      let problem := match account with
                     | None => Some "does not exist"
                     | Some account => unusable_settlement_account (oa_program account) (oa_data account)
                                         recipient mint token_program
                     end in
      match problem with
      | Some problem => fail (XOther ("payout token account " +:+ ata +:+ " of " +:+ recipient +:+ " "
          +:+ problem +:+ "; it must be an initialized token account before payments settle to it"))
      | None => ensure_payouts mint token_program entries
      end
  end.

Definition ensure_payouts_ready (mint token_program : Pubkey) (entries : list Distribution) : upto_prog unit :=
  ensure_payouts mint token_program (filter (fun entry => dist_recipient entry <> us_fee_payer srv) entries).

Definition fetch_channel (channel_id : Pubkey) : upto_prog ChannelAccount :=
  await? data := ask (GetAccountData channel_id) (fun e => XRpc ("channel account fetch failed: " +:+ e)) in
  pure (rmap_err (fun e => XOther ("channel decode failed: " +:+ e)) (channel_from_bytes data)).

(** The comparison of the confirmed channel with what was prepared. *)
Definition bind_channel (prepared : PreparedOpen) (channel : ChannelAccount) : result unit X402Error :=
  if decide (ca_status channel <> CHANNEL_STATUS_OPEN)
  then Err (XOther "channel is not open after broadcast") else
  if decide (ca_mint channel <> pr_expected_mint prepared)
  then Err (XMintMismatch (pr_expected_mint prepared) (ca_mint channel)) else
  if decide (ca_payee channel <> pr_expected_payee prepared)
  then Err (XRecipientMismatch (pr_expected_payee prepared) (ca_payee channel)) else
  if decide (ca_distribution_hash channel <> distribution_hash (pr_expected_distribution prepared))
  then Err (XOther "channel distribution does not match the expected recipient split") else
  if decide (ca_authorized_signer channel <> us_receiver_authorizer srv)
  then Err (XOther "channel authorized_signer is not the receiver authorizer") else
  if decide (ca_rent_payer channel <> us_fee_payer srv)
  then Err (XOther "channel rent_payer is not the fee payer") else
  if decide (ca_grace_period channel <> uc_withdraw_delay (us_config srv))
  then Err (XOther ("channel withdraw delay " +:+ pretty (ca_grace_period channel)
    +:+ " does not match advertised " +:+ pretty (uc_withdraw_delay (us_config srv)))) else
  if decide (ca_deposit channel <> pr_max prepared)
  then Err (XOther ("on-chain deposit " +:+ pretty (ca_deposit channel) +:+ " != authorized maximum "
    +:+ pretty (pr_max prepared) +:+ ": the deposit is the enforced ceiling and `topUp` can raise an open channel's deposit, so it must equal the authorized amount exactly - `>=` would leave the x402 ceiling advisory rather than enforced")) else
  if decide (ca_payer channel <> pr_payer prepared)
  then Err (XOther ("channel payer " +:+ ca_payer channel +:+ " does not match payload.from "
    +:+ pr_payer prepared))
  else Ok tt.

(** From the prepared open to the verified one. *)
Definition finish_open (prepared : PreparedOpen) : upto_prog VerifiedUptoOpen :=
  await? _ := ensure_payouts_ready (pr_expected_mint prepared) (pr_token_program prepared)
    (pr_expected_distribution prepared) in
  await? tx := pure (rmap_err x402_of_core
    (cosign_fee_payer (uc_fee_payer_signer (us_config srv)) (us_fee_payer srv) (pr_tx prepared))) in
  await? _ := ask (SendOpen tx) (fun e => XRpc ("open broadcast failed: " +:+ e)) in
  await? channel := fetch_channel (pr_channel_id prepared) in
  await? _ := pure (bind_channel prepared channel) in
  Ret (Ok {| vo_channel_id := pr_channel_id prepared; vo_payer := pr_payer prepared;
             vo_rent_payer := ca_rent_payer channel; vo_mint := pr_expected_mint prepared;
             vo_token_program := pr_token_program prepared; vo_program_id := pr_program_id prepared;
             vo_deposit := ca_deposit channel; vo_max_amount := pr_max prepared;
             vo_expires_at := pr_expires_at prepared; vo_network := ur_network (pr_requirements prepared);
             vo_payee := pr_expected_payee prepared; vo_distribution := pr_expected_distribution prepared |}).

Definition verify_open_for_route (header max_amount : string) (route : option string) :
    upto_prog VerifiedUptoOpen :=
  await? offered := pure (offered srv max_amount route) in
  await now := perform NowUnix in
  await? prepared := prepare_open header offered now in
  guarded (pr_channel_id prepared) (finish_open prepared).

Definition verify_open (header max_amount : string) : upto_prog VerifiedUptoOpen :=
  verify_open_for_route header max_amount None.

(** * Settlement *)

(** [sign_message] of the receiver authorizer. *)
Context (sign_message : list byte -> result (list byte) string).

Definition settlement_voucher_expiry (now : Z) : Z :=
  let ttl := Z.max (uc_max_timeout_seconds (us_config srv)) MIN_SETTLEMENT_VOUCHER_TTL_SECONDS in
  i64_saturating_add now (as_secs ttl).

Definition distribute_instructions (clearance : DistributeClearance) (payer rent_payer mint : Pubkey)
    (recipients : list Distribution) (token_program program_id : Pubkey) : list Instruction :=
  let channel := cleared_channel clearance in
  let fee_payer := us_fee_payer srv in
  [build_create_associated_token_account_instruction fee_payer fee_payer mint token_program;
   build_create_associated_token_account_instruction fee_payer (upto_treasury_owner srv) mint token_program;
   build_distribute_instruction channel payer rent_payer fee_payer (upto_treasury_owner srv) mint recipients
     token_program program_id].

(** Reads the payer's refund account only when a refund is due. *)
Definition sealed_refund (terms : SealedRefundTerms) (sealed_at now : Z) : upto_prog PayerRefund :=
  let deadline := {| rd_sealed_at := sealed_at; rd_grace_period := uc_withdraw_delay (us_config srv) |} in
  if decide (refund_due terms = 0) then Ret (Ok (payer_refund terms None deadline now)) else
  let address := payer_token_account terms in
  await? account := ask (GetAccount address) (fun e => XRpc ("payer refund account " +:+ address +:+ ": " +:+ e)) in
  Ret (Ok (payer_refund terms account deadline now)).

Definition voucher_panics : X402Error := XOther "voucher message fits in ed25519 instruction".

(** [settle_and_seal], with the voucher when something is charged. *)
Definition seal_instructions (open : VerifiedUptoOpen) (actual expires_at : Z) :
    result (list Instruction) X402Error :=
  if decide (actual = 0)
  then ok_or (build_settle_and_seal_instructions (us_fee_payer srv) (vo_channel_id open)
    (us_receiver_authorizer srv) None 0 expires_at (vo_program_id open)) voucher_panics
  else
  let? signature := rmap_err (fun e => XOther ("voucher signing failed: " +:+ e))
    (sign_message (voucher_message_bytes (key_bytes (vo_channel_id open)) actual expires_at)) in
  ok_or (build_settle_and_seal_instructions (us_fee_payer srv) (vo_channel_id open)
    (us_receiver_authorizer srv) (Some signature) actual expires_at (vo_program_id open)) voucher_panics.

Definition build_settlement_instructions (open : VerifiedUptoOpen) (actual : Z) :
    upto_prog (list Instruction) :=
  await? _ := pure (assert_settlement_within_ceiling actual (vo_max_amount open)) in
  await signed_at := perform NowUnix in
  await? instructions := pure (seal_instructions open actual (settlement_voucher_expiry signed_at)) in
  await now := perform NowUnix in
  await? decision := sealed_refund {| st_channel := vo_channel_id open; st_payer := vo_payer open;
    st_mint := vo_mint open; st_token_program := vo_token_program open; st_deposit := vo_deposit open;
    st_settled := actual; st_payer_withdrawn_at := 0 |} now now in
  match clearance decision with
  | None => Ret (Ok instructions)
  | Some clearance => Ret (Ok (instructions ++ distribute_instructions clearance (vo_payer open)
      (vo_rent_payer open) (vo_mint open) (vo_distribution open) (vo_token_program open) (vo_program_id open)))
  end.

Definition settlement_response (open : VerifiedUptoOpen) (actual : Z) (signature : string) :
    UptoSettlementResponse := {|
  sr_success := true; sr_payer := Some (vo_payer open); sr_transaction := signature;
  sr_network := vo_network open; sr_amount := pretty actual |}.

(** [Signature::to_string] of a signature's bytes is the node's text of it. *)
Definition settle_actual (open : VerifiedUptoOpen) (actual : Z) : upto_prog UptoSettlementResponse :=
  await? instructions := build_settlement_instructions open actual in
  await? blockhash := ask LatestBlockhash (fun e => XRpc ("blockhash fetch failed: " +:+ e)) in
  await? tx := pure (rmap_err x402_of_core (build_unsigned (highest (us_accepted_versions srv))
    (us_fee_payer srv) instructions blockhash None)) in
  await? tx := pure (rmap_err (fun e => XOther ("fee payer signing failed: " +:+ core_error_text e))
    (sign_versioned_transaction_slot (uc_fee_payer_signer (us_config srv)) tx)) in
  await? submitted := pure (ok_or (encode_64 <$> head (signatures tx))
    (XOther "settlement transaction has no signature")) in
  await outcome := perform (SendSettlement tx) in
  match outcome with
  | Ok signature => Ret (Ok (settlement_response open actual signature))
  | Err (NotLanded e) => fail (XRpc ("settle broadcast failed: not landed: " +:+ e))
  | Err (FailedOnChain e) => fail (XRpc ("settle broadcast failed: failed on-chain: " +:+ e))
  | Err (Unknown _) => fail (XSettlementPending submitted)
  end.

(** A request: the open is verified, the metered amount settled, and the open
    dropped with its in-flight slot. *)
Definition serve (meter : VerifiedUptoOpen -> Z) (header max_amount : string) (route : option string) :
    upto_prog UptoSettlementResponse :=
  await? open := verify_open_for_route header max_amount route in
  await response := settle_actual open (meter open) in
  await _ := perform (Leave (vo_channel_id open)) in
  Ret response.
End requests.

(** * Interleaved requests *)

(** What a request saw and did: the clock, the slot, the accounts it read, the open
    it sent. *)
Inductive upto_event :=
| ClockRead (now : Z)
| SlotRead (slot : option Z)
| AccountRead (key : Pubkey) (answer : result (option ObservedAccount) string)
| ChannelRead (key : Pubkey) (answer : result (list byte) string)
| OpenSent (tx : VersionedTransaction) (answer : result unit string).

(** The state requests share: the in-flight set, and the journal of what all of
    them saw and did, newest first. *)
Record upto_state := { in_flight : gset Pubkey; journal : list upto_event }.

(** What the clock and the node answer to one operation. *)
Record answers := {
  an_now : Z;
  an_slot : option Z;
  an_account : result (option ObservedAccount) string;
  an_data : result (list byte) string;
  an_open : result unit string;
  an_blockhash : result (list byte) string;
  an_settlement : result string BroadcastFailure;
}.

Definition upto_entry (X : Type) (e : upto_op X) : X -> list upto_event :=
  match e in upto_op X return X -> list upto_event with
  | NowUnix => fun now => [ClockRead now]
  | RecentSlot => fun slot => [SlotRead slot]
  | GetAccount key => fun a => [AccountRead key a]
  | GetAccountData key => fun a => [ChannelRead key a]
  | SendOpen tx => fun a => [OpenSent tx a]
  | _ => fun _ => []
  end.

Definition upto_answer (X : Type) (f : answers) (e : upto_op X) : gset Pubkey -> X * gset Pubkey :=
  match e in upto_op X return gset Pubkey -> X * gset Pubkey with
  | TryEnter c => fun l => if decide (c ∈ l) then (false, l) else (true, {[c]} ∪ l)
  | Leave c => fun l => (tt, l ∖ {[c]})
  | NowUnix => fun l => (an_now f, l)
  | RecentSlot => fun l => (an_slot f, l)
  | GetAccount _ => fun l => (an_account f, l)
  | GetAccountData _ => fun l => (an_data f, l)
  | SendOpen _ => fun l => (an_open f, l)
  | LatestBlockhash => fun l => (an_blockhash f, l)
  | SendSettlement _ => fun l => (an_settlement f, l)
  end.

Definition upto_exec (X : Type) (f : answers) (e : upto_op X) (s : upto_state) : X * upto_state :=
  let '(x, l) := upto_answer X f e (in_flight s) in
  (x, {| in_flight := l; journal := upto_entry X e x ++ journal s |}).

(** A call of [verify_open_for_route]. *)
Record UptoCall := { ul_header : string; ul_max_amount : string; ul_route : option string }.

Section interleaved.
Context {Key : Type} `{Crypto Key, Addresses, !AddressesLaws} `{V1Format} `{Codec} `{EnvelopeCodec} `{DebugText}.
Context (message_serialize : VersionedMessage -> list byte).
Context (signature_verify : list byte -> Pubkey -> list byte -> bool).
Context (srv : UptoServer) `{!SignerLaws (uc_fee_payer_signer (us_config srv))}.
Context (sign_message : list byte -> result (list byte) string).

Definition key_named (value : string) (key : Pubkey) : Prop :=
  exists bytes, pubkey_from_str value = Ok bytes /\ key = key_of_bytes bytes.

(** A requirement this server advertises for a call: the ceiling in one of its
    currencies, its own keys, the payout and the route's memo. *)
Record advertises (call : UptoCall) (cc : CurrencyConfig) (r : UptoRequirements) : Prop := {
  ad_currency : cc ∈ uc_currencies (us_config srv);
  ad_amount : exists units,
    Units.parse_units (String.list_ascii_of_string (ul_max_amount call)) (cu_decimals cc) = Ok units /\
    ur_amount r = String.string_of_list_ascii units;
  ad_asset : mint_for srv cc = Ok (ur_asset r);
  ad_token_program : exists program, token_program_for srv cc = Ok program /\
    ux_token_program (ur_extra r) = Some program;
  ad_network : ur_network r = caip2_network_for_cluster (uc_cluster (us_config srv));
  ad_timeout : ur_max_timeout_seconds r = uc_max_timeout_seconds (us_config srv);
  ad_pay_to : ur_pay_to r = pay_to srv;
  ad_memo : ux_memo (ur_extra r) = route_memo <$> ul_route call;
}.

(** The deadline of an authorization, within the challenge's window and the
    sponsor's channel lifetime. *)
Definition timely (payload : UptoPayload) (now : Z) : Prop :=
  up_valid_after payload <= now /\ up_expires_at payload <> 0 /\ now < up_expires_at payload /\
  (in_i64 (up_expires_at payload) -> 0 <= now <= i64_max ->
   in_u64 (uc_max_channel_lifetime (us_config srv)) -> in_u64 (uc_max_timeout_seconds (us_config srv)) ->
   uc_max_timeout_seconds (us_config srv) <= uc_max_channel_lifetime (us_config srv) /\
   up_expires_at payload <= now + uc_max_timeout_seconds (us_config srv) + EXPIRES_AT_CLOCK_SKEW_SECONDS).

(** A request that answers a challenge of this server for the call, at [now]. *)
Record challenged (call : UptoCall) (now : Z) (rq : OpenRequest) : Prop := {
  ch_terms : exists cc, advertises call cc (rq_requirements rq);
  ch_envelope : exists envelope accepted, decode_envelope (ul_header call) = Ok envelope /\
    ue_scheme envelope = Some UPTO_SCHEME /\ ue_network envelope = Some (ur_network (rq_requirements rq)) /\
    ue_payload envelope = rq_payload rq /\ ue_accepted envelope = Ok accepted /\
    strip_upto_blockhash_hints accepted = strip_upto_blockhash_hints (rq_requirements rq);
  ch_amount : parse_u64 (ur_amount (rq_requirements rq)) = Some (rq_max rq) /\
    parse_u64 (up_max_amount (rq_payload rq)) = Some (rq_max rq) /\
    parse_u64 (up_deposit (rq_payload rq)) = Some (rq_max rq);
  ch_timely : timely (rq_payload rq) now;
  ch_signer : up_authorized_signer (rq_payload rq) = us_receiver_authorizer srv;
  ch_program : match uc_program_id (us_config srv) with
               | Some value => key_named value (rq_program_id rq)
               | None => rq_program_id rq = default_program_id
               end;
  ch_mint : key_named (ur_asset (rq_requirements rq)) (rq_mint rq);
  ch_token_program : exists program, ux_token_program (ur_extra (rq_requirements rq)) = Some program /\
    key_named program (rq_token_program rq);
  ch_payout : exists recipient, key_named (pay_to srv) recipient /\
    rq_distribution rq = sole_recipient recipient;
  ch_channel : key_named (X402Upto.up_channel_id (rq_payload rq)) (rq_channel_id rq);
  ch_payer : key_named (up_from (rq_payload rq)) (rq_payer rq);
}.

(** An open the server put its signature on: the exact open of a request, signed by
    its payer, with the server's signature in the fee-payer slot alone. *)
Definition sponsored_open (rq : OpenRequest) (slot : option Z) (signed : VersionedTransaction) : Prop :=
  exists tx ix args, cosigned (us_fee_payer srv) tx signed /\ upto_open tx (expected_open srv rq slot) ix args /\
    exists i signature, static_account_keys (body (message tx)) !! i = Some (rq_payer rq) /\
      signatures tx !! i = Some signature /\
      signature_verify signature (rq_payer rq) (message_serialize (message tx)) = true.

(** What the server saw before it sends an open: the request answers a challenge at
    the time it read, the channel's account does not exist, and the open is recent
    by the slot it read. *)
Definition authorized (call : UptoCall) (rq : OpenRequest) (log : list upto_event) (signed : VersionedTransaction) :
    Prop :=
  exists now slot, challenged call now rq /\ sponsored_open rq slot signed /\
    [SlotRead slot; AccountRead (rq_channel_id rq) (Ok None); ClockRead now] `sublist_of` log.

(** The channel a request asks for, as the chain holds it. *)
Record opened_channel (rq : OpenRequest) (channel : ChannelAccount) : Prop := {
  och_open : ca_status channel = CHANNEL_STATUS_OPEN;
  och_mint : ca_mint channel = rq_mint rq;
  och_payee : ca_payee channel = us_fee_payer srv;
  och_distribution : ca_distribution_hash channel = distribution_hash (rq_distribution rq);
  och_signer : ca_authorized_signer channel = us_receiver_authorizer srv;
  och_rent_payer : ca_rent_payer channel = us_fee_payer srv;
  och_grace : ca_grace_period channel = uc_withdraw_delay (us_config srv);
  och_deposit : ca_deposit channel = rq_max rq;
  och_payer : ca_payer channel = rq_payer rq;
}.

(** What a verified open says, of the channel read back from the chain. *)
Record bound_open (rq : OpenRequest) (channel : ChannelAccount) (open : VerifiedUptoOpen) : Prop := {
  bo_channel : vo_channel_id open = rq_channel_id rq;
  bo_payer : vo_payer open = ca_payer channel;
  bo_rent_payer : vo_rent_payer open = ca_rent_payer channel;
  bo_mint : vo_mint open = ca_mint channel;
  bo_token_program : vo_token_program open = rq_token_program rq;
  bo_program : vo_program_id open = rq_program_id rq;
  bo_max : vo_max_amount open = rq_max rq;
  bo_deposit : vo_deposit open = ca_deposit channel;
  bo_payee : vo_payee open = ca_payee channel;
  bo_distribution : distribution_hash (vo_distribution open) = ca_distribution_hash channel;
  bo_shares : vo_distribution open = rq_distribution rq;
  bo_expiry : vo_expires_at open = up_expires_at (rq_payload rq);
  bo_network : vo_network open = ur_network (rq_requirements rq);
}.

(** A verified open of a call: an authorized open was sent and confirmed, and the
    channel read back afterwards is the one the request asks for. *)
Definition verified_by (call : UptoCall) (log : list upto_event) (open : VerifiedUptoOpen) : Prop :=
  exists rq signed data channel older, authorized call rq older signed /\
    ChannelRead (rq_channel_id rq) (Ok data) :: OpenSent signed (Ok tt) :: older `sublist_of` log /\
    channel_from_bytes data = Ok channel /\ opened_channel rq channel /\ bound_open rq channel open.

(** The ghost of a request: its call, the channel it holds, and its own part of the
    journal. *)
Record hold := { h_call : UptoCall; h_channel : option Pubkey; h_log : list upto_event }.

Definition may_do (X : Type) (g : hold) (e : upto_op X) : Prop :=
  match e with
  | TryEnter _ => h_channel g = None
  | Leave c => h_channel g = Some c
  | SendOpen tx => exists rq, h_channel g = Some (rq_channel_id rq) /\ authorized (h_call g) rq (h_log g) tx
  | _ => True
  end.

Definition channel_after (X : Type) (g : hold) (e : upto_op X) : X -> option Pubkey :=
  match e in upto_op X return X -> option Pubkey with
  | TryEnter c => fun entered => if (entered : bool) then Some c else None
  | Leave _ => fun _ => None
  | _ => fun _ => h_channel g
  end.

Definition holds (X : Type) (g : hold) (e : upto_op X) (x : X) : hold :=
  {| h_call := h_call g; h_channel := channel_after X g e x; h_log := upto_entry X e x ++ h_log g |}.

Abbreviation certified_open := (certified may_do holds).

(** A request goes on: the same call and channel, a longer journal. *)
Definition stays (g g' : hold) : Prop :=
  h_call g' = h_call g /\ h_channel g' = h_channel g /\ h_log g `sublist_of` h_log g'.

#[local] Instance stays_preorder : PreOrder stays.
Proof.
  split; [done|]. intros g1 g2 g3 (? & ? & ?) (? & ? & ?).
  split_and!; [congruence|congruence|by etrans].
Qed.

(** The slot is held after a success, free after an error. *)
Definition keeps {A} (channel_of : A -> Pubkey) (fact : hold -> A -> Prop) (call : UptoCall) (g' : hold)
    (r : result A X402Error) : Prop :=
  h_call g' = call /\
  match r with Ok a => h_channel g' = Some (channel_of a) /\ fact g' a | Err _ => h_channel g' = None end.

Definition same {A} (fact : hold -> A -> Prop) (g g' : hold) (r : result A X402Error) : Prop :=
  stays g g' /\ match r with Ok a => fact g' a | Err _ => True end.

Definition anything {A} (g : hold) (a : A) : Prop := True.

Lemma certified_pure {A} (r : result A X402Error) g : certified_open (same (fun g' a => g' = g /\ r = Ok a) g) g (pure r).
Proof. unfold pure, same. simpl. by destruct r. Qed.

Lemma certified_ask {A} (op : upto_op (result A string)) err g :
  may_do _ g op -> (forall x, channel_after _ g op x = h_channel g) ->
  certified_open (same (fun g' a => h_log g' = upto_entry _ op (Ok a) ++ h_log g) g) g (ask op err).
Proof.
  intros Hm Hh. split; [done|]. intros x. split; [|by destruct x].
  split_and!; [done|apply Hh|]. by apply sublist_inserts_l.
Qed.

Lemma certified_same_mono {A} (fact fact' : hold -> A -> Prop) g (p : upto_prog A) :
  (forall g' a, stays g g' -> fact g' a -> fact' g' a) ->
  certified_open (same fact g) g p -> certified_open (same fact' g) g p.
Proof. intros Hf. apply certified_mono. intros g' [a|e] [Hg Ha]; split; auto. Qed.

(** A step of a body under the guard. *)
Lemma certified_seq {A B} (fact : hold -> A -> Prop) (post : hold -> B -> Prop) g (p : upto_prog A)
    (k : A -> upto_prog B) :
  certified_open (same fact g) g p ->
  (forall g' a, stays g g' -> fact g' a -> certified_open (same post g') g' (k a)) ->
  certified_open (same post g) g (ptry k p).
Proof.
  intros Hp Hk. apply certified_ptry. eapply certified_mono; [|exact Hp].
  intros g' [a|e] [Hg Ha]; [|done]. eapply certified_mono; [|by apply Hk].
  intros g'' [b|e] [Hg' Hb]; (split; [by etrans|done]).
Qed.

Lemma certified_guarded {A} (channel : Pubkey) (channel_of : A -> Pubkey) fact g (p : upto_prog A) :
  h_channel g = Some channel ->
  certified_open (same (fun g' a => channel_of a = channel /\ fact g' a) g) g p ->
  certified_open (keeps channel_of fact (h_call g)) g (guarded channel p).
Proof.
  intros Hg Hp. apply certified_pbind. eapply certified_mono; [|exact Hp].
  intros g' [a|e] [(Hcall & Hch & _) Ha]; rewrite Hg in Hch.
  - destruct Ha as [<- Ha]. done.
  - done.
Qed.

Lemma certified_absent channel g :
  certified_open (same (fun g' _ => h_log g' = AccountRead channel (Ok None) :: h_log g) g) g
    (ensure_channel_absent channel).
Proof.
  unfold ensure_channel_absent. eapply certified_seq; [by apply certified_ask|].
  intros g' existing _ Hlog. case_decide as Hn; [done|]. split; [done|].
  destruct existing; [by destruct Hn|]. exact Hlog.
Qed.

Lemma certified_payouts mint token_program entries g :
  certified_open (same anything g) g (ensure_payouts mint token_program entries).
Proof.
  revert g. induction entries as [|entry entries IH]; intros g; [done|]. cbn [ensure_payouts].
  eapply certified_seq; [by apply certified_ask|]. intros g' account _ _.
  destruct (match account with None => _ | Some _ => _ end); [done|apply IH].
Qed.

(** What the prepared open is. *)
Definition prepared_for (call : UptoCall) (rq : OpenRequest) (log : list upto_event) (prepared : PreparedOpen) : Prop :=
  exists now slot, challenged call now rq /\
    [SlotRead slot; AccountRead (rq_channel_id rq) (Ok None); ClockRead now] `sublist_of` log /\
    (exists ix args, upto_open (pr_tx prepared) (expected_open srv rq slot) ix args) /\
    verify_payer_signature message_serialize signature_verify (pr_tx prepared) (rq_payer rq) = Ok tt /\
    pr_requirements prepared = rq_requirements rq /\ pr_payer prepared = rq_payer rq /\
    pr_channel_id prepared = rq_channel_id rq /\ pr_max prepared = rq_max rq /\
    pr_expected_mint prepared = rq_mint rq /\ pr_token_program prepared = rq_token_program rq /\
    pr_program_id prepared = rq_program_id rq /\ pr_expected_payee prepared = us_fee_payer srv /\
    pr_expected_distribution prepared = rq_distribution rq /\
    pr_expires_at prepared = up_expires_at (rq_payload rq).

Lemma certified_query {X A} (op : upto_op X) (k : X -> upto_prog A) post g :
  may_do _ g op -> (forall x, channel_after _ g op x = h_channel g) ->
  (forall x, certified_open (same post (holds _ g op x)) (holds _ g op x) (k x)) ->
  certified_open (same post g) g (pbind k (perform op)).
Proof.
  intros Hm Hh Hk. split; [done|]. intros x. eapply certified_mono; [|apply Hk].
  intros g' r [Hg Hr]. split; [|done]. etrans; [|exact Hg]. split_and!; [done|apply Hh|].
  by apply sublist_inserts_l.
Qed.

Lemma certified_open_checks rq now g :
  challenged (h_call g) now rq -> [ClockRead now] `sublist_of` h_log g ->
  certified_open (same (fun g' => prepared_for (h_call g') rq (h_log g')) g) g
    (open_checks message_serialize signature_verify srv rq).
Proof.
  intros Hch Hclock. unfold open_checks.
  eapply certified_seq; [apply certified_pure|]. intros ? open_tx _ [-> _].
  eapply certified_seq; [apply certified_pure|]. intros ? tx _ [-> _].
  eapply certified_seq; [apply certified_absent|]. intros g' [] (Hcall & _) Habsent.
  apply certified_query; [done..|]. intros slot.
  eapply certified_seq; [apply certified_pure|]. intros ? [] _ [-> Hval].
  eapply certified_seq; [apply certified_pure|]. intros ? [] _ [-> Hsig].
  apply validate_open_ok in Hval as [_ Hopen].
  split; [done|]. exists now, slot. split_and!; try done; simpl.
  - by rewrite Hcall.
  - rewrite Habsent. by do 2 apply sublist_skip.
Qed.

Lemma bind_channel_ok rq prepared channel :
  pr_expected_mint prepared = rq_mint rq -> pr_expected_payee prepared = us_fee_payer srv ->
  pr_expected_distribution prepared = rq_distribution rq -> pr_max prepared = rq_max rq ->
  pr_payer prepared = rq_payer rq ->
  bind_channel srv prepared channel = Ok tt -> opened_channel rq channel.
Proof.
  intros Hmint Hpayee Hdist Hmax Hpayer. unfold bind_channel. repeat (case_decide; [done|]). intros _.
  split; congruence.
Qed.

Lemma certified_fetch channel g :
  certified_open (same (fun g' c => exists data, h_log g' = ChannelRead channel (Ok data) :: h_log g /\
    channel_from_bytes data = Ok c) g) g (fetch_channel channel).
Proof.
  unfold fetch_channel. eapply certified_seq; [by apply certified_ask|]. intros g' data _ Hlog.
  eapply certified_same_mono; [|apply certified_pure]. intros ? c _ [-> Hc%rmap_err_ok]. by exists data.
Qed.

Lemma certified_finish rq prepared g :
  h_channel g = Some (rq_channel_id rq) -> prepared_for (h_call g) rq (h_log g) prepared ->
  certified_open (same (fun g' open => vo_channel_id open = rq_channel_id rq /\
      verified_by (h_call g') (h_log g') open) g) g (finish_open srv prepared).
Proof.
  intros Hheld (now & slot & Hch & Hlog & (ix & args & Hopen) & Hsig & Hreq & Hpayer & Hid & Hmax & Hmint & Htp &
    Hprog & Hpayee & Hdist & Hexp).
  unfold finish_open. eapply certified_seq; [apply certified_payouts|]. intros g1 _ (Hcall & Hheld1 & Hlog1) _.
  eapply certified_seq; [apply certified_pure|]. intros ? signed _ [-> Hsigned%rmap_err_ok].
  assert (Hauth : authorized (h_call g) rq (h_log g1) signed).
  { exists now, slot. split_and!; [done| |by etrans]. exists (pr_tx prepared), ix, args.
    apply verify_payer_signature_ok in Hsig as (i & signature & _ & Hkey & Hi & Hv).
    split_and!; [by eapply cosign_fee_payer_ok|done|by exists i, signature]. }
  eapply certified_seq.
  { apply certified_ask; [|done]. exists rq. split; [congruence|]. by rewrite Hcall. }
  intros g2 [] (Hcall2 & _) Hsent. eapply certified_seq; [apply certified_fetch|].
  intros g3 channel (Hcall3 & _) (data & Hread & Hdata).
  eapply certified_seq; [apply certified_pure|]. intros ? [] _ [-> Hbind].
  apply (bind_channel_ok rq) in Hbind; [|done..]. split; [done|]. split; [done|].
  exists rq, signed, data, channel, (h_log g1). split_and!; try done.
  - by rewrite Hcall3, Hcall2, Hcall.
  - rewrite Hread, Hsent. by rewrite Hid.
  - destruct Hbind. split; simpl; congruence.
Qed.

Lemma key_named_ok what value key : x402_key what value = Ok key -> key_named value key.
Proof.
  unfold x402_key. destruct (pubkey_from_str value) as [bytes|] eqn:Hb; [|done]. intros [= <-]. by exists bytes.
Qed.

Lemma offered_advertises call l r :
  offered srv (ul_max_amount call) (ul_route call) = Ok l -> r ∈ l -> exists cc, advertises call cc r.
Proof.
  intros Hl%collect_ok [i Hi]%list_elem_of_lookup.
  destruct (Forall2_lookup_r _ _ _ _ _ Hl Hi) as (cc & Hcc & Hr).
  apply rbind_ok in Hr as (units & Hunits%rmap_err_ok & Hr).
  apply rbind_ok in Hr as (mint & Hmint & (program & Hprogram & [= <-])%rbind_ok).
  exists cc. split; simpl; try done; [by eapply list_elem_of_lookup_2|by exists units|by exists program].
Qed.

Lemma payload_facts payload r now :
  verify_upto_payload payload r (us_receiver_authorizer srv) (uc_max_channel_lifetime (us_config srv)) now = Ok tt ->
  ur_max_timeout_seconds r = uc_max_timeout_seconds (us_config srv) ->
  timely payload now /\ up_authorized_signer payload = us_receiver_authorizer srv /\
  exists max, parse_u64 (ur_amount r) = Some max /\ parse_u64 (up_max_amount payload) = Some max /\
    parse_u64 (up_deposit payload) = Some max.
Proof.
  intros Hv Ht. assert (Hwin : timely payload now).
  { unfold timely. rewrite <-Ht. unfold verify_upto_payload in Hv.
    apply rbind_ok in Hv as (max & _ & (signed & _ & Hv)%rbind_ok). case_decide; [done|].
    apply rbind_ok in Hv as (deposit & _ & Hv). repeat (case_decide; [done|]).
    apply rbind_ok in Hv as ([] & Hlife & _). split_and!; [lia|lia|lia|]. intros He Hn Hl Hm.
    apply verify_upto_lifetime_ok in Hlife; [done..|lia]. }
  split; [done|]. unfold verify_upto_payload, requirements_max_amount, payload_max_amount, payload_deposit in Hv.
  apply rbind_ok in Hv as (max & Hmax%parse_or_ok & (signed & Hs%parse_or_ok & Hv)%rbind_ok). case_decide; [done|].
  apply rbind_ok in Hv as (deposit & Hd%parse_or_ok & Hv). repeat (case_decide; [done|]).
  apply rbind_ok in Hv as ([] & _ & Hv). case_decide; [done|]. subst. split; [done|]. by exists max.
Qed.

Lemma matched_offer l accepted r :
  match_offered_requirement l accepted = Ok r ->
  r ∈ l /\ exists a, accepted = Ok a /\ strip_upto_blockhash_hints a = strip_upto_blockhash_hints r.
Proof.
  intros (a & Ha%rmap_err_ok & Hm%ok_or_ok)%rbind_ok.
  destruct (list_find _ l) as [[i r']|] eqn:Hf; [|done]. injection Hm as ->.
  apply list_find_Some in Hf as (Hi & Hs & _). split; [by eapply list_elem_of_lookup_2|]. by exists a.
Qed.

Lemma open_request_challenged call l now rq :
  offered srv (ul_max_amount call) (ul_route call) = Ok l ->
  open_request srv (ul_header call) l now = Ok rq -> challenged call now rq.
Proof.
  intros Hl (envelope & Henv & (r & [Hr (a & Ha & Hstrip)]%matched_offer & ([] & Hpay & Hrest)%rbind_ok)%rbind_ok)%rbind_ok.
  case_decide as Hnet; [done|].
  apply rbind_ok in Hrest as (program & Hprogram & (mint & Hmint%key_named_ok & Hrest)%rbind_ok).
  apply rbind_ok in Hrest as (text & Htext%ok_or_ok & (tp & Htp%key_named_ok & Hrest)%rbind_ok).
  apply rbind_ok in Hrest as (dist & Hdist & (channel & Hchannel%key_named_ok & Hrest)%rbind_ok).
  apply rbind_ok in Hrest as (payer & Hpayer%key_named_ok & (max & Hmax%parse_or_ok & [= <-])%rbind_ok).
  destruct (offered_advertises _ _ _ Hl Hr) as [cc Hcc].
  destruct (payload_facts _ _ _ Hpay (ad_timeout _ _ _ Hcc)) as (Htime & Hsigner & m & Hm1 & Hm2 & Hm3).
  rewrite Hmax in Hm2. injection Hm2 as <-.
  apply rbind_ok in Henv as (envelope' & Hdec%rmap_err_ok & Hif). cbv zeta in Hif. case_decide as Hscheme; [done|].
  injection Hif as ->.
  split; simpl; try done.
  - by exists cc.
  - exists envelope, a. split_and!; try done. destruct (ue_scheme envelope); simpl in Hscheme; [by subst|discriminate Hscheme].
  - unfold upto_program_id in Hprogram. destruct (uc_program_id _); [by eapply key_named_ok|].
    by injection Hprogram as <-.
  - by exists text.
  - unfold distribution in Hdist. destruct (x402_key _ _) as [recipient|] eqn:Hk; [|done].
    injection Hdist as <-. exists recipient. split; [by eapply key_named_ok|done].
Qed.

Lemma certified_prepare call l g :
  h_call g = call -> h_channel g = None ->
  offered srv (ul_max_amount call) (ul_route call) = Ok l ->
  forall now, [ClockRead now] `sublist_of` h_log g ->
  certified_open (keeps pr_channel_id (fun g' prepared => exists rq,
      pr_channel_id prepared = rq_channel_id rq /\ prepared_for (h_call g') rq (h_log g') prepared) call) g
    (prepare_open message_serialize signature_verify srv (ul_header call) l now).
Proof.
  intros <- Hnone Hl now Hclock. unfold prepare_open. apply certified_ptry. unfold pure. simpl.
  destruct (open_request srv (ul_header (h_call g)) l now) as [rq|e] eqn:Hrq; [|done].
  apply open_request_challenged in Hrq; [|done].
  split; [done|]. intros [|]; [|done]. simpl.
  set (g1 := holds _ g _ _). assert (Hcall : h_call g1 = h_call g) by done.
  rewrite <-Hcall. apply (certified_guarded (rq_channel_id rq)); [done|].
  eapply certified_same_mono; [|by apply (certified_open_checks rq now)].
  intros g' prepared _ Hp. assert (pr_channel_id prepared = rq_channel_id rq)
    by (by destruct Hp as (? & ? & _ & _ & _ & _ & _ & _ & ? & _)).
  split; [done|]. by exists rq.
Qed.

Definition fresh (call : UptoCall) : hold := {| h_call := call; h_channel := None; h_log := [] |}.

Definition verify_call (c : UptoCall) : upto_prog VerifiedUptoOpen :=
  verify_open_for_route message_serialize signature_verify srv (ul_header c) (ul_max_amount c) (ul_route c).

Lemma certified_verify call :
  certified_open (keeps vo_channel_id (fun g open => verified_by (h_call g) (h_log g) open) call) (fresh call)
    (verify_call call).
Proof.
  unfold verify_call, verify_open_for_route. apply certified_ptry. unfold pure. simpl.
  destruct (offered srv (ul_max_amount call) (ul_route call)) as [l|e] eqn:Hl; [|done].
  split; [done|]. intros now. simpl. apply certified_ptry.
  eapply certified_mono; [|by apply (certified_prepare call l)].
  intros g [prepared|e] [Hcall Hr]; [|done]. destruct Hr as [Hheld (rq & Hid & Hp)].
  simpl in Hcall. rewrite <-Hcall. apply (certified_guarded (pr_channel_id prepared)); [done|].
  rewrite Hid. apply (certified_finish rq); [congruence|done].
Qed.

Lemma certified_settlement open actual g :
  certified_open (same anything g) g (settle_actual srv sign_message open actual).
Proof.
  unfold settle_actual. eapply (certified_seq anything).
  { unfold build_settlement_instructions. eapply certified_seq; [apply certified_pure|]. intros ? _ _ [-> _].
    apply certified_query; [done..|]. intros signed_at.
    eapply certified_seq; [apply certified_pure|]. intros ? ixs _ [-> _].
    apply certified_query; [done..|]. intros now.
    apply (certified_seq anything).
    - unfold sealed_refund. case_decide; [done|]. eapply certified_seq; [by apply certified_ask|].
      intros g' account _ _. done.
    - intros g' decision _ _. by destruct (clearance decision). }
  intros g1 ixs _ _. eapply certified_seq; [by apply certified_ask|]. intros g2 blockhash _ _.
  eapply certified_seq; [apply certified_pure|]. intros ? tx _ [-> _].
  eapply certified_seq; [apply certified_pure|]. intros ? signed _ [-> _].
  eapply certified_seq; [apply certified_pure|]. intros ? submitted _ [-> _].
  apply certified_query; [done..|]. by intros [signature|[]].
Qed.

Definition serve_call (meter : VerifiedUptoOpen -> Z) (c : UptoCall) : upto_prog UptoSettlementResponse :=
  serve message_serialize signature_verify srv sign_message meter (ul_header c) (ul_max_amount c) (ul_route c).

Lemma certified_serve meter call :
  certified_open (fun g _ => h_call g = call /\ h_channel g = None) (fresh call) (serve_call meter call).
Proof.
  unfold serve_call, serve. apply certified_ptry. eapply certified_mono; [|apply certified_verify].
  intros g [open|e]; [|done]. intros [Hcall [Hheld _]]. apply certified_pbind.
  eapply certified_mono; [|apply certified_settlement]. intros g' r [(Hc & Hh & _) _].
  split; [simpl; congruence|]. intros []. split; simpl; congruence.
Qed.

(** ** The shared state *)

Lemma held_taken (gs : list hold) i g g' c :
  gs !! i = Some g -> h_channel g = None -> h_channel g' = Some c ->
  omap h_channel (<[i := g']> gs) ≡ₚ c :: omap h_channel gs.
Proof.
  intros Hi Hn Hc. revert i Hi. induction gs as [|h gs IH]; intros [|i] Hi; simplify_eq/=.
  - by rewrite Hn, Hc.
  - destruct (h_channel h) as [c'|]; [|by apply IH]. rewrite (IH i Hi). by rewrite Permutation_swap.
Qed.

Lemma held_left (gs : list hold) i g g' c :
  gs !! i = Some g -> h_channel g = Some c -> h_channel g' = None ->
  omap h_channel gs ≡ₚ c :: omap h_channel (<[i := g']> gs).
Proof.
  intros Hi Hc Hn. revert i Hi. induction gs as [|h gs IH]; intros [|i] Hi; simplify_eq/=.
  - by rewrite Hn, Hc.
  - destruct (h_channel h) as [c'|]; [|by apply IH]. rewrite (IH i Hi). by rewrite Permutation_swap.
Qed.

Lemma held_same (gs : list hold) i g g' :
  gs !! i = Some g -> h_channel g' = h_channel g -> omap h_channel (<[i := g']> gs) = omap h_channel gs.
Proof.
  intros Hi Heq. revert i Hi. induction gs as [|h gs IH]; intros [|i] Hi; simplify_eq/=; [by rewrite Heq|].
  by rewrite (IH i Hi).
Qed.

(** The in-flight set is the channels the requests hold, one request each; every
    open in the journal was authorized by what precedes it. *)
Record upto_inv (calls : list UptoCall) (s : upto_state) (gs : list hold) : Prop := {
  ui_calls : h_call <$> gs = calls;
  ui_flight : in_flight s = list_to_set (omap h_channel gs);
  ui_distinct : NoDup (omap h_channel gs);
  ui_logs : Forall (fun g => h_log g `sublist_of` journal s) gs;
  ui_sent : forall later signed answer earlier, journal s = later ++ OpenSent signed answer :: earlier ->
    exists call rq, call ∈ calls /\ authorized call rq earlier signed;
}.

Lemma entry_single X (e : upto_op X) x : upto_entry X e x = [] \/ exists ev, upto_entry X e x = [ev].
Proof. destruct e; eauto. Qed.

Lemma upto_locks X f (e : upto_op X) x l l' gs i g :
  l = list_to_set (omap h_channel gs) -> NoDup (omap h_channel gs) ->
  gs !! i = Some g -> may_do X g e -> upto_answer X f e l = (x, l') ->
  l' = list_to_set (omap h_channel (<[i := holds X g e x]> gs)) /\
  NoDup (omap h_channel (<[i := holds X g e x]> gs)).
Proof.
  intros -> Hd Hi Hm Ha. destruct e; simpl in Hm, Ha;
    try (injection Ha as <- <-; by rewrite (held_same _ _ _ _ Hi)).
  - case_decide as Hc; injection Ha as <- <-; [by rewrite (held_same _ _ _ _ Hi)|].
    pose proof (held_taken _ _ _ (holds _ g (TryEnter channel) true) channel Hi Hm eq_refl) as Hp.
    split; [apply leibniz_equiv; by rewrite Hp, list_to_set_cons|].
    rewrite Hp. constructor; [|done]. by rewrite elem_of_list_to_set in Hc.
  - injection Ha as <- <-. pose proof (held_left _ _ _ (holds _ g (Leave channel) tt) channel Hi Hm eq_refl) as Hp.
    rewrite Hp in Hd. apply NoDup_cons in Hd as [Hn Hd]. split; [|done].
    apply leibniz_equiv. rewrite Hp, list_to_set_cons. set_solver.
Qed.

Lemma upto_step calls X f (e : upto_op X) x s s' gs i g :
  upto_inv calls s gs -> gs !! i = Some g -> may_do X g e -> upto_exec X f e s = (x, s') ->
  upto_inv calls s' (<[i := holds X g e x]> gs).
Proof.
  intros [Hcalls Hf Hd Hlogs Hsent] Hi Hm He. unfold upto_exec in He.
  destruct (upto_answer X f e (in_flight s)) as [x' l] eqn:Ha. injection He as -> <-.
  destruct (upto_locks _ _ _ _ _ _ _ _ _ Hf Hd Hi Hm Ha) as [Hf' Hd'].
  assert (Hlog : h_log g `sublist_of` journal s) by (by eapply (Forall_lookup_1 _ _ _ _ Hlogs)).
  split; simpl; try done.
  - rewrite list_fmap_insert. simpl. rewrite list_insert_id; [done|]. by rewrite list_lookup_fmap, Hi.
  - apply Forall_insert; simpl.
    + eapply Forall_impl; [exact Hlogs|]. intros h Hh. simpl. by apply sublist_inserts_l.
    + by apply sublist_app.
  - intros later signed answer earlier Heq.
    destruct (entry_single X e x) as [Hn|[ev Hev]]; [rewrite Hn in Heq; by eapply Hsent|].
    rewrite Hev in Heq. destruct later as [|ev' later]; simplify_eq/=; [|by eapply Hsent].
    destruct e; simplify_eq/=. destruct Hm as (rq & _ & Hauth). exists (h_call g), rq. split.
    + apply list_elem_of_fmap. exists g. split; [done|]. by eapply list_elem_of_lookup_2.
    + destruct Hauth as (now & slot & ? & ? & ?). exists now, slot. split_and!; [done..|by etrans].
Qed.

Definition idle : upto_state := {| in_flight := ∅; journal := [] |}.

Lemma idle_inv calls : upto_inv calls idle (fresh <$> calls).
Proof.
  assert (Hn : omap h_channel (fresh <$> calls) = []) by (by induction calls).
  split; simpl; rewrite ?Hn; [|done|constructor| |].
  - rewrite <-list_fmap_compose. apply list_fmap_id.
  - apply Forall_fmap, Forall_true. intros call. apply sublist_nil_l.
  - by intros [].
Qed.

Lemma pool_invariant {A} (post : UptoCall -> hold -> result A X402Error -> Prop)
    (task : UptoCall -> upto_prog A) calls ps' s' :
  (forall call, certified_open (post call) (fresh call) (task call)) ->
  rtc (pool_step upto_exec) (task <$> calls, idle) (ps', s') ->
  exists gs, upto_inv calls s' gs /\ length gs = length ps' /\
    forall i g r, gs !! i = Some g -> ps' !! i = Some (Ret r) ->
      exists call, calls !! i = Some call /\ post call g r.
Proof.
  intros Htasks Hr.
  destruct (pool_certified upto_exec may_do holds (upto_inv calls) (upto_step calls)
    (fun i g r => exists call, calls !! i = Some call /\ post call g r) _ _ _ _ (fresh <$> calls) Hr)
    as (gs & [Hlen Hall] & Hinv & _).
  - split; [by rewrite !length_fmap|]. intros i g p Hg Hp.
    rewrite list_lookup_fmap in Hg. rewrite list_lookup_fmap in Hp. destruct (calls !! i) as [call|]; simplify_eq/=.
    eapply certified_mono; [|apply Htasks]. intros g' r Hpost. by exists call.
  - apply idle_inv.
  - exists gs. split_and!; [done|done|]. intros i g r Hg Hp. by apply (Hall _ _ _ Hg Hp).
Qed.

Lemma holders_distinct (gs : list hold) i j g g' c c' :
  NoDup (omap h_channel gs) -> i <> j -> gs !! i = Some g -> gs !! j = Some g' ->
  h_channel g = Some c -> h_channel g' = Some c' -> c <> c'.
Proof.
  intros Hnd Hij Hi Hj Hc Hc' ->. pose proof (held_left _ _ _ (fresh (h_call g)) _ Hi Hc eq_refl) as Hp.
  rewrite Hp in Hnd. apply NoDup_cons in Hnd as [Hn _]. apply Hn, list_elem_of_omap. exists g'. split; [|done].
  apply list_elem_of_lookup. exists j. by rewrite list_lookup_insert_ne.
Qed.

(** C7. Whatever the interleaving of concurrent requests and whatever the node
    answers, two requests never both hold a verified open of one channel. For a
    verified open, an authorized open transaction of that very call was sent and
    confirmed, and the channel account read back afterwards is open, with the
    mint, payee, payout hash, voucher signer, rent payer, withdraw delay, deposit
    and payer the challenge asks for, and is what the verified open reports. Every
    open the sponsor signed and sent, for any request, answers a challenge of this
    server for a call it got - price, currency, payout, memo and deadline - is the
    exact open of that challenge signed by its payer, and was sent after the
    channel was seen not to exist. *)
Theorem one_open_per_channel calls ps' s' :
  rtc (pool_step upto_exec) (verify_call <$> calls, idle) (ps', s') ->
  (forall i j o o', i <> j -> ps' !! i = Some (Ret (Ok o)) -> ps' !! j = Some (Ret (Ok o')) ->
     vo_channel_id o <> vo_channel_id o') /\
  (forall i o, ps' !! i = Some (Ret (Ok o)) -> vo_channel_id o ∈ in_flight s' /\
     exists call, calls !! i = Some call /\ verified_by call (journal s') o) /\
  (forall later signed answer earlier, journal s' = later ++ OpenSent signed answer :: earlier ->
     exists call rq, call ∈ calls /\ authorized call rq earlier signed).
Proof.
  intros Hr. edestruct (pool_invariant _ _ _ _ _ certified_verify Hr)
    as (gs & [Hcalls Hf Hd Hlogs Hsent] & Hlen & Hpost).
  assert (Hheld : forall i o, ps' !! i = Some (Ret (Ok o)) -> exists g, gs !! i = Some g /\
    h_channel g = Some (vo_channel_id o) /\
    exists call, calls !! i = Some call /\ verified_by call (journal s') o).
  { intros i o Hi. destruct (lookup_lt_is_Some_2 gs i) as [g Hg]; [rewrite Hlen; by eapply lookup_lt_Some|].
    destruct (Hpost _ _ _ Hg Hi) as (call & Hcall & Hc & Hheld & rq & signed & data & channel & older & Ha & Hl & Hv).
    exists g. split_and!; [done|done|]. exists call. split; [done|].
    exists rq, signed, data, channel, older. rewrite Hc in Ha. split_and!; [done| |apply Hv..].
    etrans; [exact Hl|]. by eapply (Forall_lookup_1 _ _ _ _ Hlogs). }
  split_and!; [| |done].
  - intros i j o o' Hij (g & Hg & Hc & _)%Hheld (g' & Hg' & Hc' & _)%Hheld. by eapply holders_distinct.
  - intros i o (g & Hg & Hc & Hv)%Hheld. split; [|done].
    rewrite Hf. apply elem_of_list_to_set, list_elem_of_omap. exists g. split; [|done].
    by eapply list_elem_of_lookup_2.
Qed.

(** C34. No request leaks its in-flight slot: once every request has returned -
    refused, failed at any step, or settled - the in-flight set is empty again,
    so a channel a failed request named can be tried again. *)
Theorem slots_released meter calls results s' :
  rtc (pool_step upto_exec) (serve_call meter <$> calls, idle) (Ret <$> results, s') -> in_flight s' = ∅.
Proof.
  intros Hr. edestruct (pool_invariant _ _ _ _ _ (certified_serve meter) Hr) as (gs & [_ Hf _ _ _] & Hlen & Hpost).
  rewrite Hf. assert (Hnone : forall i g, gs !! i = Some g -> h_channel g = None).
  { intros i g Hg. rewrite length_fmap in Hlen.
    destruct (lookup_lt_is_Some_2 results i) as [r Hres]; [rewrite <-Hlen; by eapply lookup_lt_Some|].
    destruct (Hpost i g r Hg) as (call & _ & _ & Hn); [by rewrite list_lookup_fmap, Hres|done]. }
  assert (Hnil : omap h_channel gs = []); [|by rewrite Hnil].
  clear -Hnone. induction gs as [|g gs IH]; [done|]. simpl. rewrite (Hnone 0%nat g eq_refl). apply IH.
  intros i g' Hg. apply (Hnone (S i)). exact Hg.
Qed.
End interleaved.

(** * The challenge and the settlement *)
Section functional.
Context {Key : Type} `{Crypto Key, Addresses} `{V1Format} `{Codec} `{DebugText}.
Context (srv : UptoServer) (sign_message : list byte -> result (list byte) string).

Lemma strip_with_hint hint r :
  strip_upto_blockhash_hints (with_hint hint r) = strip_upto_blockhash_hints r.
Proof. done. Qed.

Lemma collect_rmap {A B Er} (f : A -> result B Er) (g : B -> B) l ys :
  collect (fun x => rmap g (f x)) l = Ok ys -> exists zs, collect f l = Ok zs /\ ys = g <$> zs.
Proof.
  revert ys. induction l as [|x l IH]; intros ys; simpl; [intros [= <-]; by exists []|].
  intros (y & Hy & (ys' & Hys & [= <-])%rbind_ok)%rbind_ok. destruct (f x) as [z|]; [|done].
  simpl in Hy. injection Hy as <-. apply IH in Hys as (zs & -> & ->). by exists (z :: zs).
Qed.

(** A client that echoes any entry of the challenge it was given, hints and
    all, is matched against the same route and maximum: the server finds an
    offered requirement, the entry up to the hints, and whatever the client
    echoes, what the server goes on with is one it offers itself. *)
Theorem challenge_matches hint max_amount route accepts echoed l :
  challenge srv hint max_amount route = Ok accepts -> echoed ∈ accepts ->
  offered srv max_amount route = Ok l ->
  exists r, match_offered_requirement l (Ok echoed) = Ok r /\ r ∈ l /\
    strip_upto_blockhash_hints r = strip_upto_blockhash_hints echoed.
Proof.
  unfold challenge, offered. intros (zs & Hzs & ->)%collect_rmap Hin Hl. rewrite Hl in Hzs.
  injection Hzs as <-. apply list_elem_of_fmap in Hin as (r & -> & Hr).
  unfold match_offered_requirement. cbn [rmap_err rbind].
  destruct (list_find _ l) as [[i r']|] eqn:Hfind.
  - apply list_find_Some in Hfind as (Hi & Heq & _). exists r'. split_and!; [done| |done].
    by eapply list_elem_of_lookup_2.
  - apply list_find_None in Hfind. rewrite Forall_forall in Hfind. exfalso. by apply (Hfind r Hr).
Qed.

Abbreviation answers_to := (traces (fun X (_ : upto_op X) (_ : X) => @nil unit)).

Lemma traces_step {X A} (e : upto_op X) (k : X -> prog upto_op A) a :
  answers_to (Vis e k) [] a -> exists x, answers_to (k x) [] a.
Proof. intros (x & l & Hl & Hk). simpl in Hl. subst l. by exists x. Qed.

Lemma traces_pure {A B} (r : result A X402Error) (k : A -> upto_prog B) b :
  answers_to (ptry k (pure r)) [] (Ok b) -> exists a, r = Ok a /\ answers_to (k a) [] (Ok b).
Proof. unfold ptry, pure. simpl. destruct r; [eauto|]. by intros [_ ?]. Qed.

(** The refund's reading of the account, answered. *)
Lemma refund_answer {A B C} (op : upto_op (result A string)) err (f : A -> upto_prog B) (k : B -> upto_prog C) c :
  answers_to (ptry k (ptry f (ask op err))) [] (Ok c) -> exists a, answers_to (ptry k (f a)) [] (Ok c).
Proof.
  unfold ask, perform, ptry. cbn [pbind]. intros Ht. apply traces_step in Ht as [[a|e] Ht]; [by exists a|].
  cbn in Ht. by destruct Ht.
Qed.

Lemma voucher_outlives signed_at :
  Z.min (signed_at + 60) i64_max <= settlement_voucher_expiry srv signed_at.
Proof.
  unfold settlement_voucher_expiry, as_secs, i64_saturating_add, MIN_SETTLEMENT_VOUCHER_TTL_SECONDS.
  case_decide; zlia.
Qed.

(** C27. A settlement charges at most the authorized maximum: its voucher, when one
    is signed at all, is for exactly the metered amount, signed over this
    channel with a deadline this server chose at least a minute away, and the
    payout is distributed unless the payer's refund has to wait for an account
    that can take it. *)
Theorem settlement_bundle open actual ixs :
  answers_to (build_settlement_instructions srv sign_message open actual) [] (Ok ixs) ->
  actual <= vo_max_amount open /\
  exists signed_at now account sealed,
    Z.min (signed_at + 60) i64_max <= settlement_voucher_expiry srv signed_at /\
    seal_instructions srv sign_message open actual (settlement_voucher_expiry srv signed_at) = Ok sealed /\
    (actual <> 0 -> exists signature verify rest,
       sign_message (voucher_message_bytes (key_bytes (vo_channel_id open)) actual
         (settlement_voucher_expiry srv signed_at)) = Ok signature /\
       build_ed25519_verify_instruction (us_receiver_authorizer srv) signature
         (voucher_message_bytes (key_bytes (vo_channel_id open)) actual
            (settlement_voucher_expiry srv signed_at)) = Some verify /\ sealed = verify :: rest) /\
    let terms := {| st_channel := vo_channel_id open; st_payer := vo_payer open; st_mint := vo_mint open;
      st_token_program := vo_token_program open; st_deposit := vo_deposit open; st_settled := actual;
      st_payer_withdrawn_at := 0 |} in
    let deadline := {| rd_sealed_at := now; rd_grace_period := uc_withdraw_delay (us_config srv) |} in
    ixs = sealed ++ match clearance (payer_refund terms account deadline now) with
      | Some c => distribute_instructions srv c (vo_payer open) (vo_rent_payer open) (vo_mint open)
          (vo_distribution open) (vo_token_program open) (vo_program_id open)
      | None => []
      end.
Proof.
  unfold build_settlement_instructions. intros ([] & Hmax & Ht)%traces_pure.
  unfold assert_settlement_within_ceiling in Hmax. case_decide as Hle; [done|]. split; [lia|].
  apply traces_step in Ht as [signed_at Ht]. apply traces_pure in Ht as (sealed & Hsealed & Ht).
  apply traces_step in Ht as [now Ht].
  assert (Hvoucher : actual <> 0 -> exists signature verify rest,
    sign_message (voucher_message_bytes (key_bytes (vo_channel_id open)) actual
      (settlement_voucher_expiry srv signed_at)) = Ok signature /\
    build_ed25519_verify_instruction (us_receiver_authorizer srv) signature
      (voucher_message_bytes (key_bytes (vo_channel_id open)) actual
        (settlement_voucher_expiry srv signed_at)) = Some verify /\ sealed = verify :: rest).
  { intros Hne. unfold seal_instructions in Hsealed. rewrite decide_False in Hsealed by done.
    apply rbind_ok in Hsealed as (signature & Hsig%rmap_err_ok & Hb).
    unfold build_settle_and_seal_instructions in Hb.
    destruct (build_ed25519_verify_instruction _ _ _) as [verify|] eqn:Hv; [|done].
    simpl in Hb. injection Hb as <-. eauto 7. }
  unfold sealed_refund in Ht. case_decide as Hdue.
  - apply (traces_pure (Ok _)) in Ht as (d & Hd%ok_inj & Ht).
    exists signed_at, now, None, sealed. split_and!; [apply voucher_outlives|done|done|].
    cbv zeta. rewrite Hd. destruct (clearance d) as [c|]; destruct Ht as [_ [= ->]]; [done|by rewrite app_nil_r].
  - apply refund_answer in Ht as (account & Ht). apply (traces_pure (Ok _)) in Ht as (d & Hd%ok_inj & Ht).
    exists signed_at, now, account, sealed. split_and!; [apply voucher_outlives|done|done|].
    cbv zeta. rewrite Hd. destruct (clearance d) as [c|]; destruct Ht as [_ [= ->]]; [done|by rewrite app_nil_r].
Qed.
End functional.

(** The cluster [solana-devnet] is Solana's devnet to the challenge's network and to
    the node's address, but not to the mint of a stablecoin's symbol. *)
Example solana_devnet_mint :
  caip2_network_for_cluster "solana-devnet" = SOLANA_DEVNET /\
  x402_rpc_url "solana-devnet" = x402_rpc_url "devnet" /\
  x402_resolve_mint "USDC" (Some "devnet") = Some mints.USDC_DEVNET /\
  x402_resolve_mint "USDC" (Some "solana-devnet") = Some mints.USDC_MAINNET.
Proof. vm_compute. split_and!; reflexivity. Qed.

(** * A concrete server *)
Module UptoServerDemo.
Export UptoDemo.

Definition signature : list byte := replicate 64 Byte.x09.

Definition config : UptoConfig := {|
  uc_payout := Beneficiary "receiver";
  uc_currencies := [{| cu_currency := key "mint"; cu_decimals := 6; cu_token_program := Some "token program" |}];
  uc_cluster := "localnet"; uc_resource := ""; uc_description := None; uc_max_timeout_seconds := 300;
  uc_max_channel_lifetime := 3600; uc_program_id := Some "program"; uc_withdraw_delay := 900;
  uc_fee_payer_signer := SigningDemo.signer (key "sponsor") signature;
  uc_receiver_authorizer_signer := Some (key "signer") |}.

Definition server : UptoServer := {|
  us_accepted_versions := [V0]; us_config := config; us_fee_payer := key "sponsor";
  us_receiver_authorizer := key "signer" |}.

Definition hint : CachedBlockhash :=
  {| cb_blockhash := "hash"; cb_last_valid_block_height := 77; cb_slot := 1200 |}.

(** The challenge's only entry, as the client echoes it. *)
Definition echoed : result UptoRequirements string :=
  match challenge server hint "0.0005" None with
  | Ok (r :: _) => Ok r
  | _ => Err "no challenge"
  end.

#[global] Instance envelope_codec : EnvelopeCodec := fun header =>
  if decide (header = "paid")
  then Ok {| ue_scheme := Some UPTO_SCHEME; ue_network := Some SOLANA_DEVNET; ue_accepted := echoed;
             ue_payload := payload |}
  else Err "unreadable header".

#[global] Instance transaction_codec : Codec := {|
  compile_v0 payer ixs blockhash := Ok (CodecDemo.compile payer ixs blockhash);
  compile_v1 _ _ _ _ := Err "unsupported";
  wincode_serialize _ := Ok [Byte.x01]; wincode_deserialize _ := Ok open;
  b64_encode _ := "tx"; b64_decode _ := Ok [Byte.x01] |}.

Definition payout_account : ObservedAccount := {|
  oa_program := key "token program";
  oa_data := key_bytes (key "mint") ++ key_bytes (key "receiver") ++ replicate 44 Byte.x00 ++ [Byte.x01] ++
    replicate 56 Byte.x00 |}.

Definition says (account : option ObservedAccount) : answers := {|
  an_now := 1000; an_slot := Some 1200; an_account := Ok account; an_data := Ok (channel_bytes channel_account);
  an_open := Ok tt; an_blockhash := Ok []; an_settlement := Ok "settled" |}.

Definition call : UptoCall := {| ul_header := "paid"; ul_max_amount := "0.0005"; ul_route := None |}.

Definition verify : UptoCall -> upto_prog VerifiedUptoOpen := verify_call (fun _ => []) (fun _ _ _ => true) server.

(** Two requests with one authorization: the second is turned away while the first
    is served. *)
Definition race : list (nat * answers) :=
  [(0, says None); (0, says None); (1, says None); (1, says None); (0, says None); (0, says None);
   (0, says (Some payout_account)); (0, says None); (0, says None)]%nat.
Definition raced := run_pool upto_exec race (verify <$> [call; call], idle).

Definition sign (m : list byte) : result (list byte) string := Ok (replicate 64 Byte.x0a).

(** The first task alone, served to the end with 200 metered. *)
Definition serve_one : UptoCall -> upto_prog UptoSettlementResponse :=
  serve_call (fun _ => []) (fun _ _ _ => true) server sign (fun _ => 200).
Definition served := run_pool upto_exec
  ((0%nat, says None) :: (0%nat, says None) :: (0%nat, says None) :: (0%nat, says None) ::
   (0%nat, says (Some payout_account)) :: replicate 8 (0%nat, says None)) (serve_one <$> [call], idle).

Definition verified : VerifiedUptoOpen := {|
  vo_channel_id := UptoDemo.channel; vo_payer := key "payer"; vo_rent_payer := key "sponsor";
  vo_mint := key "mint"; vo_token_program := key "token program"; vo_program_id := key "program";
  vo_deposit := 500; vo_max_amount := 500; vo_expires_at := 1250; vo_network := SOLANA_DEVNET;
  vo_payee := key "sponsor"; vo_distribution := sole_recipient (key "receiver") |}.

Definition payer_account : ObservedAccount := {|
  oa_program := key "token program";
  oa_data := key_bytes (key "mint") ++ key_bytes (key "payer") ++ replicate 44 Byte.x00 ++ [Byte.x01] ++
    replicate 56 Byte.x00 |}.
End UptoServerDemo.

Example raced_outcome :
  (rmap vo_channel_id <$> (omap returned (UptoServerDemo.raced.1))) =
  [Ok UptoDemo.channel; Err (XOther "channel is already being processed (concurrent request)")].
Proof. vm_compute. reflexivity. Qed.

Lemma one_open_per_channel_witness :
  exists o, UptoServerDemo.raced.1 !! 0%nat = Some (Ret (Ok o)) /\
    vo_channel_id o ∈ in_flight UptoServerDemo.raced.2 /\
    verified_by (fun _ => []) (fun _ _ _ => true) UptoServerDemo.server UptoServerDemo.call
      (journal UptoServerDemo.raced.2) o.
Proof.
  destruct (one_open_per_channel (fun _ => []) (fun _ _ _ => true) UptoServerDemo.server
    [UptoServerDemo.call; UptoServerDemo.call] UptoServerDemo.raced.1 UptoServerDemo.raced.2) as (_ & Hok & _).
  - exact (run_pool_steps upto_exec UptoServerDemo.race
      (UptoServerDemo.verify <$> [UptoServerDemo.call; UptoServerDemo.call], idle)).
  - assert (Hret : exists o, UptoServerDemo.raced.1 !! 0%nat = Some (Ret (Ok o)))
      by (eexists; vm_compute; reflexivity).
    destruct Hret as [o Ho]. exists o. split; [exact Ho|].
    destruct (Hok 0%nat o Ho) as (Hin & call & Hcall & Hv). change (Some UptoServerDemo.call = Some call) in Hcall.
    apply (inj Some) in Hcall. rewrite <-Hcall in Hv. split; [exact Hin|exact Hv].
Defined.

Lemma slots_released_witness :
  UptoServerDemo.served.1 = Ret <$> [Ok (settlement_response UptoServerDemo.verified 200 "settled")] /\
  in_flight UptoServerDemo.served.2 = ∅.
Proof.
  assert (Hret : UptoServerDemo.served.1 = Ret <$> [Ok (settlement_response UptoServerDemo.verified 200 "settled")])
    by (vm_compute; reflexivity).
  split; [exact Hret|].
  apply (slots_released (fun _ => []) (fun _ _ _ => true) UptoServerDemo.server UptoServerDemo.sign (fun _ => 200)
    [UptoServerDemo.call] [Ok (settlement_response UptoServerDemo.verified 200 "settled")]).
  rewrite <-Hret. rewrite <-surjective_pairing. exact (run_pool_rtc upto_exec _ (UptoServerDemo.serve_one <$> [UptoServerDemo.call], idle)).
Defined.

Lemma challenge_matches_witness :
  exists r l, offered UptoServerDemo.server "0.0005" None = Ok l /\
    match_offered_requirement l UptoServerDemo.echoed = Ok r.
Proof.
  destruct (challenge UptoServerDemo.server UptoServerDemo.hint "0.0005" None) as [accepts|e] eqn:Hc;
    [|vm_compute in Hc; discriminate Hc].
  destruct (offered UptoServerDemo.server "0.0005" None) as [l|e] eqn:Hl; [|vm_compute in Hl; discriminate Hl].
  destruct accepts as [|echoed rest]; [vm_compute in Hc; discriminate Hc|].
  destruct (challenge_matches UptoServerDemo.server UptoServerDemo.hint "0.0005" None (echoed :: rest) echoed l
    Hc ltac:(left) Hl) as (r & Hr & _).
  exists r, l. split; [reflexivity|]. assert (He : UptoServerDemo.echoed = Ok echoed)
    by (unfold UptoServerDemo.echoed; rewrite Hc; reflexivity).
  rewrite He. exact Hr.
Defined.

Lemma settlement_bundle_witness :
  exists ixs, traces (fun X (_ : upto_op X) (_ : X) => @nil unit)
    (build_settlement_instructions UptoServerDemo.server UptoServerDemo.sign UptoServerDemo.verified 200)
    [] (Ok ixs) /\ 200 <= vo_max_amount UptoServerDemo.verified.
Proof.
  assert (Ht : exists ixs, traces (fun X (_ : upto_op X) (_ : X) => @nil unit)
    (build_settlement_instructions UptoServerDemo.server UptoServerDemo.sign UptoServerDemo.verified 200) [] (Ok ixs)).
  { eexists. exists 1000, []. split; [reflexivity|]. exists 1000, []. split; [reflexivity|].
    exists (Ok (Some UptoServerDemo.payer_account)), []. split; [reflexivity|].
    vm_compute. split; reflexivity. }
  destruct Ht as [ixs Ht]. exists ixs. split; [exact Ht|].
  exact (proj1 (settlement_bundle UptoServerDemo.server UptoServerDemo.sign UptoServerDemo.verified 200 ixs Ht)).
Defined.
