(* ===== verification/MppBinding.v ===== *)
(** The policy a session server is bound to
    (src/rust/crates/kit/src/mpp/server/session_binding.rs, with
    mpp/program/channel_deployment.rs over the hooks and deployments of [Deployments]): the public configuration captured when a channel
    is opened, and the store that refuses every record of another policy. *)
From Stdlib Require Import Ascii.
From stdpp Require Import base numbers option list gmap strings pretty.
From S2P Require Import Prelude Bytes Json Store Channel Authorization ChannelStore Voucher.
From S2P Require Import Session Deployments MppBase.
Open Scope Z_scope.

(** * Channel deployments *)

(** A public key: its 32 bytes. *)
Abbreviation Pubkey := (list byte).

(** The account of a channel, decoded by its deployment ([v2::ChannelState]). *)
Record OnchainChannel := {
  guard : Z;
  onchain_hooks : ChannelHooks;
  status : Z;
  onchain_deposit : Z;
  onchain_settled : Z;
  onchain_salt : Z;
  onchain_open_slot : Z;
  onchain_grace_period : Z;
  onchain_payer : Pubkey;
  onchain_rent_payer : Pubkey;
  onchain_payee : Pubkey;
  onchain_mint : Pubkey;
  onchain_authorized_signer : Pubkey;
  onchain_distribution_hash : list byte;
}.

Section deployment.
Context {Key : Type} `{Crypto Key}.

(** Here a key is its bytes. *)
#[export] Instance bytes_pubkey : PubkeyRep Pubkey := {
  parse_pubkey value :=
    rmap_err (fun e => Other ("invalid pubkey " +:+ value +:+ ": " +:+ e)) (pubkey_from_str value);
  default_pubkey := replicate 32 Byte.x00;
}.

(** channel_deployment.rs. *)
Definition channel_resolve (program : Pubkey) (v : option Z) (hooks : option ChannelHooks) :
    result (Deployment Pubkey) MppError :=
  let? deployment := rmap_err of_core_error (resolve program v) in
  if decide (dp_version deployment = 1 /\ is_Some hooks)
  then Err (InvalidConfig "channelHooks requires the V2 channel deployment") else
  let? _ := match hooks with
            | Some h => rmap_err of_core_error (validate h)
            | None => Ok tt
            end in
  Ok deployment.

Definition resolve_for_network (program : Pubkey) (v : option Z) (hooks : option ChannelHooks)
    (network : string) : result (Deployment Pubkey) MppError :=
  let? deployment := channel_resolve program v hooks in
  if decide (dp_version deployment = 2) then
    let? _ := validate_network network in
    if decide (network = NETWORK_MAINNET)
    then Err (InvalidConfig "V2 channel deployment supports only devnet and localnet")
    else Ok deployment
  else Ok deployment.
End deployment.

(** * Configuration *)

Record Split := { split_recipient : Pubkey; bps : Z }.

#[export] Instance Split_eq_dec : EqDecision Split.
Proof. solve_decision. Defined.

(** [config_signer] and [config_idle_timeout_seconds] are the code's
    [voucher_signer] and [idle_timeout_seconds]; of the fee payer's signer only the
    key is read here. *)
Record SessionConfig {SigningKey : Type} := {
  operator : string;
  recipient : string;
  splits : list Split;
  amount : Z;
  suggested_deposit : option Z;
  minimum_deposit : option Z;
  currency : string;
  decimals : Z;
  network : string;
  channel_program : option Pubkey;
  channel_version : option Z;
  channel_hooks : option ChannelHooks;
  token_program : option Pubkey;
  min_voucher_delta : Z;
  config_signer : VoucherSigner;
  operator_signing_key : option SigningKey;
  fee_payer_signer : option Pubkey;
  idle_timeout_options_seconds : option (list Z);
  config_idle_timeout_seconds : Z;
  grace_period_seconds : Z;
  rpc_url : option string;
}.
Arguments SessionConfig : clear implicits.

Record SessionConfigSnapshot := {
  sn_operator : string;
  sn_recipient : string;
  sn_splits : list Split;
  sn_amount : Z;
  sn_suggested_deposit : option Z;
  sn_minimum_deposit : option Z;
  sn_currency : string;
  sn_decimals : Z;
  sn_network : string;
  sn_channel_program : option Pubkey;
  sn_channel_version : option Z;
  sn_channel_hooks : option ChannelHooks;
  sn_token_program : option Pubkey;
  sn_min_voucher_delta : Z;
  sn_voucher_signer : VoucherSigner;
  sn_idle_timeout_options_seconds : option (list Z);
  sn_idle_timeout_seconds : Z;
  sn_grace_period_seconds : Z;
  sn_fee_payer : option Pubkey;
}.

#[export] Instance SessionConfigSnapshot_eq_dec : EqDecision SessionConfigSnapshot.
Proof. solve_decision. Defined.

Record Binding {Value : Type} := {
  binding_version : Z;
  policy : Value;
  snapshot : SessionConfigSnapshot;
}.
Arguments Binding : clear implicits.

#[export] Instance Binding_eq_dec `{EqDecision Value} : EqDecision (Binding Value).
Proof. solve_decision. Defined.

Section config.
Context {Key SigningKey : Type} `{SessionCrypto Key SigningKey}.
Implicit Types (cfg : SessionConfig SigningKey).

Definition parse_pubkey (text : string) : result Pubkey MppError :=
  let? bytes := rmap_err (fun e => MppOther ("Invalid pubkey " +:+ text +:+ ": " +:+ e))
    (bs58_decode text) in
  if decide (length bytes = 32%nat) then Ok bytes
  else Err (MppOther ("Pubkey " +:+ text +:+ " is not 32 bytes")).

Definition parse_pubkey_field (value field : string) : result Pubkey MppError :=
  rmap_err (fun e => MppOther ("invalid payment-channel " +:+ field +:+ ": " +:+ mpp_error_text e))
    (parse_pubkey value).

Definition expected_payment_channel_mint cfg : result Pubkey MppError :=
  let? mint := try_resolve_stablecoin_mint (currency cfg) (Some (network cfg)) in
  let? mint := ok_or mint (MppOther "payment-channel sessions require an SPL token") in
  parse_pubkey_field mint "currency".

Definition default_token_program cfg : result Pubkey MppError :=
  parse_pubkey_field (default_token_program_for_currency (currency cfg) (Some (network cfg)))
    "token program".

Definition channel_deployment cfg : result (Deployment Pubkey) MppError :=
  resolve_for_network (default default_program_id (channel_program cfg)) (channel_version cfg)
    (channel_hooks cfg) (network cfg).

Definition check_sponsored_deposit_floor cfg : result unit MppError :=
  if decide (is_Some (fee_payer_signer cfg) /\ minimum_deposit cfg = None)
  then Err (InvalidConfig "sponsored sessions (fee_payer_signer) require minimum_deposit: the sponsor funds each channel's rent")
  else Ok tt.

(** [SessionConfigSnapshot::capture]. *)
Definition capture cfg : SessionConfigSnapshot := {|
  sn_operator := operator cfg;
  sn_recipient := recipient cfg;
  sn_splits := splits cfg;
  sn_amount := amount cfg;
  sn_suggested_deposit := suggested_deposit cfg;
  sn_minimum_deposit := minimum_deposit cfg;
  sn_currency := match expected_payment_channel_mint cfg with
                 | Ok mint => bs58_encode mint
                 | Err _ => currency cfg
                 end;
  sn_decimals := decimals cfg;
  sn_network := network cfg;
  sn_channel_program := Some (default default_program_id (channel_program cfg));
  sn_channel_version := channel_version cfg ≫= (fun v => if decide (v = 1) then None else Some v);
  sn_channel_hooks := channel_hooks cfg;
  sn_token_program := match token_program cfg with
                      | Some program => Some program
                      | None => match default_token_program cfg with Ok program => Some program | Err _ => None end
                      end;
  sn_min_voucher_delta := min_voucher_delta cfg;
  sn_voucher_signer := config_signer cfg;
  sn_idle_timeout_options_seconds := idle_timeout_options_seconds cfg;
  sn_idle_timeout_seconds := config_idle_timeout_seconds cfg;
  sn_grace_period_seconds := grace_period_seconds cfg;
  sn_fee_payer := fee_payer_signer cfg;
|}.

Definition requires_fee_payer (sn : SessionConfigSnapshot) : bool := bool_decide (is_Some (sn_fee_payer sn)).

(** [apply_to]: the configuration it leaves, when it succeeds. *)
Definition apply_to (sn : SessionConfigSnapshot) cfg : result (SessionConfig SigningKey) MppError :=
  let? _ := resolve_for_network (default default_program_id (sn_channel_program sn))
    (sn_channel_version sn) (sn_channel_hooks sn) (sn_network sn) in
  if decide (sn_fee_payer sn <> fee_payer_signer cfg)
  then Err (MppOther "session snapshot fee-payer capability mismatch") else
  Ok {|
    operator := sn_operator sn; recipient := sn_recipient sn; splits := sn_splits sn;
    amount := sn_amount sn; suggested_deposit := sn_suggested_deposit sn;
    minimum_deposit := sn_minimum_deposit sn; currency := sn_currency sn;
    decimals := sn_decimals sn; network := sn_network sn;
    channel_program := sn_channel_program sn; channel_version := sn_channel_version sn;
    channel_hooks := sn_channel_hooks sn; token_program := sn_token_program sn;
    min_voucher_delta := sn_min_voucher_delta sn; config_signer := sn_voucher_signer sn;
    operator_signing_key := operator_signing_key cfg; fee_payer_signer := fee_payer_signer cfg;
    idle_timeout_options_seconds := sn_idle_timeout_options_seconds sn;
    config_idle_timeout_seconds := sn_idle_timeout_seconds sn;
    grace_period_seconds := sn_grace_period_seconds sn; rpc_url := rpc_url cfg;
  |}.

Definition new_binding {Value} (p : Value) cfg : Binding Value :=
  {| binding_version := 1; policy := p; snapshot := capture cfg |}.

Lemma expected_mint_pinned `{!SessionCryptoLaws Key SigningKey} cfg mint :
  expected_payment_channel_mint cfg = Ok mint ->
  try_resolve_stablecoin_mint (currency cfg) (Some (network cfg)) = Ok (Some (bs58_encode mint)) /\
  parse_pubkey_field (bs58_encode mint) "currency" = Ok mint.
Proof.
  unfold expected_payment_channel_mint. intros (o & Ho & Hm)%rbind_ok.
  destruct o as [m|]; [|done]. simpl in Hm. rewrite Ho.
  assert (bs58_encode mint = m) as ->; [|by split].
  apply rmap_err_ok in Hm. apply rbind_ok in Hm as (bytes & Hb%rmap_err_ok & Hm). case_decide; [|done].
  injection Hm as <-. by apply bs58_canonical.
Qed.

(** A server restored from the snapshot of a channel is the server that took
    it: the currency it pins, the token program, the channel program and the rest
    read back as they were captured, so the restored server is bound to the same
    records. *)
Theorem snapshot_restores `{!SessionCryptoLaws Key SigningKey} cfg cfg' restored :
  apply_to (capture cfg) cfg' = Ok restored -> capture restored = capture cfg.
Proof.
  unfold apply_to. intros (d & _ & Ha)%rbind_ok. case_decide as Hf; [done|].
  injection Ha as <-. simpl in Hf. unfold capture at 1. simpl. rewrite <-Hf.
  unfold capture. f_equal.
  - unfold expected_payment_channel_mint at 1. simpl.
    destruct (expected_payment_channel_mint cfg) as [mint|e] eqn:Hm.
    + destruct (expected_mint_pinned _ _ Hm) as [Hr Hp]. destruct (mint_pinned _ _ _ Hr) as [-> _].
      simpl. by rewrite Hp.
    + unfold expected_payment_channel_mint in Hm. by rewrite Hm.
  - destruct (channel_version cfg); simpl; [|done]. case_decide; simpl; [done|]. by rewrite decide_False.
  - destruct (token_program cfg) as [program|]; [done|]. unfold default_token_program. simpl.
    destruct (expected_payment_channel_mint cfg) as [mint|e] eqn:Hm; [|by destruct (parse_pubkey_field _ _)].
    destruct (expected_mint_pinned _ _ Hm) as [Hr _]. destruct (mint_pinned _ _ _ Hr) as [_ ->].
    by destruct (parse_pubkey_field _ _).
Qed.
End config.

(** * The records of a binding *)

Definition BINDING_KEY : string := "mppSessionBinding".
Definition OPEN_TERMINAL_KEY : string := "mppSessionOpenTerminal".
Definition OPEN_TERMINAL_ERROR : string := "session open expired without funding; request a new channel".

Section binding.
Context {Value : Type} `{SerdeJson Value, !Serde Value (Binding Value)}.
Abbreviation St := (ChannelState Value).
Implicit Types (s : St) (b : option (Binding Value)).

Definition session_open_is_terminal s : bool := bool_decide (is_Some (extra s !! OPEN_TERMINAL_KEY)).

(** The record is reserved for an open that has not been confirmed. *)
Definition open_pending s : bool :=
  match pending_setup s with Some setup => opens_channel setup | None => false end.

(** [Binding::insert]. *)
Definition insert_binding (binding : Binding Value) s : result St MppError :=
  let? value := rmap_err (fun e => MppOther ("serialize session binding: " +:+ e)) (to_value binding) in
  let s := with_schema_version CHANNEL_STATE_SCHEMA_VERSION s in
  Ok (with_extra (<[BINDING_KEY := value]> (extra s)) s).

Definition read_binding s : result (option (Binding Value)) MppError :=
  match extra s !! BINDING_KEY with
  | None => Ok None
  | Some value =>
      let? binding := rmap_err (fun _ => MppOther "invalid session policy binding") (from_value value) in
      if decide (binding_version binding <> 1)
      then Err (MppOther "unsupported session policy binding version")
      else Ok (Some binding)
  end.

Definition channel_binding s : result (option Value) MppError :=
  let? binding := read_binding s in Ok (policy <$> binding).

Definition snapshot_of_channel s : result (option SessionConfigSnapshot) MppError :=
  let? binding := read_binding s in Ok (snapshot <$> binding).

Definition require_binding s b (allow_pending : bool) : result unit MppError :=
  if session_open_is_terminal s then Err (MppOther OPEN_TERMINAL_ERROR) else
  let? recorded := read_binding s in
  if decide (recorded <> b) then Err (MppOther "channel session policy binding mismatch") else
  if negb allow_pending && open_pending s
  then Err (MppOther "channel open is pending confirmation") else Ok tt.

(** ** [BoundStore] over any store *)

(** [BoundStore::check]. *)
Definition check_bound b s : result unit StoreError :=
  rmap_err (fun e => Internal (mpp_error_text e)) (require_binding s b false).

(** What it does to the closure of an update; [init] is what the caller's cell
    holds when the closure has not run. *)
Definition bound {R} b (init : R) (updater : Z -> option St -> result St StoreError * R) (now : Z)
    (o : option St) : result St StoreError * R :=
  match match o with Some s => check_bound b s | None => Ok tt end with
  | Err e => (Err e, init)
  | Ok _ =>
      match updater now o with
      | (Ok s, out) => match check_bound b s with Ok _ => (Ok s, out) | Err e => (Err e, out) end
      | refused => refused
      end
  end.

(** What it makes of a read. *)
Definition bound_read b (got : result (option St) StoreError) : result (option St) StoreError :=
  let? o := got in
  match o with Some s => let? _ := check_bound b s in Ok (Some s) | None => Ok None end.

(** [mutate_channel], by way of an update. *)
Definition mutating (seed : option St) (mutator : St -> result unit StoreError * St) (now : Z)
    (o : option St) : result St StoreError * unit :=
  match or_else o seed with
  | None => (Err (Internal "Channel not found"), tt)
  | Some s => match mutator s with (Ok _, s) => (Ok s, tt) | (Err e, _) => (Err e, tt) end
  end.

Definition bound_touch_replaces (lc : ChannelLifecycle) s : bool :=
  negb (sealed s) && bool_decide (close_requested_at s = None) &&
  bool_decide (final_cumulative s = None) &&
  match lifecycle s with
  | None => true
  | Some current => bool_decide (close_after current < close_after lc)
  end.

Definition err_request_server (what : string) : StoreError :=
  Internal ("request server cannot " +:+ what +:+ " channels").

(** One call of the trait on the record of its channel, over a store that keeps
    the contract. *)
Definition bound_call b (c : store_call (Value := Value)) (o : option St) :
    store_reply (Value := Value) * option St :=
  let updating {R} (init : R) updater (reply : result St StoreError -> R -> store_reply) :=
    let '(r, out) := bound b init updater 0 o in
    (reply r out, match r with Ok s => Some s | Err _ => o end) in
  let unit_reply (r : result St StoreError) (_ : unit) := ReplyUnit (rmap (fun _ => tt) r) in
  match c with
  | CallGet _ => (ReplyState (bound_read b (Ok o)), o)
  | CallPut _ st =>
      updating tt (fun _ existing =>
        match existing with
        | Some _ => (Err (Internal "Channel already exists"), tt)
        | None => (Ok st, tt)
        end) unit_reply
  | CallDelete _ => (ReplyUnit (Err (err_request_server "delete")), o)
  | CallDeleteIf _ _ => (ReplyBool (Err (err_request_server "delete")), o)
  | CallUpdate _ updater =>
      updating tt (fun _ o => (updater o, tt)) (fun r _ => ReplyState (rmap Some r))
  | CallMutate _ seed mutator => updating tt (mutating seed mutator) unit_reply
  | CallReserve _ seed request prepare =>
      updating None (fun _ o =>
        match or_else o seed with
        | None => (Err (Internal "Channel not found"), None)
        | Some s =>
            match reserve_authorization_staged request prepare s with
            | (Ok outcome, s) => (Ok s, Some outcome)
            | (Err e, _) => (Err e, None)
            end
        end)
        (fun r out => ReplyReservation
           (let? _ := r in ok_or out (Internal "reservation did not run")))
  | CallTouch _ lc =>
      updating tt (fun _ o =>
        match o with
        | None => (Err (Internal "Channel not found"), tt)
        | Some s => (Ok (if bound_touch_replaces lc s then with_lifecycle (Some lc) s else s), tt)
        end) (fun r _ => ReplyState (rmap Some r))
  | CallAdvance _ expected new =>
      updating false (fun _ o =>
        match o with
        | None => (Err (Internal "Channel not found"), false)
        | Some s => if decide (cumulative s = expected) then (Ok (with_cumulative new s), true)
                    else (Ok s, false)
        end) (fun r changed => ReplyBool (rmap (fun _ => changed) r))
  | CallDeposit _ deposit =>
      updating tt (mutating None (fun s => (Ok tt, with_deposit deposit s))) unit_reply
  | CallSeal _ => updating tt (mutating None (fun s => (Ok tt, with_sealed true s))) unit_reply
  | CallFinalize _ => (ReplyUnit (Err (err_request_server "finalize")), o)
  end.

(** ** What the guard gives *)

Definition admitted b (o : option St) : Prop :=
  match o with Some s => check_bound b s = Ok tt | None => True end.

Lemma bound_ok {R} b (init : R) updater now o s' out :
  bound b init updater now o = (Ok s', out) ->
  admitted b o /\ updater now o = (Ok s', out) /\ check_bound b s' = Ok tt.
Proof.
  unfold bound, admitted. intros Hb.
  assert (Hadm : match o with Some s => check_bound b s | None => Ok tt end = Ok tt).
  { destruct (match o with Some s => _ | None => _ end) as [[]|e]; [done|discriminate]. }
  rewrite Hadm in Hb. split; [by destruct o|].
  destruct (updater now o) as [[s1|e] out1]; [|done].
  destruct (check_bound b s1) as [[]|e] eqn:Hc; [|done]. by injection Hb as <- <-.
Qed.

Lemma bound_run {R} b (init : R) updater now o s' out :
  admitted b o -> updater now o = (Ok s', out) -> check_bound b s' = Ok tt ->
  bound b init updater now o = (Ok s', out).
Proof.
  unfold bound, admitted. intros Ha Hu Hc. rewrite Hu, Hc. destruct o; [by rewrite Ha|done].
Qed.

Lemma bound_admitted {R} b (init : R) updater now o :
  admitted b o -> (forall s' out, updater now o = (Ok s', out) -> check_bound b s' = Ok tt) ->
  bound b init updater now o = updater now o.
Proof.
  unfold bound, admitted. intros Ha Hu.
  replace (match o with Some s => check_bound b s | None => Ok tt end) with (@Ok unit StoreError tt)
    by (by destruct o).
  destruct (updater now o) as [[s'|e] out] eqn:He; [|done]. by rewrite (Hu s' out).
Qed.

(** Whether a closure leaves alone what the guard reads. *)
Lemma check_bound_same b s s' :
  extra s' = extra s -> pending_setup s' = pending_setup s -> check_bound b s' = check_bound b s.
Proof.
  intros He Hp. unfold check_bound, require_binding, session_open_is_terminal, read_binding, open_pending.
  by rewrite He, Hp.
Qed.

Lemma bound_updating {R} b (init : R) updater o :
  let '(r, out) := bound b init updater 0 o in
  let o' := match r with Ok s => Some s | Err _ => o end in
  o' = o \/ admitted b o /\ admitted b o'.
Proof.
  destruct (bound b init updater 0 o) as [[s'|e] out] eqn:Hb; [|by left].
  apply bound_ok in Hb as (Ha & _ & Hc). by right.
Qed.

(** Whatever the call, only a record of the server's own binding changes, and only
    into one. *)
Theorem bound_guards b c o :
  let o' := (bound_call b c o).2 in o' = o \/ admitted b o /\ admitted b o'.
Proof.
  destruct c; simpl; try (by left);
    match goal with |- context [bound b ?init ?u 0 o] => pose proof (bound_updating b init u o) as Hb end;
    destruct (bound b _ _ 0 o); exact Hb.
Qed.

(** The calls a request server may make. *)
Definition request_call (c : store_call (Value := Value)) (o : option St) : Prop :=
  match c with
  | CallPut _ _ => o = None
  | CallDelete _ | CallDeleteIf _ _ | CallFinalize _ => False
  | CallTouch _ lc => forall s, o = Some s -> bound_touch_replaces lc s = touch_replaces lc s
  | _ => True
  end.

(** For its own records the guarded store is the store: every call it may make
    does what the contract says, as long as the closure leaves the binding be. *)
Theorem bound_store_contract b c o :
  admitted b o -> request_call c o -> admitted b (contract c o).2 -> bound_call b c o = contract c o.
Proof.
  intros Ha Hc Hadm.
  destruct c; simpl in Hc; try done; simpl in Hadm |- *; unfold mutating;
    [by destruct o; simpl in *; [rewrite Ha|]|..];
    rewrite bound_admitted by
      (try done; intros s' out Hu; repeat case_match; simplify_eq/=; try done);
    unfold mutating in *; repeat case_match; simplify_eq/=; try done;
    specialize (Hc _ eq_refl); congruence.
Qed.
End binding.
