(* ===== verification/MppSession.v ===== *)
(** The session server of the MPP protocol
    (src/rust/crates/kit/src/mpp/server/session.rs): vouchers that pay for a
    request, operator-signed uses, metered charges and top-ups, as programs over
    the channel store, the clock, the chain and a remote signer. *)
From Stdlib Require Import Ascii.
From stdpp Require Import base numbers option list gmap strings pretty.
From S2P Require Import Prelude Effects Bytes Json Store Channel Voucher Session Units.
From S2P Require Import Deployments MppBase MppBinding.
Open Scope Z_scope.

(** * Server data *)

Definition OPERATOR_VOUCHER_ERROR : string :=
  "a voucher does not authenticate an operator-signed session; present the session bearer proof (use)".
Definition MAX_IDEMPOTENCY_KEY_BYTES : nat := 255.
Definition CHANNEL_SNAPSHOT_MAX_AGE_SECONDS : Z := 30.
Definition OPERATOR_CHARGE_ATTEMPTS : nat := 8.
Definition MAX_PROCESSED_USES : nat := 256.

Record UseAcceptance := { ua_voucher : SignedVoucher; ua_replay : bool }.

Record AuthenticatedUse := {
  au_channel_id : string;
  au_authentication : string;
  au_challenge_id : string;
  au_idempotency_key : string;
}.

Record OperatorCharge := {
  oc_voucher : SignedVoucher;
  previous_cumulative : Z;
  oc_cumulative : Z;
  oc_charged : Z;
  oc_request_total : Z;
  oc_replay : bool;
}.

Record TopUpAcceptance {St : Type} := {
  ta_state : St;
  ta_replay : bool;
  transaction_signature : string;
}.
Arguments TopUpAcceptance : clear implicits.

Record DeliveryRequest := {
  dr_session_id : string;
  dr_amount : Z;
  dr_delivery_id : option string;
  dr_commit_url : option string;
  dr_proof : option string;
  dr_expires_at : option Z;
}.

(** What a request has been charged so far. *)
Record RecordedUse := {
  ru_request_total : Z;
  ru_cumulative : Z;
  ru_voucher_signature : string;
}.

(** What settlement needs. *)
Record SealParams := {
  sp_channel_id : Pubkey;
  sp_authorized_signer : option Pubkey;
  sp_payer : option Pubkey;
  sp_rent_payer : option Pubkey;
  sp_mint : option Pubkey;
  sp_program_id : Pubkey;
  sp_channel_version : option Z;
  sp_channel_hooks : option ChannelHooks;
  settled : Z;
  sp_voucher_signature : option string;
  sp_voucher_expires_at : option Z;
  sp_recipient : Pubkey;
  sp_splits : list Split;
  sp_distribution_hash : list byte;
}.

(** An open transaction that passed its checks, co-signed when it is sponsored:
    its signatures that the server keeps, and its bytes. *)
Record PreparedOpen := {
  fee_payer_signature : option string;
  po_payer_signature : string;
  wire : list byte;
}.

(** The server: its configuration, and the binding its store is guarded by. *)
Record SessionServer {Value SigningKey : Type} := {
  config :> SessionConfig SigningKey;
  store_binding : option (Binding Value);
}.
Arguments SessionServer : clear implicits.

(** [SessionServer::new]: only a later program version is bound by itself. *)
Definition new_server {Value Key SigningKey} `{SerdeJson Value, SessionCrypto Key SigningKey}
    (cfg : SessionConfig SigningKey) : SessionServer Value SigningKey := {|
  config := cfg;
  store_binding := if decide (default 1 (channel_version cfg) <> 1) then Some (new_binding json_null cfg) else None;
|}.

Definition with_channel_binding {Value Key SigningKey} `{SerdeJson Value, SessionCrypto Key SigningKey}
    (p : Value) (server : SessionServer Value SigningKey) : SessionServer Value SigningKey :=
  {| config := config server; store_binding := Some (new_binding p (config server)) |}.

(** * Helpers *)
Section helpers.
Context {Value Key SigningKey : Type} `{SerdeJson Value, SessionCrypto Key SigningKey}.
Abbreviation St := (ChannelState Value).
Abbreviation Config := (SessionServer Value SigningKey).
Implicit Types (s : St).

Definition try {A} (r : result A StoreError) : result A MppError := rmap_err server_store_err r.

Definition err_channel (id : string) : MppError := MppOther ("Channel " +:+ id +:+ " not found").
Definition err_no_channel (id : string) : StoreError := Internal ("Channel " +:+ id +:+ " not found").
Definition err_closed : string := "Channel is closed or close is pending".

(** [VoucherData::message_bytes], [SessionAuthentication::verify]. *)
Definition data_message_bytes (d : VoucherData) : result (list byte) MppError :=
  let? channel := rmap_err (fun e => MppOther ("invalid pubkey " +:+ vd_channel_id d +:+ ": " +:+ e))
    (pubkey_from_str (vd_channel_id d)) in
  let? cumulative := ok_or (parse_u64 (vd_cumulative_amount d)) (MppOther "invalid voucher cumulative") in
  Ok (voucher_message_bytes channel cumulative (default 0 (vd_expires_at d))).

Definition sized (n : nat) (text what : string) : result (list byte) MppError :=
  let? bytes := rmap_err MppOther (bs58_decode text) in
  if decide (length bytes = n) then Ok bytes
  else Err (MppOther (what +:+ " must be " +:+ pretty n +:+ " bytes")).

Definition authentication_message_bytes (a : SessionAuthentication) (channel_id : string) :
    result (list byte) MppError :=
  rmap_err MppOther (jcs_object [("channelId", channel_id); ("domain", SESSION_AUTHENTICATION_DOMAIN);
    ("payer", sa_payer a); ("sessionChallengeId", sa_challenge_id a)]).

Definition proof_verify (a : SessionAuthentication) (channel_id : string) : result bool MppError :=
  let? payer := sized 32 (sa_payer a) "payer" in
  let? signature := sized 64 (sa_signature a) "signature" in
  let? key := rmap_err MppOther (key_from_bytes payer) in
  let? message := authentication_message_bytes a channel_id in
  Ok (verify_loose key message signature).

Definition check_idempotency_key (key : string) : result unit MppError :=
  if decide (key = "") then Err (MppOther "operator-signed use requires an Idempotency-Key") else
  if decide (MAX_IDEMPOTENCY_KEY_BYTES < String.length key)%nat
  then Err (MppOther ("Idempotency-Key exceeds " +:+ pretty MAX_IDEMPOTENCY_KEY_BYTES +:+ " bytes"))
  else Ok tt.

(** [now_unix_secs().saturating_mul(1_000) as u64] and [now_unix_secs().max(0) as u64]. *)
Definition now_ms (now : Z) : Z := u64_wrap (i64_saturating_mul now 1000).
Definition now_u64 (now : Z) : Z := Z.max now 0.

Definition idle_lifecycle s (lifecycle_owner : string) (now_ms voucher_expires_at grace_period : Z) :
    option ChannelLifecycle :=
  (fun seconds =>
    let idle := u64_saturating_add now_ms (seconds * 1000) in
    {| owner := lifecycle_owner;
       close_after :=
         match u64_try_from voucher_expires_at with
         | Some expires_at =>
             if decide (0 < expires_at)
             then Z.min idle (u64_saturating_mul (u64_saturating_sub expires_at grace_period) 1000)
             else idle
         | None => idle
         end |}) <$> idle_timeout_seconds s.

(** What every charge does to the record besides the money: the activity and the
    idle-close deadline. *)
Definition touch_activity (lifecycle_owner : string) (now voucher_expires_at grace_period : Z) s : St :=
  let s := with_last_activity_at (now_ms now) s in
  with_lifecycle (idle_lifecycle s lifecycle_owner (now_ms now) voucher_expires_at grace_period) s.

Definition require_fresh_snapshot s (max_age now : Z) : result unit StoreError :=
  if decide (max_age < u64_saturating_sub (now_u64 now) (onchain_observed_at s))
  then Err (Internal ("channel " +:+ channel_id s +:+ " has no confirmed onchain read in the last "
    +:+ pretty max_age +:+ "s"))
  else Ok tt.

Definition err_unbound : StoreError :=
  Internal "session channel predates proof binding; open a new session".
Definition err_use_binding : StoreError :=
  Internal "use authentication does not match the proof bound at open".

(** [||] runs its operands from the left, so the proof is verified last. *)
Definition check_use_binding s (proof : SessionAuthentication) (authentication_json : string) :
    result unit StoreError :=
  if decide (opening_challenge_id s = "" /\ authentication s = None) then Err err_unbound else
  if decide (voucher_signer s <> "operator" \/ authentication s <> Some authentication_json \/
             sa_challenge_id proof <> opening_challenge_id s \/ sa_payer proof <> payer s)
  then Err err_use_binding else
  let? verified := rmap_err (fun e => Internal (mpp_error_text e)) (proof_verify proof (channel_id s)) in
  if verified : bool then Ok tt else Err err_use_binding.

Definition check_bound_authentication s (authentication_json : string) : result unit StoreError :=
  if decide (voucher_signer s <> "operator" \/ authentication s <> Some authentication_json)
  then Err err_use_binding else Ok tt.

Definition find_use (key : string) s : option ProcessedUse :=
  List.find (fun entry => bool_decide (pu_idempotency_key entry = key)) (processed_uses s).

Definition recorded_use s (a : AuthenticatedUse) : result (option RecordedUse) StoreError :=
  match find_use (au_idempotency_key a) s with
  | None => Ok None
  | Some entry =>
      match pu_amount entry with
      | Some request_total =>
          if decide (pu_challenge_id entry = au_challenge_id a)
          then Ok (Some {| ru_request_total := request_total; ru_cumulative := pu_cumulative entry;
                           ru_voucher_signature := pu_voucher_signature entry |})
          else Err (Internal "Idempotency-Key was already used for a different request")
      | None => Err (Internal "Idempotency-Key was already used for a different request")
      end
  end.

Definition record_use (uses : list ProcessedUse) (entry : ProcessedUse) : list ProcessedUse :=
  let uses := filter (fun recorded => pu_idempotency_key recorded <> pu_idempotency_key entry) uses
                ++ [entry] in
  drop (length uses - MAX_PROCESSED_USES) uses.

Definition use_voucher (channel signer : string) (cumulative : Z) (signature : string) : SignedVoucher := {|
  sv_data := {| vd_channel_id := channel; vd_cumulative_amount := pretty cumulative;
                vd_expires_at := None |};
  sv_signer := signer;
  sv_signature := signature;
|}.

Definition replayed_charge (channel operator : string) (entry : RecordedUse) : OperatorCharge := {|
  oc_voucher := use_voucher channel operator (ru_cumulative entry) (ru_voucher_signature entry);
  previous_cumulative := ru_cumulative entry;
  oc_cumulative := ru_cumulative entry;
  oc_charged := 0;
  oc_request_total := ru_request_total entry;
  oc_replay := true;
|}.

(** The server's [verify_signature]. *)
Definition verify_signature (voucher : SignedVoucher) (authorized_signer : string)
    (settlement_window now : Z) : result unit MppError :=
  if decide (sv_signer voucher <> authorized_signer)
  then Err (MppOther "voucher signer does not match the channel authorized signer") else
  let? cumulative := ok_or (parse_u64 (vd_cumulative_amount (sv_data voucher)))
    (MppOther "Invalid cumulative in voucher") in
  rmap_err of_core_error
    (verify_voucher_signature (vd_channel_id (sv_data voucher)) cumulative
      (default 0 (vd_expires_at (sv_data voucher))) (sv_signature voucher) authorized_signer
      now settlement_window).
End helpers.

(** * The server *)
Section server.
Context {Value Key SigningKey : Type} `{SerdeJson Value, !Serde Value (Binding Value), Verifier Key,
  !SessionCrypto Key SigningKey}.
Abbreviation St := (ChannelState Value).
Abbreviation Config := (SessionServer Value SigningKey).
Implicit Types (s : St) (m : gmap string St).

(** ** Effects

    The store's calls, each atomic, with what their closures pass out; the clock;
    and what comes from outside: the channel account onchain, a remote signer,
    the checks and the submission of open and top-up transactions, what finalized
    and confirmed banks say of a transaction. *)
Inductive serverE : Type -> Type :=
| Get (id : string) : serverE (result (option St) StoreError)
| Update (R : Type) (id : string) (updater : Z -> option St -> result St StoreError * R) :
    serverE (result St StoreError * R)
| NowUnixSecs : serverE Z
| ReadLifecycle (id : string) (now min_slot : Z) :
    serverE (result (option (ObservedLifecycle * Z) * Z) MppError)
| SignMessage (message : list byte) : serverE (result (list byte) string)
| SubmitTopUp (payload : TopUpPayload) (existing : St) : serverE (result string MppError)
| NowUtc : serverE Z
| PrepareOpen (transaction recent_blockhash : string) : serverE (result PreparedOpen MppError)
| CurrentSlot : serverE (result Z string)
| BlockhashValidity (blockhash : string) (min_slot : option Z) : serverE (result (bool * Z) string)
| SubmitOpen (prepared : PreparedOpen) : serverE (result Z string)
| LandedSlot (signature : string) : serverE (result (option Z) string)
| ReadAccount (address : Pubkey) (min_slot : option Z) (program : Pubkey) :
    serverE (result (option (result OnchainChannel MppError)) string)
| FinalizedUnfunded (address : Pubkey) (signature : string) (min_slot : Z) : serverE (result bool string).

(** What the chain answers to an open. *)
Record chain_answers := {
  utc_answer : Z;
  prepare_answer : result PreparedOpen MppError;
  current_slot_answer : result Z string;
  validity_answer : result (bool * Z) string;
  submit_answer : result Z string;
  landed_answer : result (option Z) string;
  account_answer : result (option (result OnchainChannel MppError)) string;
  unfunded_answer : result bool string;
}.

(** What the environment decides about a step. *)
Record server_env := {
  store_env : env;
  lifecycle_answer : result (option (ObservedLifecycle * Z) * Z) MppError;
  signer_answer : result (list byte) string;
  topup_answer : result string MppError;
  chain : chain_answers;
}.

Definition server_exec (X : Type) (f : server_env) (e : serverE X) m : X * gmap string St :=
  match e with
  | Get id => faulty (store_env f) m m (Ok (m !! id))
  | Update _ id updater =>
      let '(r, out) := updater (env_now (store_env f)) (m !! id) in
      let '(x, m') := match r with
                      | Ok s => faulty (store_env f) m (<[id := s]> m) (Ok s)
                      | Err e => faulty (store_env f) m m (Err e)
                      end in ((x, out), m')
  | NowUnixSecs => (env_now (store_env f), m)
  | ReadLifecycle _ _ _ => (lifecycle_answer f, m)
  | SignMessage _ => (signer_answer f, m)
  | SubmitTopUp _ _ => (topup_answer f, m)
  | NowUtc => (utc_answer (chain f), m)
  | PrepareOpen _ _ => (prepare_answer (chain f), m)
  | CurrentSlot => (current_slot_answer (chain f), m)
  | BlockhashValidity _ _ => (validity_answer (chain f), m)
  | SubmitOpen _ => (submit_answer (chain f), m)
  | LandedSlot _ => (landed_answer (chain f), m)
  | ReadAccount _ _ _ => (account_answer (chain f), m)
  | FinalizedUnfunded _ _ _ => (unfunded_answer (chain f), m)
  end.

Abbreviation server := (prog serverE).
Abbreviation answer A := (server (result A MppError)).

(** ** The guarded store ([BoundStore]) *)

(** A program of the core, run by the server on its guarded store; the flag of an
    update starts out false. *)
Fixpoint core {A} (cfg : Config) (p : prog (sessionE (Value := Value)) A) : server A :=
  match p with
  | Ret a => Ret a
  | Vis e k =>
      match e in Session.sessionE X return (X -> server A) -> server A with
      | GetChannel id => fun k => Vis (Get id) (fun got => k (bound_read (store_binding cfg) got))
      | UpdateChannel id updater => fun k =>
          Vis (Update _ id (bound (store_binding cfg) false updater)) k
      end (fun x => core cfg (k x))
  end.

Definition get (cfg : Config) (id : string) : server (result (option St) MppError) :=
  await got := perform (Get id) in Ret (try (bound_read (store_binding cfg) got)).

Definition get_existing (cfg : Config) (id : string) : answer St :=
  await? got := get cfg id in Ret (ok_or got (err_channel id)).

(** [update_channel] and the value its closure leaves for the caller, [init] when
    it does not run. *)
Definition update {R} (cfg : Config) (id : string) (init : R)
    (updater : Z -> option St -> result St StoreError * R) : server (result St StoreError * R) :=
  perform (Update R id (bound (store_binding cfg) init updater)).

Definition mutate (cfg : Config) (id : string) (mutator : St -> result unit StoreError * St) :
    server (result unit StoreError) :=
  await updated := update cfg id tt (mutating None mutator) in Ret (rmap (fun _ => tt) updated.1).

(** ** The onchain snapshot *)

Definition snapshot_max_age (cfg : Config) : Z :=
  Z.min CHANNEL_SNAPSHOT_MAX_AGE_SECONDS (grace_period_seconds cfg `div` 2).

Definition snapshot_due (now max_age : Z) s : bool :=
  negb (sealed s) && bool_decide (close_requested_at s = None) &&
  negb (match pending_setup s with Some setup => opens_channel setup | None => false end) &&
  bool_decide (max_age <= u64_saturating_mul (u64_saturating_sub now (onchain_observed_at s)) 2).

(** The mutator of [refresh_channel_snapshot]. *)
Definition observe (cfg : Config) (now slot : Z) (lc : ObservedLifecycle) (settled : Z) s :
    result unit StoreError * St :=
  let s := with_settled_on_chain (Z.max (settled_on_chain s) settled) s in
  let '(outcome, s) := record_onchain_observation {| slot := Some slot; observed := lc |} now s in
  match outcome with
  | ObservationBehind recorded =>
      (Err (Internal ("channel read at slot " +:+ pretty slot +:+ " is behind the recorded slot "
        +:+ pretty recorded)), s)
  | ObservationFresh =>
      (Ok tt, match lc with
              | LifecycleOpen => s
              | _ =>
                  let now_ms := u64_saturating_mul now 1000 in
                  let close_after := match lifecycle s with
                                     | Some current => Z.min (close_after current) now_ms
                                     | None => now_ms
                                     end in
                  with_lifecycle (Some {| owner := operator cfg; close_after := close_after |}) s
              end)
  end.

Definition lifecycle_verdict (id : string) (lc : ObservedLifecycle) : result unit MppError :=
  match lc with
  | LifecycleOpen => Ok tt
  | LifecycleClosing started_at =>
      Err (MppOther ("Channel close is pending — channel " +:+ id +:+ " has been closing onchain since "
        +:+ pretty started_at +:+ "; no further charges accepted"))
  | LifecycleTerminal _ => Err (MppOther ("Channel " +:+ id +:+ " is already sealed onchain"))
  end.

Definition refresh_channel_snapshot (cfg : Config) (id : string) : answer unit :=
  await now := perform NowUnixSecs in
  let now := now_u64 now in
  let max_age := snapshot_max_age cfg in
  await? state := get cfg id in
  if negb (match state with Some s => snapshot_due now max_age s | None => false end)
  then Ret (Ok tt) else
  let min_slot := match state with Some s => onchain_observed_slot s | None => 0 end in
  await? (read, slot) := perform (ReadLifecycle id now min_slot) in
  match read with
  | None => Ret (Err (MppOther ("Channel " +:+ id +:+ " not found onchain")))
  | Some (lc, settled) =>
      await recorded := mutate cfg id (observe cfg now slot lc settled) in
      await? _ := Ret (try recorded) in
      Ret (lifecycle_verdict id lc)
  end.

(** ** Vouchers that pay for a request *)

Abbreviation guard_fn := (St -> result unit MppError).

(** The commit hook of [verify_voucher_priced]. *)
Definition priced_commit (cfg : Config) (amount : Z) (allow_replay : bool) (guard : guard_fn)
    (expires_at now : Z) s (replay : bool) : result unit StoreError * St :=
  match require_fresh_snapshot s (snapshot_max_age cfg) now with
  | Err e => (Err e, s)
  | Ok _ =>
      if replay && negb allow_replay
      then (Err (Internal "voucher was already accepted; sign a new voucher for this request"), s) else
      match guard s with
      | Err e => (Err (Internal (mpp_error_text e)), s)
      | Ok _ =>
          match u64_checked_add (spent_amount s) (if replay then 0 else amount) with
          | None => (Err (Internal "session spent amount overflow"), s)
          | Some spent =>
              (Ok tt, touch_activity (operator cfg) now expires_at (grace_period_seconds cfg)
                        (with_spent_amount spent s))
          end
      end
  end.

Definition verify_voucher_priced (cfg : Config) (payload : VoucherPayload) (amount : Z)
    (allow_replay : bool) (guard : guard_fn) : answer VoucherAcceptance :=
  let voucher := vp_voucher payload in
  let id := vd_channel_id (sv_data voucher) in
  if decide (config_signer cfg = Operator) then Ret (Err (MppOther OPERATOR_VOUCHER_ERROR)) else
  if decide (vp_channel_id payload <> id)
  then Ret (Err (MppOther "voucher action channelId does not match the signed voucher's channelId")) else
  await? state := get_existing cfg id in
  if decide (voucher_signer state = "operator") then Ret (Err (MppOther OPERATOR_VOUCHER_ERROR)) else
  if decide (sv_signer voucher <> authorized_signer state)
  then Ret (Err (MppOther "voucher signer does not match the channel authorized signer")) else
  await? new_cumulative := Ret (ok_or (parse_u64 (vd_cumulative_amount (sv_data voucher)))
                                  (MppOther "Invalid cumulative in voucher")) in
  await? _ := refresh_channel_snapshot cfg id in
  let expires_at := default 0 (vd_expires_at (sv_data voucher)) in
  await now := perform NowUnixSecs in
  await accepted := core cfg (accept_voucher_with_commit {|
      arg_channel := id; new_cumulative := new_cumulative; arg_expires_at := expires_at;
      signature_b58 := sv_signature voucher; arg_now := now;
      Session.min_voucher_delta := min_voucher_delta cfg;
      settlement_window := grace_period_seconds cfg; required_availability := amount
    |} (priced_commit cfg amount allow_replay guard expires_at)) in
  Ret (rmap_err of_core_error accepted).

Definition verify_voucher (cfg : Config) (payload : VoucherPayload) : answer VoucherAcceptance :=
  verify_voucher_priced cfg payload (amount cfg) true (fun _ => Ok tt).

Definition verify_voucher_with_guard (cfg : Config) (payload : VoucherPayload) (guard : guard_fn) :
    answer VoucherAcceptance :=
  verify_voucher_priced cfg payload (amount cfg) false guard.

Definition verify_voucher_for_amount (cfg : Config) (payload : VoucherPayload) (amount : Z) :
    answer VoucherAcceptance :=
  if decide (amount = 0) then Ret (Err (MppOther "session voucher request amount must be positive"))
  else verify_voucher_priced cfg payload amount false (fun _ => Ok tt).

(** ** Operator-signed uses *)

Definition closed s : bool := sealed s || bool_decide (is_Some (close_requested_at s)).

(** An operator's debit of [delta], with the voucher that covers it and the
    record of the request. *)
Definition charge_state (cfg : Config) (cumul spent : Z) (signature : string) (now : Z)
    (entry : ProcessedUse) s : St :=
  let s := with_cumulative cumul s in
  let s := with_spent_amount spent s in
  let s := with_highest_voucher_signature (Some signature) s in
  let s := with_highest_voucher_expires_at (Some 0) s in
  let s := touch_activity (operator cfg) now 0 0 s in
  with_processed_uses (record_use (processed_uses s) entry) s.

(** The closure of [process_use]. *)
Definition use_locked (cfg : Config) (signing_key : SigningKey) (signer : string)
    (payload : UsePayload) (authentication_json challenge_id idempotency_key : string)
    (now : Z) (o : option St) : result St StoreError * option UseAcceptance :=
  let refuse e := (Err e, None) in
  match o with
  | None => refuse (err_no_channel (up_channel_id payload))
  | Some s =>
      if closed s then refuse (Internal err_closed) else
      match check_use_binding s (up_authentication payload) authentication_json with
      | Err e => refuse e
      | Ok _ =>
          match find_use idempotency_key s with
          | Some replay =>
              (Ok s, Some {| ua_voucher := use_voucher (channel_id s) signer (pu_cumulative replay)
                                             (pu_voucher_signature replay);
                             ua_replay := true |})
          | None =>
              match require_fresh_snapshot s (snapshot_max_age cfg) now with
              | Err e => refuse e
              | Ok _ =>
                  match u64_checked_add (cumulative s) (amount cfg) with
                  | None => refuse (Internal "session cumulative overflow")
                  | Some cumul =>
                      if decide (deposit s < cumul)
                      then refuse (Internal "insufficient channel availability") else
                      let data := {| vd_channel_id := channel_id s;
                                     vd_cumulative_amount := pretty cumul; vd_expires_at := None |} in
                      match data_message_bytes data with
                      | Err e => refuse (Internal (mpp_error_text e))
                      | Ok bytes =>
                          let signature := bs58_encode (sign_bytes signing_key bytes) in
                          match u64_checked_add (spent_amount s) (amount cfg) with
                          | None => refuse (Internal "session spent amount overflow")
                          | Some spent =>
                              (Ok (charge_state cfg cumul spent signature now
                                     {| pu_challenge_id := challenge_id;
                                        pu_idempotency_key := idempotency_key;
                                        pu_cumulative := cumul; pu_voucher_signature := signature;
                                        pu_amount := Some (amount cfg) |} s),
                               Some {| ua_voucher := {| sv_data := data; sv_signer := signer;
                                                        sv_signature := signature |};
                                       ua_replay := false |})
                          end
                      end
                  end
              end
          end
      end
  end.

Definition err_serialize (e : string) : MppError := MppOther ("serialize authentication: " +:+ e).
Definition err_use_client : MppError := MppOther "use is only valid for operator-signed sessions".

Definition process_use (cfg : Config) (payload : UsePayload) (challenge_id idempotency_key : string) :
    answer UseAcceptance :=
  await? _ := Ret (check_idempotency_key idempotency_key) in
  if decide (config_signer cfg <> Operator) then Ret (Err err_use_client) else
  await? signing_key := Ret (ok_or (operator_signing_key cfg)
                               (MppOther "operator signing key is required for use")) in
  let signer := bs58_encode (verifying_bytes signing_key) in
  if decide (signer <> operator cfg)
  then Ret (Err (MppOther "operator signing key does not match configured operator")) else
  await? authentication_json :=
    Ret (rmap_err err_serialize (authentication_text (up_authentication payload))) in
  await? _ := refresh_channel_snapshot cfg (up_channel_id payload) in
  await updated := update cfg (up_channel_id payload) None
    (use_locked cfg signing_key signer payload authentication_json challenge_id idempotency_key) in
  let '(r, out) := updated in
  await? _ := Ret (try r) in
  Ret (ok_or out (MppOther "use did not produce a voucher")).

Definition authenticate_use (cfg : Config) (payload : UsePayload)
    (challenge_id idempotency_key : string) : answer AuthenticatedUse :=
  await? _ := Ret (check_idempotency_key idempotency_key) in
  if decide (config_signer cfg <> Operator) then Ret (Err err_use_client) else
  await? authentication_json :=
    Ret (rmap_err err_serialize (authentication_text (up_authentication payload))) in
  await? state := get_existing cfg (up_channel_id payload) in
  if closed state then Ret (Err (MppOther err_closed)) else
  await? _ := Ret (try (check_use_binding state (up_authentication payload) authentication_json)) in
  await? _ := refresh_channel_snapshot cfg (up_channel_id payload) in
  Ret (Ok {| au_channel_id := up_channel_id payload; au_authentication := authentication_json;
             au_challenge_id := challenge_id; au_idempotency_key := idempotency_key |}).

(** ** Metered operator charges *)

Definition watermark_moved (cfg : Config) (id : string) (base : Z) : answer bool :=
  await? got := get cfg id in
  Ret (Ok (match got with Some s => bool_decide (cumulative s <> base) | None => false end)).

(** The record of the request when it reached [request_total]. *)
Definition reached_total (request_total : Z) (recorded : option RecordedUse) : option RecordedUse :=
  match recorded with
  | Some entry => if decide (request_total <= ru_request_total entry) then Some entry else None
  | None => None
  end.
Definition charged_total (recorded : option RecordedUse) : Z :=
  match recorded with Some entry => ru_request_total entry | None => 0 end.

(** What the closure of the charge leaves for its caller. *)
Record charge_out := { moved : bool; replayed : option RecordedUse }.

(** The closure of one attempt, which read [base] and [charged_before] and signed
    for [cumul]. *)
Definition charge_locked (cfg : Config) (a : AuthenticatedUse) (guard : guard_fn)
    (request_total base charged_before cumul : Z) (signature : string) (now : Z) (o : option St) :
    result St StoreError * charge_out :=
  let refuse e := (Err e, {| moved := false; replayed := None |}) in
  match o with
  | None => refuse (Internal "Channel not found")
  | Some s =>
      if closed s then refuse (Internal err_closed) else
      match let? _ := check_bound_authentication s (au_authentication a) in
            let? _ := require_fresh_snapshot s (snapshot_max_age cfg) now in
            recorded_use s a with
      | Err e => refuse e
      | Ok recorded =>
          match reached_total request_total recorded with
          | Some entry => (Ok s, {| moved := false; replayed := Some entry |})
          | None =>
              if decide (cumulative s <> base \/ charged_total recorded <> charged_before)
              then (Err (Internal "operator charge watermark moved"), {| moved := true; replayed := None |})
              else
              if decide (deposit s < cumul) then refuse (Internal "insufficient channel availability") else
              match guard s with
              | Err e => refuse (Internal (mpp_error_text e))
              | Ok _ =>
                  match u64_checked_add (spent_amount s) (request_total - charged_before) with
                  | None => refuse (Internal "session spent amount overflow")
                  | Some spent =>
                      (Ok (charge_state cfg cumul spent signature now
                             {| pu_challenge_id := au_challenge_id a;
                                pu_idempotency_key := au_idempotency_key a;
                                pu_cumulative := cumul; pu_voucher_signature := signature;
                                pu_amount := Some request_total |} s),
                       {| moved := false; replayed := None |})
                  end
              end
          end
      end
  end.

(** What an attempt decides: an answer, or to try again. *)
Fixpoint charge_loop (attempts : nat) (cfg : Config) (a : AuthenticatedUse) (operator : string)
    (request_total : Z) (guard : guard_fn) : answer OperatorCharge :=
  let id := au_channel_id a in
  match attempts with
  | O => Ret (Err (MppOther ("channel " +:+ id +:+ " kept advancing concurrently; retry the request")))
  | S attempts =>
      await? state := get_existing cfg id in
      if closed state then Ret (Err (MppOther err_closed)) else
      await? _ := Ret (try (check_bound_authentication state (au_authentication a))) in
      await? recorded := Ret (try (recorded_use state a)) in
      let charged_before := charged_total recorded in
      match reached_total request_total recorded with
      | Some entry => Ret (Ok (replayed_charge id operator entry))
      | None =>
          let delta := request_total - charged_before in
          let base := cumulative state in
          await? cumul := Ret (ok_or (u64_checked_add base delta) (MppOther "session cumulative overflow")) in
          if decide (deposit state < cumul)
          then Ret (Err (MppOther "insufficient channel availability")) else
          await? bytes := Ret (data_message_bytes {| vd_channel_id := id;
            vd_cumulative_amount := pretty cumul; vd_expires_at := None |}) in
          await signed := perform (SignMessage bytes) in
          await? signature := Ret (rmap_err
            (fun e => MppOther ("operator voucher signing failed: " +:+ e)) signed) in
          let signature := bs58_encode signature in
          await updated := update cfg id {| moved := false; replayed := None |}
            (charge_locked cfg a guard request_total base charged_before cumul signature) in
          let '(r, out) := updated in
          match r with
          | Ok _ =>
              match replayed out with
              | Some entry => Ret (Ok (replayed_charge id operator entry))
              | None => Ret (Ok {| oc_voucher := use_voucher id operator cumul signature;
                                   previous_cumulative := base; oc_cumulative := cumul;
                                   oc_charged := delta; oc_request_total := request_total;
                                   oc_replay := false |})
              end
          | Err error =>
              if moved out then charge_loop attempts cfg a operator request_total guard else
              await? lost := watermark_moved cfg id base in
              if lost : bool then charge_loop attempts cfg a operator request_total guard
              else Ret (Err (server_store_err error))
          end
      end
  end.

(** [signer_pubkey] is the remote signer's public key. *)
Definition charge_operator_request (cfg : Config) (a : AuthenticatedUse) (signer_pubkey : string)
    (request_total : Z) (guard : guard_fn) : answer OperatorCharge :=
  if decide (request_total = 0)
  then Ret (Err (MppOther "operator charge amount must be positive")) else
  if decide (config_signer cfg <> Operator)
  then Ret (Err (MppOther "operator charges are only valid for operator-signed sessions")) else
  if decide (signer_pubkey <> operator cfg)
  then Ret (Err (MppOther "operator signer does not match configured operator")) else
  await? _ := refresh_channel_snapshot cfg (au_channel_id a) in
  charge_loop OPERATOR_CHARGE_ATTEMPTS cfg a signer_pubkey request_total guard.

(** ** Top-ups *)

Definition topup_channel (cfg : Config) (payload : TopUpPayload) : answer (Z * St) :=
  await? additional := Ret (ok_or (parse_u64 (additional_amount payload))
                              (MppOther "invalid additionalAmount")) in
  if decide (additional = 0) then Ret (Err (MppOther "additionalAmount must be positive")) else
  await? existing := get_existing cfg (tp_channel_id payload) in
  if closed existing then Ret (Err (MppOther err_closed)) else
  Ret (Ok (additional, existing)).

(** The closure of the top-up; it passes out whether the transaction had been
    credited. *)
Definition topup_locked (cfg : Config) (id signature : string) (additional now : Z) (o : option St) :
    result St StoreError * bool :=
  match o with
  | None => (Err (err_no_channel id), false)
  | Some s =>
      if decide (signature ∈ processed_topup_signatures s) then (Ok s, true) else
      if sealed s then (Err (Internal "Channel is already sealed"), false) else
      if decide (is_Some (close_requested_at s))
      then (Err (Internal "Channel close is pending — no further top-ups accepted"), false) else
      match u64_checked_add (deposit s) additional with
      | None => (Err (Internal "top-up deposit overflow"), false)
      | Some new_deposit =>
          let lifecycle := idle_lifecycle s (operator cfg) (now_ms now)
            (default 0 (highest_voucher_expires_at s)) (grace_period_seconds cfg) in
          let s := with_deposit new_deposit (with_lifecycle lifecycle s) in
          (Ok (with_processed_topup_signatures (processed_topup_signatures s ++ [signature])
                 (with_last_activity_at (now_ms now) s)), false)
      end
  end.

Definition process_topup_with_outcome (cfg : Config) (payload : TopUpPayload) :
    answer (TopUpAcceptance St) :=
  await? (additional, existing) := topup_channel cfg payload in
  await? signature := perform (SubmitTopUp payload existing) in
  await updated := update cfg (tp_channel_id payload) false
    (topup_locked cfg (tp_channel_id payload) signature additional) in
  let '(r, replay) := updated in
  await? state := Ret (try r) in
  Ret (Ok {| ta_state := state; ta_replay := replay; transaction_signature := signature |}).

Definition process_topup (cfg : Config) (payload : TopUpPayload) : answer St :=
  await? acceptance := process_topup_with_outcome cfg payload in Ret (Ok (ta_state acceptance)).

(** ** What the closures do, when they do it *)

(** Everything but activity, lifecycle, fences and the onchain observation. *)
Definition same_money s s' : Prop :=
  cumulative s' = cumulative s /\ spent_amount s' = spent_amount s /\ deposit s' = deposit s /\
  processed_uses s' = processed_uses s /\
  processed_topup_signatures s' = processed_topup_signatures s /\
  pending_deliveries s' = pending_deliveries s /\ committed_deliveries s' = committed_deliveries s /\
  authorized_signer s' = authorized_signer s /\ voucher_signer s' = voucher_signer s /\
  highest_voucher_signature s' = highest_voucher_signature s /\
  highest_voucher_expires_at s' = highest_voucher_expires_at s.

Lemma same_money_refl s : same_money s s.
Proof. by unfold same_money. Qed.

Lemma same_money_trans s1 s2 s3 : same_money s1 s2 -> same_money s2 s3 -> same_money s1 s3.
Proof. unfold same_money. intros. intuition congruence. Qed.

(** A fence once set stays. *)
Definition fenced s s' : Prop :=
  (sealed s = true -> sealed s' = true) /\
  (is_Some (close_requested_at s) -> is_Some (close_requested_at s')).

Lemma fenced_refl s : fenced s s.
Proof. by split. Qed.

Lemma fenced_trans s1 s2 s3 : fenced s1 s2 -> fenced s2 s3 -> fenced s1 s3.
Proof. unfold fenced. naive_solver. Qed.

Lemma closed_false s : closed s = false <-> sealed s = false /\ close_requested_at s = None.
Proof.
  unfold closed. rewrite orb_false_iff, bool_decide_eq_false. rewrite <-eq_None_not_Some. done.
Qed.

Lemma apply_fences_same lc s : same_money s (apply_fences lc s) /\ fenced s (apply_fences lc s).
Proof. destruct lc as [| |[]]; unfold same_money, fenced; simpl; split_and!; eauto. Qed.

Lemma observe_same cfg now slot lc n s r s' :
  observe cfg now slot lc n s = (r, s') -> same_money s s' /\ fenced s s'.
Proof.
  unfold observe, record_onchain_observation. cbn [Channel.slot observed].
  set (s0 := with_settled_on_chain _ s). destruct (apply_fences_same lc s0) as [Hm Hf].
  assert (same_money s s0) as Hm0 by done. assert (fenced s s0) as Hf0 by done.
  set (s1 := apply_fences lc s0) in *.
  assert (Hend : forall s2, same_money s1 s2 -> fenced s1 s2 -> same_money s s2 /\ fenced s s2).
  { intros s2 ??. split.
    - apply (same_money_trans _ s0); [done|]. by apply (same_money_trans _ s1).
    - apply (fenced_trans _ s0); [done|]. by apply (fenced_trans _ s1). }
  case_decide; [intros [= <- <-]; by apply Hend; [apply same_money_refl|apply fenced_refl]|].
  intros [= <- <-]. apply Hend; clearbody s1; destruct lc; done.
Qed.

Lemma priced_commit_ok cfg a allow guard e now s flag s' :
  priced_commit cfg a allow guard e now s flag = (Ok tt, s') ->
  s' = touch_activity (operator cfg) now e (grace_period_seconds cfg)
         (with_spent_amount (spent_amount s + (if flag then 0 else a)) s) /\
  spent_amount s + (if flag then 0 else a) <= u64_max /\ (flag = true -> allow = true).
Proof.
  unfold priced_commit. destruct (require_fresh_snapshot _ _ _); [|done].
  destruct (flag && negb allow) eqn:Hr; [done|]. destruct (guard s); [|done].
  destruct (u64_checked_add _ _) as [spent|] eqn:Hs; [|done]. intros [= <-].
  apply u64_checked_add_some in Hs as [<- Hs]. split_and!; [done|done|]. intros ->. by destruct allow.
Qed.

Lemma use_locked_ok cfg k signer p auth ch key now s s' out :
  use_locked cfg k signer p auth ch key now (Some s) = (Ok s', out) ->
  closed s = false /\ voucher_signer s = "operator" /\
  ((exists entry v, find_use key s = Some entry /\ s' = s /\
      out = Some {| ua_voucher := v; ua_replay := true |}) \/
   (exists v signature, find_use key s = None /\
      out = Some {| ua_voucher := v; ua_replay := false |} /\
      cumulative s + amount cfg <= deposit s /\
      s' = charge_state cfg (cumulative s + amount cfg) (spent_amount s + amount cfg) signature now
             {| pu_challenge_id := ch; pu_idempotency_key := key;
                pu_cumulative := cumulative s + amount cfg; pu_voucher_signature := signature;
                pu_amount := Some (amount cfg) |} s)).
Proof.
  unfold use_locked. destruct (closed s); [done|].
  destruct (check_use_binding s _ _) as [u|] eqn:Hb; [|done]. intros Hu. split; [done|].
  assert (voucher_signer s = "operator") as Hop.
  { clear Hu. unfold check_use_binding in Hb. case_decide; [done|]. case_decide as Hn; [done|].
    destruct (decide (voucher_signer s = "operator")); [done|tauto]. }
  split; [done|]. destruct (find_use key s) as [entry|].
  { injection Hu as <- <-. left. eauto. }
  right. destruct (require_fresh_snapshot _ _ _); [|done].
  destruct (u64_checked_add (cumulative s) _) as [c|] eqn:Hc; [|done].
  apply u64_checked_add_some in Hc as [<- _]. case_decide; [done|].
  destruct (data_message_bytes _); [|done].
  destruct (u64_checked_add (spent_amount s) _) as [sp|] eqn:Hsp; [|done].
  apply u64_checked_add_some in Hsp as [<- _]. injection Hu as <- <-.
  eexists _, _. split_and!; [done|done|lia|done].
Qed.

(** What one attempt of a metered charge may leave. *)
Lemma charge_locked_ok cfg a guard total base before c signature now s s' out :
  charge_locked cfg a guard total base before c signature now (Some s) = (Ok s', out) ->
  closed s = false /\ voucher_signer s = "operator" /\
  ((exists entry, s' = s /\ replayed out = Some entry) \/
   (replayed out = None /\ cumulative s = base /\ c <= deposit s /\
    (exists recorded, recorded_use s a = Ok recorded /\ charged_total recorded = before) /\
    s' = charge_state cfg c (spent_amount s + (total - before)) signature now
           {| pu_challenge_id := au_challenge_id a; pu_idempotency_key := au_idempotency_key a;
              pu_cumulative := c; pu_voucher_signature := signature; pu_amount := Some total |} s)).
Proof.
  unfold charge_locked. destruct (closed s); [done|].
  destruct (rbind _ _) as [recorded|] eqn:Hr; [|done]. intros Hu. split; [done|].
  apply rbind_ok in Hr as ([] & Hb & Hr). apply rbind_ok in Hr as ([] & _ & Hr).
  assert (voucher_signer s = "operator") as Hop.
  { clear Hu. unfold check_bound_authentication in Hb. case_decide as Hn; [done|].
    destruct (decide (voucher_signer s = "operator")); [done|tauto]. }
  split; [done|]. destruct (reached_total total recorded) as [entry|].
  { injection Hu as <- <-. left. eauto. }
  right. case_decide as Hn; [done|]. case_decide; [done|]. destruct (guard s); [|done].
  destruct (u64_checked_add _ _) as [sp|] eqn:Hsp; [|done].
  apply u64_checked_add_some in Hsp as [<- _]. injection Hu as <- <-.
  split_and!; [done|destruct (decide (cumulative s = base)); [done|tauto]|lia| |done].
  exists recorded. split; [done|]. destruct (decide (charged_total recorded = before)); [done|tauto].
Qed.

Lemma topup_locked_ok cfg id signature additional now s s' out :
  topup_locked cfg id signature additional now (Some s) = (Ok s', out) ->
  if out then s' = s /\ signature ∈ processed_topup_signatures s
  else signature ∉ processed_topup_signatures s /\ sealed s = false /\ close_requested_at s = None /\
       exists lc, s' = with_processed_topup_signatures (processed_topup_signatures s ++ [signature])
         (with_last_activity_at (now_ms now)
           (with_deposit (deposit s + additional) (with_lifecycle lc s))).
Proof.
  unfold topup_locked. case_decide; [by intros [= <- <-]|]. destruct (sealed s); [done|].
  case_decide as Hc; [done|]. destruct (u64_checked_add _ _) as [d|] eqn:Hd; [|done].
  apply u64_checked_add_some in Hd as [<- _]. intros [= <- <-].
  split_and!; [done|done|by apply eq_None_not_Some|]. by eexists.
Qed.
End server.
