(* ===== verification/MppDelivery.v ===== *)
(** Metered deliveries and the close of a session
    (src/rust/crates/kit/src/mpp/server/session.rs): a delivery reserves part of
    the deposit, its final usage is recorded, the client's voucher commits it, and
    a close must pay for what is still reserved. *)
From stdpp Require Import base numbers option list gmap strings pretty.
From S2P Require Import Prelude Effects Bytes Json Store Channel Authorization Voucher Session.
From S2P Require Import Deployments MppBase MppBinding MppSession.
Open Scope Z_scope.

Section delivery.
Context {Value Key SigningKey : Type} `{SerdeJson Value, !Serde Value (Binding Value), Verifier Key,
  !SessionCrypto Key SigningKey}.
Abbreviation St := (ChannelState Value).
Abbreviation Config := (SessionServer Value SigningKey).
Abbreviation answer A := (prog (serverE (Value := Value)) (result A MppError)).
Implicit Types (s : St) (m : gmap string St).

(** * Metered deliveries *)

Definition has_delivery (id : string) s : bool :=
  existsb (fun d => bool_decide (pd_delivery_id d = id)) (pending_deliveries s) ||
  existsb (fun d => bool_decide (cd_delivery_id d = id)) (committed_deliveries s).

(** [try_fold] of the reservations with [checked_add]. *)
Fixpoint checked_total (total : Z) (deliveries : list PendingDelivery) : option Z :=
  match deliveries with
  | [] => Some total
  | d :: deliveries => u64_checked_add total (pd_amount d) ≫= fun total => checked_total total deliveries
  end.

Definition err_delivery (id what : string) : StoreError := Internal ("Delivery " +:+ id +:+ what).

(** The closure of [begin_delivery]. *)
Definition begin_locked (cfg : Config) (request : DeliveryRequest) (currency : string)
    (expires_at now : Z) (o : option St) : result St StoreError * option MeteringDirective :=
  let refuse e := (Err e, None) in
  let session_id := dr_session_id request in
  match o with
  | None => refuse (err_no_channel session_id)
  | Some s =>
      if sealed s then refuse (Internal "Channel is already sealed") else
      if decide (is_Some (close_requested_at s))
      then refuse (Internal "Channel close is pending — no further deliveries accepted") else
      match require_fresh_snapshot s (snapshot_max_age cfg) now with
      | Err e => refuse e
      | Ok _ =>
          let reserved := checked_total (cumulative s) (pending_deliveries s) ≫= fun total =>
                          u64_checked_add total (dr_amount request) in
          if match reserved with Some reserved => bool_decide (deposit s < reserved) | None => true end
          then refuse (Internal ("Delivery amount " +:+ pretty (dr_amount request)
                 +:+ " exceeds available deposit")) else
          let sequence := u64_wrap (next_delivery_sequence s + 1) in
          let delivery_id := default (session_id +:+ ":" +:+ pretty sequence) (dr_delivery_id request) in
          if has_delivery delivery_id s then refuse (err_delivery delivery_id " already exists") else
          let s := with_next_delivery_sequence sequence s in
          (Ok (with_pending_deliveries (pending_deliveries s ++ [{|
                 pd_delivery_id := delivery_id; pd_amount := dr_amount request;
                 pd_sequence := sequence; pd_expires_at := expires_at;
                 pd_request_fingerprint := None; pd_handler_succeeded := false |}]) s),
           Some {| md_delivery_id := delivery_id; md_session_id := session_id;
                   md_amount := pretty (dr_amount request); md_currency := currency;
                   md_sequence := sequence; md_expires_at := expires_at;
                   md_commit_url := dr_commit_url request; md_proof := dr_proof request |})
      end
  end.

Definition begin_delivery (cfg : Config) (request : DeliveryRequest) : answer MeteringDirective :=
  if decide (dr_amount request = 0)
  then Ret (Err (MppOther "Delivery amount must be greater than zero")) else
  await? mint := Ret (expected_payment_channel_mint cfg) in
  let currency := bs58_encode mint in
  let expires_at := default DEFAULT_SESSION_EXPIRES_AT (dr_expires_at request) in
  await? _ := refresh_channel_snapshot cfg (dr_session_id request) in
  await updated := update cfg (dr_session_id request) None (begin_locked cfg request currency expires_at) in
  let '(r, directive) := updated in
  await? _ := Ret (try r) in
  Ret (ok_or directive (MppOther "Delivery reservation did not produce directive")).

Definition find_pending (id : string) s : option nat :=
  position (fun d => bool_decide (pd_delivery_id d = id)) (pending_deliveries s).

Definition with_amount (amount : Z) (d : PendingDelivery) : PendingDelivery := {|
  pd_delivery_id := pd_delivery_id d; pd_amount := amount; pd_sequence := pd_sequence d;
  pd_expires_at := pd_expires_at d; pd_request_fingerprint := pd_request_fingerprint d;
  pd_handler_succeeded := pd_handler_succeeded d;
|}.

(** The closure of [record_delivery_usage]. *)
Definition usage_locked (delivery_id : string) (amount now : Z) (o : option St) :
    result St StoreError * unit :=
  match o with
  | None => (Err (Internal "Channel not found"), tt)
  | Some s =>
      match find_pending delivery_id s with
      | None => (Err (err_delivery delivery_id " not found"), tt)
      | Some index =>
          let reserved := default 0 (pd_amount <$> pending_deliveries s !! index) in
          if decide (reserved < amount)
          then (Err (Internal ("Usage " +:+ pretty amount +:+ " exceeds reserved amount "
                  +:+ pretty reserved)), tt)
          else if decide (amount = 0)
          then (Ok (with_pending_deliveries (vec_remove index (pending_deliveries s)) s), tt)
          else (Ok (with_pending_deliveries (alter (with_amount amount) index (pending_deliveries s)) s), tt)
      end
  end.

Definition record_delivery_usage (cfg : Config) (channel delivery_id : string) (amount : Z) : answer unit :=
  await updated := update cfg channel tt (usage_locked delivery_id amount) in
  await? _ := Ret (try updated.1) in Ret (Ok tt).

Definition find_committed (id : string) s : option (CommittedDelivery Value) :=
  List.find (fun d => bool_decide (cd_delivery_id d = id)) (committed_deliveries s).

Definition same_commit (committed : CommittedDelivery Value) (new_cumulative : Z) (signature : string) :
    bool :=
  bool_decide (cd_cumulative committed = new_cumulative) &&
  bool_decide (cd_voucher_signature committed = signature).

Definition commit_bounds (new_cumulative : Z) s : result unit string :=
  if decide (new_cumulative <= cumulative s)
  then Err ("Commit cumulative " +:+ pretty new_cumulative +:+ " must exceed watermark "
    +:+ pretty (cumulative s)) else
  if decide (deposit s < new_cumulative)
  then Err ("Commit cumulative " +:+ pretty new_cumulative +:+ " exceeds deposit "
    +:+ pretty (deposit s)) else Ok tt.

(** The oldest records fall out ([pop_front] while there are too many). *)
Definition keep_latest (committed : list (CommittedDelivery Value)) : list (CommittedDelivery Value) :=
  drop (length committed - MAX_COMMITTED_AUTHORIZATIONS) committed.

(** The closure of [process_commit]; [now] is the time read before it,
    [clock] the time it runs at. *)
Definition commit_locked (cfg : Config) (channel delivery_id signature : string)
    (new_cumulative expires_at now clock : Z) (o : option St) :
    result St StoreError * option (Z * Z * CommitStatus) :=
  let refuse e := (Err e, None) in
  match o with
  | None => refuse (err_no_channel channel)
  | Some s =>
      if sealed s then refuse (Internal "Channel is already sealed") else
      match final_cumulative s with
      | Some fence => refuse (Internal ("Channel close is pending — final watermark is fixed at "
                        +:+ pretty fence))
      | None =>
          match find_committed delivery_id s with
          | Some committed =>
              if same_commit committed new_cumulative signature
              then (Ok s, Some (cd_amount committed, cd_cumulative committed, Replayed))
              else refuse (err_delivery delivery_id " was already committed with different voucher")
          | None =>
              match find_pending delivery_id s with
              | None => refuse (err_delivery delivery_id " not found")
              | Some index =>
                  let expires := default 0 (pd_expires_at <$> pending_deliveries s !! index) in
                  let reserved := default 0 (pd_amount <$> pending_deliveries s !! index) in
                  if decide (expires <= now) then refuse (err_delivery delivery_id " has expired") else
                  match commit_bounds new_cumulative s with
                  | Err e => refuse (Internal e)
                  | Ok _ =>
                      let actual := new_cumulative - cumulative s in
                      if decide (actual <> reserved)
                      then refuse (Internal ("Commit amount " +:+ pretty actual
                             +:+ " does not match delivery amount " +:+ pretty reserved)) else
                      match u64_checked_add (spent_amount s) actual with
                      | None => refuse (Internal "session spent amount overflow")
                      | Some spent =>
                          let s := with_pending_deliveries (vec_remove index (pending_deliveries s)) s in
                          let s := with_cumulative new_cumulative s in
                          let s := with_spent_amount spent s in
                          let s := with_highest_voucher_signature (Some signature) s in
                          let s := with_highest_voucher_expires_at (Some expires_at) s in
                          let s := touch_activity (operator cfg) clock expires_at
                                     (grace_period_seconds cfg) s in
                          let record := {|
                            cd_delivery_id := delivery_id; cd_amount := actual;
                            cd_cumulative := new_cumulative; cd_voucher_signature := signature;
                            cd_request_fingerprint := None; cd_settlement_response := None;
                            cd_retain_until := 0; cd_cached_response := None |} in
                          (Ok (with_committed_deliveries
                                 (keep_latest (committed_deliveries s ++ [record])) s),
                           Some (actual, new_cumulative, Committed))
                      end
                  end
              end
          end
      end
  end.

Definition receipt (delivery_id session_id : string) (outcome : Z * Z * CommitStatus) : CommitReceipt :=
  let '(amount, cumul, status) := outcome in
  {| cr_delivery_id := delivery_id; cr_session_id := session_id; cr_amount := pretty amount;
     cr_cumulative := pretty cumul; cr_status := status |}.

Definition err_of (e : StoreError) : MppError :=
  match e with Internal m | Serialization m => MppOther m end.

Definition process_commit (cfg : Config) (payload : CommitPayload) : answer CommitReceipt :=
  let voucher := cp_voucher payload in
  let id := cp_delivery_id payload in
  let channel := vd_channel_id (sv_data voucher) in
  let window := grace_period_seconds cfg in
  await? new_cumulative := Ret (ok_or (parse_u64 (vd_cumulative_amount (sv_data voucher)))
                                  (MppOther "Invalid cumulative in commit voucher")) in
  await? state := get_existing cfg channel in
  match find_committed id state with
  | Some committed =>
      if same_commit committed new_cumulative (sv_signature voucher) then
        await clock := perform NowUnixSecs in
        await? _ := Ret (verify_signature voucher (authorized_signer state) window clock) in
        Ret (Ok (receipt id channel (cd_amount committed, cd_cumulative committed, Replayed)))
      else Ret (Err (err_of (err_delivery id " was already committed with different voucher")))
  | None =>
      await? pending := Ret (ok_or (List.find (fun d => bool_decide (pd_delivery_id d = id))
                                      (pending_deliveries state)) (err_of (err_delivery id " not found"))) in
      await now := perform NowUnixSecs in
      if decide (pd_expires_at pending <= now) then Ret (Err (err_of (err_delivery id " has expired"))) else
      await? _ := Ret (rmap_err MppOther (commit_bounds new_cumulative state)) in
      await clock := perform NowUnixSecs in
      await? _ := Ret (verify_signature voucher (authorized_signer state) window clock) in
      await updated := update cfg channel None (commit_locked cfg channel id (sv_signature voucher)
        new_cumulative (default 0 (vd_expires_at (sv_data voucher))) now) in
      let '(r, outcome) := updated in
      await? _ := Ret (try r) in
      await? outcome := Ret (ok_or outcome (MppOther "Commit did not produce a receipt")) in
      Ret (Ok (receipt id channel outcome))
  end.

(** * Closing *)

(** The reservations a close at [now] must pay for ([u64] and back: [now as i64]). *)
Definition owed (now : Z) s : list PendingDelivery :=
  filter (fun d => owed_at_close d (i64_wrap now) = true) (pending_deliveries s).

Definition err_predates_close : StoreError :=
  Internal "session channel predates proof binding; the lifecycle worker will close it".

(** Who may close: an operator channel on its proof, a client channel on a
    voucher. *)
Definition close_authorized (payload : ClosePayload) s : result unit StoreError :=
  let unbound := bool_decide (opening_challenge_id s = "" /\ authentication s = None) in
  if bool_decide (is_Some (cl_authentication payload)) && bool_decide (voucher_signer s <> "operator")
     && unbound
  then Err err_predates_close else
  if decide (voucher_signer s = "operator") then
    if decide (is_Some (cl_voucher payload))
    then Err (Internal "operator close must not include a voucher") else
    match cl_authentication payload with
    | None => Err (Internal "operator close requires the proof bound at open")
    | Some proof =>
        if unbound then Err err_predates_close else
        let? encoded := rmap_err Internal (authentication_text proof) in
        if decide (authentication s <> Some encoded \/ sa_challenge_id proof <> opening_challenge_id s \/
                   sa_payer proof <> payer s)
        then Err (Internal "close authentication does not match the proof bound at open") else
        let? verified := rmap_err (fun e => Internal (mpp_error_text e))
          (proof_verify proof (channel_id s)) in
        if verified : bool then Ok tt
        else Err (Internal "close authentication does not match the proof bound at open")
    end
  else
    if decide (is_Some (cl_authentication payload))
    then Err (Internal "client close must not include authentication") else
    if decide (cl_voucher payload = None)
    then Err (Internal "client close requires a final voucher") else Ok tt.

(** The watermark the close seals at, with the voucher that settles it. *)
Definition final_voucher (cfg : Config) (payload : ClosePayload) (clock : Z) s :
    result (Z * option string * option Z) StoreError :=
  match cl_voucher payload with
  | None => Ok (cumulative s, highest_voucher_signature s, highest_voucher_expires_at s)
  | Some voucher =>
      let? cumul := ok_or (parse_u64 (vd_cumulative_amount (sv_data voucher)))
        (Internal "Invalid cumulative") in
      let expires_at := default 0 (vd_expires_at (sv_data voucher)) in
      let verified := rmap_err (fun e => Internal (mpp_error_text e))
        (verify_signature voucher (authorized_signer s) (grace_period_seconds cfg) clock) in
      if decide (cumul <= cumulative s) then
        if decide (cumul = cumulative s /\ highest_voucher_signature s = Some (sv_signature voucher)) then
          let? _ := verified in
          Ok (cumulative s, highest_voucher_signature s,
              or_else (highest_voucher_expires_at s) (Some expires_at))
        else Err (Internal ("Final voucher cumulative " +:+ pretty cumul +:+ " must exceed watermark "
               +:+ pretty (cumulative s)))
      else
        if decide (deposit s < cumul) then Err (Internal "Final voucher exceeds deposit") else
        let? _ := verified in
        Ok (cumul, Some (sv_signature voucher), Some expires_at)
  end.

(** Pays for what is owed out of the final voucher. *)
Definition settle_pending (payload : ClosePayload) (now live_pending new_cumulative : Z) s :
    result St StoreError :=
  if decide (0 < live_pending) then
    let required := u64_saturating_add (cumulative s) live_pending in
    if decide (cl_voucher payload = None \/ new_cumulative < required)
    then Err (Internal ("Channel has " +:+ pretty live_pending
           +:+ " in uncommitted deliveries; the final voucher must reach cumulative "
           +:+ pretty required)) else
    let? spent := ok_or (u64_checked_add (spent_amount s) live_pending)
      (Internal "session spent amount overflow") in
    Ok (with_pending_deliveries
          (filter (fun d => owed_at_close d (i64_wrap now) = false) (pending_deliveries s))
          (with_spent_amount spent s))
  else Ok s.

(** The closure of [process_close]. *)
Definition close_locked (cfg : Config) (payload : ClosePayload) (now clock : Z) (o : option St) :
    result St StoreError * unit :=
  (let? s := ok_or o (Internal "Channel not found") in
   if sealed s then Err (Internal "Channel is already sealed") else
   if decide (is_Some (close_requested_at s)) then Err (Internal "Close already requested") else
   let? live_pending := ok_or (checked_total 0 (owed now s)) (Internal "pending delivery total overflow") in
   let? _ := close_authorized payload s in
   let? (new_cumulative, new_sig, new_expires_at) := final_voucher cfg payload clock s in
   let? s := settle_pending payload now live_pending new_cumulative s in
   let s := with_cumulative new_cumulative s in
   let s := with_highest_voucher_signature new_sig s in
   let s := with_highest_voucher_expires_at new_expires_at s in
   let s := with_close_requested_at (Some now) s in
   Ok (with_final_cumulative (Some new_cumulative) s), tt).

(** [distribution_hash] of core/payment_channel/v1.rs. *)
Definition distribution_preimage (recipients : list Split) : list byte :=
  le_bytes 4 (Z.of_nat (length recipients)) ++
  concat ((fun r => split_recipient r ++ le_bytes 2 (bps r)) <$> recipients).
Definition distribution_hash (recipients : list Split) : list byte :=
  sha256 (distribution_preimage recipients).

(** The voucher that can still settle: none once the chain is at the watermark. *)
Definition settling_voucher s : option string * option Z :=
  if decide (cumulative s <= settled_on_chain s) then (None, None)
  else (highest_voucher_signature s, highest_voucher_expires_at s).

Definition seal_params (cfg : Config) (id : string) : answer SealParams :=
  await? state := get_existing cfg id in
  if decide (deposit state < cumulative state)
  then Ret (Err (MppOther ("Channel " +:+ id +:+ " cumulative " +:+ pretty (cumulative state)
         +:+ " exceeds deposit " +:+ pretty (deposit state)))) else
  await now := perform NowUnixSecs in
  await read := perform (ReadLifecycle id (now_u64 now) 0) in
  await? state :=
    match read with
    | Ok (Some (_, onchain), _) =>
        if decide (settled_on_chain state < onchain) then
          await raised := mutate cfg id (fun s =>
            (Ok tt, with_settled_on_chain (Z.max (settled_on_chain s) onchain) s)) in
          Ret (rmap (fun _ => with_settled_on_chain onchain state) (try raised))
        else Ret (Ok state)
    | _ => Ret (Ok state)
    end in
  let '(signature, expires_at) := settling_voucher state in
  await? channel := Ret (parse_pubkey id) in
  await? payee := Ret (parse_pubkey (recipient cfg)) in
  let key {E} (r : result Pubkey E) := match r with Ok k => Some k | Err _ => None end in
  Ret (Ok {| sp_channel_id := channel; sp_authorized_signer := key (parse_pubkey (authorized_signer state));
             sp_payer := key (parse_pubkey (payer state)); sp_rent_payer := key (parse_pubkey (rent_payer state));
             sp_mint := key (expected_payment_channel_mint cfg);
             sp_program_id := default default_program_id (channel_program cfg);
             sp_channel_version := channel_version cfg; sp_channel_hooks := channel_hooks cfg;
             settled := Z.max (cumulative state) (settled_on_chain state);
             sp_voucher_signature := signature; sp_voucher_expires_at := expires_at;
             sp_recipient := payee; sp_splits := splits cfg;
             sp_distribution_hash := distribution_hash (splits cfg) |}).

Definition process_close (cfg : Config) (payload : ClosePayload) : answer SealParams :=
  await now := perform NowUnixSecs in
  let id := cl_channel_id payload in
  if match cl_voucher payload with
     | Some voucher => negb (bool_decide (vd_channel_id (sv_data voucher) = id))
     | None => false
     end
  then Ret (Err (MppOther "close voucher channelId does not match the close channelId")) else
  await updated := update cfg id tt (close_locked cfg payload now) in
  await? _ := Ret (try updated.1) in
  seal_params cfg id.

(** ** Sealed channels *)

Definition SEALED_AT_KEY : string := "mppSealedAt".

(** [entry(SEALED_AT_KEY).or_insert_with(now)]: the first time stays. *)
Definition record_sealed_at (now : Z) s : St :=
  match extra s !! SEALED_AT_KEY with
  | Some _ => s
  | None => with_extra (<[SEALED_AT_KEY := json_i64 now]> (extra s)) s
  end.

(** [SessionServer::mark_sealed]. *)
Definition server_mark_sealed (cfg : Config) (id : string) : answer unit :=
  await marked := mutate cfg id (fun s => (Ok tt, with_sealed true s)) in
  await? _ := Ret (try marked) in
  await now := perform NowUnixSecs in
  await recorded := mutate cfg id (fun s => (Ok tt, record_sealed_at now s)) in
  Ret (try recorded).

Definition sealed_at (cfg : Config) (id : string) : answer (option Z) :=
  await? got := get cfg id in
  Ret (Ok (got ≫= fun s => extra s !! SEALED_AT_KEY ≫= as_i64)).

(** ** What the closures do, when they do it *)

Definition reserved_total s : Z := zsum (pd_amount <$> pending_deliveries s).

Lemma checked_total_some total l t :
  checked_total total l = Some t -> t = total + zsum (pd_amount <$> l).
Proof.
  revert total. induction l as [|d l IH]; intros total; csimpl; [intros [= <-]; lia|].
  destruct (u64_checked_add total (pd_amount d)) as [u|] eqn:Hu; simpl; [|done].
  apply u64_checked_add_some in Hu as [<- _]. intros Ht%IH. lia.
Qed.

Lemma begin_locked_ok cfg request currency e now s s' out :
  begin_locked cfg request currency e now (Some s) = (Ok s', out) ->
  sealed s = false /\ close_requested_at s = None /\
  cumulative s + reserved_total s + dr_amount request <= deposit s /\
  exists sequence id, has_delivery id s = false /\
    s' = with_pending_deliveries (pending_deliveries s ++ [{|
           pd_delivery_id := id; pd_amount := dr_amount request; pd_sequence := sequence;
           pd_expires_at := e; pd_request_fingerprint := None; pd_handler_succeeded := false |}])
         (with_next_delivery_sequence sequence s).
Proof.
  unfold begin_locked. destruct (sealed s); [done|]. case_decide as Hc; [done|].
  destruct (require_fresh_snapshot _ _ _); [|done].
  destruct (checked_total _ _ ≫= _) as [reserved|] eqn:Hr; [|done]. case_bool_decide; [done|].
  destruct (has_delivery _ s) eqn:Hd; [done|]. intros [= <- <-].
  apply bind_Some in Hr as (t & Ht%checked_total_some & Hu).
  apply u64_checked_add_some in Hu as [<- _]. unfold reserved_total.
  split_and!; [done|by apply eq_None_not_Some|lia|eauto].
Qed.

Lemma find_pending_some id s i :
  find_pending id s = Some i -> exists d, pending_deliveries s !! i = Some d /\ pd_delivery_id d = id.
Proof.
  intros (d & Hd & Hid)%position_some. apply bool_decide_eq_true in Hid. eauto.
Qed.

Lemma usage_locked_ok id amount now s s' out :
  usage_locked id amount now (Some s) = (Ok s', out) ->
  exists index d, pending_deliveries s !! index = Some d /\ pd_delivery_id d = id /\
    amount <= pd_amount d /\
    s' = with_pending_deliveries
           (if decide (amount = 0) then vec_remove index (pending_deliveries s)
            else alter (with_amount amount) index (pending_deliveries s)) s.
Proof.
  unfold usage_locked. destruct (find_pending id s) as [index|] eqn:Hf; [|done].
  apply find_pending_some in Hf as (d & Hd & Hid). rewrite Hd. simpl. case_decide; [done|].
  intros Hs'. exists index, d. split_and!; [done|done|lia|]. case_decide; by simplify_eq.
Qed.

Lemma commit_locked_ok cfg channel id signature c e now clock s s' out :
  commit_locked cfg channel id signature c e now clock (Some s) = (Ok s', out) ->
  sealed s = false /\ final_cumulative s = None /\
  ((s' = s /\ exists committed, find_committed id s = Some committed /\
      out = Some (cd_amount committed, cd_cumulative committed, Replayed)) \/
   (find_committed id s = None /\ out = Some (c - cumulative s, c, Committed) /\
    cumulative s < c <= deposit s /\
    exists index d lc activity record, pending_deliveries s !! index = Some d /\
      pd_delivery_id d = id /\ pd_amount d = c - cumulative s /\ now < pd_expires_at d /\
      cd_delivery_id record = id /\
      s' = with_committed_deliveries (keep_latest (committed_deliveries s ++ [record])) (with_lifecycle lc (with_last_activity_at activity
             (with_highest_voucher_expires_at (Some e) (with_highest_voucher_signature (Some signature)
               (with_spent_amount (spent_amount s + pd_amount d) (with_cumulative c
                 (with_pending_deliveries (vec_remove index (pending_deliveries s)) s))))))))).
Proof.
  unfold commit_locked. destruct (sealed s); [done|]. destruct (final_cumulative s); [done|].
  intros Hu. split_and!; [done..|]. destruct (find_committed id s) as [committed|].
  { destruct (same_commit committed c signature); [|done]. injection Hu as <- <-. left. eauto. }
  right. destruct (find_pending id s) as [index|] eqn:Hf; [|done].
  apply find_pending_some in Hf as (d & Hd & Hid). rewrite Hd in Hu. simpl in Hu.
  case_decide; [done|]. destruct (commit_bounds c s) as [[]|] eqn:Hb; [|done].
  assert (cumulative s < c <= deposit s).
  { clear Hu. unfold commit_bounds in Hb. do 2 (case_decide; [done|]). lia. }
  case_decide as Ha; [done|]. assert (c - cumulative s = pd_amount d) as Heq by lia. rewrite Heq in *.
  destruct (u64_checked_add (spent_amount s) _) as [sp|] eqn:Hsp; [|done].
  apply u64_checked_add_some in Hsp as [<- _]. injection Hu as <- <-.
  split_and!; [done|done|lia|lia|]. unfold touch_activity.
  eexists index, d, _, _, _. split_and!; cycle 5; [reflexivity|done|done|done|lia|done].
Qed.

Lemma verify_signature_ok v signer window now :
  verify_signature v signer window now = Ok tt ->
  exists c, parse_u64 (vd_cumulative_amount (sv_data v)) = Some c /\
    signed_by signer (vd_channel_id (sv_data v)) c (default 0 (vd_expires_at (sv_data v)))
      (sv_signature v).
Proof.
  unfold verify_signature. case_decide; [done|]. intros (c & Hc & Hv)%rbind_ok.
  destruct (parse_u64 _) as [c'|]; [|done]. injection Hc as ->.
  apply rmap_err_ok in Hv. apply verify_voucher_ok in Hv as [_ Hs]. eauto.
Qed.

Lemma final_voucher_ok cfg payload clock s c sig e :
  final_voucher cfg payload clock s = Ok (c, sig, e) ->
  (c = cumulative s /\ sig = highest_voucher_signature s /\
   (is_Some (highest_voucher_expires_at s) -> e = highest_voucher_expires_at s)) \/
  (exists v, cl_voucher payload = Some v /\ cumulative s < c <= deposit s /\ c <= u64_max /\
     sig = Some (sv_signature v) /\ e = Some (default 0 (vd_expires_at (sv_data v))) /\
     signed_by (authorized_signer s) (vd_channel_id (sv_data v)) c
       (default 0 (vd_expires_at (sv_data v))) (sv_signature v)).
Proof.
  unfold final_voucher. destruct (cl_voucher payload) as [v|]; [|intros [= <- <- <-]; eauto].
  intros (k & Hk & Hf)%rbind_ok. destruct (parse_u64 _) as [k'|] eqn:Hp; [|done]. injection Hk as ->.
  pose proof (parse_u64_range _ _ Hp). case_decide.
  - case_decide; [|done]. apply rbind_ok in Hf as ([] & _ & [= <- <- <-]). left.
    split_and!; [done|done|]. by intros [? ->].
  - case_decide; [done|]. apply rbind_ok in Hf as ([] & Hv%rmap_err_ok & [= <- <- <-]). right.
    exists v. apply verify_signature_ok in Hv as (c' & Hc' & Hs). rewrite Hp in Hc'. simplify_eq.
    split_and!; [done|lia|lia|zlia|done|done|done].
Qed.

Lemma close_locked_ok cfg payload now clock s s' out :
  close_locked cfg payload now clock (Some s) = (Ok s', out) ->
  sealed s = false /\ close_requested_at s = None /\
  exists c sig e live pending, final_voucher cfg payload clock s = Ok (c, sig, e) /\
    (pending = pending_deliveries s /\ live = 0 \/
     pending = filter (fun d => owed_at_close d (i64_wrap now) = false) (pending_deliveries s) /\
     live = zsum (pd_amount <$> owed now s) /\ 0 < live /\
     u64_saturating_add (cumulative s) live <= c /\ spent_amount s + live <= u64_max) /\
    s' = with_final_cumulative (Some c) (with_close_requested_at (Some now)
           (with_highest_voucher_expires_at e (with_highest_voucher_signature sig
             (with_cumulative c (with_pending_deliveries pending
               (with_spent_amount (spent_amount s + live) s)))))).
Proof.
  unfold close_locked. intros [= Hc _].
  destruct (sealed s); [done|]. case_decide as Hreq; [done|].
  apply rbind_ok in Hc as (live & Hl & Hc). apply rbind_ok in Hc as ([] & _ & Hc).
  apply rbind_ok in Hc as ([[c sig] e] & Hf & Hc). apply rbind_ok in Hc as (s1 & Hs1 & [= <-]).
  split_and!; [done|by apply eq_None_not_Some|]. exists c, sig, e.
  destruct (checked_total 0 _) as [l|] eqn:Hlt; [|done]. injection Hl as ->.
  apply checked_total_some in Hlt. unfold settle_pending in Hs1. case_decide.
  - case_decide as Hn; [done|]. apply rbind_ok in Hs1 as (sp & Hsp & [= <-]).
    destruct (u64_checked_add _ _) as [sp'|] eqn:Hadd; [|done]. injection Hsp as ->.
    apply u64_checked_add_some in Hadd as [<- ?]. eexists live, _. split_and!; [done| |reflexivity].
    right. split_and!; [reflexivity|lia|done|lia|done].
  - injection Hs1 as <-. exists 0, (pending_deliveries s). split_and!; [done|by left|].
    rewrite Z.add_0_r. by destruct s.
Qed.
End delivery.
