(* ===== verification/MppOpen.v ===== *)
(** Opening a session's channel (src/rust/crates/kit/src/mpp/server/session.rs):
    the checks on the credential, the reservation written before anything is
    broadcast, the proof that this ledger opened the channel, its activation, and
    the retirement of an open that never funded it. *)
From Stdlib Require Import Ascii.
From stdpp Require Import base numbers option list gmap strings pretty.
From S2P Require Import Prelude Effects Bytes Json Store Channel Authorization Voucher Session.
From S2P Require Import Deployments MppBase MppBinding MppSession MppDelivery.
Open Scope Z_scope.

(** * Data *)

Record SessionOpenContext := {
  ctx_challenge_id : string;
  ctx_expires : option string;
  ctx_recent_blockhash : string;
  ctx_recent_slot : Z;
}.

Record OpenChannelParams := {
  pr_payer : Pubkey;
  pr_rent_payer : Pubkey;
  pr_payee : Pubkey;
  pr_mint : Pubkey;
  pr_authorized_signer : Pubkey;
  pr_salt : Z;
  pr_open_slot : Z;
  pr_deposit : Z;
  pr_grace_period : Z;
  pr_recipients : list Split;
  pr_token_program : Pubkey;
  pr_program_id : Pubkey;
}.

Record ValidatedOpen := {
  vo_deposit : Z;
  effective_idle_timeout : Z;
  params : OpenChannelParams;
}.

Inductive OpenSubmission :=
| Landed (signature : string) (settled : Z)
| OpenedElsewhere.

Record OpenAcceptance {St : Type} := {
  oa_state : St;
  oa_replay : bool;
  oa_transaction_signature : string;
}.
Arguments OpenAcceptance : clear implicits.

Inductive AdoptionFloor := FloorSlot (slot : Z) | Unproven.

#[export] Instance AdoptionFloor_eq_dec : EqDecision AdoptionFloor.
Proof. solve_decision. Defined.

Definition floor_slot (floor : AdoptionFloor) : result Z MppError :=
  match floor with
  | FloorSlot slot => Ok slot
  | Unproven => Err (MppOther "pending open has no recorded broadcast floor and cannot be adopted")
  end.

Record OpenIntent {Value : Type} := {
  oi_version : Z;
  oi_payload : OpenPayload Value;
  oi_challenge_id : string;
  oi_recent_blockhash : string;
  oi_recent_slot : Z;
  finalized_valid_at : option Z;
  oi_transaction_signature : option string;
  adoption_floor : AdoptionFloor;
}.
Arguments OpenIntent : clear implicits.

(** The persisted form. *)
Record StoredOpenIntent {Value : Type} := {
  so_version : Z;
  so_payload : OpenPayload Value;
  so_challenge_id : string;
  so_recent_blockhash : string;
  so_recent_slot : Z;
  so_finalized_valid_at : option Z;
  so_transaction_signature : option string;
  so_adoption_floor : option Z;
}.
Arguments StoredOpenIntent : clear implicits.

Definition intent_of_stored {Value} (stored : StoredOpenIntent Value) : OpenIntent Value := {|
  oi_version := so_version stored;
  oi_payload := so_payload stored;
  oi_challenge_id := so_challenge_id stored;
  oi_recent_blockhash := so_recent_blockhash stored;
  oi_recent_slot := so_recent_slot stored;
  finalized_valid_at := so_finalized_valid_at stored;
  oi_transaction_signature := so_transaction_signature stored;
  adoption_floor := match or_else (so_adoption_floor stored) (so_finalized_valid_at stored) with
                    | Some slot => FloorSlot slot
                    | None => Unproven
                    end;
|}.

Definition stored_of_intent {Value} (intent : OpenIntent Value) : StoredOpenIntent Value := {|
  so_version := oi_version intent;
  so_payload := oi_payload intent;
  so_challenge_id := oi_challenge_id intent;
  so_recent_blockhash := oi_recent_blockhash intent;
  so_recent_slot := oi_recent_slot intent;
  so_finalized_valid_at := finalized_valid_at intent;
  so_transaction_signature := oi_transaction_signature intent;
  so_adoption_floor := match adoption_floor intent with FloorSlot slot => Some slot | Unproven => None end;
|}.

(** [str::trim] leaves nothing: every character is white space. *)
Fixpoint blank_text (s : string) : bool :=
  let code c := nat_of_ascii c in
  match s with
  | EmptyString => true
  | String c s =>
      if decide (code c = 32 \/ 9 <= code c <= 13)%nat then blank_text s else
      match s with
      | String d s =>
          if decide (code c = 194 /\ (code d = 133 \/ code d = 160))%nat then blank_text s else
          match s with
          | String e s =>
              if decide (code c = 225 /\ code d = 154 /\ code e = 128 \/
                         code c = 226 /\ code d = 128 /\
                           (128 <= code e <= 138 \/ code e = 168 \/ code e = 169 \/ code e = 175) \/
                         code c = 226 /\ code d = 129 /\ code e = 159 \/
                         code c = 227 /\ code d = 128 /\ code e = 128)%nat
              then blank_text s else false
          | EmptyString => false
          end
      | EmptyString => false
      end
  end.

Definition OPEN_INTENT_KEY : string := "mppSessionOpenIntent".
Definition OPENED_ELSEWHERE_ERROR : string :=
  "channel was opened outside this server's ledger and cannot be adopted; open a new channel".
Definition OPEN_SLOT_WINDOW : Z := 1500.
Definition CHANNEL_SEED : list byte := String.list_byte_of_string "channel".

Section open.
Context {Value Key SigningKey : Type} `{SerdeJson Value, !Serde Value (Binding Value), Verifier Key,
  !SessionCrypto Key SigningKey}.
Context `{!Serde Value (StoredOpenIntent Value), !Serde Value (ChannelState Value)}.
Abbreviation St := (ChannelState Value).
Abbreviation Config := (SessionServer Value SigningKey).
Abbreviation answer A := (prog (serverE (Value := Value)) (result A MppError)).
Implicit Types (s : St) (m : gmap string St) (cfg : Config) (payload : OpenPayload Value).

(** [serde_json] of an intent, by way of its stored form. *)
Definition intent_to_value (intent : OpenIntent Value) : result Value string :=
  to_value (stored_of_intent intent).
Definition intent_from_value (value : Value) : result (OpenIntent Value) string :=
  let? stored := from_value value in Ok (intent_of_stored stored).

Definition same_open_intent (stored expected : Value) : bool :=
  match (let? intent := intent_from_value stored in intent_to_value intent) with
  | Ok stored => bool_decide (stored = expected)
  | Err _ => false
  end.

(** * The credential *)

Definition ensure_not_expired (context : SessionOpenContext) : answer unit :=
  match ctx_expires context with
  | None => Ret (Ok tt)
  | Some expires =>
      await? expiry := Ret (ok_or (parse_rfc3339 expires) (ChallengeExpired expires)) in
      await now := perform NowUtc in
      if decide (expiry <= now) then Ret (Err (ChallengeExpired expires)) else Ret (Ok tt)
  end.

Definition deposit_amount payload : result Z MppError :=
  ok_or (parse_u64 (op_deposit_amount payload))
    (MppOther ("invalid deposit amount: " +:+ op_deposit_amount payload)).

Definition parse_required_operator (operator : string) : result Pubkey MppError :=
  if blank_text operator
  then Err (MppOther "payment-channel open requires a configured operator signer")
  else parse_pubkey_field operator "operator".

Fixpoint payload_splits (splits : list SessionSplit) : result (list Split) MppError :=
  match splits with
  | [] => Ok []
  | split :: splits =>
      let? key := parse_pubkey_field (ss_recipient split) "distribution recipient" in
      let? rest := payload_splits splits in
      Ok ({| split_recipient := key; bps := share_bps split |} :: rest)
  end.

Definition reject_sponsor_as_payer cfg (payer : Pubkey) : result unit MppError :=
  if decide (fee_payer_signer cfg = Some payer)
  then Err (MppOther "payment-channel payer must differ from the sponsored fee payer") else Ok tt.

(** [find_channel_pda], and the channel of [derive_channel_addresses]. *)
Definition channel_address (p : OpenChannelParams) : Pubkey :=
  find_program_address
    [CHANNEL_SEED; pr_payer p; pr_payee p; pr_mint p; pr_authorized_signer p;
     le_bytes 8 (pr_salt p); le_bytes 8 (pr_open_slot p)] (pr_program_id p).

Definition err_operator_signer : MppError :=
  MppOther "operator voucher signing requires authorizedSigner to match the operator".

Definition payment_channel_open_params cfg payload : result OpenChannelParams MppError :=
  let? _ := channel_deployment cfg in
  let? _ := check_sponsored_deposit_floor cfg in
  let? payer := parse_pubkey_field (op_payer payload) "payer" in
  let? payee := parse_pubkey_field (op_payee payload) "payee" in
  let? mint := parse_pubkey_field (op_mint payload) "mint" in
  let? authorized_signer := parse_pubkey_field (op_authorized_signer payload) "authorizedSigner" in
  if negb (is_on_curve authorized_signer)
  then Err (MppOther "payment-channel authorizedSigner must be an on-curve Ed25519 public key") else
  let? deposit := deposit_amount payload in
  let? token_program := match token_program cfg with
                        | Some program => Ok program
                        | None => default_token_program cfg
                        end in
  let? expected_payee := parse_pubkey_field (recipient cfg) "recipient" in
  let? expected_mint := expected_payment_channel_mint cfg in
  let? _ := if decide (config_signer cfg = Operator) then
              let? operator := parse_required_operator (operator cfg) in
              if decide (authorized_signer <> operator) then Err err_operator_signer else Ok tt
            else Ok tt in
  if decide (payee <> expected_payee)
  then Err (MppOther "payment-channel open payee does not match challenge recipient") else
  if decide (mint <> expected_mint)
  then Err (MppOther "payment-channel open mint does not match challenge currency") else
  if decide (op_grace_period_seconds payload <> grace_period_seconds cfg)
  then Err (MppOther "payment-channel open gracePeriodSeconds does not match challenge") else
  if match minimum_deposit cfg with Some minimum => bool_decide (deposit < minimum) | None => false end
  then Err (MppOther "payment-channel open depositAmount is below minimumDeposit") else
  let? declared := payload_splits (op_distribution_splits payload) in
  if decide (declared <> splits cfg)
  then Err (MppOther "payment-channel open distributionSplits do not match challenge") else
  let? _ := reject_sponsor_as_payer cfg payer in
  let p := {|
    pr_payer := payer; pr_rent_payer := default payer (fee_payer_signer cfg); pr_payee := payee;
    pr_mint := mint; pr_authorized_signer := authorized_signer; pr_salt := op_salt payload;
    pr_open_slot := op_open_slot payload; pr_deposit := deposit;
    pr_grace_period := op_grace_period_seconds payload; pr_recipients := splits cfg;
    pr_token_program := token_program;
    pr_program_id := default default_program_id (channel_program cfg) |} in
  let? channel := parse_pubkey_field (op_channel_id payload) "channelId" in
  if decide (channel <> channel_address p)
  then Err (MppOther "payment-channel open channelId does not match derived channel PDA") else Ok p.

(** The [openSlot] window of the challenge and the voucher-signer mode. *)
Definition check_open_slot (open_slot recent_slot : Z) : result unit MppError :=
  if decide (recent_slot < open_slot)
  then Err (MppOther ("open openSlot " +:+ pretty open_slot +:+ " is ahead of the challenged recentSlot "
         +:+ pretty recent_slot)) else
  if decide (OPEN_SLOT_WINDOW < recent_slot - open_slot)
  then Err (MppOther ("open openSlot " +:+ pretty open_slot +:+ " is outside the " +:+ pretty OPEN_SLOT_WINDOW
         +:+ "-slot freshness window of the challenged recentSlot " +:+ pretty recent_slot))
  else Ok tt.

Definition check_open_signer cfg payload (challenge_id : string) : result unit MppError :=
  if decide (config_signer cfg = Operator) then
    let? operator := parse_required_operator (operator cfg) in
    let? authorized_signer := parse_pubkey_field (op_authorized_signer payload) "authorizedSigner" in
    if decide (authorized_signer <> operator) then Err err_operator_signer else
    let? proof := ok_or (op_authentication payload)
      (MppOther "operator voucher signing requires authentication") in
    if decide (sa_challenge_id proof <> challenge_id)
    then Err (MppOther "session authentication challengeId does not match the opening challenge") else
    if decide (sa_payer proof <> op_payer payload)
    then Err (MppOther "session authentication payer does not match the channel payer") else
    let? verified := proof_verify proof (op_channel_id payload) in
    if verified : bool then Ok tt else Err (MppOther "invalid session authentication signature")
  else if decide (is_Some (op_authentication payload))
  then Err (MppOther "authentication is only valid when voucherSigner is operator") else Ok tt.

Definition validate_open_request cfg payload (context : SessionOpenContext) : answer ValidatedOpen :=
  await? _ := ensure_not_expired context in
  Ret (let? deposit := deposit_amount payload in
       let? timeout := resolve_idle_timeout_seconds (config_idle_timeout_seconds cfg)
         (idle_timeout_options_seconds cfg) (op_idle_timeout_seconds payload) in
       let? _ := match idle_timeout_options_seconds cfg with
                 | Some options => validate_idle_timeout_options options
                 | None => Ok tt
                 end in
       if decide (deposit = 0) then Err (MppOther "Deposit must be greater than zero") else
       let? p := payment_channel_open_params cfg payload in
       let? _ := check_open_slot (op_open_slot payload) (ctx_recent_slot context) in
       let? _ := check_open_signer cfg payload (ctx_challenge_id context) in
       Ok {| vo_deposit := deposit; effective_idle_timeout := timeout; params := p |}).

(** * The chain *)

Definition err_rpc (what e : string) : MppError := Rpc (what +:+ e).

(** [transaction_pipeline]: only a missing RPC refuses it. *)
Definition transaction_pipeline cfg : result unit MppError :=
  if decide (rpc_url cfg = None)
  then Err (MppOther "session transaction verification requires an RPC client; funding verification cannot be skipped")
  else Ok tt.

Definition validate_open_slot (open_slot : Z) : answer Z :=
  await current := perform CurrentSlot in
  await? current_slot := Ret (rmap_err (err_rpc "session open slot validation failed: ") current) in
  Ret (if decide (current_slot < open_slot)
       then Err (MppOther ("open openSlot " +:+ pretty open_slot
              +:+ " is ahead of the current cluster slot " +:+ pretty current_slot)) else
       if decide (OPEN_SLOT_WINDOW < current_slot - open_slot)
       then Err (MppOther ("open openSlot " +:+ pretty open_slot +:+ " is outside the "
              +:+ pretty OPEN_SLOT_WINDOW +:+ "-slot freshness window of the current cluster slot "
              +:+ pretty current_slot))
       else Ok current_slot).

(** The account is the channel the open declares, still open. *)
Definition matches_open cfg (p : OpenChannelParams) (channel : OnchainChannel) : result Z MppError :=
  if decide (guard channel <> 0 \/ onchain_hooks channel <> default no_hooks (channel_hooks cfg))
  then Err (MppOther "confirmed channel hooks do not match challenge") else
  if decide (status channel = 0 /\ onchain_deposit channel = pr_deposit p /\
             onchain_salt channel = pr_salt p /\ onchain_open_slot channel = pr_open_slot p /\
             onchain_grace_period channel = pr_grace_period p /\ onchain_payer channel = pr_payer p /\
             onchain_rent_payer channel = pr_rent_payer p /\ onchain_payee channel = pr_payee p /\
             onchain_mint channel = pr_mint p /\
             onchain_authorized_signer channel = pr_authorized_signer p /\
             onchain_distribution_hash channel = distribution_hash (pr_recipients p))
  then Ok (onchain_settled channel)
  else Err (MppOther "confirmed channel state does not match the verified open transaction").

Definition fetch_and_match_open_channel cfg (p : OpenChannelParams) (min_slot : option Z) : answer Z :=
  await read := perform (ReadAccount (channel_address p) min_slot (pr_program_id p)) in
  await? account := Ret (rmap_err (err_rpc "fetch confirmed channel failed: ") read) in
  await? decoded := Ret (ok_or account (Rpc "confirmed channel account not found")) in
  Ret (let? _ := channel_deployment cfg in
       let? channel := decoded in
       matches_open cfg p channel).

(** [landed_here]. *)
Definition landed_here (landed floor : Z) : bool := bool_decide (floor < landed).

Definition submit_and_fetch_open cfg (prepared : PreparedOpen) (p : OpenChannelParams)
    (fresh_open : bool) (activation_floor : option Z) : answer OpenSubmission :=
  await? signature := Ret (ok_or (fee_payer_signature prepared)
    (MppOther "open transaction is missing its fee-payer signature")) in
  await existing :=
    (if fresh_open then Ret None else
     await fetched := fetch_and_match_open_channel cfg p None in
     Ret (match fetched with Ok settled => Some settled | Err _ => None end)) in
  match existing, activation_floor with
  | Some settled, None => Ret (Ok (Landed signature settled))
  | Some settled, Some floor =>
      await landed := perform (LandedSlot signature) in
      await? landed := Ret (rmap_err (err_rpc "open ownership check failed: ") landed) in
      await? landed := Ret (ok_or landed (Rpc ("open " +:+ signature
        +:+ " has not been observed landing; channel ownership is unproven"))) in
      Ret (Ok (if landed_here landed floor then Landed signature settled else OpenedElsewhere))
  | None, _ =>
      await submission := perform (SubmitOpen prepared) in
      if match activation_floor, submission with
         | Some floor, Ok landed => negb (landed_here landed floor)
         | _, _ => false
         end
      then Ret (Ok OpenedElsewhere) else
      let min_slot := match submission with Ok slot => Some slot | Err _ => None end in
      await confirmed := fetch_and_match_open_channel cfg p min_slot in
      await? settled := Ret (match submission, confirmed with
                             | Ok _, confirmed => confirmed
                             | Err error, Ok settled =>
                                 if decide (activation_floor = None) then Ok settled
                                 else Err (err_rpc "open submission failed: " error)
                             | Err error, Err _ => Err (err_rpc "open submission failed: " error)
                             end) in
      Ret (Ok (Landed signature settled))
  end.

(** * The record *)

Definition signer_text (signer : VoucherSigner) : string :=
  match signer with Client => "client" | Operator => "operator" end.

(** The reservation of a fresh open; its intent and binding are added to it. *)
Definition fresh_reservation cfg payload (v : ValidatedOpen) (challenge_id : string)
    (authentication : option string) (payer_signature : string) (now_ms : Z) : St := {|
  channel_id := op_channel_id payload; authorized_signer := op_authorized_signer payload;
  deposit := 0; cumulative := 0; sealed := false; highest_voucher_signature := None;
  highest_voucher_expires_at := None; close_requested_at := None; final_cumulative := None;
  open_slot := Some (op_open_slot payload); payer := op_payer payload;
  rent_payer := bs58_encode (pr_rent_payer (params v)); opening_challenge_id := challenge_id;
  authentication := authentication; voucher_signer := signer_text (config_signer cfg);
  idle_timeout_seconds := Some (effective_idle_timeout v); last_activity_at := now_ms;
  spent_amount := 0; settled_on_chain := 0; distributed_on_chain := 0; processed_uses := [];
  processed_topup_signatures := []; next_delivery_sequence := 0; pending_deliveries := [];
  committed_deliveries := [];
  pending_setup := Some {| payer_signature := payer_signature; ps_deposit := vo_deposit v;
                           opens_channel := true; ps_expires_at := i64_max |};
  onchain_checked_at := 0;
  lifecycle := Some {| owner := operator cfg;
    close_after := u64_saturating_add now_ms (effective_idle_timeout v * 1000) |};
  schema_version := CHANNEL_STATE_SCHEMA_VERSION; extra := ∅;
|}.

(** An intent the record holds is the expected one; a record without one passes. *)
Definition intent_conflicts (expected : Value) s : bool :=
  match extra s !! OPEN_INTENT_KEY with Some stored => negb (same_open_intent stored expected) | None => false end.

Definition err_exists_with (id what : string) : StoreError := Internal ("Channel " +:+ id +:+ what).

(** The closure that reserves the channel, or finds it as it was; it passes out
    whether the open had been activated. *)
Definition reserve_locked (b : option (Binding Value)) (fresh : St) (intent : Value) (now : Z)
    (o : option St) : result St StoreError * bool :=
  let refuse e := (Err e, false) in
  match o with
  | None => (Ok fresh, false)
  | Some s =>
      match require_binding s b true with
      | Err e => refuse (Internal (mpp_error_text e))
      | Ok _ =>
          if intent_conflicts intent s then refuse (Internal "open intent does not match stored state") else
          if sealed s then refuse (err_exists_with (channel_id fresh) " is already sealed") else
          if decide (authorized_signer s <> authorized_signer fresh)
          then refuse (err_exists_with (channel_id fresh) " already exists with a different authorized signer") else
          if decide (payer s <> payer fresh \/ rent_payer s <> rent_payer fresh \/
                     opening_challenge_id s <> opening_challenge_id fresh \/
                     authentication s <> authentication fresh)
          then refuse (err_exists_with (channel_id fresh) " open replay does not match stored state") else
          (Ok s, bool_decide (pending_setup s = None))
      end
  end.

Definition err_intent_gone : StoreError := Internal "open intent disappeared".

(** What a retirement leaves. *)
Definition retired (mark : Value) s : St :=
  with_lifecycle None (with_pending_setup None (with_extra (<[OPEN_TERMINAL_KEY := mark]> (extra s)) s)).

Definition elsewhere_mark : Value :=
  json_obj [("version", json_u64 1); ("openedElsewhere", json_bool true)].
Definition expired_mark (invalid_at : Z) : Value :=
  json_obj [("version", json_u64 1); ("finalizedInvalidAt", json_u64 invalid_at)].

(** The closure that retires an open another ledger made. *)
Definition retire_locked (intent : Value) (now : Z) (o : option St) : result St StoreError * unit :=
  match o with
  | None => (Err err_intent_gone, tt)
  | Some s =>
      if match extra s !! OPEN_INTENT_KEY with Some stored => same_open_intent stored intent | None => false end
      then (Ok (retired elsewhere_mark s), tt)
      else (Err (Internal "open intent changed before retirement"), tt)
  end.

(** The closure that activates a reservation the chain has confirmed. *)
Definition activate_locked (b : option (Binding Value)) (intent : Value) (amount onchain_settled now : Z)
    (o : option St) : result St StoreError * unit :=
  match o with
  | None => (Err err_intent_gone, tt)
  | Some s =>
      match require_binding s b true with
      | Err e => (Err (Internal (mpp_error_text e)), tt)
      | Ok _ =>
          if intent_conflicts intent s then (Err (Internal "open intent changed before activation"), tt) else
          let s := if open_pending s then with_pending_setup None (with_deposit amount s) else s in
          let s := with_cumulative (Z.max (cumulative s) onchain_settled) s in
          let s := with_spent_amount (Z.max (spent_amount s) onchain_settled) s in
          let s := with_settled_on_chain (Z.max (settled_on_chain s) onchain_settled) s in
          let '(_, s) := record_onchain_observation {| slot := None; observed := LifecycleOpen |} (now_u64 now) s in
          (Ok s, tt)
      end
  end.

(** * Opening *)

(** The intent of an attempt: a fresh one records its floor and what the finalized
    bank says of its blockhash; a retry keeps what was recorded. *)
Definition attempt_intent payload (context : SessionOpenContext) (stored : option (OpenIntent Value))
    (valid_at : option Z) (floor : AdoptionFloor) (prepared : PreparedOpen) : OpenIntent Value := {|
  oi_version := match stored with Some intent => oi_version intent | None => 2 end;
  oi_payload := payload;
  oi_challenge_id := ctx_challenge_id context;
  oi_recent_blockhash := ctx_recent_blockhash context;
  oi_recent_slot := ctx_recent_slot context;
  finalized_valid_at := valid_at;
  oi_transaction_signature :=
    if match stored with Some intent => bool_decide (oi_version intent = 1) | None => false end then None
    else fee_payer_signature prepared;
  adoption_floor := floor;
|}.

Definition stored_open_intent (existing : option St) : result (option (OpenIntent Value)) MppError :=
  match existing ≫= fun s => extra s !! OPEN_INTENT_KEY with
  | None => Ok None
  | Some value => rmap_err (fun _ => MppOther "invalid pending open intent")
                    (let? intent := intent_from_value value in Ok (Some intent))
  end.

(** Whether the attempt would adopt the channel into this ledger. *)
Definition activating (existing : option St) : bool :=
  match existing with None => true | Some s => open_pending s end.

Definition raw_update {R} (id : string) (updater : Z -> option St -> result St StoreError * R) :
    prog (serverE (Value := Value)) (result St StoreError * R) := perform (Update R id updater).

(** From the confirmed landing to the answer. *)
Definition finish_open cfg (id : string) (intent : Value) (amount : Z) (was_open : bool)
    (opened : OpenSubmission) : answer (OpenAcceptance St) :=
  match opened with
  | OpenedElsewhere =>
      await updated := raw_update id (retire_locked intent) in
      await? _ := Ret (try updated.1) in
      Ret (Err (MppOther OPENED_ELSEWHERE_ERROR))
  | Landed signature settled =>
      await updated := raw_update id (activate_locked (store_binding cfg) intent amount settled) in
      await? s := Ret (try updated.1) in
      Ret (Ok {| oa_state := s; oa_replay := was_open; oa_transaction_signature := signature |})
  end.

Definition process_open_inner cfg payload (context : SessionOpenContext) : answer (OpenAcceptance St) :=
  await? v := validate_open_request cfg payload context in
  let id := op_channel_id payload in
  await got := perform (Get id) in
  await? existing := Ret (try got) in
  await? _ := Ret (match existing with Some s => require_binding s (store_binding cfg) true | None => Ok tt end) in
  let fresh_open := bool_decide (existing = None) in
  await? _ := Ret (transaction_pipeline cfg) in
  await? prepared := perform (PrepareOpen (op_transaction payload) (ctx_recent_blockhash context)) in
  await? observed_floor :=
    (if fresh_open then
       await? slot := validate_open_slot (pr_open_slot (params v)) in Ret (Ok (Some slot))
     else Ret (Ok None)) in
  await? authentication := Ret (match op_authentication payload with
    | Some proof => rmap_err err_serialize (rmap Some (authentication_text proof))
    | None => Ok None
    end) in
  await now := perform NowUnixSecs in
  let reservation := fresh_reservation cfg payload v (ctx_challenge_id context) authentication
    (po_payer_signature prepared) (now_ms now) in
  await? stored := Ret (stored_open_intent existing) in
  let floor := match stored, fresh_open with
               | Some intent, false => adoption_floor intent
               | _, _ => match observed_floor with Some slot => FloorSlot slot | None => Unproven end
               end in
  await? activation_floor :=
    Ret (if activating existing then rmap Some (floor_slot floor) else Ok None) in
  await valid_at :=
    (if fresh_open then
       await validity := perform (BlockhashValidity (ctx_recent_blockhash context) None) in
       Ret (match validity with Ok (true, slot) => Some slot | _ => None end)
     else Ret (stored ≫= finalized_valid_at)) in
  await? intent := Ret (rmap_err (fun e => MppOther ("serialize open intent: " +:+ e))
    (intent_to_value (attempt_intent payload context stored valid_at floor prepared))) in
  let reservation := with_extra (<[OPEN_INTENT_KEY := intent]> (extra reservation)) reservation in
  await? reservation := Ret (match store_binding cfg with
    | Some binding => insert_binding binding reservation
    | None => Ok reservation
    end) in
  await reserved := raw_update id (reserve_locked (store_binding cfg) reservation intent) in
  let '(r, was_open) := reserved in
  await? _ := Ret (try r) in
  await? opened := submit_and_fetch_open cfg prepared (params v) fresh_open activation_floor in
  finish_open cfg id intent (vo_deposit v) was_open opened.

Definition process_open_with_outcome := process_open_inner.

Definition process_open cfg payload (context : SessionOpenContext) : answer St :=
  await? outcome := process_open_with_outcome cfg payload context in Ret (Ok (oa_state outcome)).

(** * Resuming and retiring *)

(** The closure that retires an open whose transaction can no longer land, if the
    record is still what was read. *)
Definition expire_locked (expected : St) (invalid_at now : Z) (o : option St) : result St StoreError * unit :=
  (let? s := ok_or o err_intent_gone in
   let? current := rmap_err Internal (to_value s : result Value string) in
   let? before := rmap_err Internal (to_value expected : result Value string) in
   if decide (current <> before) then Err (Internal "open changed before retirement")
   else Ok (retired (expired_mark invalid_at) s), tt).

(** Whether the finalized bank has shown the open dead: its blockhash, valid
    before, is valid no more, and nothing of its transaction is on the chain. *)
Definition reconcile_expiry cfg (state : St) (intent : OpenIntent Value) : answer unit :=
  match decide (oi_version intent = 2), finalized_valid_at intent with
  | left _, Some valid_at =>
      await? _ := Ret (transaction_pipeline cfg) in
      await validity := perform (BlockhashValidity (oi_recent_blockhash intent) (Some valid_at)) in
      await? (valid, invalid_at) := Ret (rmap_err (err_rpc "open expiry reconciliation: ") validity) in
      if negb valid && bool_decide (valid_at < invalid_at) then
        await? p := Ret (payment_channel_open_params cfg (oi_payload intent)) in
        await? prepared := perform (PrepareOpen (op_transaction (oi_payload intent)) (oi_recent_blockhash intent)) in
        await? signature := Ret (ok_or (fee_payer_signature prepared) (MppOther "open signature missing")) in
        if decide (oi_transaction_signature intent <> Some signature)
        then Ret (Err (MppOther "open reconciliation signature mismatch")) else
        await unfunded := perform (FinalizedUnfunded (channel_address p) signature invalid_at) in
        await? unfunded := Ret (rmap_err (err_rpc "open funding reconciliation: ") unfunded) in
        if unfunded : bool then
          await updated := raw_update (op_channel_id (oi_payload intent)) (expire_locked state invalid_at) in
          await? _ := Ret (try updated.1) in
          Ret (Err (MppOther OPEN_TERMINAL_ERROR))
        else Ret (Ok tt)
      else Ret (Ok tt)
  | _, _ => Ret (Ok tt)
  end.

Definition resume_pending_open cfg (id : string) : answer (OpenAcceptance St) :=
  await got := perform (Get id) in
  await? found := Ret (try got) in
  await? state := Ret (ok_or found (MppOther "pending open not found")) in
  await? _ := Ret (require_binding state (store_binding cfg) true) in
  if negb (open_pending state) then Ret (Err (MppOther "channel has no pending open")) else
  await? value := Ret (ok_or (extra state !! OPEN_INTENT_KEY) (MppOther "pending open intent missing")) in
  await? intent := Ret (rmap_err (fun _ => MppOther "invalid pending open intent") (intent_from_value value)) in
  if decide (oi_version intent <> 1 /\ oi_version intent <> 2 \/ op_channel_id (oi_payload intent) <> id)
  then Ret (Err (MppOther "pending open intent identity mismatch")) else
  await? _ := reconcile_expiry cfg state intent in
  process_open_inner cfg (oi_payload intent) {|
    ctx_challenge_id := oi_challenge_id intent; ctx_expires := None;
    ctx_recent_blockhash := oi_recent_blockhash intent; ctx_recent_slot := oi_recent_slot intent |}.
End open.
