(* ===== verification/MppPool.v ===== *)
(** Concurrent requests on one session server
    (src/rust/crates/kit/src/mpp/server/session.rs): any handlers on any
    channels, their store calls interleaved and failing, the chain and the remote
    signer answering anything; and the account of one channel that every handler
    keeps. *)
From stdpp Require Import base numbers option list gmap strings pretty relations.
From S2P Require Import Prelude Effects Bytes Json Store Channel Authorization Voucher Session.
From S2P Require Import Deployments MppBase MppBinding MppSession MppDelivery MppOpen.
Open Scope Z_scope.

(** Programs unfold at an operation or a returned value. *)
#[global] Arguments ptry {E A B Er} f !p /.
#[global] Arguments perform {E X} e /.

Section handlers.
Context {Value Key SigningKey : Type} `{SerdeJson Value, !Serde Value (Binding Value), Verifier Key,
  !SessionCrypto Key SigningKey}.
Context `{!Serde Value (StoredOpenIntent Value), !Serde Value (ChannelState Value)}.
Abbreviation St := (ChannelState Value).
Abbreviation Config := (SessionServer Value SigningKey).
Abbreviation op := (serverE (Value := Value)).
Abbreviation guard_fn := (St -> result unit MppError).
Implicit Types (s : St) (o : option St) (m : gmap string St) (cfg : Config).

(** * Requests and their answers *)

Inductive handler :=
| HOpen (payload : OpenPayload Value) (context : SessionOpenContext)
| HResume (channel : string)
| HVoucher (payload : VoucherPayload) (amount : Z) (allow_replay : bool) (guard : guard_fn)
| HUse (payload : UsePayload) (challenge_id idempotency_key : string)
| HAuthenticate (payload : UsePayload) (challenge_id idempotency_key : string)
| HCharge (a : AuthenticatedUse) (signer_pubkey : string) (request_total : Z) (guard : guard_fn)
| HTopUp (payload : TopUpPayload)
| HBegin (request : DeliveryRequest)
| HUsage (channel delivery_id : string) (amount : Z)
| HCommit (payload : CommitPayload)
| HClose (payload : ClosePayload)
| HSealed (channel : string).

Inductive reply :=
| ROpen (r : result (OpenAcceptance St) MppError)
| RVoucher (r : result VoucherAcceptance MppError)
| RUse (r : result UseAcceptance MppError)
| RAuthenticate (r : result AuthenticatedUse MppError)
| RCharge (r : result OperatorCharge MppError)
| RTopUp (r : result (TopUpAcceptance St) MppError)
| RBegin (r : result MeteringDirective MppError)
| RUsage (r : result unit MppError)
| RCommit (r : result CommitReceipt MppError)
| RClose (r : result SealParams MppError)
| RSealed (r : result unit MppError).

Definition serve (cfg : Config) (h : handler) : prog op reply :=
  match h with
  | HOpen payload context => ROpen <$> process_open_with_outcome cfg payload context
  | HResume channel => ROpen <$> resume_pending_open cfg channel
  | HVoucher payload amount allow guard => RVoucher <$> verify_voucher_priced cfg payload amount allow guard
  | HUse payload ch key => RUse <$> process_use cfg payload ch key
  | HAuthenticate payload ch key => RAuthenticate <$> authenticate_use cfg payload ch key
  | HCharge a pubkey total guard => RCharge <$> charge_operator_request cfg a pubkey total guard
  | HTopUp payload => RTopUp <$> process_topup_with_outcome cfg payload
  | HBegin request => RBegin <$> begin_delivery cfg request
  | HUsage channel id amount => RUsage <$> record_delivery_usage cfg channel id amount
  | HCommit payload => RCommit <$> process_commit cfg payload
  | HClose payload => RClose <$> process_close cfg payload
  | HSealed channel => RSealed <$> server_mark_sealed cfg channel
  end.

(** * Accounts of one channel

    [J] holds of the channel's record (or of its absence), and [phi] is an amount
    kept in it that no handler lowers. *)
Section account.
Context (id : string) (J : option St -> Prop) (phi : option St -> Z).

Definition on_record m : Prop := J (m !! id).
Definition account m : Z := phi (m !! id).

Abbreviation earns_here := (earns server_exec on_record account).
Abbreviation owes_here := (owes server_exec on_record account).

(** What a closure on the channel's record does: it keeps [J], and adds [w] or
    more. *)
Definition closure_pays {R} (updater : Z -> option St -> result St StoreError * R) (w : St -> R -> Z) :
    Prop :=
  forall now o s' out, J o -> updater now o = (Ok s', out) ->
    J (Some s') /\ phi o <= phi (Some s') /\ w s' out <= phi (Some s') - phi o.

(** The gain of a closure that succeeds on the channel. *)
Definition gain_of {R} (i : string) (w : St -> R -> Z) (x : result St StoreError * R) : Z :=
  match x with (Ok s, out) => if decide (i = id) then w s out else 0 | (Err _, _) => 0 end.

Lemma earns_update {R} i (updater : Z -> option St -> result St StoreError * R) w :
  (i = id -> closure_pays updater w) -> earns_here _ (Update R i updater) (gain_of i w).
Proof.
  intros Hc f m x m' HJ He. simpl in He. destruct (updater _ _) as [r out] eqn:Hu.
  destruct (match r with Ok _ => _ | Err _ => _ end) as [r' m''] eqn:Hf. injection He as <- <-.
  assert (Hcases : m'' = m /\ (exists e, r' = Err e) \/
    exists s', r = Ok s' /\ m'' = <[i := s']> m /\ (r' = Ok s' \/ exists e, r' = Err e)).
  { unfold faulty in Hf. destruct r, (env_fault _) as [[e0 []]|]; simplify_eq; naive_solver. }
  destruct Hcases as [[-> [e ->]]|(s' & -> & -> & Hr)]; [split; [done|simpl; lia]|].
  unfold on_record, account in *. destruct (decide (i = id)) as [->|Hne].
  - rewrite lookup_insert_eq. destruct (Hc eq_refl _ _ _ _ HJ Hu) as (? & ? & ?). split; [done|].
    destruct Hr as [->|[e ->]]; simpl; [rewrite decide_True by done|]; lia.
  - rewrite lookup_insert_ne by done. split; [done|].
    destruct Hr as [->|[e ->]]; simpl; [rewrite decide_False by done|]; lia.
Qed.

Lemma quiet_update {R} i (updater : Z -> option St -> result St StoreError * R) :
  (i = id -> closure_pays updater (fun _ _ => 0)) -> quiet server_exec on_record account _ (Update R i updater).
Proof.
  intros Hc f m x m' HJ He. destruct (earns_update i updater _ Hc f m x m' HJ He) as [? Hg].
  split; [done|]. etrans; [|exact Hg]. unfold gain_of. repeat case_match; lia.
Qed.

(** An operation that leaves the store alone. *)
Lemma quiet_same X (e : op X) :
  (forall f m x m', server_exec X f e m = (x, m') -> m' = m) -> quiet server_exec on_record account X e.
Proof. intros Hs f m x m' HJ He. rewrite (Hs _ _ _ _ He). split; [done|lia]. Qed.

Lemma owes_ask {X B} (post : Z -> B -> Prop) b (e : op X) k :
  (forall f m x m', server_exec X f e m = (x, m') -> m' = m) -> 0 <= b ->
  (forall x, owes_here post b (k x)) -> owes_here post b (Vis e k).
Proof. intros Hs. apply owes_quiet. by apply quiet_same. Qed.

Lemma quiet_get i : quiet server_exec on_record account _ (Get i).
Proof.
  apply quiet_same. intros f m x m'. simpl. unfold faulty.
  destruct (env_fault _) as [[e []]|]; by intros [= _ <-].
Qed.

(** The closures of the handlers, as the guarded store runs them. *)
Definition refresh_pays cfg : Prop :=
  forall now slot lc n, closure_pays
    (bound (store_binding cfg) tt (mutating None (observe cfg now slot lc n))) (fun _ _ => 0).

(** * The handlers, given their closures *)

Lemma owes_get_existing (post : Z -> result St MppError -> Prop) b cfg i :
  0 <= b -> (forall r, post b r) -> owes_here post b (get_existing cfg i).
Proof.
  intros Hb Hp. apply owes_quiet; [apply quiet_get|done|]. intros x. simpl. destruct (try _); simpl; apply Hp.
Qed.

Lemma owes_refresh (post : Z -> result unit MppError -> Prop) b cfg i :
  refresh_pays cfg -> 0 <= b -> (forall r, post b r) -> owes_here post b (refresh_channel_snapshot cfg i).
Proof.
  intros Hr Hb Hp. apply owes_quiet; [by apply quiet_same; intros f m x m' [= _ <-]|done|]. intros now.
  apply owes_quiet; [apply quiet_get|done|]. intros got. simpl. destruct (try _) as [o|e]; simpl; [|apply Hp].
  destruct (negb _); [apply Hp|].
  apply owes_quiet; [by apply quiet_same; intros f m x m' [= _ <-]|done|].
  intros [[[[lc n]|] slot]|e]; simpl; [|apply Hp..].
  apply owes_quiet; [|done|intros [r []]; simpl; destruct (try _); simpl; apply Hp].
  apply quiet_update. intros _. apply Hr.
Qed.

#[local] Opaque refresh_channel_snapshot get_existing.

Lemma owes_use (w : result UseAcceptance MppError -> Z) cfg payload ch key :
  refresh_pays cfg ->
  (forall e, w (Err e) <= 0) ->
  (up_channel_id payload = id -> forall k signer auth,
     closure_pays (bound (store_binding cfg) None (use_locked cfg k signer payload auth ch key))
       (fun _ out => match out with Some u => w (Ok u) | None => 0 end)) ->
  (up_channel_id payload <> id -> forall u, w (Ok u) <= 0) ->
  owes_here (fun b a => w a <= b) 0 (process_use cfg payload ch key).
Proof.
  intros Href. intros He Hc Hne. unfold process_use. destruct (check_idempotency_key key); simpl; [|apply He].
  case_decide; [apply He|]. destruct (ok_or _ _) as [k|]; simpl; [|apply He].
  case_decide; [apply He|]. destruct (rmap_err _ _) as [auth|]; simpl; [|apply He].
  apply owes_ptry, owes_refresh; [done|done|]. intros [[]|e]; [|apply He].
  split; [done|]. eexists. split; [apply earns_update; intros Hid; by apply Hc|].
  intros [r out]. simpl. destruct r as [s'|e]; simpl; [|apply He].
  destruct out as [u|]; simpl; [|pose proof (He (MppOther "use did not produce a voucher")); case_decide; done].
  case_decide; [lia|]. by apply Hne.
Qed.

Lemma owes_authenticate cfg payload ch key :
  refresh_pays cfg ->
  owes_here (fun b _ => 0 <= b) 0 (authenticate_use cfg payload ch key).
Proof.
  intros Href. unfold authenticate_use. destruct (check_idempotency_key key); simpl; [|done].
  case_decide; [done|]. destruct (rmap_err _ _); simpl; [|done].
  apply owes_ptry, owes_get_existing; [done|]. intros [s|e]; [|done]. destruct (closed s); [done|].
  destruct (try _); simpl; [|done]. apply owes_ptry, owes_refresh; [done|done|]. by intros [[]|e].
Qed.

(** What a voucher's acceptance counts for. *)
Definition fresh_amount (amount : Z) (r : result VoucherAcceptance MppError) : Z :=
  match r with Ok v => if replay v then 0 else amount | Err _ => 0 end.

Lemma owes_voucher cfg payload amount allow guard (counts : bool) :
  refresh_pays cfg ->
  (counts = true -> vp_channel_id payload = id) ->
  (vp_channel_id payload = id -> forall args e,
     arg_channel args = id -> required_availability args = amount ->
     closure_pays (bound (store_binding cfg) false (accept_locked args (priced_commit cfg amount allow guard e)))
       (fun _ (flag : bool) => if counts then if flag then 0 else amount else 0)) ->
  owes_here (fun b a => (if counts then fresh_amount amount a else 0) <= b) 0
    (verify_voucher_priced cfg payload amount allow guard).
Proof.
  intros Href. intros Hid Hc. set (w := fun _ => _).
  assert (He : forall e, (if counts then fresh_amount amount (Err e) else 0) <= 0) by (by destruct counts).
  unfold verify_voucher_priced. case_decide; [apply He|]. case_decide as Hch; [apply He|].
  apply owes_ptry, owes_get_existing; [done|]. intros [s|e]; [|apply He].
  case_decide; [apply He|]. case_decide; [apply He|]. destruct (ok_or _ _) as [n|]; simpl; [|apply He].
  apply owes_ptry, owes_refresh; [done|done|]. intros [[]|e]; [|apply He].
  apply owes_quiet; [by apply quiet_same; intros f m x m' [= _ <-]|done|]. intros now.
  unfold accept_voucher_with_commit. cbn [core pbind perform arg_channel].
  apply owes_quiet; [apply quiet_get|done|]. intros got. cbn [core pbind].
  destruct (rbind _ _) as [s'|e]; simpl; [|apply He].
  destruct (rbind _ _) as [[]|e]; simpl; [|apply He].
  split; [done|]. eexists. split.
  { apply earns_update. intros Heq. apply Hc; [|exact Heq|done].
    destruct (decide (vp_channel_id payload = vd_channel_id (sv_data (vp_voucher payload)))); [congruence|done]. }
  intros [r flag]. simpl. destruct r as [s1|e]; simpl; [|apply He].
  destruct counts; simpl; [|by case_decide]. rewrite Hid in Hch by done.
  case_decide as Hd; [by unfold w; destruct flag; simpl; lia|].
  destruct Hch. congruence.
Qed.

Lemma owes_charge_loop cfg a pubkey total guard (counts : bool) attempts :
  (counts = true -> au_channel_id a = id) -> 0 < total ->
  (au_channel_id a = id -> forall base before c signature, before < total ->
     closure_pays (bound (store_binding cfg) {| moved := false; replayed := None |}
       (charge_locked cfg a guard total base before c signature))
       (fun _ out => match replayed out with
                     | Some _ => 0 | None => if counts then total - before else 0 end)) ->
  owes_here (fun b r => match r with Ok c => if counts then oc_charged c else 0 | Err _ => 0 end <= b) 0
    (charge_loop attempts cfg a pubkey total guard).
Proof.
  intros Hid Hpos Hc. set (post := fun b r => _ <= b).
  assert (Hrep : forall e, post 0 (Ok (replayed_charge (au_channel_id a) pubkey e))) by (by destruct counts).
  induction attempts as [|attempts IH]; [done|]. cbn [charge_loop].
  apply owes_ptry, owes_get_existing; [done|]. intros [s|e]; [|done]. destruct (closed s); [done|].
  destruct (try (check_bound_authentication _ _)); simpl; [|done].
  destruct (try (recorded_use s a)) as [recorded|]; simpl; [|done].
  destruct (reached_total total recorded) as [entry|] eqn:Hr; [apply Hrep|].
  assert (Hlt : charged_total recorded < total).
  { unfold reached_total in Hr. destruct recorded; simpl in *; [case_decide; [done|lia]|lia]. }
  destruct (ok_or _ _) as [c|]; simpl; [|done]. case_decide; [done|].
  destruct (data_message_bytes _) as [bytes|]; simpl; [|done].
  apply owes_quiet; [by apply quiet_same; intros f m x m' [= _ <-]|done|].
  intros [signature|e]; simpl; [|done].
  split; [done|]. eexists. split; [apply earns_update; intros Heq; by apply Hc|].
  intros [r out]. simpl. destruct r as [s1|e].
  - destruct (replayed out) as [entry|]; [case_decide; apply Hrep|].
    unfold post. simpl. destruct counts; case_decide; try lia. naive_solver.
  - destruct (moved out); [exact IH|]. apply owes_quiet; [apply quiet_get|done|].
    intros got. simpl. destruct (try _) as [o|e']; simpl; [|done].
    destruct o as [s1|]; [|done]. case_bool_decide; [exact IH|done].
Qed.

Lemma owes_charge cfg a pubkey total guard (counts : bool) :
  refresh_pays cfg ->
  (counts = true -> au_channel_id a = id) -> 0 <= total ->
  (au_channel_id a = id -> forall base before c signature, before < total ->
     closure_pays (bound (store_binding cfg) {| moved := false; replayed := None |}
       (charge_locked cfg a guard total base before c signature))
       (fun _ out => match replayed out with
                     | Some _ => 0 | None => if counts then total - before else 0 end)) ->
  owes_here (fun b r => match r with Ok c => if counts then oc_charged c else 0 | Err _ => 0 end <= b) 0
    (charge_operator_request cfg a pubkey total guard).
Proof.
  intros Href. intros Hid Hpos Hc. unfold charge_operator_request. do 3 (case_decide; [done|]).
  apply owes_ptry, owes_refresh; [done|done|]. intros [[]|e]; [|done].
  apply owes_charge_loop; [done|lia|done].
Qed.

Lemma owes_topup (w : result (TopUpAcceptance St) MppError -> Z) cfg payload :
  (forall e, w (Err e) <= 0) ->
  (tp_channel_id payload = id -> forall signature additional, 0 <= additional ->
     closure_pays (bound (store_binding cfg) false (topup_locked cfg (tp_channel_id payload) signature additional))
       (fun s r => w (Ok {| ta_state := s; ta_replay := r; transaction_signature := signature |}))) ->
  (tp_channel_id payload <> id -> forall t, w (Ok t) <= 0) ->
  owes_here (fun b a => w a <= b) 0 (process_topup_with_outcome cfg payload).
Proof.
  intros He Hc Hne. unfold process_topup_with_outcome, topup_channel.
  destruct (parse_u64 _) as [n|] eqn:Hn; simpl; [|apply He]. apply parse_u64_range in Hn.
  case_decide; simpl; [apply He|].
  apply owes_ptry, owes_ptry, owes_get_existing; [done|]. intros [s|e]; [|apply He].
  destruct (closed s); simpl; [apply He|].
  apply owes_quiet; [by apply quiet_same; intros f m x m' [= _ <-]|done|].
  intros [signature|e]; simpl; [|apply He].
  split; [done|]. eexists. split; [apply earns_update; intros Heq; apply Hc; [done|zlia]|].
  intros [r out]. simpl. destruct r as [s1|e]; simpl; [|apply He].
  case_decide; [lia|]. by apply Hne.
Qed.

Lemma owes_begin cfg request :
  refresh_pays cfg ->
  (dr_session_id request = id -> forall currency e, closure_pays (bound (store_binding cfg) None (begin_locked cfg request currency e))
     (fun _ _ => 0)) ->
  owes_here (fun b _ => 0 <= b) 0 (begin_delivery cfg request).
Proof.
  intros Href. intros Hc. unfold begin_delivery. case_decide; [done|]. destruct (expected_payment_channel_mint cfg); simpl; [|done].
  apply owes_ptry, owes_refresh; [done|done|]. intros [[]|e]; [|done].
  split; [done|]. eexists. split; [apply earns_update; intros Heq; by apply Hc|].
  intros [r out]. simpl. destruct r; simpl; [|done]. by case_decide.
Qed.

Lemma owes_usage cfg channel delivery_id amount :
  (channel = id -> closure_pays (bound (store_binding cfg) tt (usage_locked delivery_id amount)) (fun _ _ => 0)) ->
  owes_here (fun b _ => 0 <= b) 0 (record_delivery_usage cfg channel delivery_id amount).
Proof.
  intros Hc. split; [done|]. eexists. split; [apply earns_update; intros Heq; by apply Hc|].
  intros [r out]. simpl. destruct r; simpl; [|done]. by case_decide.
Qed.

Lemma owes_commit (w : Z -> Z) cfg payload :
  let channel := vd_channel_id (sv_data (cp_voucher payload)) in
  let paid r := match r with
                | Ok receipt => match cr_status receipt, parse_u64 (cr_amount receipt) with
                                | Committed, Some amount => w amount | _, _ => 0 end
                | Err _ => 0
                end in
  (channel = id -> forall signature c e now, in_u64 c ->
     closure_pays (bound (store_binding cfg) None (commit_locked cfg channel (cp_delivery_id payload) signature c e now))
       (fun s out => match out with
                     | Some (amount, cumul, status) =>
                         paid (Ok (receipt (cp_delivery_id payload) channel (amount, cumul, status)))
                     | None => 0 end)) ->
  (channel <> id -> forall amount, w amount <= 0) ->
  owes_here (fun b a => paid a <= b) 0 (process_commit cfg payload).
Proof.
  intros channel paid Hc Hne. unfold process_commit.
  destruct (parse_u64 _) as [c|] eqn:Hp; simpl; [|done]. apply parse_u64_range in Hp.
  apply owes_ptry, owes_get_existing; [done|]. intros [s|e]; [|done].
  destruct (find_committed _ s) as [committed|].
  - destruct (same_commit _ _ _); [|done].
    apply owes_quiet; [by apply quiet_same; intros f m x m' [= _ <-]|done|]. intros clock. simpl.
    by destruct (verify_signature _ _ _ _).
  - destruct (ok_or _ _) as [d|]; simpl; [|done].
    apply owes_quiet; [by apply quiet_same; intros f m x m' [= _ <-]|done|]. intros now. simpl.
    case_decide; [done|]. destruct (rmap_err _ _); simpl; [|done].
    apply owes_quiet; [by apply quiet_same; intros f m x m' [= _ <-]|done|]. intros clock. simpl.
    destruct (verify_signature _ _ _ _); simpl; [|done].
    split; [done|]. eexists. split; [apply earns_update; intros Heq; by apply Hc|].
    intros [r out]. simpl. destruct r as [s1|e]; simpl; [|done].
    destruct out as [[[amount cumul] status]|]; simpl; [|by case_decide].
    case_decide as Hd; [done|]. destruct status; [|done]. destruct (parse_u64 _); [by apply Hne|done].
Qed.

(** The mutation of [seal_params]. *)
Definition seal_pays cfg : Prop :=
  forall n, closure_pays (bound (store_binding cfg) tt (mutating None (fun s =>
    (Ok tt, with_settled_on_chain (Z.max (settled_on_chain s) n) s)))) (fun _ _ => 0).

Lemma owes_seal cfg i :
  seal_pays cfg ->
  owes_here (fun b _ => 0 <= b) 0 (seal_params cfg i).
Proof.
  intros Hs. unfold seal_params. apply owes_ptry, owes_get_existing; [done|]. intros [s|e]; [|done].
  case_decide; [done|].
  apply owes_quiet; [by apply quiet_same; intros f m x m' [= _ <-]|done|]. intros now.
  apply owes_quiet; [by apply quiet_same; intros f m x m' [= _ <-]|done|]. intros read.
  set (k := fun state : St => let '(_, _) := settling_voucher state in _).
  assert (Hend : forall r, owes_here (fun b _ => 0 <= b) 0 (ptry k (Ret r))).
  { intros [s1|e]; simpl; [|done]. unfold k. destruct (settling_voucher s1).
    destruct (parse_pubkey i); simpl; [|done]. by destruct (parse_pubkey (recipient cfg)). }
  destruct read as [[[[lc n]|] slot]|e]; cbn [pbind]; [|apply (Hend (Ok s))..].
  case_decide; [|apply (Hend (Ok s))].
  apply owes_ptry. apply owes_quiet; [|done|intros [x []]; simpl; destruct (try _); [apply (Hend (Ok _))|done]].
  apply quiet_update. intros _. apply Hs.
Qed.

Lemma owes_close cfg payload :
  seal_pays cfg ->
  (cl_channel_id payload = id ->
   (forall v, cl_voucher payload = Some v -> vd_channel_id (sv_data v) = cl_channel_id payload) ->
   forall now, closure_pays (bound (store_binding cfg) tt (close_locked cfg payload now)) (fun _ _ => 0)) ->
  owes_here (fun b _ => 0 <= b) 0 (process_close cfg payload).
Proof.
  intros Hs Hc. unfold process_close.
  apply owes_quiet; [by apply quiet_same; intros f m x m' [= _ <-]|done|]. intros now.
  destruct (match cl_voucher payload with Some _ => _ | None => _ end) eqn:Hv; [done|].
  split; [done|]. eexists. split.
  { apply earns_update. intros Heq. apply Hc; [done|]. intros v Hcl. rewrite Hcl in Hv.
    apply negb_false_iff, bool_decide_eq_true in Hv. done. }
  intros [r out]. simpl. destruct r; simpl; [|done].
  replace (0 + _) with 0 by (case_decide; lia). by apply owes_seal.
Qed.
(** ** Opening, on the unguarded store *)

(** A reservation as an open writes it, holding its intent. *)
Definition blank (intent : Value) s : Prop :=
  deposit s = 0 /\ cumulative s = 0 /\ spent_amount s = 0 /\ processed_uses s = [] /\
  processed_topup_signatures s = [] /\ pending_deliveries s = [] /\ committed_deliveries s = [] /\
  sealed s = false /\ close_requested_at s = None /\ final_cumulative s = None /\ open_pending s = true /\
  session_open_is_terminal s = false /\ highest_voucher_signature s = None /\
  extra s !! OPEN_INTENT_KEY = Some intent.

(** The intent is of a payload that deposits [amount]. *)
Definition declares (intent : Value) (amount : Z) : Prop :=
  0 < amount /\ exists i : OpenIntent Value, intent_to_value i = Ok intent /\
    deposit_amount (oi_payload i) = Ok amount.

Record open_pays cfg : Prop := {
  reserve_pays fresh intent amount : blank intent fresh -> declares intent amount ->
    closure_pays (reserve_locked (store_binding cfg) fresh intent) (fun _ _ => 0);
  retire_pays intent amount : declares intent amount -> closure_pays (retire_locked intent) (fun _ _ => 0);
  activate_pays intent amount n : declares intent amount ->
    closure_pays (activate_locked (store_binding cfg) intent amount n) (fun _ _ => 0);
  expire_pays expected n : closure_pays (expire_locked expected n) (fun _ _ => 0);
}.

(** A program that spends and earns nothing. *)
Definition idle {B} (p : prog op B) : Prop :=
  forall post : Z -> B -> Prop, (forall x, post 0 x) -> owes_here post 0 p.

Lemma idle_ret {B} (x : B) : idle (Ret x).
Proof. intros post Hp. apply Hp. Qed.

Lemma idle_pbind {B C} (f : B -> prog op C) p : idle p -> (forall x, idle (f x)) -> idle (pbind f p).
Proof. intros Hi Hf post Hp. apply owes_pbind, Hi. intros x. by apply Hf. Qed.

Lemma idle_ptry {B C Er} (f : B -> prog op (result C Er)) p :
  idle p -> (forall x, idle (f x)) -> idle (ptry f p).
Proof. intros Hi Hf. apply idle_pbind; [done|]. intros [x|e]; [apply Hf|apply idle_ret]. Qed.

(** A check: what follows may use that it passed. *)
Lemma idle_check {B C Er} (f : B -> prog op (result C Er)) r :
  (forall x, r = Ok x -> idle (f x)) -> idle (ptry f (Ret r)).
Proof. intros Hf. destruct r as [x|e]; simpl; [by apply Hf|apply idle_ret]. Qed.

Lemma idle_ask {X} (e : op X) :
  (forall f m x m', server_exec X f e m = (x, m') -> m' = m) -> idle (perform e).
Proof. intros Hs post Hp. by apply owes_ask. Qed.

Lemma idle_get i : idle (perform (Get i)).
Proof. intros post Hp. apply owes_quiet; [apply quiet_get|done..]. Qed.

Lemma idle_update {R} i (updater : Z -> option St -> result St StoreError * R) :
  (i = id -> closure_pays updater (fun _ _ => 0)) -> idle (raw_update i updater).
Proof. intros Hc post Hp. apply owes_quiet; [by apply quiet_update|done..]. Qed.

Ltac idle_step :=
  match goal with
  | |- forall _, _ => intro
  | |- idle (Ret _) => apply idle_ret
  | |- idle (ptry _ (Ret _)) => apply idle_check
  | |- idle (ptry _ _) => apply idle_ptry
  | |- idle (pbind _ _) => apply idle_pbind
  | |- idle (perform (Get _)) => apply idle_get
  | |- idle (perform _) => apply idle_ask; by intros ???? [= _ <-]
  | |- idle (let '_ := ?x in _) => destruct x
  | |- idle (if ?b then _ else _) => destruct b
  | |- idle (match ?x with _ => _ end) => destruct x
  end.

Lemma idle_fetch cfg p min_slot : idle (fetch_and_match_open_channel cfg p min_slot).
Proof. unfold fetch_and_match_open_channel. repeat idle_step. Qed.

Lemma idle_submit cfg prepared p fresh floor : idle (submit_and_fetch_open cfg prepared p fresh floor).
Proof. unfold submit_and_fetch_open. cbv zeta. 
  repeat (idle_step || apply idle_fetch).
Qed.

Lemma idle_validate {B} (f : ValidatedOpen -> prog op (result B MppError)) cfg payload context :
  (forall v, deposit_amount payload = Ok (vo_deposit v) -> 0 < vo_deposit v -> idle (f v)) ->
  idle (ptry f (validate_open_request cfg payload context)).
Proof.
  intros Hf post Hp. unfold validate_open_request, ensure_not_expired.
  assert (Hend : forall r : result unit MppError, owes_here post 0 (ptry f (await? _ := Ret r in
    Ret (let? deposit := deposit_amount payload in
       let? timeout := resolve_idle_timeout_seconds (config_idle_timeout_seconds cfg)
         (idle_timeout_options_seconds cfg) (op_idle_timeout_seconds payload) in
       let? _ := match idle_timeout_options_seconds cfg with
                 | Some options => validate_idle_timeout_options options
                 | None => Ok tt
                 end in
       if decide (deposit = 0) then Err (MppOther "Deposit must be greater than zero") else
       let? p := payment_channel_open_params cfg payload in
       let? _ := check_open_slot (op_open_slot payload) (ctx_recent_slot context) in
       let? _ := check_open_signer cfg payload (ctx_challenge_id context) in
       Ok {| vo_deposit := deposit; effective_idle_timeout := timeout; params := p |})))).
  { intros [[]|e]; simpl; [|apply Hp]. destruct (rbind _ _) as [v|e] eqn:Hv; [|apply Hp].
    apply rbind_ok in Hv as (d & Hd & Hv). apply rbind_ok in Hv as (t & _ & Hv).
    apply rbind_ok in Hv as (? & _ & Hv). case_decide; [done|]. apply rbind_ok in Hv as (p & _ & Hv).
    apply rbind_ok in Hv as (? & _ & Hv). apply rbind_ok in Hv as (? & _ & [= <-]).
    apply Hf; [done| |exact Hp]. simpl. unfold deposit_amount in Hd.
    destruct (parse_u64 _) as [n|] eqn:Hn; [|done]. injection Hd as ->.
    apply parse_u64_range in Hn. zlia. }
  destruct (ctx_expires context) as [expires|]; [|apply (Hend (Ok tt))].
  destruct (ok_or _ _) as [expiry|e]; [|apply (Hend (Err e))]. simpl.
  apply owes_ask; [by intros ???? [= _ <-]|done|]. intros now.
  case_decide; [apply (Hend (Err _))|apply (Hend (Ok tt))].
Qed.

Lemma idle_finish cfg i intent amount was_open opened :
  declares intent amount -> (i = id -> open_pays cfg) ->
  idle (finish_open cfg i intent amount was_open opened).
Proof.
  intros Hd Ho. unfold finish_open.
  repeat idle_step; apply idle_update; intros Heq; [by eapply activate_pays; [apply Ho|]|].
  by eapply retire_pays; [apply Ho|].
Qed.

(** What an open writes when it finds no record. *)
Lemma blank_reservation cfg payload v ch auth sig now intent reservation :
  match store_binding cfg with
  | Some binding => insert_binding binding
      (with_extra (<[OPEN_INTENT_KEY := intent]> ∅) (fresh_reservation cfg payload v ch auth sig now))
  | None => Ok (with_extra (<[OPEN_INTENT_KEY := intent]> ∅) (fresh_reservation cfg payload v ch auth sig now))
  end = Ok reservation -> blank intent reservation.
Proof.
  unfold blank, session_open_is_terminal. destruct (store_binding cfg) as [binding|].
  - intros (value & _ & [= <-])%rbind_ok. by split_and!.
  - intros [= <-]. by split_and!.
Qed.

Lemma idle_open cfg payload context :
  (op_channel_id payload = id -> open_pays cfg) -> idle (process_open_inner cfg payload context).
Proof.
  intros Ho. unfold process_open_inner, validate_open_slot. apply idle_validate. intros v Hd Hpos.
  assert (Hdecl : forall stored at_slot floor prepared intent,
    rmap_err (fun e => MppOther ("serialize open intent: " +:+ e))
      (intent_to_value (attempt_intent payload context stored at_slot floor prepared)) = Ok intent ->
    declares intent (vo_deposit v)).
  { intros ????? Hi%rmap_err_ok. split; [done|]. by eexists. }
  repeat first [apply idle_submit|eapply idle_finish; [by eapply Hdecl|done]|idle_step].
  apply idle_update. intros Heq. eapply reserve_pays; [by apply Ho|by eapply blank_reservation|by eapply Hdecl].
Qed.

(** A resumption retires or opens the channel its intent names. *)
Lemma idle_resume cfg i : (i = id -> open_pays cfg) -> idle (resume_pending_open cfg i).
Proof.
  intros Ho. unfold resume_pending_open, reconcile_expiry.
  repeat first [apply idle_open|idle_step].
  all: assert (op_channel_id (oi_payload x4) = i) as <- by (apply dec_stable; tauto).
  - apply idle_update. intros Heq. by eapply expire_pays, Ho.
  - by apply Ho.
Qed.

Lemma owes_open (post : Z -> result (OpenAcceptance St) MppError -> Prop) cfg payload context :
  (op_channel_id payload = id -> open_pays cfg) -> (forall r, post 0 r) ->
  owes_here post 0 (process_open_with_outcome cfg payload context).
Proof. intros Ho Hp. by apply idle_open. Qed.

Lemma owes_resume (post : Z -> result (OpenAcceptance St) MppError -> Prop) cfg i :
  (i = id -> open_pays cfg) -> (forall r, post 0 r) -> owes_here post 0 (resume_pending_open cfg i).
Proof. intros Ho Hp. by apply idle_resume. Qed.

(** The mutations of [mark_sealed]. *)
Definition mark_pays cfg : Prop :=
  closure_pays (bound (store_binding cfg) tt (mutating None (fun s => (Ok tt, with_sealed true s))))
    (fun _ _ => 0) /\
  forall now, closure_pays (bound (store_binding cfg) tt (mutating None (fun s =>
    (Ok tt, record_sealed_at now s)))) (fun _ _ => 0).

Lemma owes_mark cfg i : mark_pays cfg -> owes_here (fun b _ => 0 <= b) 0 (server_mark_sealed cfg i).
Proof.
  intros [Hs Hr].
  assert (Hidle : idle (server_mark_sealed cfg i)); [|by apply Hidle].
  unfold server_mark_sealed, mutate, update.
  repeat first [apply idle_update; intros _; done|idle_step].
Qed.

(** ** Handlers that keep the account *)

Abbreviation keeps_closure b init updater := (closure_pays (bound b init updater) (fun _ _ => 0)).

(** What each closure owes, where no answer claims anything. *)
Definition handler_keeps cfg (h : handler) : Prop :=
  let b := store_binding cfg in
  match h with
  | HOpen payload _ => op_channel_id payload = id -> open_pays cfg
  | HResume i => i = id -> open_pays cfg
  | HVoucher payload amount allow guard =>
      vp_channel_id payload = id -> forall args e, arg_channel args = id -> required_availability args = amount ->
      keeps_closure b false (accept_locked args (priced_commit cfg amount allow guard e))
  | HUse payload ch key =>
      up_channel_id payload = id -> forall k signer auth,
      keeps_closure b None (use_locked cfg k signer payload auth ch key)
  | HAuthenticate _ _ _ => True
  | HCharge a _ total guard =>
      0 <= total /\ (au_channel_id a = id -> forall base before c signature, before < total ->
      keeps_closure b {| moved := false; replayed := None |}
        (charge_locked cfg a guard total base before c signature))
  | HTopUp payload =>
      tp_channel_id payload = id -> forall signature additional, 0 <= additional ->
      keeps_closure b false (topup_locked cfg (tp_channel_id payload) signature additional)
  | HBegin request =>
      dr_session_id request = id -> forall currency e, keeps_closure b None (begin_locked cfg request currency e)
  | HUsage channel delivery_id amount =>
      channel = id -> keeps_closure b tt (usage_locked delivery_id amount)
  | HCommit payload =>
      let channel := vd_channel_id (sv_data (cp_voucher payload)) in
      channel = id -> forall signature c e now, in_u64 c ->
      keeps_closure b None (commit_locked cfg channel (cp_delivery_id payload) signature c e now)
  | HClose payload =>
      cl_channel_id payload = id -> forall now, keeps_closure b tt (close_locked cfg payload now)
  | HSealed _ => True
  end.

(** An answer that claims less. *)
Lemma closure_pays_mono {R} (updater : Z -> option St -> result St StoreError * R) (w w' : St -> R -> Z) :
  (forall s out, w' s out <= w s out) -> closure_pays updater w -> closure_pays updater w'.
Proof.
  intros Hw Hc now o s' out HJ Hu. destruct (Hc _ _ _ _ HJ Hu) as (? & ? & ?). specialize (Hw s' out).
  split_and!; [done|done|lia].
Qed.

Lemma kept_covered cfg h (claims : handler -> reply -> Z) :
  refresh_pays cfg -> seal_pays cfg -> mark_pays cfg -> handler_keeps cfg h -> (forall r, claims h r <= 0) ->
  covered server_exec on_record account claims h 0 (serve cfg h).
Proof.
  intros Hr Hs Hm Hk Hc. unfold covered. destruct h; simpl in Hk; apply owes_pbind.
  - apply owes_open; [done|]. intros r. apply Hc.
  - apply owes_resume; [done|]. intros r. apply Hc.
  - eapply owes_mono; [|apply owes_voucher with (counts := false)]; [|done|done|].
    + intros b a Hb. simpl in *. specialize (Hc (RVoucher a)). lia.
    + intros Heq args e Ha Hreq. eapply closure_pays_mono; [|by apply Hk]. done.
  - eapply owes_mono; [|apply owes_use with (w := fun _ => 0)]; [|done|done| |done].
    + intros b a Hb. simpl in *. specialize (Hc (RUse a)). lia.
    + intros Heq k signer auth. eapply closure_pays_mono; [|by apply Hk]. by intros s [].
  - eapply owes_mono; [|by apply owes_authenticate]. intros b a Hb. simpl in *. specialize (Hc (RAuthenticate a)). lia.
  - destruct Hk as [Hpos Hk]. eapply owes_mono; [|apply owes_charge with (counts := false)]; [|done|done|done|].
    + intros b a' Hb. simpl in *. specialize (Hc (RCharge a')). destruct a'; lia.
    + intros Heq base before c signature Hlt. eapply closure_pays_mono; [|by apply Hk]. intros s out. by case_match.
  - eapply owes_mono; [|apply owes_topup with (w := fun _ => 0)]; [|done| |done].
    + intros b a Hb. simpl in *. specialize (Hc (RTopUp a)). lia.
    + intros Heq signature additional Hpos. by apply Hk.
  - eapply owes_mono; [|by apply owes_begin]. intros b a Hb. simpl in *. specialize (Hc (RBegin a)). lia.
  - eapply owes_mono; [|by apply owes_usage]. intros b a Hb. simpl in *. specialize (Hc (RUsage a)). lia.
  - eapply owes_mono; [|apply owes_commit with (w := fun _ => 0)]; [| |done].
    + intros b a Hb. simpl in *. specialize (Hc (RCommit a)). repeat case_match; lia.
    + intros Heq signature c e now Hu. eapply closure_pays_mono; [|by apply Hk].
      intros s [[[amount cumul] []]|]; simpl; by try destruct (parse_u64 _).
  - eapply owes_mono; [|apply owes_close; [done|]].
    + intros b a Hb. simpl in *. specialize (Hc (RClose a)). lia.
    + intros Heq _ now. by apply Hk.
  - eapply owes_mono; [|by apply owes_mark]. intros b a Hb. simpl in *. specialize (Hc (RSealed a)). lia.
Qed.
End account.

(** ** Accounts of a record *)

(** What an activation leaves. *)
Lemma activate_locked_ok b intent amount n now o s' out :
  activate_locked b intent amount n now o = (Ok s', out) ->
  exists s, o = Some s /\ require_binding s b true = Ok tt /\ intent_conflicts intent s = false /\
    let s1 := if open_pending s then with_pending_setup None (with_deposit amount s) else s in
    let s2 := with_spent_amount (Z.max (spent_amount s) n) (with_cumulative (Z.max (cumulative s) n) s1) in
    let s3 := with_settled_on_chain (Z.max (settled_on_chain s) n) s2 in
    s' = with_onchain_checked_at (now_u64 now)
           (with_extra (<[ONCHAIN_OBSERVED_AT_KEY := json_u64 (now_u64 now)]> (extra s)) s3).
Proof.
  destruct o as [s|]; [|done]. unfold activate_locked. intros Ha. exists s. split; [done|].
  destruct (require_binding s b true) as [[]|] eqn:Hb; [|done]. split; [done|].
  destruct (intent_conflicts intent s); [done|]. split; [done|]. revert Ha. cbn.
  by destruct (open_pending s); intros [= <- <-].
Qed.

(** What a reservation of a fresh open leaves. *)
Lemma reserve_locked_ok b fresh intent now o s' out :
  reserve_locked b fresh intent now o = (Ok s', out) ->
  match o with
  | None => s' = fresh /\ out = false
  | Some s => s' = s /\ require_binding s b true = Ok tt /\ intent_conflicts intent s = false /\
      sealed s = false /\ out = bool_decide (pending_setup s = None)
  end.
Proof.
  unfold reserve_locked. destruct o as [s|]; [|by intros [= <- <-]].
  destruct (require_binding s b true) as [[]|]; [|done]. destruct (intent_conflicts intent s); [done|].
  destruct (sealed s); [done|]. do 2 (case_decide; [done|]). by intros [= <- <-].
Qed.

Lemma retire_locked_ok intent now o s' out :
  retire_locked intent now o = (Ok s', out) ->
  exists s stored, o = Some s /\ extra s !! OPEN_INTENT_KEY = Some stored /\
    same_open_intent stored intent = true /\ s' = retired elsewhere_mark s.
Proof.
  unfold retire_locked. destruct o as [s|]; [|done]. destruct (extra s !! _) as [stored|] eqn:Hs; [|done].
  destruct (same_open_intent stored intent) eqn:Hi; [|done]. intros [= <-]. by exists s, stored.
Qed.

Lemma expire_locked_ok expected n now o s' out :
  expire_locked expected n now o = (Ok s', out) ->
  exists s text, o = Some s /\ to_value s = Ok text /\ to_value expected = (Ok text : result Value string) /\
    s' = retired (expired_mark n) s.
Proof.
  unfold expire_locked. intros [= He <-]. apply rbind_ok in He as (s & Hs & He).
  destruct o as [s0|]; [|done]. injection Hs as ->. apply rbind_ok in He as (t & Ht%rmap_err_ok & He).
  apply rbind_ok in He as (t' & Ht'%rmap_err_ok & He). case_decide as Hd; [done|]. injection He as <-.
  assert (t = t') as -> by (destruct (decide (t = t')); tauto). by exists s, t'.
Qed.

Section record.
Context (J : St -> Prop) (phi : St -> Z).

Definition lift_J o : Prop := forall s, o = Some s -> J s.
Definition lift_phi o : Z := match o with Some s => phi s | None => 0 end.

(** What a closure does to a record that exists, or to none. *)
Definition record_pays {R} (updater : Z -> option St -> result St StoreError * R) (w : St -> R -> Z) :
    Prop :=
  (forall now s' out, updater now None = (Ok s', out) -> J s' /\ 0 <= phi s' /\ w s' out <= phi s') /\
  (forall now s s' out, J s -> updater now (Some s) = (Ok s', out) ->
     J s' /\ phi s <= phi s' /\ w s' out <= phi s' - phi s).

Lemma pays_record {R} (updater : Z -> option St -> result St StoreError * R) w :
  record_pays updater w -> closure_pays lift_J lift_phi updater w.
Proof.
  intros [Hn Hs] now o s' out HJ Hu. destruct o as [s|]; simpl.
  - destruct (Hs _ _ _ _ (HJ _ eq_refl) Hu) as (? & ? & ?). split_and!; [by intros ? [= <-]|done..].
  - destruct (Hn _ _ _ Hu) as (? & ? & ?). split_and!; [by intros ? [= <-]|lia..].
Qed.

Lemma pays_bound {R} b (init : R) (updater : Z -> option St -> result St StoreError * R) w :
  record_pays updater w -> closure_pays lift_J lift_phi (bound b init updater) w.
Proof. intros Hr now o s' out HJ (_ & Hu & _)%bound_ok. by eapply pays_record. Qed.

(** Money and fences decide the account. *)
Definition money_decides : Prop :=
  forall s s', same_money s s' -> fenced s s' -> J s -> J s' /\ phi s' = phi s.

Lemma pays_refresh cfg : money_decides -> refresh_pays lift_J lift_phi cfg.
Proof.
  intros Hk now slot lc n. apply pays_bound. split; [done|]. intros clock s s' [] HJ. unfold mutating. simpl.
  destruct (observe cfg now slot lc n s) as [[[]|e] s1] eqn:Ho; [|done]. intros [= <-].
  apply observe_same in Ho as [Hm Hf]. destruct (Hk s s1) as [HJ' ->]; [done..|]. split; [done|lia].
Qed.

Lemma pays_seal cfg : money_decides -> seal_pays lift_J lift_phi cfg.
Proof.
  intros Hk n. apply pays_bound. split; [done|]. intros clock s s' [] HJ. unfold mutating. simpl. intros [= <-].
  destruct (Hk s (with_settled_on_chain (Z.max (settled_on_chain s) n) s)) as [HJ' ->]; [done..|].
  split; [done|lia].
Qed.

Lemma pays_mark cfg : money_decides -> mark_pays lift_J lift_phi cfg.
Proof.
  intros Hk. split; [|intros now]; apply pays_bound; (split; [done|]); intros clock s s' [] HJ;
    unfold mutating; simpl; intros [= <-].
  - destruct (Hk s (with_sealed true s)) as [HJ' ->]; [done..|]. split; [done|lia].
  - destruct (Hk s (record_sealed_at now s)) as [HJ' ->]; [| |done|split; [done|lia]];
      unfold record_sealed_at; by destruct (extra s !! _).
Qed.

(** The account of a channel that is opened, adopted or retired. *)
Lemma pays_open cfg :
  (forall intent s, blank intent s -> J s /\ 0 <= phi s) ->
  (forall mark s, J s -> J (retired mark s) /\ phi s <= phi (retired mark s)) ->
  (forall intent amount n now s s', declares intent amount -> J s ->
     activate_locked (store_binding cfg) intent amount n now (Some s) = (Ok s', tt) ->
     J s' /\ phi s <= phi s') ->
  open_pays lift_J lift_phi cfg.
Proof.
  intros Hb Hr Ha. split.
  - intros fresh intent amount Hfresh _. apply pays_record. split.
    + intros now s' out [-> _]%reserve_locked_ok. destruct (Hb _ _ Hfresh). split_and!; [done|lia..].
    + intros now s s' out HJ (-> & _)%reserve_locked_ok. split_and!; [done|lia..].
  - intros intent amount _. apply pays_record. split; [done|].
    intros now s s' out HJ (s0 & stored & [= <-] & _ & _ & ->)%retire_locked_ok.
    destruct (Hr elsewhere_mark s HJ). split_and!; [done|lia..].
  - intros intent amount n Hd. apply pays_record. split; [done|].
    intros now s s' [] HJ Hu. destruct (Ha _ _ _ _ _ _ Hd HJ Hu). split_and!; [done|lia..].
  - intros expected n. apply pays_record. split; [done|].
    intros now s s' out HJ (s0 & t & [= <-] & _ & _ & ->)%expire_locked_ok.
    destruct (Hr (expired_mark n) s HJ). split_and!; [done|lia..].
Qed.
End record.
End handlers.
