(* ===== verification/MppDemo.v ===== *)
(** Concrete session servers, channels and requests, on which the properties of
    the server are evaluated: a text form for the records the server persists, two
    configurations (an operator that signs, and clients that do) and a chain that
    answers. *)
From stdpp Require Import base numbers option list gmap strings pretty relations countable.
From S2P Require Import Prelude Effects Bytes Json Store Channel Authorization ChannelStore RedisStore Voucher Session.
From S2P Require Import Deployments MppBase MppBinding MppSession MppDelivery MppOpen MppPool.
Open Scope Z_scope.

Module ServerDemo.
Export SessionDemo.
Import RedisDemo CryptoDemo.

(** * The persisted records as trees *)

Definition leaf {T} `{Countable T} (x : T) : Demo.value := Demo.encode_value x.
Definition unleaf {T} `{Countable T} (v : Demo.value) : result T string := Demo.decode_value v.

Lemma unleaf_leaf `{Countable T} (x : T) : unleaf (leaf x) = Ok x.
Proof. unfold unleaf, leaf, Demo.decode_value, Demo.encode_value. by rewrite Demo.text_pos_text, decode_encode. Qed.

Definition opt (v : option Demo.value) : Demo.value :=
  match v with Some v => GenNode 1 [v] | None => GenNode 0 [] end.
Definition unopt (v : Demo.value) : option Demo.value :=
  match v with GenNode 1 [v] => Some v | _ => None end.

#[global] Instance signer_countable : Countable VoucherSigner.
Proof.
  apply (inj_countable' (fun v => match v with Client => true | Operator => false end)
    (fun b : bool => if b then Client else Operator)). by intros [].
Defined.
#[global] Instance account_countable : Countable HookAccount.
Proof.
  apply (inj_countable' (fun a => (ha_address a, ha_writable a)) (fun '(a, w) => Build_HookAccount a w)). by intros [].
Defined.
#[global] Instance hook_countable : Countable HookDescriptor.
Proof.
  apply (inj_countable' (fun h => (hd_program_id h, hd_entrypoint h, hd_accounts h, hd_static_data h))
    (fun '(p, e, a, d) => Build_HookDescriptor p e a d)). by intros [].
Defined.
#[global] Instance hooks_countable : Countable ChannelHooks.
Proof.
  apply (inj_countable' (fun h => (pre_fund h, post_fund h, pre_distribute h, post_distribute h))
    (fun '(a, b, c, d) => Build_ChannelHooks a b c d)). by intros [].
Defined.
#[global] Instance split_countable : Countable Split.
Proof.
  apply (inj_countable' (fun s => (split_recipient s, bps s)) (fun '(r, b) => Build_Split r b)). by intros [].
Defined.
#[global] Instance session_split_eq_dec : EqDecision SessionSplit.
Proof. solve_decision. Defined.
#[global] Instance session_split_countable : Countable SessionSplit.
Proof.
  apply (inj_countable' (fun s => (ss_recipient s, share_bps s)) (fun '(r, b) => Build_SessionSplit r b)). by intros [].
Defined.
#[global] Instance proof_eq_dec : EqDecision SessionAuthentication.
Proof. solve_decision. Defined.
#[global] Instance proof_countable : Countable SessionAuthentication.
Proof.
  apply (inj_countable' (fun a => (sa_challenge_id a, sa_payer a, sa_signature a))
    (fun '(c, p, s) => Build_SessionAuthentication c p s)). by intros [].
Defined.

Definition snapshot_value (sn : SessionConfigSnapshot) : Demo.value := GenNode 3 [
  leaf (sn_operator sn); leaf (sn_recipient sn); leaf (sn_splits sn); leaf (sn_amount sn);
  leaf (sn_suggested_deposit sn); leaf (sn_minimum_deposit sn); leaf (sn_currency sn);
  leaf (sn_decimals sn); leaf (sn_network sn); leaf (sn_channel_program sn);
  leaf (sn_channel_version sn); leaf (sn_channel_hooks sn); leaf (sn_token_program sn);
  leaf (sn_min_voucher_delta sn); leaf (sn_voucher_signer sn);
  leaf (sn_idle_timeout_options_seconds sn); leaf (sn_idle_timeout_seconds sn);
  leaf (sn_grace_period_seconds sn); leaf (sn_fee_payer sn)].

Definition snapshot_of (v : Demo.value) : result SessionConfigSnapshot string :=
  match v with
  | GenNode 3 [a; b; c; d; e; f; g; h; i; j; k; l; m; n; o; p; q; r; s] =>
      let? a := unleaf a in let? b := unleaf b in let? c := unleaf c in let? d := unleaf d in
      let? e := unleaf e in let? f := unleaf f in let? g := unleaf g in let? h := unleaf h in
      let? i := unleaf i in let? j := unleaf j in let? k := unleaf k in let? l := unleaf l in
      let? m := unleaf m in let? n := unleaf n in let? o := unleaf o in let? p := unleaf p in
      let? q := unleaf q in let? r := unleaf r in let? s := unleaf s in
      Ok (Build_SessionConfigSnapshot a b c d e f g h i j k l m n o p q r s)
  | _ => Err "invalid snapshot"
  end.

#[global] Instance binding_serde : Serde Demo.value (Binding Demo.value) := {
  to_value b := Ok (GenNode 4 [leaf (binding_version b); policy b; snapshot_value (snapshot b)]);
  from_value v := match v with
                  | GenNode 4 [n; p; sn] =>
                      let? n := unleaf n in let? sn := snapshot_of sn in
                      Ok {| binding_version := n; policy := p; snapshot := sn |}
                  | _ => Err "invalid binding"
                  end;
}.

#[global] Instance binding_serde_laws : SerdeLaws Demo.value (Binding Demo.value).
Proof.
  split; simpl; [eauto|]. intros [n p []] v [= <-]. unfold snapshot_value. cbn -[unleaf leaf].
  by rewrite !unleaf_leaf.
Qed.

Definition payload_value (p : OpenPayload Demo.value) : Demo.value := GenNode 5 [
  leaf (op_channel_id p); leaf (op_payer p); leaf (op_payee p); leaf (op_mint p);
  leaf (op_authorized_signer p); leaf (op_salt p); leaf (op_deposit_amount p);
  leaf (op_grace_period_seconds p); leaf (op_idle_timeout_seconds p); leaf (op_open_slot p);
  leaf (op_distribution_splits p); opt (authorization_policy p); leaf (op_authentication p);
  leaf (op_transaction p); opt (capabilities p)].

Definition payload_of (v : Demo.value) : result (OpenPayload Demo.value) string :=
  match v with
  | GenNode 5 [a; b; c; d; e; f; g; h; i; j; k; l; m; n; o] =>
      let? a := unleaf a in let? b := unleaf b in let? c := unleaf c in let? d := unleaf d in
      let? e := unleaf e in let? f := unleaf f in let? g := unleaf g in let? h := unleaf h in
      let? i := unleaf i in let? j := unleaf j in let? k := unleaf k in
      let? m := unleaf m in let? n := unleaf n in
      Ok (Build_OpenPayload _ a b c d e f g h i j k (unopt l) m n (unopt o))
  | _ => Err "invalid payload"
  end.

Definition intent_value (i : StoredOpenIntent Demo.value) : Demo.value := GenNode 6 [
  leaf (so_version i); payload_value (so_payload i); leaf (so_challenge_id i);
  leaf (so_recent_blockhash i); leaf (so_recent_slot i); leaf (so_finalized_valid_at i);
  leaf (so_transaction_signature i); leaf (so_adoption_floor i)].

#[global] Instance intent_serde : Serde Demo.value (StoredOpenIntent Demo.value) := {
  to_value i := Ok (intent_value i);
  from_value v := match v with
                  | GenNode 6 [a; b; c; d; e; f; g; h] =>
                      let? a := unleaf a in let? b := payload_of b in let? c := unleaf c in
                      let? d := unleaf d in let? e := unleaf e in let? f := unleaf f in
                      let? g := unleaf g in let? h := unleaf h in
                      Ok (Build_StoredOpenIntent _ a b c d e f g h)
                  | _ => Err "invalid intent"
                  end;
}.

#[global] Instance intent_serde_laws : SerdeLaws Demo.value (StoredOpenIntent Demo.value).
Proof.
  split; simpl; [eauto|]. intros [n [] c d e f g h] v [= <-]. unfold payload_value. cbn -[unleaf leaf].
  rewrite !unleaf_leaf. simpl. by destruct authorization_policy, capabilities.
Qed.

#[global] Instance state_serde : Serde Demo.value St := {
  to_value s := rmap json_str (to_value s : result string string);
  from_value v := match v with GenLeaf (inr text) => from_value text | _ => Err "invalid record" end;
}.

(** * Servers *)

#[global] Instance session_crypto : SessionCrypto (list byte) (list byte) := {
  bs58_encode l := String.string_of_list_byte l;
  bs58_decode s := Ok (text s);
  verifying_bytes k := k;
  sign_bytes k b := text (pretty (digest (k ++ b)));
  verify_loose k b s := verify_strict k b s;
  sha256 b := pad 32 (text (pretty (digest b)));
  is_on_curve k := true;
  find_program_address seeds program := pad 32 (text (pretty (digest (concat seeds ++ program)) +:+ "channel"));
  parse_rfc3339 s := None;
  jcs_object fields := Ok (concat ((fun '(k, v) => text (k +:+ v)) <$> fields));
  authentication_text a := Ok (sa_signature a);
}.

#[global] Instance session_crypto_laws : SessionCryptoLaws (list byte) (list byte).
Proof. split. intros t b [= <-]. apply String.string_of_list_byte_of_string. Qed.

(** A name of 32 bytes. *)
Definition name (s : string) : string := s +:+ String.concat "" (replicate (32 - String.length s) "_").

Definition configured (signer : VoucherSigner) : SessionConfig (list byte) := {|
  operator := "op"; recipient := name "shop"; splits := []; amount := 3; suggested_deposit := None;
  minimum_deposit := None; currency := name "usd"; decimals := 6; network := "localnet";
  channel_program := None; channel_version := None; channel_hooks := None;
  token_program := Some (text (name "token")); MppBinding.min_voucher_delta := 0; config_signer := signer;
  operator_signing_key := Some (text "op"); fee_payer_signer := None;
  idle_timeout_options_seconds := None; config_idle_timeout_seconds := 300;
  grace_period_seconds := 60; rpc_url := Some "http://localhost:8899";
|}.

Definition serving (signer : VoucherSigner) : SessionServer Demo.value (list byte) := {|
  config := configured signer;
  store_binding := Some (new_binding (json_str "policy") (configured signer));
|}.
(** The server whose operator signs, and the one whose clients do. *)
Definition cfg := serving Operator.
Definition client_cfg := serving Client.

(** * An operator-signed channel, bound to its proof at open *)

Definition unbound : St := {|
  channel_id := "c"; authorized_signer := "op"; deposit := 10; cumulative := 0;
  sealed := false; highest_voucher_signature := None; highest_voucher_expires_at := None;
  close_requested_at := None; final_cumulative := None; open_slot := None; payer := "payer";
  rent_payer := "payer"; opening_challenge_id := "challenge"; authentication := Some "proof";
  voucher_signer := "operator"; idle_timeout_seconds := None; last_activity_at := 0;
  spent_amount := 0; settled_on_chain := 0; distributed_on_chain := 0; processed_uses := [];
  processed_topup_signatures := []; next_delivery_sequence := 0; pending_deliveries := [];
  committed_deliveries := []; pending_setup := None; onchain_checked_at := 0;
  lifecycle := None; schema_version := CHANNEL_STATE_SCHEMA_VERSION; extra := ∅;
|}.
Definition operated : St :=
  match store_binding cfg ≫= fun b => match insert_binding b unbound with Ok s => Some s | Err _ => None end with
  | Some s => s
  | None => unbound
  end.
Definition m : gmap string St := {[ "c" := operated ]}.

Definition use (key : string) : AuthenticatedUse := {|
  au_channel_id := "c"; au_authentication := "proof"; au_challenge_id := "challenge";
  au_idempotency_key := key;
|}.
Definition topup : TopUpPayload := {| tp_channel_id := "c"; additional_amount := "5"; transaction := "tx" |}.

(** * The open of a client's channel *)

Definition opening (id : string) : OpenPayload Demo.value := {|
  op_channel_id := id; op_payer := name "payer"; op_payee := name "shop"; op_mint := name "usd";
  op_authorized_signer := name "signer"; op_salt := 7; op_deposit_amount := "10";
  op_grace_period_seconds := 60; op_idle_timeout_seconds := None; op_open_slot := 1000;
  op_distribution_splits := []; authorization_policy := None; op_authentication := None;
  op_transaction := "open tx"; capabilities := None;
|}.

(** Its terms, and the address they give it. *)
Definition terms : OpenChannelParams := {|
  pr_payer := text (name "payer"); pr_rent_payer := text (name "payer"); pr_payee := text (name "shop");
  pr_mint := text (name "usd"); pr_authorized_signer := text (name "signer"); pr_salt := 7;
  pr_open_slot := 1000; pr_deposit := 10; pr_grace_period := 60; pr_recipients := [];
  pr_token_program := text (name "token"); pr_program_id := default_program_id;
|}.
Definition opened_id : string := String.string_of_list_byte (channel_address terms).
Definition open_payload := opening opened_id.
Definition open_context : SessionOpenContext := {|
  ctx_challenge_id := "challenge"; ctx_expires := None; ctx_recent_blockhash := "hash"; ctx_recent_slot := 1001;
|}.

Definition onchain : OnchainChannel := {|
  guard := 0; onchain_hooks := no_hooks; status := 0; onchain_deposit := 10; onchain_settled := 0;
  onchain_salt := 7; onchain_open_slot := 1000; onchain_grace_period := 60;
  onchain_payer := text (name "payer"); onchain_rent_payer := text (name "payer");
  onchain_payee := text (name "shop"); onchain_mint := text (name "usd");
  onchain_authorized_signer := text (name "signer");
  onchain_distribution_hash := distribution_hash (Key := list byte) (SigningKey := list byte) [];
|}.

(** * Runs *)

(** The outside world at time 10: signatures, a submitted top-up and an open that
    lands at slot 1005, after the current slot. *)
Definition calm : server_env := {|
  store_env := Store.calm 10; lifecycle_answer := Err ChallengeMismatch;
  signer_answer := Ok (text "sig"); topup_answer := Ok "tx-signature";
  chain := {|
    utc_answer := 10;
    prepare_answer := Ok {| fee_payer_signature := Some "open signature"; po_payer_signature := "payer signature";
                            wire := text "wire" |};
    current_slot_answer := Ok 1002; validity_answer := Ok (true, 1000); submit_answer := Ok 1005;
    landed_answer := Ok (Some 1005); account_answer := Ok (Some (Ok onchain)); unfunded_answer := Ok false;
  |};
|}.

Definition round (n : nat) : list (nat * server_env) := (fun i => (i, calm)) <$> seq 0 n.
Definition schedule (n k : nat) : list (nat * server_env) := concat (replicate k (round n)).
Abbreviation start cfg hs m := (serve (Value := Demo.value) (Key := list byte) cfg <$> hs, m).

(** Every request advances in turn. *)
Definition run_on (c : SessionServer Demo.value (list byte)) (m : gmap string St)
    (hs : list (handler (Value := Demo.value))) :=
  run_pool server_exec (schedule (length hs) 14) (start c hs m).
Definition final (hs : list (handler (Value := Demo.value))) := run_on cfg m hs.

Lemma run_steps c m0 hs : rtc (pool_step server_exec) (start c hs m0) ((run_on c m0 hs).1, (run_on c m0 hs).2).
Proof. unfold run_on. generalize (schedule (length hs) 14), (start c hs m0). intros l cf. apply run_pool_steps. Qed.

Lemma demo_steps hs : rtc (pool_step server_exec) (start cfg hs m) ((final hs).1, (final hs).2).
Proof. apply run_steps. Qed.

(** A request charged up to 3 and then to 5, each asked for twice at once. *)
Definition charges : list (handler (Value := Demo.value)) :=
  (fun total => HCharge (use "k") "op" total (fun _ => Ok tt)) <$> [3; 5; 3; 5].
Definition topups : list (handler (Value := Demo.value)) := [HTopUp topup; HTopUp topup].
Definition reservation (amount : Z) (id : string) : DeliveryRequest := {|
  dr_session_id := "c"; dr_amount := amount; dr_delivery_id := Some id; dr_commit_url := None;
  dr_proof := None; dr_expires_at := None;
|}.
Definition deliveries : list (handler (Value := Demo.value)) :=
  [HBegin (reservation 4 "d1"); HBegin (reservation 6 "d2"); HBegin (reservation 1 "d3")].

(** Two opens of one channel at once, and a top-up of it. *)
Definition openings : list (handler (Value := Demo.value)) :=
  [HOpen open_payload open_context; HOpen open_payload open_context;
   HTopUp {| tp_channel_id := opened_id; additional_amount := "5"; transaction := "tx" |}].
End ServerDemo.

Lemma snapshot_restores_witness :
  exists restored, apply_to (capture (ServerDemo.configured Client)) (ServerDemo.configured Operator) = Ok restored /\
    currency restored = ServerDemo.name "usd" /\ capture restored = capture (ServerDemo.configured Client).
Proof.
  eexists. split; [vm_compute; reflexivity|]. split; [vm_compute; reflexivity|].
  refine (snapshot_restores (ServerDemo.configured Client) (ServerDemo.configured Operator) _ _).
  vm_compute. reflexivity.
Defined.

Lemma bound_store_contract_witness :
  admitted (store_binding ServerDemo.cfg) (Some ServerDemo.operated) /\
  bound_call (store_binding ServerDemo.cfg) (CallDeposit "c" 12) (Some ServerDemo.operated) =
    (ReplyUnit (Ok tt), Some (with_deposit 12 ServerDemo.operated)).
Proof.
  split; [vm_compute; reflexivity|].
  refine (bound_store_contract (store_binding ServerDemo.cfg) (CallDeposit "c" 12) (Some ServerDemo.operated) _ _ _);
    [vm_compute; reflexivity|exact I|vm_compute; reflexivity].
Defined.
