(* ===== verification/MppCharges.v ===== *)
(** What the answers of a session server
    (src/rust/crates/kit/src/mpp/server/session.rs) say was paid, charged or
    credited on a channel, against what the channel's record says, whatever
    requests run at once. *)
From stdpp Require Import base numbers option list gmap strings pretty relations.
From S2P Require Import Prelude Effects Bytes Json Store Channel Authorization Voucher Session SessionPool Units.
From S2P Require Import Deployments MppBase MppBinding MppSession MppDelivery MppOpen MppPool MppDemo.
Open Scope Z_scope.

Section charges.
Context {Value Key SigningKey : Type} `{SerdeJson Value, !Serde Value (Binding Value), Verifier Key,
  !SessionCrypto Key SigningKey}.
Context `{!Serde Value (StoredOpenIntent Value), !Serde Value (ChannelState Value)}.
Abbreviation St := (ChannelState Value).
Abbreviation Config := (SessionServer Value SigningKey).
Abbreviation handler := (handler (Value := Value)).
Abbreviation reply := (reply (Value := Value)).
Implicit Types (s : St) (o : option St) (m : gmap string St) (cfg : Config).

(** * What is answered as paid was spent *)

(** The handlers' integers are unsigned. *)
Definition unsigned (h : handler) : Prop :=
  match h with
  | HVoucher _ amount _ _ => 0 <= amount
  | HCharge _ _ total _ => 0 <= total
  | _ => True
  end.

Lemma priced_commit_keeps cfg amount allow guard e :
  commit_keeps (priced_commit cfg amount allow guard e).
Proof. intros now s r s' (-> & _)%priced_commit_ok. done. Qed.

Lemma accept_priced_ok args cfg amount allow guard e now s s' flag :
  accept_locked args (priced_commit cfg amount allow guard e) now (Some s) = (Ok s', flag) ->
  spent_amount s' = spent_amount s + (if flag then 0 else amount) /\
  deposit s' = deposit s /\ processed_uses s' = processed_uses s /\
  processed_topup_signatures s' = processed_topup_signatures s.
Proof.
  intros Hl%accept_locked_some; [|apply priced_commit_keeps].
  destruct flag; destruct Hl as (s1 & (-> & _)%priced_commit_ok & -> & _); done.
Qed.

Lemma accept_none args (commit : Z -> St -> bool -> result unit StoreError * St) now s' out :
  accept_locked args commit now None <> (Ok s', out).
Proof. done. Qed.

Section paid.
Context (cfg : Config) (id : string).

(** What an answer says was paid on the channel. *)
Definition paid_on (h : handler) (r : reply) : Z :=
  match h, r with
  | HVoucher payload amount _ _, RVoucher r =>
      if bool_decide (vp_channel_id payload = id) then fresh_amount amount r else 0
  | HUse payload _ _, RUse (Ok u) =>
      if decide (up_channel_id payload = id) then if ua_replay u then 0 else amount cfg else 0
  | HCharge a _ _ _, RCharge (Ok c) => if bool_decide (au_channel_id a = id) then oc_charged c else 0
  | HCommit payload, RCommit (Ok receipt) =>
      if decide (vd_channel_id (sv_data (cp_voucher payload)) = id) then
        match cr_status receipt, parse_u64 (cr_amount receipt) with
        | Committed, Some amount => amount | _, _ => 0 end
      else 0
  | _, _ => 0
  end.

Definition spent_on m : Z := account id (lift_phi spent_amount) m.

Lemma parse_pretty_u64 z n : parse_u64 (pretty z) = Some n -> 0 <= z -> n = z.
Proof.
  unfold parse_u64. intros Hp Hz.
  assert (Hd : String.list_ascii_of_string (pretty z) = Units.print (Z.to_N z)) by (by destruct z).
  rewrite Hd in Hp. destruct (Units.print_digits (Z.to_N z)) as (Hdig & Hne & Hv).
  rewrite Units.parse_u128_digits in Hp by done. rewrite Hv in Hp.
  destruct (N.leb _ _); [|done]. case_decide; [|done]. injection Hp as <-. lia.
Qed.

(** Opening and retiring never give back what was spent. *)
Lemma spent_opens : open_pays (lift_J (fun _ => True)) (lift_phi (@spent_amount Value)) cfg.
Proof.
  apply pays_open; [by intros ?? (_ & _ & -> & _)|by intros; simpl|].
  intros intent a n now s s' _ _ (s0 & [= <-] & _ & _ & ->)%activate_locked_ok. simpl. lia.
Qed.

Lemma money_spent : money_decides (fun _ : St => True) spent_amount.
Proof. by intros s s' (_ & -> & _). Qed.

Lemma served_covered h :
  0 <= amount cfg -> unsigned h ->
  covered server_exec (on_record id (lift_J (fun _ => True))) spent_on paid_on h 0 (serve cfg h).
Proof.
  intros Hprice Hu.
  pose proof (pays_refresh _ _ cfg money_spent) as Href. pose proof (pays_seal _ _ cfg money_spent) as Hseal.
  pose proof (pays_mark _ _ cfg money_spent) as Hmark.
  destruct h; try (apply kept_covered; [done|done|done| |by intros []]; simpl; try done; intros;
    first [apply spent_opens|apply pays_bound; split; [done|]]).
  - unfold covered. apply owes_pbind.
    eapply owes_mono; [|apply owes_voucher with (counts := bool_decide (vp_channel_id payload = id)); [done|..]].
    + done.
    + by intros ?%bool_decide_eq_true.
    + intros _ args e _ _. apply pays_bound. split; [done|].
      intros now s s' flag _ (-> & _)%accept_priced_ok. simpl in Hu. case_bool_decide; destruct flag; lia.
  - unfold covered. apply owes_pbind. eapply owes_mono; [|apply owes_use
      with (w := fun r => paid_on (HUse payload challenge_id idempotency_key) (RUse r))]; [done|done|done|..].
    + intros Heq k signer auth. apply pays_bound. split; [done|]. intros now s s' out _ Hs.
      apply use_locked_ok in Hs as (_ & _ & [(entry & v & _ & -> & ->)|(v & sig & _ & -> & _ & ->)]); simpl.
      * case_decide; lia.
      * rewrite decide_True by done. lia.
    + intros Hne u. simpl. by rewrite decide_False.
  - unfold covered. apply owes_pbind. eapply owes_mono;
      [|apply owes_charge with (counts := bool_decide (au_channel_id a = id)); [done|..]].
    + intros b [c|e]; [done|]. simpl. done.
    + by intros ?%bool_decide_eq_true.
    + done.
    + intros Heq base before c sig Hlt. apply pays_bound. split; [done|]. intros now s s' out _ Hs.
      rewrite bool_decide_true by done.
      apply charge_locked_ok in Hs as (_ & _ & [(entry & -> & ->)|(-> & _ & _ & _ & ->)]); simpl; lia.
  - intros now s s' out _ Hs%topup_locked_ok. destruct out; [destruct Hs as [-> _]; lia|].
    destruct Hs as (_ & _ & _ & lc & ->). simpl. lia.
  - intros now s s' out _ (_ & _ & _ & q & i & _ & ->)%begin_locked_ok. simpl. lia.
  - intros now s s' out _ (i & d & _ & _ & _ & ->)%usage_locked_ok. simpl. lia.
  - unfold covered. apply owes_pbind. eapply owes_mono; [|apply owes_commit with (w := fun amount =>
      if decide (vd_channel_id (sv_data (cp_voucher payload)) = id) then amount else 0)].
    + intros b [receipt|e]; [|done]. simpl. case_decide; [done|].
      by destruct (cr_status receipt), (parse_u64 (cr_amount receipt)).
    + intros Heq sig c e now Hc. apply pays_bound. split; [done|]. intros clock s s' out _ Hs.
      apply commit_locked_ok in Hs as (_ & _ & [(-> & k & _ & ->)|(_ & -> & Hlt & Hrest)]); simpl; [lia|].
      destruct Hrest as (i & d & lc & act & comm & _ & _ & Hd & _ & _ & ->). simpl.
      destruct (parse_u64 _) as [n|] eqn:Hp; [|lia]. apply parse_pretty_u64 in Hp; [|lia].
      rewrite decide_True by done. lia.
    + intros Hne n. by rewrite decide_False.
  - intros clock s s' out _ (_ & _ & c & sig & e & live & pending & _ & Hl & ->)%close_locked_ok.
    simpl. destruct Hl as [[_ ->]|(_ & _ & ? & _)]; lia.
Qed.
End paid.

(** C3. Whatever requests run at once and whichever of their store calls fail,
    what their answers say was paid on a channel - fresh vouchers at their price,
    uses, metered charges, committed deliveries - is at most what the channel's
    record says was spent meanwhile: no payment answers two requests. *)
Theorem answers_paid cfg id hs m ps' m' :
  rtc (pool_step server_exec) (serve cfg <$> hs, m) (ps', m') ->
  0 <= amount cfg -> Forall unsigned hs ->
  zsum (zip_with (paid (paid_on cfg id)) hs ps') <= spent_on id m' - spent_on id m.
Proof.
  intros Hr Hprice Hu.
  eapply (pool_payments server_exec (on_record id (lift_J (fun _ => True))) (spent_on id)) in Hr as [_ Hle];
    [exact Hle|done|]. eapply Forall_impl; [exact Hu|]. intros h. by apply served_covered.
Qed.

(** * A request is charged up to its total, once *)
Section request.
Context (cfg : Config) (id key : string) (keys : list string) (most : Z).

(** What the channel's record says the request has been charged. *)
Definition recorded_total s : Z :=
  match find_use key s with Some entry => default 0 (pu_amount entry) | None => 0 end.
Definition recorded_on m : Z := account id (lift_phi recorded_total) m.

Definition use_keys s : list string := pu_idempotency_key <$> processed_uses s.

(** The requests the channel remembers are [keys], and fit its memory. *)
Definition remembered s : Prop :=
  NoDup (use_keys s) /\ use_keys s ⊆ keys /\ recorded_total s <= most.

Definition charged_on (h : handler) (r : reply) : Z :=
  match h, r with
  | HUse payload _ k, RUse (Ok u) =>
      if decide (up_channel_id payload = id /\ k = key) then if ua_replay u then 0 else amount cfg else 0
  | HCharge a _ _ _, RCharge (Ok c) =>
      if bool_decide (au_channel_id a = id /\ au_idempotency_key a = key) then oc_charged c else 0
  | _, _ => 0
  end.

(** The requests on the channel are among [keys], and those for [key] ask for at
    most [most]. *)
Definition within (h : handler) : Prop :=
  match h with
  | HUse payload _ k => up_channel_id payload = id -> k ∈ keys /\ (k = key -> amount cfg <= most)
  | HCharge a _ total _ => 0 <= total /\
      (au_channel_id a = id -> au_idempotency_key a ∈ keys /\
        (au_idempotency_key a = key -> total <= most))
  | _ => True
  end.

Lemma find_use_none k s : find_use k s = None <-> k ∉ use_keys s.
Proof.
  unfold find_use, use_keys. rewrite list_elem_of_fmap. split.
  - intros Hn (e & -> & He). apply list_elem_of_In, (List.find_none _ _ Hn), bool_decide_eq_false in He. done.
  - intros Hn. destruct (List.find _ _) as [e|] eqn:He; [|done]. apply List.find_some in He as [Hin He].
    apply bool_decide_eq_true in He. destruct Hn. exists e. split; [done|by apply list_elem_of_In].
Qed.

Lemma keys_filter (l : list ProcessedUse) k :
  pu_idempotency_key <$> filter (fun e => pu_idempotency_key e <> k) l =
  filter (fun k' => k' <> k) (pu_idempotency_key <$> l).
Proof.
  induction l as [|e l IH]; csimpl; [done|]. rewrite !filter_cons. by case_decide; csimpl; rewrite IH.
Qed.

Lemma find_use_app f (l1 l2 : list ProcessedUse) :
  List.find f (l1 ++ l2) = match List.find f l1 with Some e => Some e | None => List.find f l2 end.
Proof. induction l1 as [|e l IH]; simpl; [done|]. by destruct (f e). Qed.

Lemma find_filter_other (l : list ProcessedUse) k k' :
  k <> k' ->
  List.find (fun e => bool_decide (pu_idempotency_key e = k))
    (filter (fun e => pu_idempotency_key e <> k') l) =
  List.find (fun e => bool_decide (pu_idempotency_key e = k)) l.
Proof.
  intros Hne. induction l as [|e l IH]; simpl; [done|]. rewrite filter_cons. case_decide as Hd; simpl.
  - by rewrite IH.
  - rewrite IH. rewrite bool_decide_false; [done|]. congruence.
Qed.

Lemma find_filter_same (l : list ProcessedUse) k :
  List.find (fun e => bool_decide (pu_idempotency_key e = k))
    (filter (fun e => pu_idempotency_key e <> k) l) = None.
Proof.
  induction l as [|e l IH]; simpl; [done|]. rewrite filter_cons. case_decide; simpl; [|done].
  by rewrite bool_decide_false.
Qed.

Context (keys_fit : (length keys <= MAX_PROCESSED_USES)%nat).

(** Recording a request among [keys] forgets no other. *)
Lemma charge_state_remembered s cumul spent signature now entry :
  remembered s -> pu_idempotency_key entry ∈ keys ->
  (pu_idempotency_key entry = key -> default 0 (pu_amount entry) <= most) ->
  let s' := charge_state cfg cumul spent signature now entry s in
  remembered s' /\
  recorded_total s' = (if decide (pu_idempotency_key entry = key)
                       then default 0 (pu_amount entry) else recorded_total s).
Proof.
  intros (Hnd & Hsub & HB) Hk Hb s'.
  assert (Hs' : processed_uses s' = record_use (processed_uses s) entry) by done. clearbody s'.
  set (l := filter (fun e => pu_idempotency_key e <> pu_idempotency_key entry) (processed_uses s) ++ [entry]).
  assert (Hkeys : pu_idempotency_key <$> l =
    filter (fun k => k <> pu_idempotency_key entry) (use_keys s) ++ [pu_idempotency_key entry]).
  { unfold l. rewrite fmap_app, keys_filter. done. }
  assert (Hnd' : NoDup (pu_idempotency_key <$> l)).
  { rewrite Hkeys. apply NoDup_app. split_and!; [by apply NoDup_filter| |apply NoDup_singleton].
    intros k [Hne _]%list_elem_of_filter ->%list_elem_of_singleton. done. }
  assert (Hsub' : pu_idempotency_key <$> l ⊆ keys).
  { rewrite Hkeys. intros k [[_ Hin]%list_elem_of_filter| ->%list_elem_of_singleton]%elem_of_app; auto. }
  assert (Hrec : record_use (processed_uses s) entry = l).
  { unfold record_use. fold l. enough (length l <= MAX_PROCESSED_USES)%nat as Hle.
    { by replace (length l - MAX_PROCESSED_USES)%nat with 0%nat by lia. }
    pose proof (submseteq_length _ _ (NoDup_submseteq _ _ Hnd' Hsub')) as Hlen.
    rewrite length_fmap in Hlen. lia. }
  assert (Htot : recorded_total s' = (if decide (pu_idempotency_key entry = key)
    then default 0 (pu_amount entry) else recorded_total s)).
  { unfold recorded_total, find_use. rewrite Hs', Hrec. unfold l. rewrite find_use_app. simpl.
    case_decide as Hd.
    - rewrite <-Hd, find_filter_same. by rewrite bool_decide_true.
    - rewrite find_filter_other by done.
      rewrite (bool_decide_false (pu_idempotency_key entry = key)) by done.
      by destruct (List.find _ _). }
  unfold remembered, use_keys. rewrite Htot, Hs', Hrec. split; [|done].
  split; [done|]. split; [done|]. case_decide; [by apply Hb|done].
Qed.

Lemma recorded_before s (a : AuthenticatedUse) recorded :
  recorded_use s a = Ok recorded -> au_idempotency_key a = key -> recorded_total s = charged_total recorded.
Proof.
  unfold recorded_use, recorded_total. intros Hr <-. destruct (find_use _ s) as [e|]; [|by injection Hr as <-].
  destruct (pu_amount e) as [t|]; [|done]. case_decide; [|done]. by injection Hr as <-.
Qed.

Lemma uses_kept s s' :
  processed_uses s' = processed_uses s ->
  remembered s -> remembered s' /\ recorded_total s <= recorded_total s' /\ 0 <= recorded_total s' - recorded_total s.
Proof.
  intros Heq. unfold remembered, recorded_total, find_use, use_keys. rewrite Heq. intros HJ. split; [done|lia].
Qed.

Lemma money_uses : money_decides remembered recorded_total.
Proof.
  intros s s' (_ & _ & _ & Hu & _) _. unfold remembered, recorded_total, find_use, use_keys. by rewrite Hu.
Qed.

Lemma uses_opens : 0 <= most -> open_pays (lift_J remembered) (lift_phi recorded_total) cfg.
Proof.
  intros Hm. apply pays_open.
  - intros intent s (_ & _ & _ & Hu & _). unfold remembered, use_keys, recorded_total, find_use. rewrite Hu. simpl.
    split_and!; [by apply NoDup_nil_2|set_solver|done..].
  - intros mark s HJ. by destruct (uses_kept s (retired mark s) eq_refl HJ) as (? & ? & _).
  - intros intent a n now s s' _ HJ (s0 & [= <-] & _ & _ & ->)%activate_locked_ok. cbn zeta.
    edestruct (uses_kept s) as (HJ' & Hle & _); [|exact HJ|split; [exact HJ'|exact Hle]].
    by destruct (open_pending s).
Qed.

Lemma request_covered h :
  0 <= amount cfg -> 0 <= most -> within h ->
  covered server_exec (on_record id (lift_J remembered)) recorded_on charged_on h 0 (serve cfg h).
Proof.
  intros Hprice Hmost Hw.
  pose proof (pays_refresh _ _ cfg money_uses) as Href. pose proof (pays_seal _ _ cfg money_uses) as Hseal.
  pose proof (pays_mark _ _ cfg money_uses) as Hmark.
  destruct h; try (apply kept_covered; [done|done|done| |by intros []]; simpl; try done; intros;
    first [by apply uses_opens|apply pays_bound; split; [done|]]).
  - intros now s s' flag HJ (_ & _ & Hu & _)%accept_priced_ok. by apply uses_kept.
  - unfold covered. apply owes_pbind. eapply owes_mono; [|apply owes_use
      with (w := fun r => charged_on (HUse payload challenge_id idempotency_key) (RUse r))]; [done|done|done|..].
    + intros Heq k signer auth. apply pays_bound. split; [done|]. intros now s s' out HJ Hs.
      destruct (Hw Heq) as [Hin Hb].
      apply use_locked_ok in Hs as (_ & _ & [(entry & v & _ & -> & ->)|(v & sig & Hnone & -> & _ & ->)]).
      * split; [done|]. split; [lia|]. simpl. case_decide; lia.
      * destruct (charge_state_remembered s (cumulative s + amount cfg) (spent_amount s + amount cfg) sig
          now {| pu_challenge_id := challenge_id; pu_idempotency_key := idempotency_key;
                 pu_cumulative := cumulative s + amount cfg; pu_voucher_signature := sig;
                 pu_amount := Some (amount cfg) |}) as [HJ' Htot]; [done|done|done|].
        split; [exact HJ'|]. rewrite Htot. simpl.
        destruct (decide (idempotency_key = key)) as [Hk|Hk]; [rewrite Hk in Hnone|].
        -- unfold recorded_total. rewrite Hnone. rewrite decide_True by done. lia.
        -- rewrite decide_False by tauto. lia.
    + intros Hne u. simpl. rewrite decide_False by tauto. done.
  - simpl in Hw. destruct Hw as [Hpos Hw].
    unfold covered. apply owes_pbind. eapply owes_mono; [|apply owes_charge
      with (counts := bool_decide (au_channel_id a = id /\ au_idempotency_key a = key)); [done|..]].
    + intros b [c|e]; done.
    + by intros [? _]%bool_decide_eq_true.
    + done.
    + intros Heq base before c sig Hlt. apply pays_bound. split; [done|]. intros now s s' out HJ Hs.
      destruct (Hw Heq) as [Hin Hb].
      apply charge_locked_ok in Hs as (_ & _ & [(entry & -> & ->)|(-> & _ & _ & (rec & Hr & Hbefore) & ->)]).
      * split; [done|lia].
      * destruct (charge_state_remembered s c (spent_amount s + (request_total - before)) sig
          now {| pu_challenge_id := au_challenge_id a; pu_idempotency_key := au_idempotency_key a;
                 pu_cumulative := c; pu_voucher_signature := sig;
                 pu_amount := Some request_total |}) as [HJ' Htot]; [done|done|done|].
        split; [exact HJ'|]. rewrite Htot. simpl.
        destruct (decide (au_idempotency_key a = key)) as [Hk|Hk].
        -- rewrite (recorded_before _ _ _ Hr Hk), Hbefore. rewrite bool_decide_true by done. lia.
        -- rewrite bool_decide_false by tauto. lia.
  - intros now s s' out HJ Hs%topup_locked_ok. apply uses_kept; [|done].
    destruct out; [by destruct Hs as [-> _]|]. by destruct Hs as (_ & _ & _ & lc & ->).
  - intros now s s' out HJ (_ & _ & _ & q & i & _ & ->)%begin_locked_ok. by apply uses_kept.
  - intros now s s' out HJ (i & d & _ & _ & _ & ->)%usage_locked_ok. by apply uses_kept.
  - intros clock s s' out HJ Hs. apply uses_kept; [|done].
    by apply commit_locked_ok in Hs as (_ & _ & [(-> & _)|(_ & _ & _ & i & d & lc & act & comm & _ & _ & _ & _ & _ & ->)]).
  - intros clock s s' out HJ (_ & _ & c & sig & e & live & pending & _ & _ & ->)%close_locked_ok.
    by apply uses_kept.
Qed.
End request.

(** C4. A request is charged up to its total, once: however its retries, the other
    requests of the channel and the failing store calls interleave, everything
    the answers say was charged for it adds up to at most the rise of its record,
    so to at most the largest total asked for it - as long as the requests of the
    channel fit the 256 it remembers. *)
Theorem request_charged_once cfg id key keys most hs m ps' m' :
  rtc (pool_step server_exec) (serve cfg <$> hs, m) (ps', m') ->
  (length keys <= MAX_PROCESSED_USES)%nat -> 0 <= amount cfg ->
  Forall (within cfg id key keys most) hs ->
  (forall s, m !! id = Some s -> remembered key keys most s) -> 0 <= most ->
  zsum (zip_with (paid (charged_on cfg id key)) hs ps') <= recorded_on id key m' - recorded_on id key m /\
  recorded_on id key m' <= most.
Proof.
  intros Hr Hfit Hprice Hw Hm Hb.
  eapply (pool_payments server_exec (on_record id (lift_J (remembered key keys most))) (recorded_on id key))
    in Hr as [HJ Hle]; [|exact Hm|].
  - split; [exact Hle|]. unfold recorded_on, account, lift_phi. destruct (m' !! id) as [s|] eqn:Hs; [|done].
    by apply HJ in Hs as (_ & _ & ?).
  - eapply Forall_impl; [exact Hw|]. intros h. by apply request_covered.
Qed.

(** * A top-up is credited once *)
Section topup.
Context (cfg : Config) (id signature : string).

Definition credited s : Z := if decide (signature ∈ processed_topup_signatures s) then 1 else 0.

(** The answer credits the transaction to the channel. *)
Definition credits (h : handler) (r : reply) : Z :=
  match h, r with
  | HTopUp payload, RTopUp (Ok t) =>
      if decide (tp_channel_id payload = id /\ transaction_signature t = signature)
      then if ta_replay t then 0 else 1 else 0
  | _, _ => 0
  end.

Lemma credits_nonneg h r : 0 <= credits h r.
Proof. unfold credits. repeat case_match; lia. Qed.

Lemma credited_range s : 0 <= credited s <= 1.
Proof. unfold credited. case_decide; lia. Qed.

Lemma credited_kept s s' :
  processed_topup_signatures s' = processed_topup_signatures s ->
  True /\ credited s <= credited s' /\ 0 <= credited s' - credited s.
Proof. intros Heq. unfold credited. rewrite Heq. lia. Qed.

Lemma money_credited : money_decides (fun _ : St => True) credited.
Proof. intros s s' (_ & _ & _ & _ & Ht & _) _ _. unfold credited. by rewrite Ht. Qed.

Lemma credited_opens : open_pays (lift_J (fun _ : St => True)) (lift_phi credited) cfg.
Proof.
  apply pays_open; [intros; split; [done|apply credited_range]|done|].
  intros intent a n now s s' _ _ (s0 & [= <-] & _ & _ & ->)%activate_locked_ok. split; [done|].
  apply credited_kept. simpl. by destruct (open_pending s).
Qed.

Lemma topup_covered h :
  unsigned h ->
  covered server_exec (on_record id (lift_J (fun _ => True))) (account id (lift_phi credited)) credits h 0
    (serve cfg h).
Proof.
  intros Hu.
  pose proof (pays_refresh _ _ cfg money_credited) as Href. pose proof (pays_seal _ _ cfg money_credited) as Hseal.
  pose proof (pays_mark _ _ cfg money_credited) as Hmark.
  destruct h; try (apply kept_covered; [done|done|done| |by intros []]; simpl; try done;
    try (split; [exact Hu|]); intros;
    first [apply credited_opens|apply pays_bound; split; [done|]; intros ? s s' out _ Hc; apply credited_kept]).
  - by apply accept_priced_ok in Hc as (_ & _ & _ & Ht).
  - by apply use_locked_ok in Hc as (_ & _ & [(? & ? & _ & -> & _)|(? & ? & _ & _ & _ & ->)]).
  - by apply charge_locked_ok in Hc as (_ & _ & [(? & -> & _)|(_ & _ & _ & _ & ->)]).
  - unfold covered. apply owes_pbind. eapply owes_mono; [|apply owes_topup
      with (w := fun r => credits (HTopUp payload) (RTopUp r))]; [done|done|..].
    + intros Heq sig n _. apply pays_bound. split; [done|]. intros now s s' out _ Hs%topup_locked_ok. simpl.
      destruct out; [destruct Hs as [-> _]; split; [done|case_decide; lia]|].
      destruct Hs as (Hnew & _ & _ & lc & ->). unfold credited. cbn [processed_topup_signatures
        with_processed_topup_signatures]. split; [done|].
      destruct (decide (tp_channel_id payload = id /\ sig = signature)) as [[_ Hsig]|Hne].
      * rewrite Hsig in *. rewrite decide_False by done. rewrite decide_True by set_solver. lia.
      * destruct (decide (signature ∈ processed_topup_signatures s)); [|case_decide; lia].
        rewrite decide_True by set_solver. lia.
    + intros Hne t. simpl. rewrite decide_False by tauto. done.
  - by apply begin_locked_ok in Hc as (_ & _ & _ & q & i & _ & ->).
  - by apply usage_locked_ok in Hc as (i & d & _ & _ & _ & ->).
  - by apply commit_locked_ok in Hc as (_ & _ & [(-> & _)|(_ & _ & _ & i & d & lc & act & comm & _ & _ & _ & _ & _ & ->)]).
  - by apply close_locked_ok in Hc as (_ & _ & c & sig & e & live & pending & _ & _ & ->).
Qed.
End topup.

(** C17. A top-up transaction is credited to a channel at most once, however many
    submissions of it are confirmed at the same time. *)
Theorem topup_credited_once cfg hs m ps' m' i j p q t u :
  rtc (pool_step server_exec) (serve cfg <$> hs, m) (ps', m') -> Forall unsigned hs ->
  hs !! i = Some (HTopUp p) -> ps' !! i = Some (Ret (RTopUp (Ok t))) -> ta_replay t = false ->
  hs !! j = Some (HTopUp q) -> ps' !! j = Some (Ret (RTopUp (Ok u))) -> ta_replay u = false ->
  tp_channel_id p = tp_channel_id q -> transaction_signature t = transaction_signature u -> i = j.
Proof.
  intros Hr Hu Hi Hpi Ht Hj Hpj Hu' Hch Hsig. destruct (decide (i = j)) as [|Hne]; [done|].
  set (id := tp_channel_id q) in *. set (sig := transaction_signature u) in *.
  eapply (pool_payments server_exec (on_record id (lift_J (fun _ => True))) (account id (lift_phi (credited sig)))
    (serve cfg) (credits id sig)) in Hr as [_ Hle]; [|done|].
  2:{ eapply Forall_impl; [exact Hu|]. intros h. by apply topup_covered. }
  pose proof (paid_two (credits id sig) hs ps' i j _ _ _ _ (credits_nonneg id sig) Hne Hi Hj Hpi Hpj) as Htwo.
  simpl in Htwo. rewrite !decide_True, Ht, Hu' in Htwo by done.
  assert (Hrange : forall m0, 0 <= account id (lift_phi (credited sig)) m0 <= 1).
  { intros m0. unfold account, lift_phi. destruct (m0 !! id); [apply credited_range|lia]. }
  pose proof (Hrange m). pose proof (Hrange m'). lia.
Qed.
End charges.

Lemma answers_paid_witness :
  let paid_out := zsum (zip_with (paid (paid_on ServerDemo.cfg "c")) ServerDemo.charges
    (ServerDemo.final ServerDemo.charges).1) in
  paid_out = 5 /\
  paid_out <= spent_on "c" (ServerDemo.final ServerDemo.charges).2 - spent_on "c" ServerDemo.m.
Proof.
  intros paid_out. split; [vm_compute; reflexivity|].
  refine (answers_paid ServerDemo.cfg "c" ServerDemo.charges ServerDemo.m _ _
    (ServerDemo.demo_steps ServerDemo.charges) _ _); [vm_compute; discriminate|].
  repeat (apply Forall_cons; split; [vm_compute; discriminate|]). apply Forall_nil_2.
Defined.

Lemma request_charged_once_witness :
  zsum (zip_with (paid (charged_on ServerDemo.cfg "c" "k")) ServerDemo.charges
    (ServerDemo.final ServerDemo.charges).1) <=
    recorded_on "c" "k" (ServerDemo.final ServerDemo.charges).2 - recorded_on "c" "k" ServerDemo.m /\
  recorded_on "c" "k" (ServerDemo.final ServerDemo.charges).2 <= 5.
Proof.
  refine (request_charged_once ServerDemo.cfg "c" "k" ["k"] 5 ServerDemo.charges ServerDemo.m _ _
    (ServerDemo.demo_steps ServerDemo.charges) _ _ _ _ _); [vm_compute; lia|vm_compute; discriminate|..|lia].
  - repeat (apply Forall_cons; split; [split; [vm_compute; discriminate|]; intros _;
      split; [left|intros _; vm_compute; discriminate]|]).
    apply Forall_nil_2.
  - intros s [= <-]. split; [apply NoDup_nil_2|]. split; [set_solver|vm_compute; discriminate].
Defined.

Lemma topup_credited_once_witness :
  exists t, (ServerDemo.final ServerDemo.topups).1 !! 0%nat = Some (Ret (RTopUp (Ok t))) /\
    ta_replay t = false /\ 0%nat = 0%nat.
Proof.
  eexists. split; [vm_compute; reflexivity|]. split; [reflexivity|].
  refine (topup_credited_once ServerDemo.cfg ServerDemo.topups ServerDemo.m
    (ServerDemo.final ServerDemo.topups).1 (ServerDemo.final ServerDemo.topups).2 0 0
    ServerDemo.topup ServerDemo.topup _ _
    (ServerDemo.demo_steps ServerDemo.topups) _ eq_refl _ _ eq_refl _ _ eq_refl eq_refl);
    try (vm_compute; reflexivity).
  repeat (apply Forall_cons; split; [exact I|]). apply Forall_nil_2.
Defined.
