(* ===== verification/MppReserve.v ===== *)
(** The deliveries a channel has reserved
    (src/rust/crates/kit/src/mpp/server/session.rs): whatever requests run at
    once, what was reserved can still be committed. *)
From stdpp Require Import base numbers option list gmap strings pretty relations.
From S2P Require Import Prelude Effects Bytes Json Store Channel Authorization Voucher Session.
From S2P Require Import Deployments MppBase MppBinding MppSession MppDelivery MppOpen MppPool MppDemo.
Open Scope Z_scope.

Section reserves.
Context {Value Key SigningKey : Type} `{SerdeJson Value, !Serde Value (Binding Value), Verifier Key,
  !SessionCrypto Key SigningKey}.
Context `{!Serde Value (StoredOpenIntent Value), !Serde Value (ChannelState Value)}.
Abbreviation St := (ChannelState Value).
Abbreviation Config := (SessionServer Value SigningKey).
Abbreviation handler := (handler (Value := Value)).
Abbreviation reply := (reply (Value := Value)).
Implicit Types (s : St) (o : option St) (m : gmap string St) (cfg : Config).

Section reservations.
Context (cfg : Config) (id : string).

(** The reservations of an open channel fit its deposit, each under an id of its
    own that has not been committed. *)
Definition reserved_ok s : Prop :=
  Forall (fun d => 0 <= pd_amount d) (pending_deliveries s) /\
  NoDup (pd_delivery_id <$> pending_deliveries s) /\
  (forall d, d ∈ pending_deliveries s -> find_committed (pd_delivery_id d) s = None) /\
  (closed s = false -> cumulative s + reserved_total s <= deposit s).

(** Handlers that leave unreserved credit alone: no voucher, use or metered
    charge on the channel spends past its reservations, and no open of it adopts a
    settlement of the chain. *)
Definition reserving (h : handler) : Prop :=
  match h with
  | HOpen payload _ => op_channel_id payload <> id
  | HResume channel => channel <> id
  | HVoucher payload _ _ _ => vp_channel_id payload <> id
  | HUse payload _ _ => up_channel_id payload <> id
  | HCharge a _ total _ => 0 <= total /\ au_channel_id a <> id
  | HBegin request => 0 <= dr_amount request
  | HUsage _ _ amount => 0 <= amount
  | _ => True
  end.

(** Handlers that neither commit a delivery nor report its usage. *)
Definition untouched (d : PendingDelivery) (h : handler) : Prop :=
  match h with
  | HUsage channel delivery_id _ => channel = id -> delivery_id <> pd_delivery_id d
  | HCommit payload =>
      vd_channel_id (sv_data (cp_voucher payload)) = id -> cp_delivery_id payload <> pd_delivery_id d
  | _ => True
  end.

(** The reservations [want] of an open channel are all there, as they were made. *)
Definition holding (want : list PendingDelivery) s : Prop :=
  reserved_ok s /\ (closed s = false -> forall d, d ∈ want -> d ∈ pending_deliveries s).

Lemma find_committed_none k s :
  find_committed k s = None <-> Forall (fun c => cd_delivery_id c <> k) (committed_deliveries s).
Proof.
  unfold find_committed. rewrite Forall_forall. split.
  - intros Hn c Hc. apply list_elem_of_In in Hc. apply (List.find_none _ _ Hn) in Hc.
    by apply bool_decide_eq_false in Hc.
  - intros Hall. destruct (List.find _ _) as [c|] eqn:Hf; [|done]. apply List.find_some in Hf as [Hin Hk].
    apply bool_decide_eq_true in Hk. apply list_elem_of_In in Hin. by destruct (Hall c Hin).
Qed.

Lemma zsum_amounts_delete (l : list PendingDelivery) i d :
  l !! i = Some d -> zsum (pd_amount <$> delete i l) = zsum (pd_amount <$> l) - pd_amount d.
Proof.
  revert i. induction l as [|x l IH]; intros [|i] Hi; simplify_eq/=; [lia|]. rewrite (IH i) by done. lia.
Qed.

Lemma zsum_amounts_alter (l : list PendingDelivery) i d f :
  l !! i = Some d ->
  zsum (pd_amount <$> alter f i l) = zsum (pd_amount <$> l) - pd_amount d + pd_amount (f d).
Proof.
  revert i. induction l as [|x l IH]; intros [|i] Hi; simplify_eq/=; [lia|].
  specialize (IH _ Hi). csimpl in *. lia.
Qed.

(** A record with fewer reservations. *)
Lemma reserved_sublist s s' :
  reserved_ok s -> pending_deliveries s' `sublist_of` pending_deliveries s ->
  committed_deliveries s' = committed_deliveries s ->
  (closed s' = false -> closed s = false /\
    cumulative s' + reserved_total s' - deposit s' <= cumulative s + reserved_total s - deposit s) ->
  reserved_ok s'.
Proof.
  intros (Hpos & Hnd & Hfresh & Hfit) Hsub Hcomm Hcl. split_and!.
  - apply Forall_forall. intros d Hd. rewrite Forall_forall in Hpos. apply Hpos. by eapply elem_of_sublist.
  - eapply sublist_NoDup; [exact Hnd|by apply fmap_sublist].
  - intros d Hd. unfold find_committed. rewrite Hcomm. apply Hfresh. by eapply elem_of_sublist.
  - intros Hc. destruct (Hcl Hc) as [Hc' Hle]. specialize (Hfit Hc'). lia.
Qed.

Lemma reserved_same s s' : same_money s s' -> fenced s s' -> reserved_ok s -> reserved_ok s' /\ 0 = 0.
Proof.
  intros (Hc & _ & Hd & _ & _ & Hp & Hk & _) [Hf1 Hf2] Hok. split; [|done].
  apply (reserved_sublist s); [done|by rewrite Hp|done|]. unfold reserved_total. rewrite Hc, Hd, Hp.
  rewrite !closed_false. intros [Hs Hr]. split; [|lia]. split.
  - destruct (sealed s); [|done]. by rewrite Hf1 in Hs.
  - destruct (close_requested_at s); [|done]. destruct Hf2; [eauto|congruence].
Qed.

Lemma reserved_begin request currency e now s s' out :
  0 <= dr_amount request -> reserved_ok s ->
  begin_locked cfg request currency e now (Some s) = (Ok s', out) -> reserved_ok s'.
Proof.
  intros Hpos (Ha & Hnd & Hfresh & _) (Hs & Hc & Hfit & q & k & Hk & ->)%begin_locked_ok.
  unfold has_delivery in Hk. apply orb_false_iff in Hk as [Hk1 Hk2].
  assert (Hp1 : k ∉ pd_delivery_id <$> pending_deliveries s).
  { intros (d & -> & Hd)%list_elem_of_fmap. apply list_elem_of_In in Hd.
    apply not_true_iff_false in Hk1. apply Hk1. apply existsb_exists. exists d.
    split; [done|by apply bool_decide_eq_true]. }
  assert (Hp2 : find_committed k s = None).
  { apply find_committed_none, Forall_forall. intros c Hc' Heq. apply list_elem_of_In in Hc'.
    apply not_true_iff_false in Hk2. apply Hk2. apply existsb_exists. exists c.
    split; [done|by apply bool_decide_eq_true]. }
  unfold reserved_ok. cbn [pending_deliveries with_pending_deliveries]. split_and!.
  - apply Forall_app_2; [done|]. by apply Forall_singleton.
  - rewrite fmap_app. apply NoDup_app. split_and!; [done| |apply NoDup_singleton].
    intros x Hx ->%list_elem_of_singleton. done.
  - intros d [Hd|Hd]%elem_of_app; [by apply Hfresh|]. apply list_elem_of_singleton in Hd as ->. exact Hp2.
  - intros _. unfold reserved_total in *. cbn. rewrite fmap_app, zsum_app. simpl. lia.
Qed.

Lemma reserved_usage delivery_id amount now s s' out :
  0 <= amount -> reserved_ok s ->
  usage_locked delivery_id amount now (Some s) = (Ok s', out) -> reserved_ok s'.
Proof.
  intros Hpos Hok (i & d & Hd & Hid & Hle & ->)%usage_locked_ok. case_decide.
  - apply (reserved_sublist s); [done|cbn; rewrite vec_remove_delete; apply sublist_delete|done|].
    intros Hc. split; [done|]. unfold reserved_total. cbn. rewrite vec_remove_delete, (zsum_amounts_delete _ _ d) by done. lia.
  - destruct Hok as (Ha & Hnd & Hfresh & Hfit).
    assert (Hids : pd_delivery_id <$> alter (with_amount amount) i (pending_deliveries s) =
      pd_delivery_id <$> pending_deliveries s).
    { rewrite (list_fmap_alter _ _ (fun x => x)) by (by apply Forall_true). by rewrite list_alter_id. }
    unfold reserved_ok. cbn [pending_deliveries with_pending_deliveries]. split_and!.
    + apply Forall_alter; [done|]. intros; done.
    + by rewrite Hids.
    + intros x Hx. assert (Hin : pd_delivery_id x ∈ pd_delivery_id <$> pending_deliveries s)
        by (rewrite <-Hids; by apply list_elem_of_fmap_2).
      apply list_elem_of_fmap in Hin as (y & -> & Hy). by apply Hfresh.
    + intros Hc. specialize (Hfit Hc). unfold reserved_total in *. cbn.
      rewrite (zsum_amounts_alter _ _ d) by done. simpl. lia.
Qed.

Lemma keep_latest_elem (l : list (CommittedDelivery Value)) c : c ∈ keep_latest l -> c ∈ l.
Proof. unfold keep_latest. intros Hc. rewrite <-(take_drop (length l - MAX_COMMITTED_AUTHORIZATIONS) l). set_solver. Qed.

Lemma delete_elem_other {A B} (f : A -> B) (l : list A) i d x :
  NoDup (f <$> l) -> l !! i = Some d -> x ∈ delete i l -> f x <> f d.
Proof.
  revert i. induction l as [|y l IH]; intros [|i] Hnd Hi Hx; simplify_eq/=;
    apply NoDup_cons in Hnd as [Hn Hnd].
  - intros Heq. apply Hn. rewrite <-Heq. by apply list_elem_of_fmap_2.
  - apply elem_of_cons in Hx as [->|Hx]; [|by eapply IH]. intros Heq. apply Hn. rewrite Heq.
    apply list_elem_of_fmap_2. by eapply list_elem_of_lookup_2.
Qed.

Lemma reserved_commit channel delivery_id signature c e now clock s s' out :
  reserved_ok s ->
  commit_locked cfg channel delivery_id signature c e now clock (Some s) = (Ok s', out) -> reserved_ok s'.
Proof.
  intros (Hpos & Hnd & Hfresh & Hfit) Hs.
  apply commit_locked_ok in Hs as (_ & _ & [(-> & _)|(_ & _ & Hlt & i & d & lc & act & r & Hd & <- & Ha & _ & Hr & ->)]);
    [done|].
  assert (Hin : forall x, x ∈ delete i (pending_deliveries s) -> x ∈ pending_deliveries s).
  { intros x Hx. eapply elem_of_sublist; [exact Hx|apply sublist_delete]. }
  unfold reserved_ok, reserved_total. cbn -[vec_remove find_committed].
  rewrite vec_remove_delete, (zsum_amounts_delete _ _ d) by done. split_and!.
  - rewrite Forall_forall in *. auto.
  - eapply sublist_NoDup; [exact Hnd|]. apply fmap_sublist, sublist_delete.
  - intros x Hx. apply find_committed_none, Forall_forall. cbn.
    intros k [Hk| ->%list_elem_of_singleton]%keep_latest_elem%elem_of_app.
    + pose proof (Hfresh x (Hin _ Hx)) as Hf. rewrite find_committed_none, Forall_forall in Hf. by apply Hf.
    + rewrite Hr. apply not_eq_sym. by eapply delete_elem_other.
  - intros Hc. specialize (Hfit Hc). unfold reserved_total in *. lia.
Qed.

Lemma reserved_topup channel signature additional now s s' out :
  0 <= additional -> reserved_ok s ->
  topup_locked cfg channel signature additional now (Some s) = (Ok s', out) -> reserved_ok s'.
Proof.
  intros Hpos Hok Hs%topup_locked_ok. destruct out; [by destruct Hs as [-> _]|].
  destruct Hs as (_ & Hsealed & Hreq & lc & ->). apply (reserved_sublist s); [done..|].
  unfold reserved_total. cbn -[zsum]. intros _.
  split; [by apply closed_false|lia].
Qed.

(** A closing channel keeps its reservations only until they are owed. *)
Lemma reserved_close payload now clock s s' out :
  reserved_ok s -> close_locked cfg payload now clock (Some s) = (Ok s', out) -> reserved_ok s'.
Proof.
  intros Hok (_ & _ & c & sig & e & live & pending & _ & Hp & ->)%close_locked_ok.
  apply (reserved_sublist s); [done| |done|by intros [_ ?]%closed_false]. cbn.
  destruct Hp as [[-> _]|[-> _]]; [done|]. apply sublist_filter.
Qed.

(** ** The reservations that stay *)
Context (want : list PendingDelivery).

(** A step of an open channel that keeps the reservations in [want]. *)
Lemma holding_step s s' :
  holding want s -> reserved_ok s' -> (closed s' = false -> closed s = false) ->
  (closed s' = false -> forall d, d ∈ want -> d ∈ pending_deliveries s -> d ∈ pending_deliveries s') ->
  holding want s'.
Proof. intros [_ Hin] Hok Hc Hkeep. split; [done|]. intros Hopen d Hd. by apply Hkeep, Hin; auto. Qed.

Lemma delete_keeps {A B} (f : A -> B) (l : list A) i d x :
  l !! i = Some d -> x ∈ l -> f x <> f d -> x ∈ delete i l.
Proof.
  intros Hi [j Hj]%list_elem_of_lookup Hne. apply list_elem_of_lookup.
  destruct (Nat.lt_trichotomy j i) as [Hlt|[->|Hlt]]; [|by simplify_eq|].
  - exists j. by rewrite list_lookup_delete_lt.
  - exists (pred j). rewrite list_lookup_delete_ge by lia. by replace (S (pred j)) with j by lia.
Qed.

Lemma alter_keeps {A B} (f : A -> B) (l : list A) i d x g :
  l !! i = Some d -> x ∈ l -> f x <> f d -> x ∈ alter g i l.
Proof.
  intros Hi [j Hj]%list_elem_of_lookup Hne. apply list_elem_of_lookup. exists j.
  rewrite list_lookup_alter_ne; [done|]. intros ->. simplify_eq.
Qed.

Lemma holding_money s s' : same_money s s' -> fenced s s' -> holding want s -> holding want s' /\ 0 = 0.
Proof.
  intros Hm Hf Hh. split; [|done]. eapply holding_step; [exact Hh|by eapply reserved_same, Hh| |].
  - destruct Hf as [Hf1 Hf2]. rewrite !closed_false. intros [Hs Hr]. split.
    + destruct (sealed s); [|done]. by rewrite Hf1 in Hs.
    + destruct (close_requested_at s); [|done]. destruct Hf2; [eauto|congruence].
  - destruct Hm as (_ & _ & _ & _ & _ & -> & _). done.
Qed.

Lemma money_reserved : money_decides (holding want) (fun _ => 0).
Proof. intros s s' Hm Hf. by apply holding_money. Qed.

Lemma holding_begin request currency e now s s' out :
  0 <= dr_amount request -> holding want s ->
  begin_locked cfg request currency e now (Some s) = (Ok s', out) -> holding want s'.
Proof.
  intros Hpos Hh Hb. eapply holding_step; [exact Hh|by eapply reserved_begin, Hb; [|apply Hh]|..];
    apply begin_locked_ok in Hb as (Hs & Hc & _ & q & k & _ & ->).
  - intros _. apply closed_false. by rewrite Hs, Hc.
  - intros _ d _ Hd. cbn. apply elem_of_app. by left.
Qed.

Lemma holding_usage delivery_id amount now s s' out :
  0 <= amount -> (forall d, d ∈ want -> delivery_id <> pd_delivery_id d) -> holding want s ->
  usage_locked delivery_id amount now (Some s) = (Ok s', out) -> holding want s'.
Proof.
  intros Hpos Hne Hh Hu. eapply holding_step; [exact Hh|by eapply reserved_usage, Hu; [|apply Hh]|..];
    apply usage_locked_ok in Hu as (i & d & Hd & <- & _ & ->); [done|].
  intros _ x Hx Hin. cbn. specialize (Hne x Hx). case_decide.
  - rewrite vec_remove_delete. eapply (delete_keeps pd_delivery_id); [exact Hd|done|auto].
  - eapply (alter_keeps pd_delivery_id); [exact Hd|done|auto].
Qed.

Lemma holding_commit channel delivery_id signature c e now clock s s' out :
  (forall d, d ∈ want -> delivery_id <> pd_delivery_id d) -> holding want s ->
  commit_locked cfg channel delivery_id signature c e now clock (Some s) = (Ok s', out) -> holding want s'.
Proof.
  intros Hne Hh Hs. eapply holding_step; [exact Hh|by eapply reserved_commit, Hs; apply Hh|..];
    apply commit_locked_ok in Hs
      as (_ & _ & [(-> & _)|(_ & _ & _ & i & d & lc & act & r & Hd & <- & _ & _ & _ & ->)]); [done..|].
  intros _ x Hx Hin. cbn. rewrite vec_remove_delete. specialize (Hne x Hx).
  eapply (delete_keeps pd_delivery_id); [exact Hd|done|auto].
Qed.

Lemma holding_topup channel signature additional now s s' out :
  0 <= additional -> holding want s ->
  topup_locked cfg channel signature additional now (Some s) = (Ok s', out) -> holding want s'.
Proof.
  intros Hpos Hh Hs. eapply holding_step; [exact Hh|by eapply reserved_topup, Hs; [|apply Hh]|..];
    apply topup_locked_ok in Hs; (destruct out; [by destruct Hs as [-> _]|by destruct Hs as (_ & _ & _ & lc & ->)]).
Qed.

Lemma holding_close payload now clock s s' out :
  holding want s -> close_locked cfg payload now clock (Some s) = (Ok s', out) -> holding want s'.
Proof.
  intros Hh Hs. eapply holding_step; [exact Hh|by eapply reserved_close, Hs; apply Hh|..];
    apply close_locked_ok in Hs as (_ & _ & c & sig & e & live & pending & _ & _ & ->);
    by intros [_ ?]%closed_false.
Qed.

Lemma reserving_covered h :
  reserving h -> (forall d, d ∈ want -> untouched d h) ->
  covered server_exec (on_record id (lift_J (holding want))) (account id (lift_phi (fun _ => 0))) (fun _ _ => 0) h 0
    (serve cfg h).
Proof.
  intros Hw Hu.
  pose proof (pays_refresh _ _ cfg money_reserved) as Href. pose proof (pays_seal _ _ cfg money_reserved) as Hseal.
  pose proof (pays_mark _ _ cfg money_reserved) as Hmark.
  apply kept_covered; [done|done|done| |done].
  destruct h; simpl in *; try done; try (by destruct Hw); intros;
    (apply pays_bound; split; [done|]; intros ? s s' out HJ Hs; split; [|done]).
  - by eapply holding_topup.
  - by eapply holding_begin.
  - eapply holding_usage; [exact Hw| |exact HJ|exact Hs]. intros d Hd. by apply Hu.
  - eapply holding_commit; [|exact HJ|exact Hs]. intros d Hd. by apply Hu.
  - by eapply holding_close.
Qed.
End reservations.

Lemma find_pending_unique s d :
  NoDup (pd_delivery_id <$> pending_deliveries s) -> d ∈ pending_deliveries s ->
  exists i, find_pending (pd_delivery_id d) s = Some i /\ pending_deliveries s !! i = Some d.
Proof.
  intros Hnd (j & Hj)%list_elem_of_lookup. destruct (find_pending (pd_delivery_id d) s) as [i|] eqn:Hi.
  - apply find_pending_some in Hi as (d' & Hd' & Hid). exists i. split; [done|].
    assert (i = j) as ->; [|done].
    eapply NoDup_lookup; [exact Hnd|..]; rewrite list_lookup_fmap; [by rewrite Hd'|by rewrite Hj, Hid].
  - apply position_none in Hi. apply (Forall_lookup_1 _ _ _ _ Hi) in Hj.
    by apply bool_decide_eq_false in Hj.
Qed.

(** What the commit of a reservation does to the record: the watermark and the
    spending move by its amount, it leaves the pending deliveries, alone, and its
    receipt is recorded. *)
Definition committed_as (d : PendingDelivery) (signature : string) s s' : Prop :=
  cumulative s' = cumulative s + pd_amount d /\ spent_amount s' = spent_amount s + pd_amount d /\
  deposit s' = deposit s /\
  (forall d', d' ∈ pending_deliveries s' <-> d' ∈ pending_deliveries s /\ d' <> d) /\
  exists r, r ∈ committed_deliveries s' /\ cd_delivery_id r = pd_delivery_id d /\
    cd_amount r = pd_amount d /\ cd_cumulative r = cumulative s' /\ cd_voucher_signature r = signature.

Lemma keep_latest_last (l : list (CommittedDelivery Value)) r : r ∈ keep_latest (l ++ [r]).
Proof.
  unfold keep_latest. rewrite length_app. simpl. rewrite drop_app_le by (unfold MAX_COMMITTED_AUTHORIZATIONS; lia).
  set_solver.
Qed.

Lemma delete_elem_iff (l : list PendingDelivery) i d d' :
  NoDup (pd_delivery_id <$> l) -> l !! i = Some d -> d' ∈ delete i l <-> d' ∈ l /\ d' <> d.
Proof.
  intros Hnd Hi. split.
  - intros Hd. split; [eapply elem_of_sublist; [exact Hd|apply sublist_delete]|].
    intros ->. by destruct (delete_elem_other pd_delivery_id l i d d).
  - intros [Hd Hne]. by eapply (delete_keeps (fun x => x)).
Qed.

(** A reservation commits for its whole amount. *)
Lemma reserved_commits cfg id s d signature e now clock :
  reserved_ok s -> closed s = false -> final_cumulative s = None ->
  d ∈ pending_deliveries s -> 0 < pd_amount d -> now < pd_expires_at d ->
  spent_amount s + pd_amount d <= u64_max ->
  exists s', commit_locked cfg id (pd_delivery_id d) signature (cumulative s + pd_amount d) e now clock (Some s) =
    (Ok s', Some (pd_amount d, cumulative s + pd_amount d, Committed)) /\ committed_as d signature s s'.
Proof.
  intros (Hamounts & Hnd & Hfresh & Hfit) Hopen Hfinal Hd Hpos Hnow Hspent. specialize (Hfit Hopen).
  destruct (find_pending_unique s d Hnd Hd) as (i & Hi & Hdi).
  assert (Hle : pd_amount d <= reserved_total s).
  { pose proof (zsum_amounts_delete _ _ _ Hdi). unfold reserved_total.
    enough (0 <= zsum (pd_amount <$> delete i (pending_deliveries s))) by lia.
    by apply zsum_nonneg, Forall_fmap, Forall_delete. }
  apply closed_false in Hopen as [Hsealed _]. unfold commit_locked, commit_bounds.
  rewrite Hsealed, Hfinal, (Hfresh d Hd), Hi, Hdi. simpl. do 3 (rewrite decide_False by lia).
  replace (cumulative s + pd_amount d - cumulative s) with (pd_amount d) by lia.
  rewrite decide_False by (intros Hne; by apply Hne).
  destruct (u64_checked_add _ _) as [sp|] eqn:Hsp.
  2:{ unfold u64_checked_add in Hsp. case_decide; [done|]. lia. }
  apply u64_checked_add_some in Hsp as [<- _]. eexists. split; [reflexivity|].
  unfold committed_as. cbn -[keep_latest vec_remove]. split_and!; [done|done|done| |].
  - intros d'. rewrite vec_remove_delete. by apply delete_elem_iff.
  - eexists. split; [apply keep_latest_last|done].
Qed.

(** C16. What was reserved stays payable. On a channel paid through deliveries, take any
    moment of any run of the handlers, interleaved and failing as they may, and
    any delivery [d] reserved on the open channel then: as long as no request
    commits it or reports its usage, and until the channel closes, the record holds
    it unchanged; and before it expires, by a server the record is bound to, and
    unless the total spent would pass u64, committing it succeeds for its whole
    (positive) amount - the watermark and the spending move by exactly that much,
    the receipt is recorded, every other reservation is still pending, and all of
    them still fit the deposit. *)
Theorem deliveries_reserved cfg id hs m ps1 m1 s1 d ps' m' s signature e now clock :
  rtc (pool_step server_exec) (serve cfg <$> hs, m) (ps1, m1) ->
  Forall (reserving id) hs -> (forall s, m !! id = Some s -> reserved_ok s) ->
  m1 !! id = Some s1 -> d ∈ pending_deliveries s1 ->
  rtc (pool_step server_exec) (ps1, m1) (ps', m') -> Forall (untouched id d) hs ->
  m' !! id = Some s -> closed s = false ->
  d ∈ pending_deliveries s /\
  (final_cumulative s = None -> 0 < pd_amount d -> now < pd_expires_at d ->
   spent_amount s + pd_amount d <= u64_max -> check_bound (store_binding cfg) s = Ok tt ->
   exists s', bound (store_binding cfg) None
       (commit_locked cfg id (pd_delivery_id d) signature (cumulative s + pd_amount d) e now) clock (Some s) =
     (Ok s', Some (pd_amount d, cumulative s + pd_amount d, Committed)) /\
     committed_as d signature s s' /\ reserved_ok s').
Proof.
  intros Hr1 Hres Hm Hs1 Hd Hr2 Hun Hs Hopen.
  assert (HJ1 : reserved_ok s1).
  { eapply (pool_payments server_exec (on_record id (lift_J (holding []))) (account id (lift_phi (fun _ => 0)))
      _ (fun _ _ => 0)) in Hr1 as [HJ _].
    - by apply (HJ _ Hs1).
    - intros s0 Hs0. split; [by apply Hm|]. intros _ d0 Hd0. by apply elem_of_nil in Hd0.
    - eapply Forall_impl; [exact Hres|]. intros h Hh. apply reserving_covered; [done|].
      intros d0 Hd0. by apply elem_of_nil in Hd0. }
  assert (HJ : holding [d] s).
  { refine (pool_kept_from server_exec (on_record id (lift_J (holding [d]))) (account id (lift_phi (fun _ => 0)))
      (serve cfg) (fun _ _ => 0) hs m ps1 m1 ps' m' Hr1 Hr2 _ _ s Hs).
    - apply Forall_forall. intros h Hh. rewrite Forall_forall in Hres, Hun.
      apply reserving_covered; [by apply Hres|]. intros d0 ->%list_elem_of_singleton. by apply Hun.
    - intros s0 Hs0. rewrite Hs1 in Hs0. injection Hs0 as <-. split; [done|].
      intros _ d0 ->%list_elem_of_singleton. exact Hd. }
  destruct HJ as [Hok Hheld]. specialize (Hheld Hopen d (list_elem_of_here _ _)). split; [done|].
  intros Hfinal Hpos Hnow Hspent Hbound.
  destruct (reserved_commits cfg id s d signature e now clock) as (s' & Hc & Has); [done..|].
  exists s'. split_and!; [|done|by eapply reserved_commit]. apply bound_run; [done|done|].
  rewrite (check_bound_same _ s s'); [done|..];
    by apply commit_locked_ok in Hc as (_ & _ & [(-> & _)|(_ & _ & _ & i & d0 & lc & act & r & _ & _ & _ & _ & _ & ->)]).
Qed.
End reserves.

(** The first delivery is reserved, then the other two requests run. *)
Module ReserveDemo.
Export ServerDemo.
Definition early := run_pool server_exec (schedule 1 14) (start cfg deliveries m).
Definition late := run_pool server_exec (schedule 3 14) early.

Lemma early_steps : rtc (pool_step server_exec) (start cfg deliveries m) (early.1, early.2).
Proof. exact (run_pool_steps server_exec (schedule 1 14) (start cfg deliveries m)). Qed.
Lemma late_steps : rtc (pool_step server_exec) (early.1, early.2) (late.1, late.2).
Proof. rewrite <-!surjective_pairing. exact (run_pool_rtc server_exec (schedule 3 14) early). Qed.
End ReserveDemo.

Lemma deliveries_reserved_witness :
  exists s1 d s, ReserveDemo.early.2 !! "c" = Some s1 /\ pending_deliveries s1 = [d] /\ pd_amount d = 4 /\
    ReserveDemo.late.2 !! "c" = Some s /\ length (pending_deliveries s) = 2%nat /\ d ∈ pending_deliveries s /\
    exists s', bound (store_binding ServerDemo.cfg) None
        (commit_locked ServerDemo.cfg "c" (pd_delivery_id d) "sig" (cumulative s + pd_amount d) 0 10) 10 (Some s) =
      (Ok s', Some (pd_amount d, cumulative s + pd_amount d, Committed)) /\
      committed_as d "sig" s s' /\ reserved_ok s'.
Proof.
  eexists _, _, _. split; [vm_compute; reflexivity|]. split; [reflexivity|]. split; [reflexivity|].
  split; [vm_compute; reflexivity|]. split; [reflexivity|].
  edestruct (deliveries_reserved ServerDemo.cfg "c" ServerDemo.deliveries ServerDemo.m
    ReserveDemo.early.1 ReserveDemo.early.2) with (signature := "sig") (e := 0) (now := 10) (clock := 10)
    as [Hin Hcommit];
    [exact ReserveDemo.early_steps| | |vm_compute; reflexivity| |exact ReserveDemo.late_steps| |vm_compute; reflexivity
    |vm_compute; reflexivity|split; [exact Hin|]]; cycle -1.
  - apply Hcommit; vm_compute; first [reflexivity|discriminate].
  - repeat (apply Forall_cons; split; [simpl; lia|]). apply Forall_nil_2.
  - intros s [= <-]. split; [apply Forall_nil_2|]. split; [apply NoDup_nil_2|]. split; [|vm_compute; discriminate].
    intros d Hd. by apply elem_of_nil in Hd.
  - left.
  - repeat (apply Forall_cons; split; [exact I|]). apply Forall_nil_2.
Defined.
