(* ===== verification/MppLedger.v ===== *)
(** The life of a channel's record on a session server
    (src/rust/crates/kit/src/mpp/server/session.rs, session_binding.rs): the
    records the server's binding refuses, and how a record comes from an open to
    hold money. *)
From stdpp Require Import base numbers option list gmap strings pretty relations.
From S2P Require Import Prelude Effects Bytes Json Store Channel Authorization Voucher Session SessionPool.
From S2P Require Import Deployments MppBase MppBinding MppSession MppDelivery MppOpen MppPool MppCharges MppDemo.
Open Scope Z_scope.

Section ledger.
Context {Value Key SigningKey : Type} `{SerdeJson Value, !Serde Value (Binding Value), Verifier Key,
  !SessionCrypto Key SigningKey}.
Context `{!Serde Value (StoredOpenIntent Value), !Serde Value (ChannelState Value)}.
Abbreviation St := (ChannelState Value).
Abbreviation Config := (SessionServer Value SigningKey).
Abbreviation handler := (handler (Value := Value)).
Abbreviation reply := (reply (Value := Value)).
Implicit Types (s : St) (o : option St) (m : gmap string St) (cfg : Config).

(** * Records the server refuses *)

Definition refused (b : option (Binding Value)) s : Prop := require_binding s b true <> Ok tt.

Lemma check_bound_pending b s : check_bound b s = Ok tt -> require_binding s b true = Ok tt /\ open_pending s = false.
Proof.
  unfold check_bound, require_binding. destruct (session_open_is_terminal s); [done|].
  destruct (read_binding s) as [recorded|]; simpl; [|done]. case_decide; [done|].
  by destruct (open_pending s).
Qed.

Lemma retired_refused b mark s : refused b (retired mark s).
Proof.
  unfold refused, require_binding, session_open_is_terminal, retired. simpl.
  by rewrite lookup_insert_eq, bool_decide_true.
Qed.

Section refused.
Context (cfg : Config) (s0 : St).

(** The record as it was, but for retirements. *)
Definition untouched s : Prop :=
  refused (store_binding cfg) s /\ same_money s0 s /\
  sealed s = sealed s0 /\ close_requested_at s = close_requested_at s0.

Definition still_there o : Prop := exists s, o = Some s /\ untouched s.
Abbreviation none := (fun _ : option St => 0).

(** The guard admits no closure to it. *)
Lemma refuses_bound {R} (init : R) (updater : Z -> option St -> result St StoreError * R) w :
  closure_pays still_there none (bound (store_binding cfg) init updater) w.
Proof.
  intros now o s' out (s & -> & Hu & _) ([Ha _]%check_bound_pending & _ & _)%bound_ok. by destruct Hu.
Qed.

Lemma retired_untouched mark s : untouched s -> untouched (retired mark s).
Proof. intros (_ & Hm & Hs & Hc). split; [apply retired_refused|done]. Qed.

Lemma refuses_open : open_pays still_there none cfg.
Proof.
  split.
  - intros fresh intent amount _ _ now o s' out (s & -> & Hu & _) (_ & Hb & _)%reserve_locked_ok.
    by destruct Hu.
  - intros intent amount _ now o s' out (s & -> & Hu) (s1 & stored & [= <-] & _ & _ & ->)%retire_locked_ok.
    split_and!; [|done..]. eexists. split; [done|]. by apply retired_untouched.
  - intros intent amount n _ now o s' out (s & -> & Hu & _) (s1 & [= <-] & Hb & _)%activate_locked_ok.
    by destruct Hu.
  - intros expected n now o s' out (s & -> & Hu) (s1 & t & [= <-] & _ & _ & ->)%expire_locked_ok.
    split_and!; [|done..]. eexists. split; [done|]. by apply retired_untouched.
Qed.

Lemma refused_covered id h :
  unsigned h ->
  covered server_exec (on_record id still_there) (account id none) (fun _ _ => 0) h 0 (serve cfg h).
Proof.
  intros Hu. apply kept_covered; [intros ????; apply refuses_bound|intros ?; apply refuses_bound|
    split; [|intros ?]; apply refuses_bound| |done].
  destruct h; simpl in *; try done; try (split; [done|]); intros; first [apply refuses_open|apply refuses_bound].
Qed.
End refused.

(** C20. A record the server's binding refuses - another policy's, or a retired
    open's - is safe from every request: whatever handlers run at once, it stays,
    refused, with the money, the vouchers, the deliveries and the fences it had,
    and no answer says anything was paid on it. *)
Theorem refused_untouched cfg id hs m ps' m' s :
  rtc (pool_step server_exec) (serve cfg <$> hs, m) (ps', m') ->
  0 <= amount cfg -> Forall unsigned hs -> m !! id = Some s -> refused (store_binding cfg) s ->
  zsum (zip_with (paid (paid_on cfg id)) hs ps') <= 0 /\
  exists s', m' !! id = Some s' /\ refused (store_binding cfg) s' /\ same_money s s' /\
    sealed s' = sealed s /\ close_requested_at s' = close_requested_at s.
Proof.
  intros Hr Hprice Hu Hs Href.
  assert (Hkept : on_record id (still_there cfg s) m').
  { eapply (pool_payments server_exec _ (account id (fun _ => 0)) _ (fun _ _ => 0)) in Hr as [Hk _]; [exact Hk|..].
    - exists s. split; [done|]. by split_and!.
    - eapply Forall_impl; [exact Hu|]. intros h. by apply refused_covered. }
  destruct Hkept as (s' & Hs' & Href' & Hm & Hf). split; [|by eauto 10].
  eapply (pool_payments server_exec (on_record id (lift_J (fun _ => True))) (spent_on id) _ (paid_on cfg id))
    in Hr as [_ Hle]; [|done|].
  2: { eapply Forall_impl; [exact Hu|]. intros h. by apply served_covered. }
  revert Hle. unfold spent_on, account. rewrite Hs, Hs'. destruct Hm as (_ & Hm & _). simpl. lia.
Qed.

(** * From an open to a funded channel *)

(** The record took no money. *)
Definition unfunded s : Prop :=
  deposit s = 0 /\ cumulative s = 0 /\ spent_amount s = 0 /\ processed_uses s = [] /\
  processed_topup_signatures s = [] /\ pending_deliveries s = [] /\ committed_deliveries s = [].

(** The deposit the record's intent declares. *)
Definition declared_deposit s : option Z :=
  extra s !! OPEN_INTENT_KEY ≫= fun value =>
  match intent_from_value value with
  | Ok intent => match deposit_amount (oi_payload intent) with Ok amount => Some amount | Err _ => None end
  | Err _ => None
  end.

(** The life of a record: reserved and empty; retired before it was funded; or
    active, on at least the deposit its open declared. *)
Definition well_opened s : Prop :=
  exists amount, declared_deposit s = Some amount /\ 0 < amount /\
    (unfunded s /\ (open_pending s || session_open_is_terminal s) = true \/
     open_pending s = false /\ amount <= deposit s).

(** What no request takes from an active record. *)
Definition backing_kept s s' : Prop :=
  deposit s <= deposit s' /\ extra s' !! OPEN_INTENT_KEY = extra s !! OPEN_INTENT_KEY.

Lemma declared_same s s' :
  extra s' !! OPEN_INTENT_KEY = extra s !! OPEN_INTENT_KEY -> declared_deposit s' = declared_deposit s.
Proof. unfold declared_deposit. by intros ->. Qed.

Lemma well_opened_active s s' :
  open_pending s = false -> session_open_is_terminal s = false -> well_opened s -> backing_kept s s' ->
  open_pending s' = false -> well_opened s'.
Proof.
  intros Hp Ht (amount & Hd & Hpos & Hcase) [Hle Hex] Hp'. exists amount.
  rewrite (declared_same _ _ Hex). split_and!; [done..|]. right. split; [done|].
  destruct Hcase as [[_ Hc]|[_ ?]]; [|lia]. by rewrite Hp, Ht in Hc.
Qed.

(** A closure of an active record, as the guard runs it. *)
Lemma keeps_opened {R} b (init : R) (updater : Z -> option St -> result St StoreError * R) :
  (forall now s' out, updater now None <> (Ok s', out)) ->
  (forall now s s' out, updater now (Some s) = (Ok s', out) -> backing_kept s s') ->
  closure_pays (lift_J well_opened) (lift_phi (fun _ => 0)) (bound b init updater) (fun _ _ => 0).
Proof.
  intros Hn Hs now o s' out HJ (Ha & Hu & Hc)%bound_ok. destruct o as [s|]; [|by destruct (Hn now s' out)].
  split; [|done]. intros ? [= <-]. simpl in Ha.
  pose proof (check_bound_pending _ _ Ha) as [Hb Hp]. pose proof (check_bound_pending _ _ Hc) as [_ Hp'].
  eapply well_opened_active; [exact Hp| |by apply HJ|by eapply Hs|exact Hp'].
  unfold require_binding in Hb. by destruct (session_open_is_terminal s).
Qed.

Lemma fences_extra lc s : extra (apply_fences lc s) = extra s.
Proof. by destruct lc as [| |[]]. Qed.

Lemma observe_extra cfg now slot lc n s r s' k :
  observe cfg now slot lc n s = (r, s') -> k <> ONCHAIN_OBSERVED_SLOT_KEY -> k <> ONCHAIN_OBSERVED_AT_KEY ->
  extra s' !! k = extra s !! k.
Proof.
  intros Ho Hk1 Hk2. revert Ho. unfold observe, record_onchain_observation. cbn [Channel.slot observed].
  set (s0 := apply_fences lc _). assert (extra s0 = extra s) as <- by (unfold s0; by rewrite fences_extra). clearbody s0.
  case_decide; [by intros [= _ <-]|]. intros [= _ <-].
  by destruct lc; simpl; rewrite !lookup_insert_ne by done.
Qed.

Lemma opened_refresh cfg : refresh_pays (lift_J well_opened) (lift_phi (fun _ => 0)) cfg.
Proof.
  intros now slot lc n. apply keeps_opened; [done|]. intros clock s s' []. unfold mutating. simpl.
  destruct (observe cfg now slot lc n s) as [[[]|e] s1] eqn:Ho; [|done]. intros [= <-].
  split; [|by eapply observe_extra]. apply observe_same in Ho as [(_ & _ & -> & _) _]. done.
Qed.

Lemma opened_seal cfg : seal_pays (lift_J well_opened) (lift_phi (fun _ => 0)) cfg.
Proof. intros n. apply keeps_opened; [done|]. by intros clock s s' [] [= <-]. Qed.

Lemma opened_mark cfg : mark_pays (lift_J well_opened) (lift_phi (fun _ => 0)) cfg.
Proof.
  split; [|intros now]; (apply keeps_opened; [done|]); intros clock s s' [] [= <-]; [done|].
  unfold record_sealed_at. destruct (extra s !! SEALED_AT_KEY); [done|]. split; [done|]. by simpl; rewrite lookup_insert_ne.
Qed.

Section opened.
Context `{!SerdeLaws Value (StoredOpenIntent Value)}.

Lemma declares_declared intent amount s :
  declares intent amount -> extra s !! OPEN_INTENT_KEY = Some intent -> declared_deposit s = Some amount.
Proof.
  intros [_ (i & Hi & Hd)] Hs. unfold declared_deposit, intent_from_value. rewrite Hs. simpl.
  rewrite (from_to_value _ _ Hi). simpl. by rewrite Hd.
Qed.

(** The intent an activation or a retry brings is the one the record holds. *)
Lemma same_intent_declared intent amount s stored :
  declares intent amount -> extra s !! OPEN_INTENT_KEY = Some stored -> same_open_intent stored intent = true ->
  declared_deposit s = Some amount.
Proof.
  intros [_ (i & Hi & Hd)] Hs Hsame. unfold declared_deposit. rewrite Hs. simpl.
  unfold same_open_intent in Hsame. destruct (intent_from_value stored) as [i'|]; [|done]. simpl in Hsame.
  destruct (intent_to_value i') as [v|] eqn:Hv; [|done]. apply bool_decide_eq_true in Hsame as ->.
  assert (stored_of_intent i' = stored_of_intent i) as Heq by exact (to_value_inj _ _ _ Hv Hi).
  apply (f_equal so_payload) in Heq. simpl in Heq. by rewrite Heq, Hd.
Qed.

Lemma blank_well_opened intent amount s : blank intent s -> declares intent amount -> well_opened s.
Proof.
  intros (Hdep & Hc & Hsp & Hu & Ht & Hpd & Hcd & _ & _ & _ & Hop & Hterm & _ & Hi) Hd. exists amount.
  split_and!; [by eapply declares_declared|by apply Hd|]. left. by rewrite Hop.
Qed.

Lemma retired_well_opened mark s : well_opened s -> well_opened (retired mark s).
Proof.
  intros (amount & Hd & Hpos & Hcase). exists amount. split_and!; [|done|].
  - rewrite <-Hd. apply declared_same. simpl. by rewrite lookup_insert_ne.
  - destruct Hcase as [[Hun _]|[Hp Hle]]; [left|by right]. split; [exact Hun|].
    unfold session_open_is_terminal. simpl. rewrite lookup_insert_eq. by rewrite bool_decide_true.
Qed.

Lemma activated_well_opened b intent amount n now s s' out :
  declares intent amount -> well_opened s ->
  activate_locked b intent amount n now (Some s) = (Ok s', out) -> well_opened s'.
Proof.
  intros Hd Hw (s0 & [= <-] & Hb & Hconf & ->)%activate_locked_ok. simpl.
  destruct Hw as (a & Ha & Hpos & Hcase). exists a.
  assert (Hterm : session_open_is_terminal s = false).
  { unfold require_binding in Hb. by destruct (session_open_is_terminal s). }
  assert (Hstored : exists stored, extra s !! OPEN_INTENT_KEY = Some stored).
  { unfold declared_deposit in Ha. destruct (extra s !! _) as [stored|]; [by eexists|done]. }
  destruct Hstored as [stored Hstored].
  assert (amount = a) as ->.
  { unfold intent_conflicts in Hconf. rewrite Hstored in Hconf. apply negb_false_iff in Hconf.
    rewrite (same_intent_declared _ _ _ _ Hd Hstored Hconf) in Ha. congruence. }
  split_and!; [|done|].
  - rewrite <-Ha. apply declared_same. simpl. by rewrite lookup_insert_ne.
  - right. destruct (open_pending s) eqn:Hp; [split; [done|simpl; lia]|]. rewrite Hterm in Hcase.
    split; [exact Hp|]. by destruct Hcase as [[_ ?]|[_ ?]].
Qed.

Lemma opened_opens cfg : open_pays (lift_J well_opened) (lift_phi (fun _ => 0)) cfg.
Proof.
  split.
  - intros fresh intent amount Hf Hd. intros now o s' out HJ Hu. split; [|by destruct o].
    apply reserve_locked_ok in Hu. intros ? [= <-].
    destruct o as [s|]; [by destruct Hu as [-> _]; apply HJ|]. destruct Hu as [-> _]. by eapply blank_well_opened.
  - intros intent amount _ now o s' out HJ (s & stored & -> & _ & _ & ->)%retire_locked_ok. split; [|done].
    intros ? [= <-]. by apply retired_well_opened, HJ.
  - intros intent amount n Hd now o s' out HJ Hu. pose proof Hu as (s & -> & _)%activate_locked_ok. split; [|done].
    intros ? [= <-]. eapply activated_well_opened; [done|by apply HJ|done].
  - intros expected n now o s' out HJ (s & t & -> & _ & _ & ->)%expire_locked_ok. split; [|done].
    intros ? [= <-]. by apply retired_well_opened, HJ.
Qed.

Lemma opened_covered cfg id h :
  unsigned h ->
  covered server_exec (on_record id (lift_J well_opened)) (account id (lift_phi (fun _ => 0))) (fun _ _ => 0) h 0
    (serve cfg h).
Proof.
  intros Hu. apply kept_covered; [apply opened_refresh|apply opened_seal|apply opened_mark| |done].
  destruct h; simpl in *; try done; try (split; [done|]); intros; try apply opened_opens;
    (apply keeps_opened; [done|]; intros ? s s' out Hc).
  - apply accept_locked_some in Hc; [|apply priced_commit_keeps].
    by destruct out; destruct Hc as (s1 & (-> & _)%priced_commit_ok & -> & _).
  - by apply use_locked_ok in Hc as (_ & _ & [(? & ? & _ & -> & _)|(? & ? & _ & _ & _ & ->)]).
  - by apply charge_locked_ok in Hc as (_ & _ & [(? & -> & _)|(_ & _ & _ & _ & ->)]).
  - apply topup_locked_ok in Hc. destruct out; [by destruct Hc as [-> _]|].
    destruct Hc as (_ & _ & _ & lc & ->). split; [simpl; lia|done].
  - by apply begin_locked_ok in Hc as (_ & _ & _ & q & i & _ & ->).
  - by apply usage_locked_ok in Hc as (i & d & _ & _ & _ & ->).
  - by apply commit_locked_ok in Hc as (_ & _ & [(-> & _)|(_ & _ & _ & i & d & lc & act & comm & _ & _ & _ & _ & _ & ->)]).
  - by apply close_locked_ok in Hc as (_ & _ & c & sig & ex & live & pending & _ & _ & ->).
Qed.
End opened.

(** C19. A channel's record comes to hold money only through an open of its own:
    whatever requests run at once on a channel the server did not know, its record
    is empty while the open is pending or was retired, and once active its
    deposit is at least the one the signed open of its recorded intent declares. *)
Theorem opened_backed `{!SerdeLaws Value (StoredOpenIntent Value)} cfg id hs m ps' m' s :
  rtc (pool_step server_exec) (serve cfg <$> hs, m) (ps', m') -> Forall unsigned hs ->
  (forall s, m !! id = Some s -> well_opened s) -> m' !! id = Some s -> well_opened s.
Proof.
  intros Hr Hu Hm Hs.
  eapply (pool_payments server_exec (on_record id (lift_J well_opened)) (account id (lift_phi (fun _ => 0)))
    _ (fun _ _ => 0)) in Hr as [Hk _]; [by apply Hk|exact Hm|].
  eapply Forall_impl; [exact Hu|]. intros h. by apply opened_covered.
Qed.
End ledger.

Lemma refused_untouched_witness :
  refused (store_binding ServerDemo.client_cfg) ServerDemo.operated /\
  exists s', (ServerDemo.run_on ServerDemo.client_cfg ServerDemo.m ServerDemo.topups).2 !! "c" = Some s' /\
    refused (store_binding ServerDemo.client_cfg) s' /\ same_money ServerDemo.operated s'.
Proof.
  assert (Hr : refused (store_binding ServerDemo.client_cfg) ServerDemo.operated) by (vm_compute; discriminate).
  split; [exact Hr|].
  destruct (refused_untouched ServerDemo.client_cfg "c" ServerDemo.topups ServerDemo.m
    (ServerDemo.run_on ServerDemo.client_cfg ServerDemo.m ServerDemo.topups).1
    (ServerDemo.run_on ServerDemo.client_cfg ServerDemo.m ServerDemo.topups).2 ServerDemo.operated
    (ServerDemo.run_steps _ _ _)) as [_ (s' & Hs' & Hr' & Hm & _)];
    [vm_compute; discriminate|repeat (apply Forall_cons; split; [exact I|]); apply Forall_nil_2|reflexivity|exact Hr|].
  exists s'. split; [exact Hs'|]. split; [exact Hr'|exact Hm].
Defined.

Lemma opened_backed_witness :
  exists s, (ServerDemo.run_on ServerDemo.client_cfg ∅ ServerDemo.openings).2 !! ServerDemo.opened_id = Some s /\
    deposit s = 10 /\ well_opened s.
Proof.
  eexists. split; [vm_compute; reflexivity|]. split; [reflexivity|].
  refine (opened_backed ServerDemo.client_cfg ServerDemo.opened_id ServerDemo.openings ∅
    (ServerDemo.run_on ServerDemo.client_cfg ∅ ServerDemo.openings).1
    (ServerDemo.run_on ServerDemo.client_cfg ∅ ServerDemo.openings).2 _
    (ServerDemo.run_steps _ _ _) _ _ _); [|intros s Hs; discriminate Hs|vm_compute; reflexivity].
  repeat (apply Forall_cons; split; [exact I|]). apply Forall_nil_2.
Defined.
