(* ===== verification/MppAdopt.v ===== *)
(** What the server must see before it adopts a channel
    (src/rust/crates/kit/src/mpp/server/session.rs): the log of an open, whatever
    the store, the clock and the chain answer. *)
From stdpp Require Import base numbers option list gmap strings pretty.
From S2P Require Import Prelude Effects Bytes Json Store Channel Authorization Voucher Session.
From S2P Require Import Deployments MppBase MppBinding MppSession MppDelivery MppOpen MppDemo.
Open Scope Z_scope.

Section adopt.
Context {Value Key SigningKey : Type} `{SerdeJson Value, !Serde Value (Binding Value), Verifier Key,
  !SessionCrypto Key SigningKey}.
Context `{!Serde Value (StoredOpenIntent Value), !Serde Value (ChannelState Value)}.
Abbreviation St := (ChannelState Value).
Abbreviation Config := (SessionServer Value SigningKey).
Abbreviation op := (serverE (Value := Value)).
Implicit Types (s : St) (cfg : Config) (payload : OpenPayload Value).

(** * The log of an open *)

Inductive open_event :=
| Found (id : string) (existing : option St)
| OpenPrepared (transaction recent_blockhash : string) (prepared : PreparedOpen)
| SlotSeen (slot : Z)
| Wrote (id : string) (s : St)
| Broadcast (prepared : PreparedOpen) (answer : result Z string)
| LandedAt (signature : string) (slot : Z)
| AccountRead (address program : Pubkey) (min_slot : option Z) (channel : OnchainChannel).

Definition open_entry (X : Type) (e : op X) : X -> list open_event :=
  match e in serverE X return X -> list open_event with
  | Get id => fun got => match got with Ok o => [Found id o] | Err _ => [] end
  | Update _ id _ => fun updated => match updated.1 with Ok s => [Wrote id s] | Err _ => [] end
  | CurrentSlot => fun got => match got with Ok slot => [SlotSeen slot] | Err _ => [] end
  | PrepareOpen transaction blockhash => fun got =>
      match got with Ok prepared => [OpenPrepared transaction blockhash prepared] | Err _ => [] end
  | SubmitOpen prepared => fun answer => [Broadcast prepared answer]
  | LandedSlot signature => fun got => match got with Ok (Some slot) => [LandedAt signature slot] | _ => [] end
  | ReadAccount address min_slot program => fun got =>
      match got with Ok (Some (Ok channel)) => [AccountRead address program min_slot channel] | _ => [] end
  | _ => fun _ => []
  end.

Abbreviation opens p l r := (traces open_entry p l r).

(** ** Inverting the log of a success *)

Lemma opens_check {A B} (f : A -> prog op (result B MppError)) r l b :
  opens (ptry f (Ret r)) l (Ok b) -> exists x, r = Ok x /\ opens (f x) l (Ok b).
Proof. destruct r as [x|e]; simpl; [eauto|]. by intros [_ ?]. Qed.

Lemma opens_try {A B} (f : A -> prog op (result B MppError)) p l b :
  opens (ptry f p) l (Ok b) ->
  exists x l1 l2, l = l1 ++ l2 /\ opens p l1 (Ok x) /\ opens (f x) l2 (Ok b).
Proof. intros [?|(e & ? & _)]%traces_ptry; [done|discriminate]. Qed.

Lemma opens_ask {X B} (f : X -> prog op B) (e : op X) l b :
  opens (pbind f (perform e)) l b -> exists x l2, l = open_entry X e x ++ l2 /\ opens (f x) l2 b.
Proof. intros (x & l1 & l2 & -> & ->%traces_perform & Hf)%traces_pbind. eauto. Qed.

Lemma opens_ret {B} (x b : B) l : opens (Ret x) l b -> l = [] /\ b = x.
Proof. done. Qed.

(** ** What a successful open is about *)

Definition key_text (value : string) (key : Pubkey) : Prop :=
  bs58_decode value = Ok key /\ length key = 32%nat.

(** The terms of an open: the payload's, on the challenge the configuration
    stands for. *)
Record open_terms cfg payload (p : OpenChannelParams) : Prop := {
  ot_payer : key_text (op_payer payload) (pr_payer p);
  ot_not_sponsor : fee_payer_signer cfg <> Some (pr_payer p);
  ot_rent_payer : pr_rent_payer p = default (pr_payer p) (fee_payer_signer cfg);
  ot_payee : key_text (op_payee payload) (pr_payee p) /\ key_text (recipient cfg) (pr_payee p);
  ot_mint : key_text (op_mint payload) (pr_mint p) /\ expected_payment_channel_mint cfg = Ok (pr_mint p);
  ot_signer : key_text (op_authorized_signer payload) (pr_authorized_signer p) /\
    is_on_curve (pr_authorized_signer p) = true;
  ot_operator : config_signer cfg = Operator -> key_text (operator cfg) (pr_authorized_signer p);
  ot_deposit : parse_u64 (op_deposit_amount payload) = Some (pr_deposit p) /\
    forall minimum, minimum_deposit cfg = Some minimum -> minimum <= pr_deposit p;
  ot_salt : pr_salt p = op_salt payload;
  ot_slot : pr_open_slot p = op_open_slot payload;
  ot_grace : pr_grace_period p = op_grace_period_seconds payload /\ pr_grace_period p = grace_period_seconds cfg;
  ot_splits : payload_splits (op_distribution_splits payload) = Ok (pr_recipients p) /\
    pr_recipients p = splits cfg;
  ot_program : pr_program_id p = default default_program_id (channel_program cfg);
  ot_channel : key_text (op_channel_id payload) (channel_address p);
}.

(** A channel account that is exactly the open: open, unguarded, with its hooks,
    deposit, salt, slot, grace period, parties, mint, signer and payout. *)
Record opened_as cfg (p : OpenChannelParams) (channel : OnchainChannel) : Prop := {
  oa_unguarded : guard channel = 0;
  oa_hooks : onchain_hooks channel = default no_hooks (channel_hooks cfg);
  oa_status : status channel = 0;
  oa_deposit : onchain_deposit channel = pr_deposit p;
  oa_salt : onchain_salt channel = pr_salt p;
  oa_open_slot : onchain_open_slot channel = pr_open_slot p;
  oa_grace : onchain_grace_period channel = pr_grace_period p;
  oa_payer : onchain_payer channel = pr_payer p;
  oa_rent_payer : onchain_rent_payer channel = pr_rent_payer p;
  oa_payee : onchain_payee channel = pr_payee p;
  oa_mint : onchain_mint channel = pr_mint p;
  oa_signer : onchain_authorized_signer channel = pr_authorized_signer p;
  oa_payout : onchain_distribution_hash channel = distribution_hash (pr_recipients p);
}.

Lemma parse_key_text value field key : parse_pubkey_field value field = Ok key -> key_text value key.
Proof.
  unfold parse_pubkey_field, parse_pubkey. intros (bytes & Hb%rmap_err_ok & Hif)%rmap_err_ok%rbind_ok.
  case_decide; [|done]. by injection Hif as <-.
Qed.

Lemma matches_open_ok cfg p channel settled :
  matches_open cfg p channel = Ok settled -> opened_as cfg p channel /\ settled = onchain_settled channel.
Proof.
  unfold matches_open. case_decide as Hh; [done|]. case_decide as Ht; [|done]. intros [= <-].
  destruct Ht as (? & ? & ? & ? & ? & ? & ? & ? & ? & ? & ?).
  destruct (decide (guard channel = 0)), (decide (onchain_hooks channel = default no_hooks (channel_hooks cfg)));
    (split; [split|]); tauto.
Qed.

Lemma parse_required_ok text key : parse_required_operator text = Ok key -> key_text text key.
Proof. unfold parse_required_operator. destruct (blank_text text); [done|]. apply parse_key_text. Qed.

Lemma key_text_inj value key key' : key_text value key -> key_text value key' -> key = key'.
Proof. unfold key_text. intros [? _] [? _]. congruence. Qed.

Lemma open_params_terms cfg payload p :
  payment_channel_open_params cfg payload = Ok p -> open_terms cfg payload p.
Proof.
  unfold payment_channel_open_params. intros (? & _ & (? & _ & Hp)%rbind_ok)%rbind_ok.
  apply rbind_ok in Hp as (payer & Hpayer%parse_key_text & (payee & Hpayee%parse_key_text & Hp)%rbind_ok).
  apply rbind_ok in Hp as (mint & Hmint%parse_key_text & (signer & Hsigner%parse_key_text & Hp)%rbind_ok).
  destruct (is_on_curve signer) eqn:Hcurve; [cbn [negb] in Hp|done].
  apply rbind_ok in Hp as (dep & Hdep%ok_or_ok & (tp & _ & Hp)%rbind_ok).
  apply rbind_ok in Hp as (expected & Hexpected%parse_key_text & (emint & Hemint & Hp)%rbind_ok).
  apply rbind_ok in Hp as ([] & Hop & Hp).
  case_decide as Hpe; [done|]. case_decide as Hme; [done|]. case_decide as Hge; [done|].
  destruct (match minimum_deposit cfg with Some _ => _ | None => _ end) eqn:Hmin; [done|].
  apply rbind_ok in Hp as (declared & Hdecl & Hp). case_decide as Hsp; [done|].
  apply rbind_ok in Hp as ([] & Hspons & (channel & Hchannel%parse_key_text & Hp)%rbind_ok).
  case_decide as Hch; [done|]. injection Hp as <-. subst.
  split; simpl; try done.
  - unfold reject_sponsor_as_payer in Hspons. by case_decide.
  - intros Hmode. rewrite decide_True in Hop by done.
    apply rbind_ok in Hop as (op & Hoper%parse_required_ok & Hif). case_decide; [done|]. by subst.
  - split; [done|]. intros minimum Hm. rewrite Hm in Hmin. apply bool_decide_eq_false in Hmin. lia.
Qed.

(** ** The stages *)

(** The credential's checks leave no trace. *)
Lemma opens_validate cfg payload context l v :
  opens (validate_open_request cfg payload context) l (Ok v) ->
  l = [] /\ open_terms cfg payload (params v).
Proof.
  unfold validate_open_request, ensure_not_expired. intros ([] & l1 & l2 & -> & He & [-> Hv])%opens_try.
  split.
  - destruct (ctx_expires context); [|by apply opens_ret in He as [-> _]].
    apply opens_check in He as (expiry & _ & He). apply opens_ask in He as (now & l2 & -> & He).
    case_decide; apply opens_ret in He as [-> _]; done.
  - symmetry in Hv. apply rbind_ok in Hv as (d & _ & Hv). apply rbind_ok in Hv as (t & _ & Hv).
    apply rbind_ok in Hv as (? & _ & Hv). case_decide; [done|]. apply rbind_ok in Hv as (p & Hp & Hv).
    apply rbind_ok in Hv as (? & _ & Hv). apply rbind_ok in Hv as (? & _ & [= <-]). by apply open_params_terms.
Qed.

Lemma opens_fetch cfg p min_slot l settled :
  opens (fetch_and_match_open_channel cfg p min_slot) l (Ok settled) ->
  exists channel, l = [AccountRead (channel_address p) (pr_program_id p) min_slot channel] /\
    opened_as cfg p channel.
Proof.
  unfold fetch_and_match_open_channel. intros (read & l2 & -> & Hf)%opens_ask.
  apply opens_check in Hf as (account & Ha%rmap_err_ok & Hf). apply opens_check in Hf as (decoded & Hd & Hf).
  apply opens_ret in Hf as [-> Hf]. symmetry in Hf. apply rbind_ok in Hf as (? & _ & Hf).
  apply rbind_ok in Hf as (channel & -> & Hf). apply matches_open_ok in Hf as [Hm _]. exists channel.
  split; [|done]. destruct account as [a|]; [|done]. injection Hd as ->. by rewrite Ha.
Qed.

Lemma opens_probe cfg p min_slot l r :
  opens (fetch_and_match_open_channel cfg p min_slot) l r ->
  l = [] \/ exists channel, l = [AccountRead (channel_address p) (pr_program_id p) min_slot channel].
Proof.
  unfold fetch_and_match_open_channel. intros (read & l2 & -> & Hf)%opens_ask.
  assert (l2 = []) as ->.
  { destruct (rmap_err _ read) as [account|]; [|by apply opens_ret in Hf as [-> _]].
    cbn [ptry pbind] in Hf. destruct (ok_or account _); by apply opens_ret in Hf as [-> _]. }
  rewrite app_nil_r. destruct read as [[[channel|]|]|]; simpl; eauto.
Qed.

(** What the server saw between its reservation and its activation, for the
    prepared transaction and its signature: its own broadcast of it, then the
    channel, read no earlier than the slot it landed at; or, on a record that was
    already there, the channel, and then where this very signature landed. Where a
    floor is recorded the landing is after it; only where the record is active
    already, so no floor is asked for, the channel alone will do. *)
Inductive adoption cfg (p : OpenChannelParams) (prepared : PreparedOpen) (signature : string) :
    option Z -> list open_event -> Prop :=
| adopts_broadcast floor tried landed channel :
    tried = [] \/ (exists other, tried = [AccountRead (channel_address p) (pr_program_id p) None other]) ->
    opened_as cfg p channel -> (forall slot, floor = Some slot -> slot < landed) ->
    adoption cfg p prepared signature floor (tried ++
      [Broadcast prepared (Ok landed);
       AccountRead (channel_address p) (pr_program_id p) (Some landed) channel])
| adopts_landed slot landed channel :
    opened_as cfg p channel -> slot < landed ->
    adoption cfg p prepared signature (Some slot)
      [AccountRead (channel_address p) (pr_program_id p) None channel; LandedAt signature landed]
| adopts_active channel :
    opened_as cfg p channel ->
    adoption cfg p prepared signature None [AccountRead (channel_address p) (pr_program_id p) None channel]
| adopts_active_sent tried error channel :
    tried = [] \/ (exists other, tried = [AccountRead (channel_address p) (pr_program_id p) None other]) ->
    opened_as cfg p channel ->
    adoption cfg p prepared signature None (tried ++
      [Broadcast prepared (Err error);
       AccountRead (channel_address p) (pr_program_id p) None channel]).

(** From the reservation to a landed open. *)
Lemma opens_submit cfg prepared p fresh floor l signature settled :
  opens (submit_and_fetch_open cfg prepared p fresh floor) l (Ok (Landed signature settled)) ->
  fee_payer_signature prepared = Some signature /\ adoption cfg p prepared signature floor l.
Proof.
  unfold submit_and_fetch_open. intros (sig & Hsig%ok_or_ok & Hs)%opens_check.
  apply traces_pbind in Hs as (existing & l1 & l2 & -> & He & Hs).
  destruct existing as [settled0|].
  - assert (exists channel, l1 = [AccountRead (channel_address p) (pr_program_id p) None channel] /\
      opened_as cfg p channel) as (channel & -> & Hm).
    { destruct fresh; [by apply opens_ret in He as [_ ?]|].
      apply traces_pbind in He as (fetched & k & ? & -> & Hf & [-> He]).
      destruct fetched as [n|]; [|done]. apply opens_fetch in Hf as (channel & -> & Hc). by exists channel. }
    destruct floor as [slot|].
    + apply opens_ask in Hs as (landed & l3 & -> & Hs).
      apply opens_check in Hs as (o & ->%rmap_err_ok & Hs). apply opens_check in Hs as (z & ->%ok_or_ok & Hs).
      apply opens_ret in Hs as [-> Hs]. unfold landed_here in Hs. case_bool_decide; [|done].
      injection Hs as <- <-. split; [done|]. by apply adopts_landed.
    + apply opens_ret in Hs as [-> Hs]. injection Hs as <- <-. split; [done|]. by apply adopts_active.
  - assert (Htried : l1 = [] \/ exists other,
      l1 = [AccountRead (channel_address p) (pr_program_id p) None other]).
    { destruct fresh; [apply opens_ret in He as [-> _]; by left|].
      apply traces_pbind in He as (fetched & k & ? & -> & Hf & [-> _]). rewrite app_nil_r.
      by eapply opens_probe. }
    clear He. apply opens_ask in Hs as (submission & l3 & -> & Hs).
    match type of Hs with context [if ?b then _ else _] => destruct b eqn:Hland end;
      [by apply opens_ret in Hs as [_ ?]|].
    apply traces_pbind in Hs as (confirmed & l4 & l5 & -> & Hf & Hs).
    apply opens_check in Hs as (n & Hn & Hs). apply opens_ret in Hs as [-> Hs]. injection Hs as <- <-.
    split; [done|]. rewrite app_nil_r.
    assert (confirmed = Ok settled /\ (forall e, submission = Err e -> floor = None)) as [-> Hnone].
    { destruct submission as [landed|e], confirmed as [n'|e']; try done. case_decide; [|done].
      split; [congruence|done]. }
    apply opens_fetch in Hf as (channel & -> & Hc). destruct submission as [landed|error].
    + apply adopts_broadcast; [done|done|]. intros slot ->.
      by apply negb_false_iff, bool_decide_eq_true in Hland.
    + rewrite (Hnone error eq_refl). by apply adopts_active_sent.
Qed.

Lemma opens_finish cfg id intent amount was_open opened l acc :
  opens (finish_open cfg id intent amount was_open opened) l (Ok acc) ->
  (exists settled, opened = Landed (oa_transaction_signature acc) settled) /\ l = [Wrote id (oa_state acc)].
Proof.
  unfold finish_open. destruct opened as [signature settled|].
  - intros (updated & l2 & -> & Hf)%opens_ask. apply opens_check in Hf as (s & Hs & Hf).
    apply opens_ret in Hf as [-> [= ->]]. split; [by eexists|]. simpl.
    destruct (updated.1) as [s1|e]; [|done]. by injection Hs as ->.
  - intros (updated & l2 & -> & Hf)%opens_ask. apply opens_check in Hf as (s & _ & Hf).
    by apply opens_ret in Hf as [_ ?].
Qed.

Lemma opens_slot open_slot l slot : opens (validate_open_slot open_slot) l (Ok slot) -> l = [SlotSeen slot].
Proof.
  unfold validate_open_slot. intros (current & l2 & -> & Hl)%opens_ask.
  apply opens_check in Hl as (n & ->%rmap_err_ok & Hl). apply opens_ret in Hl as [-> Hl].
  do 2 (case_decide; [done|]). by injection Hl as ->.
Qed.

(** The floor of the attempt: the slot a fresh open saw, or the one its intent
    recorded. *)
Definition floor_of (existing : option St) (before : list open_event) (floor : Z) : Prop :=
  match existing with
  | None => before = [SlotSeen floor]
  | Some s => exists intent, stored_open_intent (Some s) = Ok (Some intent) /\
      floor_slot (adoption_floor intent) = Ok floor /\ before = []
  end.

(** C18. A server adopts only a channel it opened, and writes before it broadcasts. An
    open that succeeds is on the challenge's terms. Its record was looked up and
    its transaction prepared, then its reservation written with nothing broadcast
    yet, and only at the end the activation it answers with. In between nothing but
    that prepared transaction was broadcast, and an account of the channel's own
    address was read that is open and has the open's deposit, salt, slot, grace
    period, parties, mint, signer, payout and hooks. Where it activates the record,
    the transaction - by its own broadcast, or by where its own fee-payer signature
    was seen - landed after the slot the attempt had recorded, so a channel opened
    before, or elsewhere, is never taken over. *)
Theorem open_adopts_own cfg payload context l acc :
  opens (process_open_inner cfg payload context) l (Ok acc) ->
  let id := op_channel_id payload in
  exists existing p prepared before reserved evidence floor,
    l = Found id existing :: OpenPrepared (op_transaction payload) (ctx_recent_blockhash context) prepared ::
      before ++ Wrote id reserved :: evidence ++ [Wrote id (oa_state acc)] /\
    Forall (fun e => exists slot, e = SlotSeen slot) before /\
    open_terms cfg payload p /\
    fee_payer_signature prepared = Some (oa_transaction_signature acc) /\
    adoption cfg p prepared (oa_transaction_signature acc) floor evidence /\
    (activating existing = true -> exists slot, floor = Some slot /\ floor_of existing before slot).
Proof.
  intros Hl id. unfold process_open_inner in Hl.
  apply opens_try in Hl as (v & l0 & l1 & -> & [-> Hp]%opens_validate & Hl). fold id in Hl.
  apply opens_ask in Hl as (got & l2 & -> & Hl). apply opens_check in Hl as (existing & Hex & Hl).
  destruct got as [o|]; [|done]. injection Hex as ->.
  apply opens_check in Hl as (? & _ & Hl). apply opens_check in Hl as (? & _ & Hl).
  apply opens_try in Hl as (prepared & k & l3 & -> & ->%traces_perform & Hl).
  apply opens_try in Hl as (observed & before & l4 & -> & Hslot & Hl).
  apply opens_check in Hl as (auth & _ & Hl). apply opens_ask in Hl as (now & l5 & -> & Hl).
  apply opens_check in Hl as (stored & Hstored & Hl). apply opens_check in Hl as (floor & Hfloor & Hl).
  apply traces_pbind in Hl as (valid_at & l6 & l7 & -> & Hv & Hl).
  assert (l6 = []) as ->.
  { case_bool_decide; [|by apply opens_ret in Hv as [-> _]]. by apply opens_ask in Hv as (w & k & -> & [-> _]%opens_ret). }
  apply opens_check in Hl as (intent & _ & Hl). apply opens_check in Hl as (reservation & _ & Hl).
  apply opens_ask in Hl as ([r was_open] & l8 & -> & Hl). apply opens_check in Hl as (reserved & Hr & Hl).
  destruct r as [s|]; [|done]. injection Hr as ->.
  apply opens_try in Hl as (opened & evidence & l9 & -> & Hs & ((settled & ->) & ->)%opens_finish).
  apply opens_submit in Hs as [Hsig Hadopt].
  exists existing, (params v), prepared, before, reserved, evidence, floor. split; [by rewrite <-?app_assoc|].
  assert (Hbefore : match existing with None => exists slot, observed = Some slot /\ before = [SlotSeen slot]
                    | Some _ => before = [] end).
  { destruct existing as [s|]; [by apply opens_ret in Hslot as [-> _]|]. rewrite bool_decide_true in Hslot by done.
    apply opens_try in Hslot as (slot & k & ? & -> & ->%opens_slot & [-> [= ->]]). by exists slot. }
  split_and!; [|done|done|done|].
  - destruct existing; [by rewrite Hbefore|]. destruct Hbefore as (slot & _ & ->). apply Forall_singleton. by exists slot.
  - intros Hact. rewrite Hact in Hfloor. destruct (floor_slot _) as [slot|] eqn:Hfl; [|done].
    injection Hfloor as <-. exists slot. split; [done|]. destruct existing as [s|].
    + rewrite bool_decide_false in Hfl by done. apply opens_ret in Hslot as [_ [= ->]].
      destruct stored as [i|]; [|done]. by exists i.
    + destruct Hbefore as (n & -> & ->). simpl in Hfl. destruct stored; by injection Hfl as ->.
Qed.
End adopt.

(** An open of an unknown channel, and its log. *)
Module AdoptDemo.
Definition exec X := server_exec (Value := Demo.value) X ServerDemo.calm.
Definition open :=
  process_open_inner ServerDemo.client_cfg ServerDemo.open_payload ServerDemo.open_context.
Definition answer := (run exec open ∅).1.
Definition log := log_of open_entry exec open ∅.

Lemma log_traces : traces open_entry open log answer.
Proof. exact (run_traces open_entry exec open ∅). Qed.

(** It succeeds, and saw the cluster at slot 1002 before it wrote anything. *)
Definition opened : bool :=
  match answer with Ok acc => bool_decide (deposit (oa_state acc) = 10) | Err _ => false end.
Definition starts : bool :=
  match log with Found _ None :: OpenPrepared _ _ _ :: SlotSeen slot :: Wrote _ _ :: _ => bool_decide (slot = 1002) | _ => false end.

Lemma opened_true : opened = true.
Proof. vm_compute. reflexivity. Qed.
Lemma starts_true : starts = true.
Proof. vm_compute. reflexivity. Qed.

Lemma answered : exists acc, answer = Ok acc /\ deposit (oa_state acc) = 10.
Proof.
  pose proof opened_true as Ho. unfold opened in Ho. destruct answer as [acc|]; [|discriminate].
  exists acc. split; [done|]. by apply bool_decide_eq_true in Ho.
Qed.

Lemma log_start : exists id transaction blockhash prepared written reserved rest,
  log = Found id None :: OpenPrepared transaction blockhash prepared :: SlotSeen 1002 :: Wrote written reserved :: rest.
Proof.
  pose proof starts_true as Hs. unfold starts in Hs.
  destruct log as [|[i []| | | | | |] [|[] [|[] [|[] rest]]]]; try discriminate.
  apply bool_decide_eq_true in Hs as ->. by repeat eexists.
Qed.
End AdoptDemo.

Lemma open_adopts_own_witness :
  exists acc p prepared evidence, AdoptDemo.answer = Ok acc /\ deposit (oa_state acc) = 10 /\
    open_terms ServerDemo.client_cfg ServerDemo.open_payload p /\
    adoption (Value := Demo.value) ServerDemo.client_cfg p prepared (oa_transaction_signature acc) (Some 1002) evidence.
Proof.
  destruct AdoptDemo.answered as (acc & Hacc & Hd).
  destruct AdoptDemo.log_start as (id & tx & bh & prepared0 & w & r0 & rest & Hlog).
  pose proof AdoptDemo.log_traces as Ht. rewrite Hacc in Ht.
  destruct (open_adopts_own ServerDemo.client_cfg ServerDemo.open_payload ServerDemo.open_context AdoptDemo.log acc Ht)
    as (existing & p & prepared & before & reserved & evidence & floor & Hl & _ & Hterms & _ & Hadopt & Hact).
  exists acc, p, prepared, evidence. split; [exact Hacc|]. split; [exact Hd|]. split; [exact Hterms|].
  rewrite Hlog in Hl. assert (existing = None) as -> by congruence.
  destruct (Hact eq_refl) as (slot & -> & Hfloor). cbn in Hfloor. rewrite Hfloor in Hl.
  cbn [app] in Hl. assert (slot = 1002) as -> by congruence. exact Hadopt.
Defined.
