(* ===== verification/X402Exact.v ===== *)
(** Verification of an x402 [exact] payment
    (src/rust/crates/kit/src/x402/protocol/schemes/exact/verify.rs): the
    transaction the sponsor is asked to co-sign, and the transaction the node
    reports as confirmed. *)
From Stdlib Require Strings.String.
From stdpp Require Import base numbers option list gmap strings pretty sets.
From S2P Require Import Prelude Bytes Units Voucher Tx Build Policy ChannelTx Deployments ChannelProgram X402Batch X402Upto MppBase X402Open.
Open Scope Z_scope.

(** The objects of [serde_json::Value]: [as_object], [Value::Object],
    [Value::String]. *)
Class JsonObject (Value : Type) := {
  as_object : Value -> option (gmap string Value);
  of_object : gmap string Value -> Value;
  of_str : string -> Value;
}.

Class JsonObjectLaws (Value : Type) `{JsonScalar Value, JsonObject Value} := {
  as_object_of m : as_object (of_object m) = Some m;
  as_str_of s : as_str (of_str s) = Some s;
}.

Record ResourceInfo := { ri_url : string; ri_description : option string; ri_mime_type : option string }.

Record PaymentRequirements {Value : Type} := {
  pr_network : string;
  pr_cluster : option string;
  pr_recipient : string;
  pr_amount : string;
  pr_currency : string;
  pr_decimals : option Z;
  pr_token_program : option string;
  pr_resource : string;
  pr_description : option string;
  pr_max_age : option Z;
  pr_recent_blockhash : option string;
  pr_fee_payer : option bool;
  pr_fee_payer_key : option string;
  pr_transaction_versions : option (list TxVersion);
  pr_extra : option Value;
  pr_accepted : option Value;
  pr_resource_info : option ResourceInfo;
}.
Arguments PaymentRequirements : clear implicits.

Definition COMPUTE_BUDGET_PROGRAM : string := "ComputeBudget111111111111111111111111111111".
Definition DEFAULT_MAX_TIMEOUT_SECONDS : Z := 300.
Definition EXACT_MAX_UNIT_PRICE : Z := 5000000.
Definition EXACT_MAX_UNIT_LIMIT : Z := 400000.

Definition svm (reason : string) : string := "invalid_exact_svm_payload_" +:+ reason.
Definition invalid {A} (reason : string) : result A X402Error := Err (XOther (svm reason)).
Definition err_budget (text : string) : X402Error :=
  XOther (svm "transaction_instructions_compute_" +:+ text).

(** * One instruction *)
Section instructions.
Context (keys : list Pubkey).

Definition program_id_for_instruction (ix : CompiledInstruction) : result Pubkey X402Error :=
  ok_or (keys !! program_id_index ix) (XOther (svm "no_transfer_instruction")).
Definition key_for_account_index (index : nat) : result Pubkey X402Error :=
  ok_or (keys !! index) (XOther (svm "no_transfer_instruction")).

(** A tag and a little-endian number: [data.len() == 1 + n], [data[0] == tag]. *)
Definition tagged (tag : Z) (n : nat) (d : list byte) : bool :=
  bool_decide (length d = S n) && bool_decide (byte_to_Z <$> head d = Some tag).

Definition verify_compute_limit_instruction (ix : CompiledInstruction) : result unit X402Error :=
  let? program := program_id_for_instruction ix in
  if bool_decide (program <> COMPUTE_BUDGET_PROGRAM) || negb (tagged 2 4 (data ix))
  then Err (err_budget "limit_instruction") else
  if decide (EXACT_MAX_UNIT_LIMIT < from_le (drop 1 (data ix)))
  then Err (err_budget "limit_instruction_too_high") else Ok tt.

Definition verify_compute_price_instruction (ix : CompiledInstruction) : result unit X402Error :=
  let? program := program_id_for_instruction ix in
  if bool_decide (program <> COMPUTE_BUDGET_PROGRAM) || negb (tagged 3 8 (data ix))
  then Err (err_budget "price_instruction") else
  if decide (EXACT_MAX_UNIT_PRICE < from_le (drop 1 (data ix)))
  then Err (err_budget "price_instruction_too_high") else Ok tt.

Definition is_managed (managed : list Pubkey) (index : nat) : bool :=
  match keys !! index with Some key => bool_decide (key ∈ managed) | None => false end.

Fixpoint isolation_loop (managed : list Pubkey) (ixs : list CompiledInstruction) : result unit X402Error :=
  match ixs with
  | [] => Ok tt
  | ix :: ixs =>
      if is_managed managed (program_id_index ix) || existsb (is_managed managed) (accounts ix)
      then invalid "transaction_fee_payer_included_in_instruction_accounts"
      else isolation_loop managed ixs
  end.

Definition verify_fee_payer_isolation (ixs : list CompiledInstruction) (managed : list Pubkey) :
    result unit X402Error :=
  if decide (managed = []) then Ok tt else isolation_loop managed ixs.

(** The instructions after the transfer. *)
Definition unknown_reason (index : nat) : string :=
  default "unknown_optional_instruction"
    (["unknown_fourth_instruction"; "unknown_fifth_instruction"; "unknown_sixth_instruction";
      "unknown_seventh_instruction"] !! index).

Fixpoint optional_loop (index : nat) (ixs : list CompiledInstruction) : result unit X402Error :=
  match ixs with
  | [] => Ok tt
  | ix :: ixs =>
      let? program := program_id_for_instruction ix in
      if bool_decide (program = MEMO_PROGRAM) ||
         (bool_decide (index < 3)%nat && bool_decide (program = LIGHTHOUSE_PROGRAM))
      then optional_loop (S index) ixs
      else invalid (unknown_reason index)
  end.

Definition is_memo (ix : CompiledInstruction) : bool :=
  match program_id_for_instruction ix with Ok program => bool_decide (program = MEMO_PROGRAM) | Err _ => false end.

Definition check_memo (optional : list CompiledInstruction) (expected : option string) :
    result unit X402Error :=
  match expected with
  | None => Ok tt
  | Some expected =>
      match filter (fun ix => is_memo ix = true) optional with
      | [memo] =>
          if negb (utf8_valid (data memo)) then invalid "memo_mismatch" else
          if decide (data memo <> str_bytes expected) then invalid "memo_mismatch" else Ok tt
      | _ => invalid "memo_count"
      end
  end.
End instructions.

Section verify.
Context {Key : Type} `{Crypto Key, Addresses} {Value : Type} `{JsonScalar Value, JsonObject Value}.
Implicit Types (r : PaymentRequirements Value).

Definition expected_decimals r : result Z X402Error :=
  ok_or (pr_decimals r) (XOther (svm "decimals_missing")).
Definition resolve_expected_mint r : string :=
  default (pr_currency r) (x402_resolve_mint (pr_currency r) (pr_cluster r)).
(** [Value::get] on an object. *)
Definition json_get (key : string) (v : Value) : option Value := as_object v ≫= (fun m => m !! key).
Definition expected_memo r : option string :=
  extra ← pr_extra r; memo ← json_get "memo" extra; as_str memo.
Definition expected_amount r : result Z X402Error :=
  ok_or (parse_u64 (pr_amount r)) (XOther ("Invalid amount: " +:+ pr_amount r)).

(** * The transaction to co-sign *)

Definition verify_transfer_instruction (keys : list Pubkey) (ix : CompiledInstruction) r
    (managed : list Pubkey) : result unit X402Error :=
  let? program := program_id_for_instruction keys ix in
  if decide (program <> TOKEN_PROGRAM /\ program <> TOKEN_2022_PROGRAM)
  then invalid "no_transfer_instruction" else
  match accounts ix with
  | _ :: mint :: destination :: authority :: _ =>
      if negb (tagged 12 9 (data ix)) then invalid "no_transfer_instruction" else
      let? mint := key_for_account_index keys mint in
      let? destination := key_for_account_index keys destination in
      let? authority := key_for_account_index keys authority in
      if decide (authority ∈ managed) then invalid "transaction_fee_payer_transferring_funds" else
      let expected_mint := resolve_expected_mint r in
      if decide (mint <> expected_mint) then invalid "mint_mismatch" else
      let? owner := x402_key "Invalid recipient" (pr_recipient r) in
      let? mint := x402_key "Invalid mint" expected_mint in
      if decide (destination <> find_associated_token_address owner mint program)
      then invalid "recipient_mismatch" else
      let amount := from_le (take 8 (drop 1 (data ix))) in
      let? expected := expected_amount r in
      if decide (amount < expected) then invalid "amount_mismatch" else
      let? decimals := expected_decimals r in
      if decide (byte_to_Z <$> data ix !! 9%nat <> Some decimals) then invalid "decimals_mismatch"
      else Ok tt
  | _ => invalid "no_transfer_instruction"
  end.

Definition transfer_index (header_budget : bool) : nat := if header_budget then 0 else 2.

Definition verify_exact_instructions (keys : list Pubkey) (ixs : list CompiledInstruction) r
    (managed : list Pubkey) (header_budget : bool) : result unit X402Error :=
  let prefix := transfer_index header_budget in
  let length_err := XOther (svm "transaction_instructions_length") in
  if decide (~ (prefix + 1 <= length ixs <= prefix + 5)%nat) then Err length_err else
  let? _ :=
    if header_budget then Ok tt else
    let? limit := ok_or (head ixs) length_err in
    let? _ := verify_compute_limit_instruction keys limit in
    let? price := ok_or (ixs !! 1%nat) length_err in
    verify_compute_price_instruction keys price in
  let? transfer := ok_or (ixs !! prefix) length_err in
  let? _ := verify_transfer_instruction keys transfer r managed in
  let? _ := verify_fee_payer_isolation keys ixs managed in
  let optional := drop (prefix + 1) ixs in
  let? _ := optional_loop keys 0 optional in
  check_memo keys optional (expected_memo r).

Definition verify_v1_config_presence (m : VersionedMessage) : result unit X402Error :=
  match m with
  | MessageV1 b config =>
      if existsb (is_compute_budget b) (instructions b)
      then invalid "transaction_v1_compute_budget_instruction" else
      if decide (is_Some (heap_size config)) then invalid "transaction_v1_heap_size" else
      if decide (compute_unit_limit config = None) then Err (err_budget "limit_instruction") else
      if decide (loaded_accounts_data_size config = None)
      then invalid "transaction_loaded_accounts_data_size_limit_missing" else Ok tt
  | _ => Ok tt
  end.

Definition verify_required_signers (m : VersionedMessage) (header_budget : bool) : result unit X402Error :=
  let keys := static_account_keys (body m) in
  let? authority := ok_or
    (instructions (body m) !! transfer_index header_budget ≫= (fun transfer =>
       accounts transfer !! 3%nat ≫= (fun index => keys !! index)))
    (XOther (svm "no_transfer_instruction")) in
  let? fee_payer := ok_or (head keys) (XOther (svm "transaction")) in
  let required := num_required_signatures (body m) in
  let? signers := ok_or (if decide (required <= length keys)%nat then Some (take required keys) else None)
    (XOther (svm "transaction")) in
  if existsb (fun signer => bool_decide (signer <> fee_payer /\ signer <> authority)) signers
  then invalid "transaction_unexpected_signer" else Ok tt.

(** [is_some_and] of a cap. *)
Definition above (cap : Z) (declared : option Z) : bool :=
  match declared with Some n => bool_decide (cap < n) | None => false end.

Definition verify_v1_budget (m : VersionedMessage) : result unit X402Error :=
  let err e := XOther (svm "transaction: " +:+ core_error_text e) in
  let? _ := verify_v1_config_presence m in
  let? d := rmap_err err (declared m) in
  if above EXACT_MAX_UNIT_LIMIT (d_unit_limit d) then Err (err_budget "limit_instruction_too_high") else
  if above EXACT_MAX_UNIT_PRICE (d_unit_price d) then Err (err_budget "price_instruction_too_high") else
  rmap (fun _ => tt)
    (rmap_err err (check_v1_budget_caps_with m EXACT_MAX_UNIT_LIMIT EXACT_MAX_UNIT_PRICE Present)).

Definition verify_exact_versioned_transaction (tx : VersionedTransaction) r (managed : list Pubkey) :
    result unit X402Error :=
  let m := message tx in
  let header_budget := bool_decide (version_of m = V1) in
  let? _ := if header_budget then verify_v1_budget m else Ok tt in
  let? _ := verify_exact_instructions (static_account_keys (body m)) (instructions (body m)) r managed
    header_budget in
  let? _ := rmap_err (fun _ => err_budget "price_instruction_too_high")
    (check_priority_fee m MAX_SPONSORED_PRIORITY_FEE_LAMPORTS) in
  verify_required_signers m header_budget.
End verify.

(** * The transaction the node reports

    [solana_transaction_status_client_types], as far as the code reads it. *)

Record UiCompiledInstruction := {
  ui_program_id_index : nat;
  ui_accounts : list nat;
  ui_data : string;
}.

Inductive UiInstruction (Value : Type) :=
| Compiled (ix : UiCompiledInstruction)
| Parsed (program program_id : string) (parsed : Value)
| PartiallyDecoded (program_id data : string).
Arguments Compiled {Value} ix.
Arguments Parsed {Value} program program_id parsed.
Arguments PartiallyDecoded {Value} program_id data.

Inductive UiMessage (Value : Type) :=
| ParsedMessage (account_keys : list string) (instructions : list (UiInstruction Value))
| RawMessage (account_keys : list string) (instructions : list UiCompiledInstruction).
Arguments ParsedMessage {Value} account_keys instructions.
Arguments RawMessage {Value} account_keys instructions.

(** An on-chain error is its debug text. [inner_instructions] is the sets of the
    CPI trace; [transaction] is [None] for the binary encodings. *)
Record TransactionMeta {Value : Type} := {
  tm_err : option string;
  tm_inner_instructions : option (list (list (UiInstruction Value)));
}.
Arguments TransactionMeta : clear implicits.

Record ConfirmedTransaction {Value : Type} := {
  ct_transaction : option (UiMessage Value);
  ct_meta : option (TransactionMeta Value);
  ct_block_time : option Z;
  ct_version : option TransactionVersion;
}.
Arguments ConfirmedTransaction : clear implicits.

Section confirmed.
Context {Key : Type} `{Crypto Key, Addresses} {Value : Type} `{JsonScalar Value, JsonObject Value}.
Implicit Types (r : PaymentRequirements Value) (tx : ConfirmedTransaction Value).

Definition is_token_program (program : string) : bool :=
  bool_decide (program = TOKEN_PROGRAM \/ program = TOKEN_2022_PROGRAM).

(** [object.get(key).and_then(read)]. *)
Definition field {A} (read : Value -> option A) (key : string) (object : gmap string Value) : option A :=
  v ← object !! key; read v.
Definition text_field (key : string) (object : gmap string Value) : string :=
  default "" (field as_str key object).

Section matching.
Context (destination mint : string) (amount decimals : Z).

Definition matches_parsed_transfer (ix : UiInstruction Value) : bool :=
  match ix with
  | Parsed _ program_id parsed =>
      is_token_program program_id &&
      match as_object parsed with
      | None => false
      | Some parsed =>
          bool_decide (field as_str "type" parsed = Some "transferChecked") &&
          match field as_object "info" parsed with
          | None => false
          | Some info =>
              let token_amount := field as_object "tokenAmount" info in
              let paid := default "" (token_amount ≫= field as_str "amount") in
              bool_decide (text_field "destination" info = destination) &&
              bool_decide (text_field "mint" info = mint) &&
              match parse_u64 paid with Some paid => bool_decide (amount <= paid) | None => false end &&
              bool_decide (token_amount ≫= field as_u64 "decimals" = Some decimals)
          end
      end
  | _ => false
  end.

(** The account list of length 4 at least; the source is not read. *)
Definition matches_raw_transfer (ix : UiCompiledInstruction) (keys : list string) : bool :=
  match keys !! ui_program_id_index ix with
  | None => false
  | Some program =>
      is_token_program program &&
      match bs58_into_vec (ui_data ix) with
      | None => false
      | Some bytes =>
          tagged 12 9 bytes &&
          bool_decide (amount <= from_le (take 8 (drop 1 bytes))) &&
          bool_decide (byte_to_Z <$> bytes !! 9%nat = Some decimals) &&
          match ui_accounts ix with
          | _ :: m :: d :: _ :: _ =>
              bool_decide (keys !! m = Some mint) && bool_decide (keys !! d = Some destination)
          | _ => false
          end
      end
  end.

Definition matches_transfer (raw_keys : option (list string)) (ix : UiInstruction Value) : bool :=
  match ix with
  | Compiled ix => match raw_keys with Some keys => matches_raw_transfer ix keys | None => false end
  | ix => matches_parsed_transfer ix
  end.
End matching.

Definition raw_keys_of (m : UiMessage Value) : option (list string) :=
  match m with RawMessage keys _ => Some keys | ParsedMessage _ _ => None end.
Definition top_level (m : UiMessage Value) : list (UiInstruction Value) :=
  match m with ParsedMessage _ ixs => ixs | RawMessage _ ixs => Compiled <$> ixs end.
Definition inner_of tx : list (UiInstruction Value) :=
  match ct_meta tx with Some meta => mjoin (default [] (tm_inner_instructions meta)) | None => [] end.

Definition expected_token_account r : result Pubkey X402Error :=
  let? owner := x402_key "Invalid recipient" (pr_recipient r) in
  let? mint := x402_key "Invalid mint" (resolve_expected_mint r) in
  let? token_program := x402_key "Invalid token program" (default TOKEN_PROGRAM (pr_token_program r)) in
  Ok (find_associated_token_address owner mint token_program).

Definition verify_on_chain_transfer tx r (amount : Z) : result unit X402Error :=
  let? destination := expected_token_account r in
  let? decimals := expected_decimals r in
  match ct_transaction tx with
  | None => invalid "no_transfer_instruction"
  | Some m =>
      match filter (fun ix => matches_transfer destination (resolve_expected_mint r) amount decimals
                      (raw_keys_of m) ix = true) (top_level m ++ inner_of tx) with
      | [_] => Ok tt
      | [] => invalid "no_transfer_instruction"
      | _ => invalid "multiple_matching_transfers"
      end
  end.

(** ** Memos *)

Definition memo_err : X402Error := XOther (svm "memo_mismatch").

Definition parsed_memo_text (parsed : Value) : option string :=
  match as_str parsed with
  | Some memo => Some memo
  | None =>
      fields ← as_object parsed; info ← field as_object "info" fields;
      value ← match info !! "memo" with Some v => Some v | None => info !! "data" end;
      as_str value
  end.

Definition decode_memo_data (encoded : string) : result string X402Error :=
  let? bytes := ok_or (bs58_into_vec encoded) memo_err in
  if utf8_valid bytes then Ok (String.string_of_list_byte bytes) else Err memo_err.

Definition compiled_memo (keys : list string) (ix : UiCompiledInstruction) : option (result string X402Error) :=
  if decide (keys !! ui_program_id_index ix = Some MEMO_PROGRAM)
  then Some (decode_memo_data (ui_data ix)) else None.

Definition memo_text_from_ui_instruction (ix : UiInstruction Value) (raw_account_keys : option (list string)) :
    option (result string X402Error) :=
  match ix with
  | Parsed program program_id parsed =>
      if decide (program_id <> MEMO_PROGRAM /\ program <> "spl-memo") then None
      else Some (ok_or (parsed_memo_text parsed) memo_err)
  | PartiallyDecoded program_id data =>
      if decide (program_id <> MEMO_PROGRAM) then None else Some (decode_memo_data data)
  | Compiled ix => keys ← raw_account_keys; compiled_memo keys ix
  end.

Definition transaction_memos tx : result (list string) X402Error :=
  match ct_transaction tx with
  | None => Ok []
  | Some (ParsedMessage keys ixs) =>
      collect id (omap (fun ix => memo_text_from_ui_instruction ix (Some keys)) ixs)
  | Some (RawMessage keys ixs) => collect id (omap (compiled_memo keys) ixs)
  end.

Definition verify_transaction_details tx r : result unit X402Error :=
  match ct_meta tx ≫= tm_err with
  | Some e => Err (XTransactionFailed ("Some(" +:+ e +:+ ")"))
  | None =>
      let? amount := expected_amount r in
      let? _ := verify_on_chain_transfer tx r amount in
      match expected_memo r with
      | None => Ok tt
      | Some memo =>
          let? memos := transaction_memos tx in
          match memos with
          | [actual] => if decide (actual <> memo) then Err memo_err else Ok tt
          | _ => invalid "memo_count"
          end
      end
  end.

(** [i64::try_from] of a u64. *)
Definition verify_transaction_age tx r (now_unix : Z) : result unit X402Error :=
  let max_age := default DEFAULT_MAX_TIMEOUT_SECONDS (pr_max_age r) in
  let? block_time := ok_or (ct_block_time tx) (XOther (svm "missing_block_time")) in
  let age := i64_saturating_sub now_unix block_time in
  if decide (as_secs max_age < age)
  then Err (XOther (svm "expired: confirmed " +:+ pretty age +:+ "s ago, accepted for "
    +:+ pretty max_age +:+ "s"))
  else Ok tt.
End confirmed.

(** * What an accepted transaction is *)

Section layout.
Context {Key : Type} `{Crypto Key, Addresses} {Value : Type} `{JsonScalar Value, JsonObject Value}.
Implicit Types (r : PaymentRequirements Value) (m : VersionedMessage).
Context (keys : list Pubkey).

(** A ComputeBudget operation with its little-endian number at most [cap]. *)
Definition budget_call (tag : Z) (n : nat) (cap : Z) (ix : CompiledInstruction) : Prop :=
  runs keys COMPUTE_BUDGET_PROGRAM ix /\
  exists v, data ix = byte_of_Z tag :: le_bytes n v /\ 0 <= v <= cap.

(** The transfer of the route: at least its price, of its mint at its
    precision, to the associated account of the payee, by someone else than a
    managed signer. *)
Inductive pays r (managed : list Pubkey) (ix : CompiledInstruction) : Prop :=
| pays_intro program source mint destination authority rest owner mint_key sender amount price decimals :
    runs keys program ix ->
    program = TOKEN_PROGRAM \/ program = TOKEN_2022_PROGRAM ->
    accounts ix = source :: mint :: destination :: authority :: rest ->
    data ix = byte_of_Z 12 :: u64_bytes amount ++ [byte_of_Z decimals] ->
    in_u64 amount -> 0 <= decimals < 256 ->
    keys !! mint = Some (resolve_expected_mint r) ->
    x402_key "Invalid recipient" (pr_recipient r) = Ok owner ->
    x402_key "Invalid mint" (resolve_expected_mint r) = Ok mint_key ->
    keys !! destination = Some (find_associated_token_address owner mint_key program) ->
    keys !! authority = Some sender -> sender ∉ managed ->
    parse_u64 (pr_amount r) = Some price -> price <= amount ->
    pr_decimals r = Some decimals ->
    pays r managed ix.

Definition optional_ok (optional : list CompiledInstruction) : Prop :=
  forall i ix, optional !! i = Some ix ->
    runs keys MEMO_PROGRAM ix \/ (i < 3)%nat /\ runs keys LIGHTHOUSE_PROGRAM ix.

Definition memo_bound r (optional : list CompiledInstruction) : Prop :=
  forall memo, expected_memo r = Some memo ->
    exists ix, filter (runs keys MEMO_PROGRAM) optional = [ix] /\
      data ix = str_bytes memo /\ utf8_valid (data ix) = true.

(** A managed key is neither invoked nor named. *)
Definition isolated (managed : list Pubkey) (ix : CompiledInstruction) : Prop :=
  forall key, key ∈ managed -> names keys key ix = false /\ ~ runs keys key ix.
End layout.

Definition v1_budget (m : VersionedMessage) : Prop :=
  exists b config limit loaded, m = MessageV1 b config /\
    existsb (is_compute_budget b) (instructions b) = false /\ heap_size config = None /\
    compute_unit_limit config = Some limit /\ limit <> 0 /\ limit <= EXACT_MAX_UNIT_LIMIT /\
    loaded_accounts_data_size config = Some loaded /\ 0 < loaded <= MAX_LOADED_ACCOUNTS_DATA_SIZE_BYTES /\
    forall fee, priority_fee config = Some fee -> v1_price limit fee <= EXACT_MAX_UNIT_PRICE.

Definition budget_ok (m : VersionedMessage) (budget : list CompiledInstruction) : Prop :=
  match version_of m with
  | V1 => budget = [] /\ v1_budget m
  | V0 => exists limit price, budget = [limit; price] /\
            budget_call (static_account_keys (body m)) 2 4 EXACT_MAX_UNIT_LIMIT limit /\
            budget_call (static_account_keys (body m)) 3 8 EXACT_MAX_UNIT_PRICE price
  end.

(** Only the fee payer and the transfer's authority sign. *)
Definition two_signers (m : VersionedMessage) (transfer : CompiledInstruction) : Prop :=
  let keys := static_account_keys (body m) in
  exists fee_payer index authority, head keys = Some fee_payer /\
    accounts transfer !! 3%nat = Some index /\ keys !! index = Some authority /\
    (num_required_signatures (body m) <= length keys)%nat /\
    Forall (fun signer => signer = fee_payer \/ signer = authority)
      (take (num_required_signatures (body m)) keys).

Section accepted.
Context {Key : Type} `{Crypto Key, Addresses} {Value : Type} `{JsonScalar Value, JsonObject Value}.
Implicit Types (r : PaymentRequirements Value) (m : VersionedMessage) (keys : list Pubkey).

Definition exact_payment m r (managed : list Pubkey) : Prop :=
  let keys := static_account_keys (body m) in
  exists budget transfer optional,
    instructions (body m) = budget ++ transfer :: optional /\
    budget_ok m budget /\
    pays keys r managed transfer /\
    Forall (isolated keys managed) (instructions (body m)) /\
    (length optional <= 4)%nat /\ optional_ok keys optional /\ memo_bound keys r optional /\
    is_ok (declared m) = true /\ runtime_fee m <= MAX_SPONSORED_PRIORITY_FEE_LAMPORTS /\
    two_signers m transfer.

Lemma tagged_ok tag n d :
  0 <= tag < 256 -> tagged tag n d = true <-> exists rest, d = byte_of_Z tag :: rest /\ length rest = n.
Proof.
  intros Ht. unfold tagged. rewrite andb_true_iff, !bool_decide_eq_true. destruct d as [|b d]; simpl.
  - split; [by intros []|by intros (? & ? & ?)].
  - split.
    + intros [[= <-] [= Hb]]. exists d. split; [|done]. by rewrite <-Hb, byte_of_to_Z.
    + intros (? & [= -> ->] & ->). rewrite byte_to_of_Z, Z.mod_small by done. done.
Qed.

Lemma program_ok keys ix p : program_id_for_instruction keys ix = Ok p <-> runs keys p ix.
Proof. apply ok_or_ok. Qed.

Lemma tagged_value tag n cap d :
  0 <= tag < 256 -> cap < 256 ^ Z.of_nat n ->
  tagged tag n d = true /\ ~ cap < from_le (drop 1 d) <->
  exists v, d = byte_of_Z tag :: le_bytes n v /\ 0 <= v <= cap.
Proof.
  intros Ht Hc. rewrite tagged_ok by done. split.
  - intros [(rest & -> & <-) Hv]. exists (from_le rest). rewrite le_bytes_from_le. simpl in Hv.
    rewrite drop_0 in Hv. pose proof (from_le_range rest). split; [done|lia].
  - intros (v & -> & Hv). split; [eexists; split; [done|apply length_le_bytes]|]. simpl.
    rewrite drop_0, from_le_bytes_small by lia. lia.
Qed.

(** One ComputeBudget check, whatever its codes. *)
Lemma budget_call_ok {E} keys ix tag n cap (e e' : E) err :
  0 <= tag < 256 -> cap < 256 ^ Z.of_nat n ->
  (let? program := rmap_err err (program_id_for_instruction keys ix) in
   if bool_decide (program <> COMPUTE_BUDGET_PROGRAM) || negb (tagged tag n (data ix)) then Err e else
   if decide (cap < from_le (drop 1 (data ix))) then Err e' else Ok tt) = Ok tt <->
  budget_call keys tag n cap ix.
Proof.
  intros Ht Hc. unfold budget_call. rewrite <-tagged_value by done. rewrite rbind_ok. split.
  - intros (program & Hp%rmap_err_ok%program_ok & Hif).
    destruct (bool_decide_reflect (program <> COMPUTE_BUDGET_PROGRAM)) as [|Hp']; [done|].
    apply dec_stable in Hp' as ->. simpl in Hif. destruct (tagged _ _ _); [|done]. by case_decide.
  - intros (Hp & Htag & Hv). exists COMPUTE_BUDGET_PROGRAM.
    rewrite (proj2 (program_ok _ _ _) Hp), Htag. rewrite decide_False by done. done.
Qed.

Lemma rmap_err_id {A E} (x : result A E) : rmap_err id x = x.
Proof. by destruct x. Qed.

Lemma compute_limit_ok keys ix :
  verify_compute_limit_instruction keys ix = Ok tt <-> budget_call keys 2 4 EXACT_MAX_UNIT_LIMIT ix.
Proof.
  rewrite <-(budget_call_ok keys ix 2 4 EXACT_MAX_UNIT_LIMIT (err_budget "limit_instruction")
    (err_budget "limit_instruction_too_high") id) by done.
  by rewrite rmap_err_id.
Qed.

Lemma compute_price_ok keys ix :
  verify_compute_price_instruction keys ix = Ok tt <-> budget_call keys 3 8 EXACT_MAX_UNIT_PRICE ix.
Proof.
  rewrite <-(budget_call_ok keys ix 3 8 EXACT_MAX_UNIT_PRICE (err_budget "price_instruction")
    (err_budget "price_instruction_too_high") id) by done.
  by rewrite rmap_err_id.
Qed.

Lemma is_managed_ok keys managed i :
  is_managed keys managed i = true <-> exists key, keys !! i = Some key /\ key ∈ managed.
Proof.
  unfold is_managed. destruct (keys !! i) as [key|]; [|naive_solver].
  rewrite bool_decide_eq_true. naive_solver.
Qed.

Lemma managed_or_isolated keys managed ix :
  is_managed keys managed (program_id_index ix) || existsb (is_managed keys managed) (accounts ix) = false <->
  isolated keys managed ix.
Proof.
  unfold isolated, names, runs. rewrite orb_false_iff. split.
  - intros [Hp Ha] key Hkey. split.
    + apply not_true_iff_false. rewrite existsb_exists. intros (i & Hi & Hk%bool_decide_eq_true).
      apply not_true_iff_false in Ha. apply Ha. apply existsb_exists. exists i. split; [done|].
      apply is_managed_ok. eauto.
    + intros Hk. apply not_true_iff_false in Hp. apply Hp. apply is_managed_ok. eauto.
  - intros Hiso. split; apply not_true_iff_false.
    + intros (key & Hk & Hkey)%is_managed_ok. by apply (Hiso key).
    + rewrite existsb_exists. intros (i & Hi & (key & Hk & Hkey)%is_managed_ok).
      destruct (Hiso key Hkey) as [Hn _]. apply not_true_iff_false in Hn. apply Hn.
      apply existsb_exists. exists i. split; [done|]. by apply bool_decide_eq_true.
Qed.

Lemma isolation_ok keys ixs managed :
  verify_fee_payer_isolation keys ixs managed = Ok tt <-> Forall (isolated keys managed) ixs.
Proof.
  unfold verify_fee_payer_isolation. case_decide as Hm.
  { split; [|done]. intros _. apply Forall_true. intros ix key. by rewrite Hm, elem_of_nil. }
  induction ixs as [|ix ixs IH]; simpl; [done|]. rewrite Forall_cons, <-IH, <-managed_or_isolated.
  destruct (_ || _); [|tauto]. by split; [|intros []].
Qed.

Lemma optional_loop_ok keys ixs n :
  optional_loop keys n ixs = Ok tt <->
  forall i ix, ixs !! i = Some ix ->
    runs keys MEMO_PROGRAM ix \/ (n + i < 3)%nat /\ runs keys LIGHTHOUSE_PROGRAM ix.
Proof.
  revert n. induction ixs as [|ix ixs IH]; intros n; simpl; [naive_solver|].
  rewrite rbind_ok. split.
  - intros (program & Hp%program_ok & Hif) i ix' Hi.
    destruct (_ || _) eqn:Hb; [|done]. destruct i as [|i]; simpl in Hi; simplify_eq.
    + rewrite Nat.add_0_r. apply orb_true_iff in Hb as [->%bool_decide_eq_true|Hb]; [by left|right].
      apply andb_true_iff in Hb as [Hn%bool_decide_eq_true ->%bool_decide_eq_true]. done.
    + rewrite Nat.add_succ_r, <-Nat.add_succ_l. by eapply IH.
  - intros Hall. destruct (Hall 0%nat ix eq_refl) as [Hp|[Hn Hp]];
      (eexists; split; [by apply program_ok|]).
    + simpl. apply IH. intros i ix' Hi. rewrite Nat.add_succ_l, <-Nat.add_succ_r. by apply (Hall (S i)).
    + rewrite (bool_decide_true (n < 3)%nat) by lia. simpl.
      apply IH. intros i ix' Hi. rewrite Nat.add_succ_l, <-Nat.add_succ_r. by apply (Hall (S i)).
Qed.

Lemma is_memo_ok keys ix : is_memo keys ix = true <-> runs keys MEMO_PROGRAM ix.
Proof.
  unfold is_memo. rewrite <-program_ok. destruct (program_id_for_instruction keys ix); [|done].
  rewrite bool_decide_eq_true. naive_solver.
Qed.

Lemma check_memo_ok keys optional expected :
  check_memo keys optional expected = Ok tt <->
  forall memo, expected = Some memo ->
    exists ix, filter (runs keys MEMO_PROGRAM) optional = [ix] /\
      data ix = str_bytes memo /\ utf8_valid (data ix) = true.
Proof.
  unfold check_memo. destruct expected as [expected|]; [|naive_solver].
  rewrite (list_filter_iff _ (runs keys MEMO_PROGRAM)) by (intros; apply is_memo_ok).
  destruct (filter _ optional) as [|ix [|ix' l]].
  1,3: split; [done|]; intros Hall; destruct (Hall expected eq_refl) as (? & [=] & _).
  destruct (utf8_valid (data ix)) eqn:Hu; simpl.
  - case_decide as Hd; (split; [|naive_solver]); [done|naive_solver].
  - split; [done|]. intros Hall. destruct (Hall expected eq_refl) as (? & [= <-] & _ & ?). congruence.
Qed.

Lemma read_amount d :
  tagged 12 9 d = true <->
  exists amount decimals, d = byte_of_Z 12 :: u64_bytes amount ++ [byte_of_Z decimals] /\
    in_u64 amount /\ 0 <= decimals < 256.
Proof.
  rewrite tagged_ok by lia. split.
  - intros (rest & -> & Hlen). exists (from_le (take 8 rest)).
    assert (Ht : length (take 8 rest) = 8%nat) by (rewrite length_take; lia).
    destruct (drop 8 rest) as [|b [|b' l]] eqn:Hd.
    1,3: apply (f_equal length) in Hd; rewrite length_drop, Hlen in Hd; done.
    exists (byte_to_Z b). split_and!; [|by apply from_le_in_u64|apply byte_to_Z_range..].
    rewrite byte_of_to_Z. f_equal. rewrite <-(take_drop 8 rest) at 1. rewrite Hd. f_equal.
    symmetry. unfold u64_bytes. pose proof (le_bytes_from_le (take 8 rest)) as Hle. by rewrite Ht in Hle.
  - intros (amount & decimals & -> & _). eexists. split; [done|].
    unfold u64_bytes. by rewrite length_app, length_le_bytes.
Qed.

Lemma amount_fields amount decimals :
  in_u64 amount -> 0 <= decimals < 256 ->
  let d := byte_of_Z 12 :: u64_bytes amount ++ [byte_of_Z decimals] in
  from_le (take 8 (drop 1 d)) = amount /\ byte_to_Z <$> d !! 9%nat = Some decimals.
Proof.
  intros Ha Hd d. assert (Hlen : length (u64_bytes amount) = 8%nat) by apply length_le_bytes.
  change (drop 1 d) with (u64_bytes amount ++ [byte_of_Z decimals]).
  change (d !! 9%nat) with ((u64_bytes amount ++ [byte_of_Z decimals]) !! 8%nat). split.
  - rewrite take_app_length' by done. by apply from_le_u64.
  - rewrite lookup_app_r, Hlen by lia. cbn. by rewrite byte_to_of_Z, Z.mod_small.
Qed.

Lemma transfer_ok keys ix r managed :
  verify_transfer_instruction keys ix r managed = Ok tt <-> pays keys r managed ix.
Proof.
  unfold verify_transfer_instruction. rewrite rbind_ok. split.
  - intros (program & Hp%program_ok & Hif). case_decide as Hprog; [done|].
    destruct (accounts ix) as [|source [|m [|d [|a rest]]]] eqn:Hacc; try done.
    destruct (tagged 12 9 (data ix)) eqn:Ht; [simpl in Hif|done].
    apply read_amount in Ht as (amount & decimals & Hdata & Ha & Hdec).
    destruct (amount_fields _ _ Ha Hdec) as [Hread Hbyte]. rewrite Hdata, Hread, Hbyte in Hif.
    unfold key_for_account_index in Hif.
    apply rbind_ok in Hif as (mint & Hmint%ok_or_ok & Hif).
    apply rbind_ok in Hif as (dest & Hdest%ok_or_ok & Hif).
    apply rbind_ok in Hif as (sender & Hsender%ok_or_ok & Hif). case_decide as Hman; [done|].
    case_decide as Hm; [done|]. subst mint.
    apply rbind_ok in Hif as (owner & Howner & Hif). apply rbind_ok in Hif as (mint_key & Hmk & Hif).
    case_decide as Hd; [done|]. subst dest.
    apply rbind_ok in Hif as (price & Hprice%ok_or_ok & Hif). case_decide as Hlt; [done|].
    apply rbind_ok in Hif as (dcs & Hdcs%ok_or_ok & Hif). case_decide as Hneq; [done|].
    injection Hneq as ->.
    apply (pays_intro keys r managed ix program source m d a rest owner mint_key sender amount price dcs);
      try done; [|lia].
    destruct (decide (program = TOKEN_PROGRAM)), (decide (program = TOKEN_2022_PROGRAM)); tauto.
  - intros []. exists program. split; [by apply program_ok|]. rewrite decide_False by tauto.
    match goal with Ha : accounts ix = _, Hd : data ix = _ |- _ => rewrite Ha, Hd end.
    rewrite (proj2 (read_amount _)) by eauto. destruct (amount_fields amount decimals) as [-> ->]; [done..|].
    unfold key_for_account_index, expected_amount, expected_decimals. cbn [negb].
    repeat match goal with
    | Hk : _ !! _ = Some _ |- _ => rewrite Hk; cbn [ok_or rbind]; clear Hk
    | Hk : x402_key _ _ = Ok _ |- _ => rewrite Hk; cbn [ok_or rbind]; clear Hk
    | Hk : parse_u64 _ = Some _ |- _ => rewrite Hk; cbn [ok_or rbind]; clear Hk
    | Hk : pr_decimals _ = Some _ |- _ => rewrite Hk; cbn [ok_or rbind]; clear Hk
    | |- context [decide ?P] => rewrite (decide_False (P:=P)) by (done || naive_solver lia)
    end. done.
Qed.

Definition budget_prefix keys (header_budget : bool) (budget : list CompiledInstruction) : Prop :=
  if header_budget then budget = [] else
  exists limit price, budget = [limit; price] /\
    budget_call keys 2 4 EXACT_MAX_UNIT_LIMIT limit /\ budget_call keys 3 8 EXACT_MAX_UNIT_PRICE price.

Lemma budget_prefix_length keys hb budget : budget_prefix keys hb budget -> length budget = transfer_index hb.
Proof. destruct hb; [by intros ->|by intros (? & ? & -> & _)]. Qed.

(** The checks from the transfer on. *)
Lemma rest_ok keys ixs r managed transfer optional :
  (let? _ := verify_transfer_instruction keys transfer r managed in
   let? _ := verify_fee_payer_isolation keys ixs managed in
   let? _ := optional_loop keys 0 optional in
   check_memo keys optional (expected_memo r)) = Ok tt <->
  pays keys r managed transfer /\ Forall (isolated keys managed) ixs /\
  optional_ok keys optional /\ memo_bound keys r optional.
Proof.
  unfold memo_bound, optional_ok. rewrite <-transfer_ok, <-isolation_ok, <-check_memo_ok.
  pose proof (optional_loop_ok keys optional 0) as Hopt. simpl in Hopt. rewrite <-Hopt. clear Hopt.
  destruct (verify_transfer_instruction _ _ _ _) as [[]|], (verify_fee_payer_isolation _ _ _) as [[]|],
    (optional_loop _ _ _) as [[]|]; simpl; try tauto; split; try done; by intros (? & ? & ? & ?).
Qed.

Lemma prefix_checked keys ixs hb err :
  (transfer_index hb + 1 <= length ixs)%nat ->
  (if hb then Ok tt else
    let? limit := ok_or (head ixs) err in
    let? _ := verify_compute_limit_instruction keys limit in
    let? price := ok_or (ixs !! 1%nat) err in
    verify_compute_price_instruction keys price) = Ok tt <->
  exists budget, ixs = budget ++ drop (transfer_index hb) ixs /\ budget_prefix keys hb budget.
Proof.
  intros Hlen. destruct hb; simpl in *.
  { split; [|done]. intros _. by exists []. }
  destruct ixs as [|limit [|price ixs]]; simpl in *; [lia|lia|]. rewrite drop_0, rbind_ok. split.
  - intros ([] & Hl%compute_limit_ok & Hp%compute_price_ok). exists [limit; price]. split; [done|]. by exists limit, price.
  - intros (budget & Heq & (l & p & -> & Hl & Hp)). injection Heq as -> ->. exists tt.
    by rewrite compute_limit_ok, compute_price_ok.
Qed.

Lemma instructions_ok keys ixs r managed hb :
  verify_exact_instructions keys ixs r managed hb = Ok tt <->
  exists budget transfer optional, ixs = budget ++ transfer :: optional /\
    budget_prefix keys hb budget /\ pays keys r managed transfer /\ Forall (isolated keys managed) ixs /\
    (length optional <= 4)%nat /\ optional_ok keys optional /\ memo_bound keys r optional.
Proof.
  unfold verify_exact_instructions. case_decide as Hlen.
  { split; [done|]. intros (budget & transfer & optional & -> & Hb%budget_prefix_length & _ & _ & Ho & _).
    exfalso. apply Hlen. rewrite length_app. simpl. lia. }
  rewrite rbind_ok. split.
  - intros ([] & Hpre%prefix_checked & Hrest); [|lia]. destruct Hpre as (budget & Heq & Hb).
    apply rbind_ok in Hrest as (transfer & Ht%ok_or_ok & Hrest%rest_ok).
    apply drop_S in Ht. rewrite Nat.add_1_r in Hrest. exists budget, transfer, (drop (S (transfer_index hb)) ixs).
    rewrite <-Ht, length_drop. destruct Hrest as (? & ? & ? & ?). split_and!; try done. lia.
  - intros (budget & transfer & optional & Heq & Hb & Hp & Hi & Hl & Ho & Hm).
    assert (Hd : drop (transfer_index hb) ixs = transfer :: optional).
    { rewrite Heq. apply drop_app_length'. symmetry. by eapply budget_prefix_length. }
    exists tt. split.
    + apply prefix_checked; [lia|]. exists budget. by rewrite Hd.
    + assert (Ht : ixs !! transfer_index hb = Some transfer).
      { rewrite <-(Nat.add_0_r (transfer_index hb)), <-lookup_drop, Hd. done. }
      rewrite Ht, Nat.add_1_r. cbn [ok_or rbind].
      replace (drop (S (transfer_index hb)) ixs) with optional; [by apply rest_ok|].
      by rewrite <-Nat.add_1_r, <-drop_drop, Hd.
Qed.

Lemma rmap_unit_ok {A E} (x : result A E) : rmap (fun _ => tt) x = Ok tt <-> exists a, x = Ok a.
Proof. destruct x; simpl; naive_solver. Qed.


Lemma loaded_present_ok o :
  loaded_accepted Present o = true <-> exists n, o = Some n /\ 0 < n <= MAX_LOADED_ACCOUNTS_DATA_SIZE_BYTES.
Proof.
  simpl. destruct o as [n|]; [|naive_solver]. rewrite andb_true_iff, !bool_decide_eq_true. naive_solver.
Qed.

Lemma v1_caps_ok m max_limit max_price :
  version_of m = V1 ->
  (exists o, check_v1_budget_caps_with m max_limit max_price Present = Ok o) <->
  exists d, declared m = Ok d /\ (forall l, d_unit_limit d = Some l -> l <> 0 /\ l <= max_limit) /\
    (forall p, d_unit_price d = Some p -> p <= max_price) /\
    exists n, d_loaded_limit d = Some n /\ 0 < n <= MAX_LOADED_ACCOUNTS_DATA_SIZE_BYTES.
Proof.
  intros Hv. unfold check_v1_budget_caps_with. rewrite Hv, decide_False by auto.
  destruct (declared m) as [d|]; cbn [rbind]; [|naive_solver].
  setoid_rewrite <-loaded_present_ok. split.
  - intros (o & Ho). apply rbind_ok in Ho as ([] & Hl & Ho). rewrite check_unit_limit_ok in Hl.
    apply rbind_ok in Ho as ([] & Hp & Ho). rewrite check_unit_price_ok in Hp. destruct (loaded_accepted _ _) eqn:Hn; [|done]. by exists d.
  - intros (? & [= <-] & Hl & Hp & Hn).
    rewrite (proj2 (check_unit_limit_ok _ _) Hl), (proj2 (check_unit_price_ok _ _) Hp), Hn. eauto.
Qed.

Lemma above_ok cap o : above cap o = false <-> forall n, o = Some n -> n <= cap.
Proof.
  unfold above. destruct o as [n|]; [|naive_solver]. rewrite bool_decide_eq_false.
  split; [intros ?? [= <-]; lia|]. intros Hall. specialize (Hall n eq_refl). lia.
Qed.

Lemma presence_ok b config :
  verify_v1_config_presence (MessageV1 b config) = Ok tt <->
  existsb (is_compute_budget b) (instructions b) = false /\ heap_size config = None /\
  is_Some (compute_unit_limit config) /\ is_Some (loaded_accounts_data_size config).
Proof.
  simpl. destruct (existsb _ _); [naive_solver|]. destruct (heap_size config); simpl; [naive_solver|].
  destruct (compute_unit_limit config), (loaded_accounts_data_size config); simpl; naive_solver.
Qed.

Lemma v1_budget_ok m :
  version_of m = V1 -> verify_v1_budget m = Ok tt <-> v1_budget m.
Proof.
  intros Hv. unfold verify_v1_budget. rewrite rbind_ok. split.
  - intros ([] & Hpres & (d & Hd%rmap_err_ok & Hrest)%rbind_ok).
    destruct (above EXACT_MAX_UNIT_LIMIT _); [done|]. destruct (above EXACT_MAX_UNIT_PRICE _); [done|].
    apply rmap_unit_ok in Hrest as (o & Hrest%rmap_err_ok).
    destruct (proj1 (v1_caps_ok m _ _ Hv) (ex_intro _ o Hrest)) as (d' & Hd' & Hl & Hp & Hn).
    assert (d' = d) as -> by congruence. destruct m as [|?|b config]; [done..|].
    apply presence_ok in Hpres as (Hcb & Hheap & [limit Hlim] & [loaded Hload]).
    simpl in Hd. rewrite Hcb, Hlim in Hd. injection Hd as <-. simpl in *.
    destruct (Hl limit eq_refl) as [? ?]. destruct (Hn) as (n & Hn' & ?).
    exists b, config, limit, loaded.
    split_and!; try done; try lia; try congruence.
    + assert (n = loaded) as -> by congruence. lia.
    + assert (n = loaded) as -> by congruence. lia.
    + intros fee Hfee. apply Hp. by rewrite Hfee.
  - intros (b & config & limit & loaded & -> & Hcb & Hheap & Hlim & Hnz & Hl & Hload & Hn & Hp).
    exists tt. split; [apply presence_ok; rewrite Hcb, Hheap, Hlim, Hload; eauto|].
    assert (Hd : declared (MessageV1 b config) = Ok {| d_unit_limit := Some limit;
      d_unit_price := v1_price limit <$> priority_fee config; d_loaded_limit := Some loaded;
      instruction_indexes := [] |}) by (simpl; rewrite Hcb, Hlim, Hload; done).
    assert (Hp' : forall p, v1_price limit <$> priority_fee config = Some p -> p <= EXACT_MAX_UNIT_PRICE).
    { intros p Heq. destruct (priority_fee config) as [fee|]; [|done]. injection Heq as <-. by apply Hp. }
    rewrite Hd. cbn [rmap_err rbind d_unit_limit d_unit_price].
    rewrite (proj2 (above_ok _ _)) by naive_solver lia. rewrite (proj2 (above_ok _ _)) by done.
    destruct (proj2 (v1_caps_ok (MessageV1 b config) EXACT_MAX_UNIT_LIMIT EXACT_MAX_UNIT_PRICE Hv)) as [o ->]; [|done].
    eexists. split; [exact Hd|]. simpl. split_and!; [naive_solver lia|done|eauto].
Qed.

Lemma signers_ok m hb transfer :
  instructions (body m) !! transfer_index hb = Some transfer ->
  verify_required_signers m hb = Ok tt <-> two_signers m transfer.
Proof.
  intros Ht. unfold verify_required_signers, two_signers. rewrite Ht. simpl. rewrite rbind_ok. split.
  - intros (authority & Ha%ok_or_ok & (fee_payer & Hf%ok_or_ok & (signers & Hs%ok_or_ok & Hif)%rbind_ok)%rbind_ok).
    apply bind_Some in Ha as (index & Hi & Ha). case_decide as Hlen; [|done]. injection Hs as <-.
    exists fee_payer, index, authority. split_and!; try done. destruct (existsb _ _) eqn:Hex; [done|].
    apply Forall_forall. intros s Hs. apply not_true_iff_false in Hex.
    destruct (decide (s = fee_payer)); [by left|]. destruct (decide (s = authority)); [by right|].
    exfalso. apply Hex, existsb_exists. exists s. rewrite bool_decide_eq_true. by rewrite <-list_elem_of_In.
  - intros (fee_payer & index & authority & Hf & Hi & Ha & Hlen & Hall). exists authority.
    rewrite Hi. simpl. rewrite Ha, Hf. split; [done|]. cbn [ok_or rbind]. rewrite decide_True by done.
    cbn [ok_or rbind]. destruct (existsb _ _) eqn:Hex; [|done].
    apply existsb_exists in Hex as (s & Hs & Hn%bool_decide_eq_true).
    rewrite Forall_forall in Hall. apply list_elem_of_In in Hs. naive_solver.
Qed.

(** The accepted transactions. *)
Lemma verified_iff tx r managed :
  verify_exact_versioned_transaction tx r managed = Ok tt <-> exact_payment (message tx) r managed.
Proof.
  unfold verify_exact_versioned_transaction, exact_payment. set (m := message tx) in *.
  rewrite rbind_ok.
  assert (Hfee : forall hb, (let? _ := rmap_err (fun _ => err_budget "price_instruction_too_high")
      (check_priority_fee m MAX_SPONSORED_PRIORITY_FEE_LAMPORTS) in verify_required_signers m hb) = Ok tt <->
    (is_ok (declared m) = true /\ runtime_fee m <= MAX_SPONSORED_PRIORITY_FEE_LAMPORTS) /\
    verify_required_signers m hb = Ok tt).
  { intros hb. rewrite <-priority_fee_checked, rbind_ok. split.
    - intros (fee & Hf%rmap_err_ok & Hs). eauto.
    - intros [[fee Hf] Hs]. exists fee. by rewrite Hf. }
  assert (Hbudget : forall budget, budget_ok m budget <->
    (if bool_decide (version_of m = V1) then verify_v1_budget m else Ok tt) = Ok tt /\
    budget_prefix (static_account_keys (body m)) (bool_decide (version_of m = V1)) budget).
  { intros budget. unfold budget_ok. destruct (version_of m) eqn:Hv; simpl; [tauto|].
    rewrite v1_budget_ok by done. tauto. }
  setoid_rewrite Hbudget. set (hb := bool_decide (version_of m = V1)) in *.
  assert (Hat : forall budget transfer optional, budget_prefix (static_account_keys (body m)) hb budget ->
    instructions (body m) = budget ++ transfer :: optional ->
    instructions (body m) !! transfer_index hb = Some transfer).
  { intros budget transfer optional <-%budget_prefix_length ->. by apply list_lookup_middle. }
  split.
  - intros ([] & Hv1 & ([] & Hix%instructions_ok & [Hfees Hsign]%Hfee)%rbind_ok).
    destruct Hix as (budget & transfer & optional & Heq & Hb & Hrest).
    exists budget, transfer, optional. rewrite (signers_ok _ _ transfer) in Hsign by eauto. naive_solver.
  - intros (budget & transfer & optional & Heq & [Hv1 Hb] & Hp & Hi & Hl & Ho & Hm & Hd & Hf & Hs).
    exists tt. split; [done|]. rewrite rbind_ok. exists tt. split.
    + apply instructions_ok. exists budget, transfer, optional. by split_and!.
    + apply Hfee. rewrite (signers_ok _ _ transfer) by eauto. done.
Qed.
(** C9. The verification accepts exactly the transactions the sponsor means to pay
    for: the two budget operations or the header budget within their caps, one
    transfer of at least the price to the payee's account by a key that is not the
    sponsor's, at most four memos and assertions with the route's memo, no
    instruction that invokes or names the sponsor, a bounded fee, and no signer
    but the fee payer and the transfer's authority. *)
Theorem exact_accepts_iff tx r managed :
  verify_exact_versioned_transaction tx r managed = Ok tt <-> exact_payment (message tx) r managed.
Proof. apply verified_iff. Qed.
End accepted.

(** * What a confirmed transaction transfers *)

Record Transfer := { tr_mint : string; tr_destination : string; tr_amount : Z; tr_decimals : Z }.

#[export] Instance Transfer_eq_dec : EqDecision Transfer.
Proof. solve_decision. Defined.

Section transfers.
Context {Key : Type} `{Crypto Key, Addresses} {Value : Type} `{JsonScalar Value, JsonObject Value}.
Implicit Types (r : PaymentRequirements Value) (tx : ConfirmedTransaction Value).

(** The [transferChecked] an instruction is, in either encoding. *)
Definition parsed_transfer (program_id : string) (parsed : Value) : option Transfer :=
  if is_token_program program_id then
    object ← as_object parsed;
    kind ← field as_str "type" object;
    if decide (kind = "transferChecked") then
      info ← field as_object "info" object;
      token_amount ← field as_object "tokenAmount" info;
      text ← field as_str "amount" token_amount;
      amount ← parse_u64 text;
      decimals ← field as_u64 "decimals" token_amount;
      Some {| tr_mint := text_field "mint" info; tr_destination := text_field "destination" info;
              tr_amount := amount; tr_decimals := decimals |}
    else None
  else None.

Definition raw_transfer (keys : list string) (ix : UiCompiledInstruction) : option Transfer :=
  program ← keys !! ui_program_id_index ix;
  bytes ← bs58_into_vec (ui_data ix);
  if is_token_program program && tagged 12 9 bytes then
    match ui_accounts ix with
    | _ :: m :: d :: _ :: _ =>
        mint ← keys !! m; destination ← keys !! d; decimals ← bytes !! 9%nat;
        Some {| tr_mint := mint; tr_destination := destination;
                tr_amount := from_le (take 8 (drop 1 bytes)); tr_decimals := byte_to_Z decimals |}
    | _ => None
    end
  else None.

Definition transfer_of (m : UiMessage Value) (ix : UiInstruction Value) : option Transfer :=
  match ix with
  | Compiled ix => keys ← raw_keys_of m; raw_transfer keys ix
  | Parsed _ program_id parsed => parsed_transfer program_id parsed
  | PartiallyDecoded _ _ => None
  end.

Definition transfers_of tx : list Transfer :=
  match ct_transaction tx with
  | Some m => omap (transfer_of m) (top_level m ++ inner_of tx)
  | None => []
  end.

(** A transfer that settles a price at a token account. *)
Definition settles (destination mint : string) (price decimals : Z) (t : Transfer) : Prop :=
  tr_destination t = destination /\ tr_mint t = mint /\ price <= tr_amount t /\ tr_decimals t = decimals.
#[export] Instance settles_dec destination mint price decimals t :
  Decision (settles destination mint price decimals t).
Proof. unfold settles. apply _. Defined.

Lemma matches_parsed destination mint price decimals program program_id parsed :
  matches_parsed_transfer destination mint price decimals (Parsed program program_id parsed) = true <->
  exists t, parsed_transfer program_id parsed = Some t /\ settles destination mint price decimals t.
Proof.
  unfold parsed_transfer, settles. simpl. destruct (is_token_program program_id); [simpl|naive_solver].
  destruct (as_object parsed) as [object|]; [simpl|naive_solver].
  destruct (field as_str "type" object) as [kind|]; simpl; [|naive_solver].
  case_decide as Hk.
  2:{ rewrite bool_decide_false by congruence. naive_solver. }
  rewrite Hk, bool_decide_true by done. simpl.
  destruct (field as_object "info" object) as [info|]; [simpl|naive_solver].
  rewrite !andb_true_iff, !bool_decide_eq_true.
  destruct (field as_object "tokenAmount" info) as [amounts|]; simpl; [|naive_solver].
  destruct (field as_u64 "decimals" amounts) as [d|]; simpl.
  2:{ destruct (field as_str "amount" amounts) as [text|]; simpl; [destruct (parse_u64 text)|]; naive_solver. }
  destruct (field as_str "amount" amounts) as [text|]; simpl; [|naive_solver].
  destruct (parse_u64 text); simpl; [rewrite bool_decide_eq_true|]; naive_solver.
Qed.

Lemma matches_raw destination mint price decimals keys ix :
  matches_raw_transfer destination mint price decimals ix keys = true <->
  exists t, raw_transfer keys ix = Some t /\ settles destination mint price decimals t.
Proof.
  unfold matches_raw_transfer, raw_transfer, settles.
  destruct (keys !! _) as [program|]; [simpl|naive_solver].
  destruct (bs58_into_vec _) as [bytes|]; simpl; [|rewrite andb_false_r; naive_solver].
  destruct (is_token_program program); [simpl|naive_solver].
  destruct (tagged 12 9 bytes) eqn:Ht; [simpl|naive_solver].
  apply read_amount in Ht as (a & b & -> & Ha & Hb).
  destruct (amount_fields a b Ha Hb) as [Hread Hbyte]. rewrite Hread, Hbyte.
  destruct (ui_accounts ix) as [|s [|m [|d [|au rest]]]]; try (rewrite andb_false_r; naive_solver).
  rewrite !andb_true_iff, !bool_decide_eq_true.
  destruct ((byte_of_Z 12 :: u64_bytes a ++ [byte_of_Z b]) !! 9%nat) as [x|]; [|done].
  injection Hbyte as Hbyte.
  destruct (keys !! m), (keys !! d); simpl; rewrite ?Hbyte; naive_solver.
Qed.

Lemma matches_iff destination mint price decimals (m : UiMessage Value) ix :
  matches_transfer destination mint price decimals (raw_keys_of m) ix = true <->
  exists t, transfer_of m ix = Some t /\ settles destination mint price decimals t.
Proof.
  destruct ix as [ix|program program_id parsed|program_id d].
  - simpl. destruct (raw_keys_of m); simpl; [apply matches_raw|naive_solver].
  - apply matches_parsed.
  - simpl. naive_solver.
Qed.

Lemma matches_counted destination mint price decimals (m : UiMessage Value) ixs :
  length (filter (fun ix => matches_transfer destination mint price decimals (raw_keys_of m) ix = true) ixs) =
  length (filter (settles destination mint price decimals) (omap (transfer_of m) ixs)).
Proof.
  induction ixs as [|ix ixs IH]; simpl; [done|]. rewrite filter_cons.
  pose proof (matches_iff destination mint price decimals m ix) as Hm.
  destruct (transfer_of m ix) as [t|] eqn:Ht; rewrite ?filter_cons;
    repeat case_decide; simpl; rewrite ?IH; try done; exfalso; naive_solver.
Qed.

(** What a confirmed transaction pays: it did not fail, and one transfer alone
    settles the price, under the route's memo. *)
Definition confirmed_payment tx r : Prop :=
  ct_meta tx ≫= tm_err = None /\
  exists price destination decimals t,
    parse_u64 (pr_amount r) = Some price /\ expected_token_account r = Ok destination /\
    pr_decimals r = Some decimals /\
    filter (settles destination (resolve_expected_mint r) price decimals) (transfers_of tx) = [t] /\
    forall memo, expected_memo r = Some memo -> transaction_memos tx = Ok [memo].

Lemma confirmed_iff tx r : verify_transaction_details tx r = Ok tt <-> confirmed_payment tx r.
Proof.
  unfold verify_transaction_details, confirmed_payment. destruct (ct_meta tx ≫= tm_err) as [e|]; [naive_solver|].
  rewrite rbind_ok. split.
  - intros (price & Hprice%ok_or_ok & ([] & Hon & Hmemo)%rbind_ok). split; [done|].
    apply rbind_ok in Hon as (destination & Hdest & (decimals & Hdec%ok_or_ok & Hon)%rbind_ok).
    unfold transfers_of. destruct (ct_transaction tx) as [m|] eqn:Htx; [|done].
    pose proof (matches_counted destination (resolve_expected_mint r) price decimals m
      (top_level m ++ inner_of tx)) as Hcount.
    destruct (filter _ (top_level m ++ inner_of tx)) as [|ix [|]]; [done| |done].
    destruct (filter _ (omap _ _)) as [|t [|]] eqn:Hf; [done| |done].
    exists price, destination, decimals, t. split_and!; try done.
    intros memo Heq. rewrite Heq in Hmemo. apply rbind_ok in Hmemo as (memos & -> & Hmemo).
    destruct memos as [|actual [|]]; [done| |done]. case_decide; [done|]. by subst.
  - intros (_ & price & destination & decimals & t & Hprice & Hdest & Hdec & Hf & Hmemo).
    exists price. unfold expected_amount. rewrite Hprice. split; [done|]. apply rbind_ok. exists tt. split.
    + unfold verify_on_chain_transfer, expected_decimals. rewrite Hdest, Hdec. cbn [ok_or rbind].
      unfold transfers_of in Hf. destruct (ct_transaction tx) as [m|]; [|done].
      pose proof (matches_counted destination (resolve_expected_mint r) price decimals m
        (top_level m ++ inner_of tx)) as Hcount. rewrite Hf in Hcount.
      by destruct (filter _ (top_level m ++ inner_of tx)) as [|ix [|]].
    + destruct (expected_memo r) as [memo|]; [|done]. rewrite (Hmemo memo) by done. simpl.
      by rewrite decide_False by auto.
Qed.

(** C10. A confirmed transaction settles a route exactly when it did not fail, one
    transfer of its top-level and inner instructions, and no second one, brings at
    least the price of the mint, at its precision, to the payee's token account,
    and its one memo is the route's. *)
Theorem confirmed_accepts_iff tx r :
  verify_transaction_details tx r = Ok tt <->
  ct_meta tx ≫= tm_err = None /\
  exists price destination decimals t,
    parse_u64 (pr_amount r) = Some price /\ expected_token_account r = Ok destination /\
    pr_decimals r = Some decimals /\
    filter (settles destination (resolve_expected_mint r) price decimals) (transfers_of tx) = [t] /\
    forall memo, expected_memo r = Some memo -> transaction_memos tx = Ok [memo].
Proof. apply confirmed_iff. Qed.

(** The age check, on the values of a clock that does not overflow. *)
Lemma fresh_iff tx r now :
  in_u64 (default DEFAULT_MAX_TIMEOUT_SECONDS (pr_max_age r)) ->
  (forall t, ct_block_time tx = Some t -> in_i64 (now - t)) ->
  verify_transaction_age tx r now = Ok tt <->
  exists t, ct_block_time tx = Some t /\ now - t <= default DEFAULT_MAX_TIMEOUT_SECONDS (pr_max_age r).
Proof.
  intros Hage Ht. unfold verify_transaction_age. destruct (ct_block_time tx) as [t|]; simpl; [|naive_solver].
  specialize (Ht t eq_refl). unfold as_secs, i64_saturating_sub, in_i64 in *.
  replace (Z.max i64_min (Z.min (now - t) i64_max)) with (now - t) by lia.
  repeat case_decide; split; try done; try (naive_solver lia).
Qed.

(** A transfer the node reports compiled, as it reports it parsed. *)
Definition parsed_form (program_id source mint destination authority : string) (amount : Z)
    (decimals : Value) : UiInstruction Value :=
  Parsed "spl-token" program_id (of_object {["type" := of_str "transferChecked";
    "info" := of_object {["source" := of_str source; "mint" := of_str mint;
      "destination" := of_str destination; "authority" := of_str authority;
      "tokenAmount" := of_object {["amount" := of_str (pretty amount); "decimals" := decimals]}]}]}).

(** C35. Both encodings of one transfer are judged alike. *)
Theorem encodings_agree `{!JsonObjectLaws Value} expected_destination expected_mint price expected
    keys program s m d a encoded program_id source mint destination authority amount decimals (json : Value) :
  in_u64 amount -> 0 <= decimals < 256 -> as_u64 json = Some decimals ->
  keys !! program = Some program_id -> keys !! s = Some source -> keys !! m = Some mint ->
  keys !! d = Some destination -> keys !! a = Some authority ->
  bs58_into_vec encoded = Some (byte_of_Z 12 :: u64_bytes amount ++ [byte_of_Z decimals]) ->
  matches_transfer expected_destination expected_mint price expected (Some keys)
    (Compiled {| ui_program_id_index := program; ui_accounts := [s; m; d; a]; ui_data := encoded |}) =
  matches_transfer expected_destination expected_mint price expected (Some keys)
    (parsed_form program_id source mint destination authority amount json).
Proof.
  intros Ha Hdec Hjson Hp Hs Hm Hd Hau Henc. apply eq_true_iff_eq. unfold parsed_form.
  cbn [matches_transfer]. rewrite matches_raw, matches_parsed.
  assert (Hraw : raw_transfer keys {| ui_program_id_index := program; ui_accounts := [s; m; d; a]; ui_data := encoded |} =
    if is_token_program program_id
    then Some {| tr_mint := mint; tr_destination := destination; tr_amount := amount; tr_decimals := decimals |}
    else None).
  { unfold raw_transfer. cbn [ui_program_id_index ui_accounts ui_data]. rewrite Hp. cbn. rewrite Henc. cbn -[tagged lookup].
    rewrite (proj2 (read_amount _)) by eauto. rewrite andb_true_r, Hm, Hd. cbn -[lookup].
    destruct (amount_fields amount decimals Ha Hdec) as [Hread Hbyte]. cbn -[lookup] in Hread. rewrite Hread.
    destruct ((_ :: _) !! 9%nat) as [x|]; [|done]. injection Hbyte as Hbyte. cbn. by rewrite Hbyte. }
  rewrite Hraw. unfold parsed_transfer, field, text_field. destruct (is_token_program program_id); [|done].
  assert (Hamount : parse_u64 (pretty amount) = Some amount).
  { pose proof (decimal_roundtrip amount Ha) as Hround. unfold decimal_u64 in Hround. by destruct (_ || _). }
  repeat (progress simplify_map_eq || rewrite as_object_of || rewrite as_str_of || simpl).
  unfold field. by repeat (progress simplify_map_eq || rewrite as_str_of || simpl).
Qed.
End transfers.

(** * A payment *)
Module ExactDemo.
Export AddressesDemo.

(** JSON values as trees: text, numbers, objects. *)
Definition json : Type := gen_tree (string + Z).
Definition as_text (v : json) : option string := match v with GenLeaf (inl s) => Some s | _ => None end.
Fixpoint pairs (l : list json) : option (list (string * json)) :=
  match l with
  | [] => Some []
  | GenLeaf (inl k) :: v :: l => rest ← pairs l; Some ((k, v) :: rest)
  | _ => None
  end.
Definition flatten (l : list (string * json)) : list json :=
  mjoin ((fun '(k, v) => [GenLeaf (inl k); v]) <$> l).
Lemma pairs_of (l : list (string * json)) : pairs (flatten l) = Some l.
Proof.
  induction l as [|[k v] l IH]; [done|].
  transitivity (rest ← pairs (flatten l); Some ((k, v) :: rest)); [done|]. by rewrite IH.
Qed.

#[global] Instance json_scalar : JsonScalar json := {
  as_str := as_text;
  as_u64 v := match v with GenLeaf (inr n) => Some n | _ => None end;
  value_text _ := "";
}.
#[global] Instance json_object : JsonObject json := {
  as_object v := match v with GenNode 0 l => list_to_map <$> pairs l | _ => None end;
  of_object m := GenNode 0 (flatten (map_to_list m));
  of_str s := GenLeaf (inl s);
}.

#[global] Instance json_laws : JsonObjectLaws json.
Proof. split; [|done]. intros m. simpl. rewrite pairs_of. simpl. by rewrite list_to_map_to_list. Qed.

Definition mint : Pubkey := key "mint".
Definition requirements : PaymentRequirements json := {|
  pr_network := SOLANA_DEVNET; pr_cluster := Some "devnet"; pr_recipient := "payee"; pr_amount := "1000";
  pr_currency := mint; pr_decimals := Some 6; pr_token_program := None; pr_resource := "/report";
  pr_description := None; pr_max_age := Some 60; pr_recent_blockhash := None; pr_fee_payer := Some true;
  pr_fee_payer_key := Some "sponsor"; pr_transaction_versions := None;
  pr_extra := Some (of_object {["memo" := of_str "order 7"]}); pr_accepted := None; pr_resource_info := None |}.

Definition payee_account : Pubkey := find_associated_token_address (key "payee") mint TOKEN_PROGRAM.

Definition keys : list Pubkey := [
  key "sponsor"; key "payer"; key "payer account"; mint; payee_account; COMPUTE_BUDGET_PROGRAM; TOKEN_PROGRAM;
  MEMO_PROGRAM].
Definition call (program : nat) (accounts : list nat) (data : list byte) : CompiledInstruction :=
  {| program_id_index := program; accounts := accounts; data := data |}.

Definition paying (authority : nat) (amount : Z) : VersionedTransaction := {|
  signatures := [default_signature; [Byte.x01]];
  message := MessageV0 {|
    num_required_signatures := 2; num_readonly_signed_accounts := 0; num_readonly_unsigned_accounts := 4;
    static_account_keys := keys;
    instructions := [
      call 5 [] (ix_data (unit_limit_instruction 100000)); call 5 [] (ix_data (unit_price_instruction 5000));
      call 6 [2; 3; 4; authority]%nat (byte_of_Z 12 :: u64_bytes amount ++ [byte_of_Z 6]);
      call 7 [] (str_bytes "order 7")];
    recent_blockhash := [] |} [] |}.

Definition verify (tx : VersionedTransaction) : result unit X402Error :=
  verify_exact_versioned_transaction tx requirements [key "sponsor"].

(** The same payment as the node reports it. *)
Definition transfer_data (amount : Z) : string :=
  String.string_of_list_byte (byte_of_Z 12 :: u64_bytes amount ++ [byte_of_Z 6]).
Definition confirmed (transfers : list UiCompiledInstruction) : ConfirmedTransaction json := {|
  ct_transaction := Some (RawMessage keys (transfers ++
    [{| ui_program_id_index := 7; ui_accounts := []; ui_data := "order 7" |}]));
  ct_meta := Some {| tm_err := None; tm_inner_instructions := None |};
  ct_block_time := Some 1000; ct_version := Some (Number 0) |}.
Definition transfer (amount : Z) : UiCompiledInstruction :=
  {| ui_program_id_index := 6; ui_accounts := [2; 3; 4; 1]%nat; ui_data := transfer_data amount |}.
End ExactDemo.

Example demo_verified : ExactDemo.verify (ExactDemo.paying 1 1000) = Ok tt.
Proof. vm_compute. reflexivity. Qed.
Example demo_short : ExactDemo.verify (ExactDemo.paying 1 999) = invalid "amount_mismatch".
Proof. vm_compute. reflexivity. Qed.
Example demo_sponsor_pays :
  ExactDemo.verify (ExactDemo.paying 0 1000) = invalid "transaction_fee_payer_transferring_funds".
Proof. vm_compute. reflexivity. Qed.
Example demo_confirmed :
  verify_transaction_details (ExactDemo.confirmed [ExactDemo.transfer 1500]) ExactDemo.requirements = Ok tt /\
  verify_transaction_details (ExactDemo.confirmed [ExactDemo.transfer 1000; ExactDemo.transfer 2000])
    ExactDemo.requirements = invalid "multiple_matching_transfers".
Proof. split; vm_compute; reflexivity. Qed.

Lemma encodings_agree_witness :
  matches_transfer ExactDemo.payee_account ExactDemo.mint 1000 6 (Some ExactDemo.keys)
    (parsed_form TOKEN_PROGRAM (AddressesDemo.key "payer account") ExactDemo.mint ExactDemo.payee_account
      (AddressesDemo.key "payer") 1500 (GenLeaf (inr 6) : ExactDemo.json)) = true.
Proof.
  rewrite <-(encodings_agree (Value:=ExactDemo.json) ExactDemo.payee_account ExactDemo.mint 1000 6 ExactDemo.keys
    6 2 3 4 1 (ExactDemo.transfer_data 1500) TOKEN_PROGRAM (AddressesDemo.key "payer account") ExactDemo.mint
    ExactDemo.payee_account (AddressesDemo.key "payer") 1500 6);
    first [vm_compute; reflexivity|split; vm_compute; congruence|reflexivity].
Defined.
