(* ===== verification/MppTransfers.v ===== *)
(** The transaction of a charge (src/rust/crates/kit/src/mpp/server/charge.rs):
    what the server checks of a transaction a client signed before it co-signs
    and broadcasts it; the method details and splits of
    mpp/protocol/solana.rs. *)
From Stdlib Require Strings.String.
From stdpp Require Import base numbers option list strings pretty sets.
From S2P Require Import Prelude Bytes Units Voucher Tx Build Policy ChannelTx Deployments ChannelProgram MppBase X402Exact.
Open Scope Z_scope.

Abbreviation TOKEN_PROGRAM := MppBase.TOKEN_PROGRAM.
Abbreviation TOKEN_2022_PROGRAM := MppBase.TOKEN_2022_PROGRAM.

(** * Errors ([VerificationError]) *)

Record VerificationError := {
  ve_message : string;
  ve_code : option string;
  ve_retryable : bool;
  ve_type_uri : string;
  ve_title : string;
  ve_status : Z;
}.

#[export] Instance VerificationError_eq_dec : EqDecision VerificationError.
Proof. solve_decision. Defined.

Definition verification_error (message : string) : VerificationError := {|
  ve_message := message; ve_code := None; ve_retryable := false;
  ve_type_uri := "tag:paymentauth.org,2024:verification-failed";
  ve_title := "Payment Verification Error"; ve_status := 402;
|}.
Definition with_code (message code title type_uri : string) : VerificationError := {|
  ve_message := message; ve_code := Some code; ve_retryable := false; ve_type_uri := type_uri;
  ve_title := title; ve_status := 402;
|}.
Definition retryable (e : VerificationError) : VerificationError := {|
  ve_message := ve_message e; ve_code := ve_code e; ve_retryable := true; ve_type_uri := ve_type_uri e;
  ve_title := ve_title e; ve_status := ve_status e;
|}.
Definition expired (m : string) : VerificationError :=
  with_code m "payment-expired" "Payment Challenge Expired" "tag:paymentauth.org,2024:payment-expired".
Definition invalid_amount (m : string) : VerificationError :=
  with_code m "verification-failed" "Invalid Amount" "tag:paymentauth.org,2024:verification-failed".
Definition invalid_recipient (m : string) : VerificationError :=
  with_code m "verification-failed" "Invalid Recipient" "tag:paymentauth.org,2024:verification-failed".
Definition transaction_failed (m : string) : VerificationError :=
  with_code m "verification-failed" "Transaction Failed" "tag:paymentauth.org,2024:verification-failed".
Definition not_found (m : string) : VerificationError :=
  with_code m "verification-failed" "Transaction Not Found" "tag:paymentauth.org,2024:verification-failed".
Definition network_error (m : string) : VerificationError :=
  retryable (with_code m "verification-failed" "Network Error" "tag:paymentauth.org,2024:verification-failed").
Definition credential_mismatch (m : string) : VerificationError :=
  with_code m "malformed-credential" "Credential Mismatch" "tag:paymentauth.org,2024:malformed-credential".
Definition invalid_payload (m : string) : VerificationError :=
  with_code m "malformed-credential" "Invalid Payload" "tag:paymentauth.org,2024:malformed-credential".
Definition wrong_network (m : string) : VerificationError :=
  with_code m "wrong-network" "Wrong Network" "tag:paymentauth.org,2024:wrong-network".
Definition signature_consumed (m : string) : VerificationError :=
  with_code m "signature-consumed" "Signature Already Consumed" "tag:paymentauth.org,2024:signature-consumed".
Definition too_many_splits (m : string) : VerificationError :=
  with_code m "verification-failed" "Too Many Splits" "tag:paymentauth.org,2024:verification-failed".
Definition challenge_conflict (m : string) : VerificationError :=
  with_code m "challenge-conflict" "Challenge Already Presented With A Different Request"
    "tag:paymentauth.org,2024:challenge-conflict".
Definition settlement_in_progress (m : string) : VerificationError :=
  retryable (with_code m "settlement-in-progress" "Settlement Already In Progress"
    "tag:paymentauth.org,2024:settlement-in-progress").

(** * Method details and splits (mpp/protocol/solana.rs) *)

Definition MAX_MEMO_BYTES : nat := 566.
Definition MAX_SPLITS : nat := 8.

Record ChargeSplit := {
  sp_recipient : string;
  sp_amount : string;
  sp_ata_creation_required : option bool;
  sp_label : option string;
  sp_memo : option string;
}.

#[export] Instance ChargeSplit_eq_dec : EqDecision ChargeSplit.
Proof. solve_decision. Defined.

Record ChannelChargeProfile := {
  ccp_channel_program : string;
  ccp_channel_version : Z;
  ccp_channel_hooks : ChannelHooks;
  ccp_recent_slot : Z;
}.

Record MethodDetails := {
  md_channel_charge : option ChannelChargeProfile;
  md_network : option string;
  md_decimals : option Z;
  md_token_program : option string;
  md_fee_payer : option bool;
  md_fee_payer_key : option string;
  md_transaction_versions : option (list TxVersion);
  md_splits : option (list ChargeSplit);
  md_recent_blockhash : option string;
  md_confidential : option bool;
  md_auditor_elgamal_pubkey : option string;
  md_recipient_elgamal_pubkey : option string;
}.

Definition default_details : MethodDetails := {|
  md_channel_charge := None; md_network := None; md_decimals := None; md_token_program := None;
  md_fee_payer := None; md_fee_payer_key := None; md_transaction_versions := None; md_splits := None;
  md_recent_blockhash := None; md_confidential := None; md_auditor_elgamal_pubkey := None;
  md_recipient_elgamal_pubkey := None;
|}.

Definition splits_of (md : MethodDetails) : list ChargeSplit := default [] (md_splits md).
Definition sponsored (md : MethodDetails) : bool := default false (md_fee_payer md).

(** A split's amount, where it does not parse as zero. *)
Definition lenient_amount (split : ChargeSplit) : Z := default 0 (parse_u64 (sp_amount split)).

Fixpoint sum_from (acc : Z) (splits : list ChargeSplit) : option Z :=
  match splits with
  | [] => Some acc
  | split :: splits => acc ← u64_checked_add acc (lenient_amount split); sum_from acc splits
  end.
Definition checked_sum_split_amounts (splits : list ChargeSplit) : option Z := sum_from 0 splits.

Definition nonempty (o : option string) : option string := o ≫= (fun s => if decide (s = "") then None else Some s).

Section splits.
Context {Key : Type} `{Crypto Key, Addresses}.

(** [Pubkey::from_str]. *)
Definition from_str (s : string) : result Pubkey string := rmap key_of_bytes (pubkey_from_str s).

Fixpoint check_legs (index : nat) (seen : list (string * option string)) (splits : list ChargeSplit) :
    result unit MppError :=
  match splits with
  | [] => Ok tt
  | split :: splits =>
      let at_split text := InvalidConfig ("splits[" +:+ pretty index +:+ "]: " +:+ text) in
      let? _ := rmap_err (fun e => at_split ("invalid recipient pubkey: " +:+ e)) (from_str (sp_recipient split)) in
      let? _ := ok_or (parse_u64 (sp_amount split))
        (at_split ("amount `" +:+ sp_amount split +:+ "` is not a valid u64")) in
      let leg := (sp_recipient split, nonempty (sp_memo split)) in
      if decide (leg ∈ seen) then Err (at_split "duplicate recipient and memo")
      else check_legs (S index) (leg :: seen) splits
  end.

Definition validate_splits (splits : list ChargeSplit) : result unit MppError :=
  if decide (MAX_SPLITS < length splits)%nat then Err TooManySplits else
  let? _ := check_legs 0 [] splits in
  match checked_sum_split_amounts splits with
  | None => Err (InvalidConfig "Sum of split amounts overflows u64")
  | Some _ => Ok tt
  end.
End splits.

Definition validate_confidential_charge (currency : string) (md : MethodDetails) : result unit MppError :=
  if negb (default false (md_confidential md)) then Ok tt else
  if eq_ignore_ascii_case currency "sol"
  then Err (InvalidConfig "confidential transfers require an SPL Token-2022 mint, not native SOL") else
  if decide (md_token_program md <> None /\ md_token_program md <> Some TOKEN_2022_PROGRAM)
  then Err (InvalidConfig "confidential transfers require the Token-2022 program") else
  if decide (md_auditor_elgamal_pubkey md = Some "")
  then Err (InvalidConfig "auditorElgamalPubkey, when present, must not be empty") else
  if decide (splits_of md <> [])
  then Err (InvalidConfig "confidential transfers cannot be combined with splits") else
  if decide (md_fee_payer md <> Some true \/ nonempty (md_fee_payer_key md) = None)
  then Err (InvalidConfig "confidential charges are gateway-sponsored: feePayer must be true and feePayerKey set")
  else Ok tt.

(** * The transaction a client signed *)

Definition MAX_COMPUTE_UNIT_LIMIT : Z := 200000.
Definition CHARGE_MAX_UNIT_PRICE : Z := 5000000.
Definition MAX_COMPUTE_UNIT_PRICE_MICROLAMPORTS_FEE_SPONSORED : Z := 10000.

Definition max_unit_price (fee_sponsored : bool) : Z :=
  if fee_sponsored then MAX_COMPUTE_UNIT_PRICE_MICROLAMPORTS_FEE_SPONSORED else CHARGE_MAX_UNIT_PRICE.

(** A memo the transaction must carry, with what asks for it. *)
Definition expected_memos (external_id : option string) (splits : list ChargeSplit) : list (string * string) :=
  match nonempty external_id with Some id => [("externalId", id)] | None => [] end ++
  omap (fun split => (fun memo => ("split", memo)) <$> nonempty (sp_memo split)) splits.

Definition quote : string := String (Ascii.ascii_of_nat 34) "".
Definition err_no_memo (label memo : string) : VerificationError :=
  invalid_payload ("No memo instruction found for " +:+ label +:+ " memo " +:+ quote +:+ memo +:+ quote).
Definition err_memo_length : VerificationError :=
  invalid_payload ("memo cannot exceed " +:+ pretty MAX_MEMO_BYTES +:+ " bytes").

Section instructions.
Context {Key : Type} `{Crypto Key, Addresses}.
Context (keys : list Pubkey).

Definition account_key (index : nat) (label : string) : result Pubkey VerificationError :=
  ok_or (keys !! index) (invalid_payload ("Invalid " +:+ label +:+ " index")).
Definition program_of_instruction (ix : CompiledInstruction) : result Pubkey VerificationError :=
  ok_or (keys !! program_id_index ix) (invalid_payload "Invalid program_id_index").

(** The lamports of a System transfer. *)
Definition sol_lamports (ix : CompiledInstruction) : option Z :=
  if decide (length (data ix) = 12%nat /\ from_le (take 4 (data ix)) = 2)
  then Some (from_le (drop 4 (data ix))) else None.

(** The base units and decimals of a [transferChecked]. *)
Definition spl_units (ix : CompiledInstruction) : option (Z * Z) :=
  if tagged 12 9 (data ix)
  then Some (from_le (take 8 (drop 1 (data ix))), from_le (drop 9 (data ix))) else None.

(** The loop the three searches share: the first instruction that is not matched
    yet and passes the test. *)
Fixpoint find_unmatched (test : CompiledInstruction -> result bool VerificationError) (none : VerificationError)
    (matched : list nat) (index : nat) (ixs : list CompiledInstruction) : result nat VerificationError :=
  match ixs with
  | [] => Err none
  | ix :: ixs =>
      if decide (index ∈ matched) then find_unmatched test none matched (S index) ixs else
      let? hit := test ix in
      if hit : bool then Ok index else find_unmatched test none matched (S index) ixs
  end.

Section payment.
Context (fee_payer : option Pubkey).

(** A System transfer of [amount] to [recipient]. *)
Definition sol_transfer_matches (recipient : Pubkey) (amount : Z) (ix : CompiledInstruction) :
    result bool VerificationError :=
  let? program := program_of_instruction ix in
  if decide (program <> SYSTEM_PROGRAM) then Ok false else
  match sol_lamports ix, accounts ix with
  | Some lamports, [source; destination] =>
      let? source := account_key source "source" in
      let? destination := account_key destination "destination" in
      if decide (destination = recipient /\ lamports = amount) then
        if decide (fee_payer = Some source)
        then Err (invalid_payload "Fee payer cannot fund the SOL payment transfer") else Ok true
      else Ok false
  | _, _ => Ok false
  end.

Definition verify_sol_transfer_instructions (ixs : list CompiledInstruction) (recipient : Pubkey) (amount : Z)
    (matched : list nat) : result (list nat) VerificationError :=
  let? index := find_unmatched (sol_transfer_matches recipient amount)
    (invalid_amount ("No matching SOL transfer of " +:+ pretty amount +:+ " lamports to " +:+ recipient))
    matched 0 ixs in
  Ok (matched ++ [index]).

(** What a sponsor refuses to pay for. *)
Definition sponsor_funds (program mint source authority : Pubkey) : result unit VerificationError :=
  match fee_payer with
  | None => Ok tt
  | Some fee_payer =>
      if decide (authority = fee_payer)
      then Err (invalid_payload "Fee payer cannot authorize the SPL payment transfer") else
      if decide (source = find_associated_token_address fee_payer mint program)
      then Err (invalid_payload "Fee payer token account cannot fund the SPL payment transfer") else Ok tt
  end.

(** A [transferChecked] of [amount] to the token account of [recipient]. *)
Definition spl_transfer_matches (expected_mint : Pubkey) (expected_program : option Pubkey)
    (expected_decimals : option Z) (recipient : Pubkey) (amount : Z) (ix : CompiledInstruction) :
    result bool VerificationError :=
  let? program := program_of_instruction ix in
  if decide (program <> TOKEN_PROGRAM /\ program <> TOKEN_2022_PROGRAM) then Ok false else
  if decide (expected_program <> None /\ expected_program <> Some program) then Ok false else
  match spl_units ix, accounts ix with
  | Some (units, decimals), [source; mint; destination; authority] =>
      if decide (units <> amount) then Ok false else
      if decide (expected_decimals <> None /\ expected_decimals <> Some decimals) then Ok false else
      let? source := account_key source "source" in
      let? destination := account_key destination "destination" in
      let? mint := account_key mint "mint" in
      if decide (mint <> expected_mint) then Ok false else
      let? authority := account_key authority "authority" in
      let? _ := sponsor_funds program mint source authority in
      Ok (bool_decide (destination = find_associated_token_address recipient mint program))
  | _, _ => Ok false
  end.

Definition verify_spl_transfer_instructions (ixs : list CompiledInstruction) (expected_mint : Pubkey)
    (expected_program : option Pubkey) (expected_decimals : option Z) (recipient : Pubkey) (amount : Z)
    (matched : list nat) : result (list nat) VerificationError :=
  let? index := find_unmatched (spl_transfer_matches expected_mint expected_program expected_decimals recipient amount)
    (invalid_amount ("No matching SPL transferChecked of " +:+ pretty amount +:+ " to " +:+ recipient))
    matched 0 ixs in
  Ok (matched ++ [index]).
End payment.

(** A memo instruction with this text, which names no account. *)
Definition memo_matches (memo : string) (ix : CompiledInstruction) : result bool VerificationError :=
  let? program := program_of_instruction ix in
  Ok (bool_decide (program = MEMO_PROGRAM /\ accounts ix = [] /\ data ix = str_bytes memo)).

Fixpoint memos_loop (ixs : list CompiledInstruction) (memos : list (string * string)) (matched : list nat) :
    result (list nat) VerificationError :=
  match memos with
  | [] => Ok matched
  | (label, memo) :: memos =>
      if decide (MAX_MEMO_BYTES < length (str_bytes memo))%nat then Err err_memo_length else
      let? index := find_unmatched (memo_matches memo) (err_no_memo label memo) matched 0 ixs in
      memos_loop ixs memos (matched ++ [index])
  end.

Definition verify_memo_instructions (ixs : list CompiledInstruction) (external_id : option string)
    (splits : list ChargeSplit) (matched : list nat) : result (list nat) VerificationError :=
  memos_loop ixs (expected_memos external_id splits) matched.

(** ** Everything else the transaction does *)

Definition validate_compute_budget_instruction (ix : CompiledInstruction) (fee_sponsored : bool) :
    result unit VerificationError :=
  if decide (accounts ix <> []) then Err (invalid_payload "Compute budget instruction must not have accounts") else
  match decode_compute_budget_op ix with
  | Some (UnitLimit units) =>
      if decide (units = 0) then Err (invalid_payload "Compute unit limit must be positive") else
      if decide (MAX_COMPUTE_UNIT_LIMIT < units)
      then Err (invalid_payload ("Compute unit limit " +:+ pretty units +:+ " exceeds maximum "
        +:+ pretty MAX_COMPUTE_UNIT_LIMIT)) else Ok tt
  | Some (UnitPrice price) =>
      let max := max_unit_price fee_sponsored in
      if decide (max < price)
      then Err (invalid_payload ("Compute unit price " +:+ pretty price +:+ " exceeds maximum " +:+ pretty max))
      else Ok tt
  | Some (LoadedAccountsDataSizeLimit _) | None => Err (invalid_payload "Unsupported compute budget instruction")
  end.

(** The owner whose token account the instruction creates. *)
Definition validate_create_ata_idempotent_instruction (ix : CompiledInstruction) (expected_mint : option Pubkey)
    (allowed_owners : list Pubkey) (expected_token_program : option Pubkey) (expected_payer : Pubkey) :
    result Pubkey VerificationError :=
  match expected_mint with
  | None => Err (invalid_payload "ATA creation is not allowed for native SOL payments")
  | Some expected_mint =>
      if decide (data ix <> [byte_of_Z 1]) then Err (invalid_payload "Only idempotent ATA creation is allowed") else
      match accounts ix with
      | [payer; ata; owner; mint; system_program; token_program] =>
          let? payer := account_key payer "ATA payer" in
          let? ata := account_key ata "ATA address" in
          let? owner := account_key owner "ATA owner" in
          let? mint := account_key mint "ATA mint" in
          let? system_program := account_key system_program "ATA system program" in
          let? token_program := account_key token_program "ATA token program" in
          if decide (payer <> expected_payer)
          then Err (invalid_payload "ATA payer must match the transaction fee payer") else
          if decide (mint <> expected_mint)
          then Err (invalid_payload "ATA creation mint does not match the charge currency") else
          if decide (owner ∉ allowed_owners)
          then Err (invalid_payload "ATA creation owner is not authorized by the challenge") else
          if decide (system_program <> SYSTEM_PROGRAM)
          then Err (invalid_payload "ATA creation must reference the System Program") else
          if decide (token_program <> TOKEN_PROGRAM /\ token_program <> TOKEN_2022_PROGRAM)
          then Err (invalid_payload "ATA creation uses an unsupported token program") else
          if decide (expected_token_program <> None /\ expected_token_program <> Some token_program)
          then Err (invalid_payload "ATA creation token program does not match methodDetails.tokenProgram") else
          if decide (ata <> find_associated_token_address owner mint token_program)
          then Err (invalid_payload "ATA creation address does not match owner/mint/token program")
          else Ok owner
      | _ => Err (invalid_payload "Unexpected ATA creation account layout")
      end
  end.

Definition unexpected (program : string) : VerificationError :=
  invalid_payload ("Unexpected " +:+ program +:+ " instruction in payment transaction").

Section allowlist.
Context (matched : list nat) (expected_mint : option Pubkey) (allowed_owners : list Pubkey).
Context (expected_token_program fee_payer : option Pubkey) (ata_payer : Pubkey).

(** One instruction: the owner of the account it creates, if it creates one. *)
Definition allow_instruction (index : nat) (ix : CompiledInstruction) : result (option Pubkey) VerificationError :=
  let? program := program_of_instruction ix in
  let payment what := if decide (index ∈ matched) then Ok None else Err (unexpected what) in
  if decide (program = COMPUTE_BUDGET_PROGRAM)
  then rmap (fun _ => None) (validate_compute_budget_instruction ix (bool_decide (is_Some fee_payer))) else
  if decide (program = MEMO_PROGRAM) then payment "Memo Program" else
  if decide (program = SYSTEM_PROGRAM) then payment "System Program" else
  if decide (program = TOKEN_PROGRAM \/ program = TOKEN_2022_PROGRAM) then payment "Token Program" else
  if decide (program = ASSOCIATED_TOKEN_PROGRAM)
  then rmap Some (validate_create_ata_idempotent_instruction ix expected_mint allowed_owners
         expected_token_program ata_payer)
  else Err (invalid_payload ("Unexpected program instruction in payment transaction: " +:+ program)).

Fixpoint allowlist_loop (index : nat) (ixs : list CompiledInstruction) (created : list Pubkey) :
    result (list Pubkey) VerificationError :=
  match ixs with
  | [] => Ok created
  | ix :: ixs =>
      let? owner := allow_instruction index ix in
      allowlist_loop (S index) ixs (match owner with Some owner => owner :: created | None => created end)
  end.
End allowlist.

(** The owners that need an account and do not get one; the code reports the
    first of a hash set, this the first of the list. *)
Definition check_required_owners (created required : list Pubkey) : result unit VerificationError :=
  match filter (fun owner => owner ∉ created) required with
  | [] => Ok tt
  | owner :: _ => Err (invalid_payload ("Missing required ATA creation instruction for split recipient " +:+ owner))
  end.

Definition validate_instruction_allowlist (ixs : list CompiledInstruction) (matched : list nat)
    (expected_mint : option Pubkey) (allowed_owners : list Pubkey) (expected_token_program fee_payer : option Pubkey)
    (required_owners : list Pubkey) : result unit VerificationError :=
  let? tx_fee_payer := ok_or (head keys) (invalid_payload "Transaction has no fee payer") in
  let? created := allowlist_loop matched expected_mint allowed_owners expected_token_program fee_payer
    (default tx_fee_payer fee_payer) 0 ixs [] in
  check_required_owners created required_owners.

(** The account that funds a matched instruction. *)
Definition funder_of (ix : CompiledInstruction) : option Pubkey :=
  program ← keys !! program_id_index ix;
  position ← (if decide (program = SYSTEM_PROGRAM) then Some 0%nat else
              if decide (program = TOKEN_PROGRAM \/ program = TOKEN_2022_PROGRAM) then Some 3%nat else None);
  index ← accounts ix !! position;
  keys !! index.

Fixpoint common_funder (funder : option Pubkey) (ixs : list CompiledInstruction) (matched : list nat) :
    result (option Pubkey) VerificationError :=
  match matched with
  | [] => Ok funder
  | index :: matched =>
      match ixs !! index ≫= funder_of with
      | None => common_funder funder ixs matched
      | Some authority =>
          if decide (funder <> None /\ funder <> Some authority)
          then Err (invalid_payload "Payment transfers must share one funding authority")
          else common_funder (Some authority) ixs matched
      end
  end.

Definition verify_charge_signers (required : nat) (ixs : list CompiledInstruction) (matched : list nat) :
    result unit VerificationError :=
  let? funder := common_funder None ixs matched in
  let allowed := option_list (head keys) ++ option_list funder in
  if existsb (fun signer => bool_decide (signer ∉ allowed)) (take required keys)
  then Err (invalid_payload "Unexpected signer in payment transaction") else Ok tt.
End instructions.

(** * The whole check *)

Record ChargeRequest {Value : Type} := {
  rq_amount : string;
  rq_currency : string;
  rq_recipient : option string;
  rq_description : option string;
  rq_external_id : option string;
  rq_method_details : option Value;
}.
Arguments ChargeRequest : clear implicits.

Section charge.
Context {Key : Type} `{Crypto Key, Addresses} `{V1Format, Codec}.
Context (message_serialize : VersionedMessage -> list byte).
Context (signature_verify : list byte -> Pubkey -> list byte -> bool).
Context {Value : Type}.
Implicit Types (request : ChargeRequest Value) (md : MethodDetails).

Definition expected_fee_payer (tx : VersionedTransaction) md : result (option Pubkey) VerificationError :=
  if negb (sponsored md) then Ok None else
  let? key := ok_or (md_fee_payer_key md)
    (invalid_payload "feePayer=true requires feePayerKey in methodDetails") in
  let? fee_payer := rmap_err (fun e => invalid_payload ("Invalid fee payer: " +:+ e)) (from_str key) in
  let? tx_fee_payer := ok_or (head (static_account_keys (body (message tx))))
    (invalid_payload "Transaction has no fee payer") in
  if decide (tx_fee_payer <> fee_payer)
  then Err (invalid_payload ("Transaction fee payer must be " +:+ fee_payer)) else Ok (Some fee_payer).

Definition expected_token_program md : result (option Pubkey) VerificationError :=
  match md_token_program md with
  | None => Ok None
  | Some program =>
      if decide (program <> TOKEN_PROGRAM /\ program <> TOKEN_2022_PROGRAM)
      then Err (invalid_payload ("Unsupported token program: " +:+ program)) else
      rmap_err (fun e => invalid_payload ("Invalid token program: " +:+ e)) (rmap Some (from_str program))
  end.

Definition resolve_charge_mint (currency : string) (network : option string) : result Pubkey VerificationError :=
  let? mint := rmap_err (fun e => invalid_payload (mpp_error_text e)) (try_resolve_stablecoin_mint currency network) in
  match mint with
  | None => Err (invalid_payload "SOL does not use an SPL mint")
  | Some mint => rmap_err (fun e => invalid_payload ("Invalid currency/mint: " +:+ e)) (from_str mint)
  end.

Definition split_owner (split : ChargeSplit) : result Pubkey VerificationError :=
  rmap_err (fun e => invalid_recipient ("Invalid split recipient: " +:+ e)) (from_str (sp_recipient split)).

(** The owners whose accounts may be created, and those whose accounts must. *)
Definition expected_ata_creation_policy (splits : list ChargeSplit) (fee_payer : option Pubkey) :
    result (list Pubkey * list Pubkey) VerificationError :=
  let? owners := collect (fun split => rmap (fun owner => (split, owner)) (split_owner split)) splits in
  let required := omap (fun '(split, owner) =>
    if decide (sp_ata_creation_required split = Some true) then Some owner else None) owners in
  Ok (match fee_payer with Some _ => required | None => owners.*2 end, required).

(** One payment instruction per split, in order. *)
Fixpoint pay_splits (pay : Pubkey -> Z -> list nat -> result (list nat) VerificationError)
    (splits : list ChargeSplit) (matched : list nat) : result (list nat) VerificationError :=
  match splits with
  | [] => Ok matched
  | split :: splits =>
      let? owner := split_owner split in
      let? amount := ok_or (parse_u64 (sp_amount split)) (invalid_amount "Invalid split amount") in
      let? matched := pay owner amount matched in
      pay_splits pay splits matched
  end.

(** What is left of the amount for the recipient. *)
Definition primary_amount request (splits : list ChargeSplit) : result Z VerificationError :=
  let? total := ok_or (parse_u64 (rq_amount request)) (invalid_amount ("Invalid amount: " +:+ rq_amount request)) in
  let? splits_total := ok_or (checked_sum_split_amounts splits) (invalid_amount "Split amounts overflow u64") in
  if decide (total < splits_total) then Err (invalid_amount "Split amounts exceed total amount") else
  if decide (total - splits_total = 0) then Err (invalid_amount "Primary amount is zero after splits")
  else Ok (total - splits_total).

Definition is_native_sol request : bool := bool_decide (to_uppercase (rq_currency request) = "SOL").
Definition requires_accounts (splits : list ChargeSplit) : bool :=
  existsb (fun split => bool_decide (sp_ata_creation_required split = Some true)) splits.

(** The instructions of a charge, by how a leg is paid. *)
Definition check_instructions (m : MessageBody) request md (recipient : Pubkey) (primary : Z)
    (fee_payer expected_mint token_program : option Pubkey) (allowed required : list Pubkey)
    (pay : Pubkey -> Z -> list nat -> result (list nat) VerificationError) : result unit VerificationError :=
  let keys := static_account_keys m in
  let ixs := instructions m in
  let? matched := pay recipient primary [] in
  let? matched := pay_splits pay (splits_of md) matched in
  let? matched := verify_memo_instructions keys ixs (rq_external_id request) (splits_of md) matched in
  let? _ := validate_instruction_allowlist keys ixs matched expected_mint allowed token_program fee_payer required in
  verify_charge_signers keys (num_required_signatures m) ixs matched.

Definition payload_of {A} (m : result A Error) : result A VerificationError :=
  rmap_err (fun e => invalid_payload (core_error_text e)) m.

Definition verify_versioned_transaction_pre_broadcast (tx : VersionedTransaction) request md
    (accepted_versions : list TxVersion) : result unit VerificationError :=
  let? _ := payload_of (check_envelope_without_legacy tx accepted_versions) in
  let max_price := max_unit_price (sponsored md) in
  let? _ := payload_of (check_v1_budget_caps (message tx) MAX_COMPUTE_UNIT_LIMIT max_price) in
  let splits := splits_of md in
  if decide (MAX_SPLITS < length splits)%nat
  then Err (too_many_splits ("Too many splits: " +:+ pretty (length splits) +:+ " (maximum "
    +:+ pretty MAX_SPLITS +:+ ")")) else
  let? primary := primary_amount request splits in
  let? recipient := ok_or (rq_recipient request) (invalid_recipient "No recipient in charge request") in
  let? recipient := rmap_err (fun e => invalid_recipient ("Invalid recipient: " +:+ e)) (from_str recipient) in
  let? fee_payer := expected_fee_payer tx md in
  if is_native_sol request && requires_accounts splits
  then Err (invalid_payload "ataCreationRequired requires an SPL token charge") else
  let? (allowed, required) := expected_ata_creation_policy splits fee_payer in
  let m := body (message tx) in
  let keys := static_account_keys m in
  let? _ :=
    if is_native_sol request then
      check_instructions m request md recipient primary fee_payer None None allowed required
        (verify_sol_transfer_instructions keys fee_payer (instructions m))
    else
      let? mint := resolve_charge_mint (rq_currency request) (md_network md) in
      if negb (bool_decide (required = [])) && negb (is_ok (from_str (rq_currency request)))
      then Err (invalid_payload "ataCreationRequired requires currency to be an SPL token mint address") else
      let? token_program := expected_token_program md in
      check_instructions m request md recipient primary fee_payer (Some mint) token_program allowed required
        (verify_spl_transfer_instructions keys fee_payer (instructions m) mint token_program (md_decimals md)) in
  rmap (fun _ => tt) (payload_of (check_v0_budget_caps (message tx) MAX_COMPUTE_UNIT_LIMIT max_price)).

Definition verify_client_pull_transaction (tx : VersionedTransaction) request md
    (accepted_versions : list TxVersion) : result unit VerificationError :=
  let? _ := verify_versioned_transaction_pre_broadcast tx request md accepted_versions in
  let? fee_payer := expected_fee_payer tx md in
  rmap_err (fun e => invalid_payload ("Transaction signature verification failed: " +:+ core_error_text e))
    (require_presigned message_serialize signature_verify tx fee_payer).
End charge.

(** * What a charge pays *)

Record ChargeLeg := { cl_recipient : Pubkey; cl_amount : Z }.

(** What the legs are paid in: lamports, or units of a mint, whose token
    program and decimals the charge may prescribe. *)
Inductive Asset :=
| Lamports
| TokenUnits (mint : Pubkey) (program : option Pubkey) (decimals : option Z).

(** A prescription, if there is one, holds. *)
Definition agrees {A} (o : option A) (x : A) : Prop := o = None \/ o = Some x.

Lemma agrees_intro `{EqDecision A} (o : option A) x : ~ (o <> None /\ o <> Some x) -> agrees o x.
Proof. unfold agrees. destruct o as [y|]; [|auto]. destruct (decide (y = x)); naive_solver. Qed.

Section paid.
Context {Key : Type} `{Crypto Key, Addresses}.
Context (keys : list Pubkey) (ixs : list CompiledInstruction) (fee_payer : option Pubkey).

(** [funder] pays a leg; a sponsor neither authorizes the transfer nor has its
    token account debited. *)
Inductive pays_leg (funder : Pubkey) : Asset -> ChargeLeg -> CompiledInstruction -> Prop :=
| pays_lamports leg ix source destination :
    runs keys SYSTEM_PROGRAM ix -> accounts ix = [source; destination] ->
    data ix = le_bytes 4 2 ++ u64_bytes (cl_amount leg) ->
    keys !! source = Some funder -> keys !! destination = Some (cl_recipient leg) ->
    fee_payer <> Some funder ->
    pays_leg funder Lamports leg ix
| pays_units leg ix program expected mint decimals prescribed s m d a source :
    runs keys program ix -> program = TOKEN_PROGRAM \/ program = TOKEN_2022_PROGRAM -> agrees expected program ->
    accounts ix = [s; m; d; a] ->
    data ix = byte_of_Z 12 :: u64_bytes (cl_amount leg) ++ [byte_of_Z decimals] -> agrees prescribed decimals ->
    keys !! s = Some source -> keys !! m = Some mint ->
    keys !! d = Some (find_associated_token_address (cl_recipient leg) mint program) ->
    keys !! a = Some funder ->
    fee_payer <> Some funder ->
    (forall sponsor, fee_payer = Some sponsor -> source <> find_associated_token_address sponsor mint program) ->
    pays_leg funder (TokenUnits mint expected prescribed) leg ix.

Definition carries_memo (memo : string) (ix : CompiledInstruction) : Prop :=
  runs keys MEMO_PROGRAM ix /\ accounts ix = [] /\ data ix = str_bytes memo.

(** The account of [owner] for the charge's mint is created, if it does not
    exist, by [payer]. *)
Inductive creates_account (payer owner : Pubkey) : Asset -> CompiledInstruction -> Prop :=
| creates_intro ix mint expected prescribed program p a o m s t :
    runs keys ASSOCIATED_TOKEN_PROGRAM ix -> data ix = [byte_of_Z 1] -> accounts ix = [p; a; o; m; s; t] ->
    keys !! p = Some payer -> keys !! a = Some (find_associated_token_address owner mint program) ->
    keys !! o = Some owner -> keys !! m = Some mint -> keys !! s = Some SYSTEM_PROGRAM -> keys !! t = Some program ->
    program = TOKEN_PROGRAM \/ program = TOKEN_2022_PROGRAM -> agrees expected program ->
    creates_account payer owner (TokenUnits mint expected prescribed) ix.

(** What else the transaction may do. *)
Inductive incidental (asset : Asset) (payer : Pubkey) (owners : list Pubkey) (ix : CompiledInstruction) : Prop :=
| sets_limit units :
    runs keys COMPUTE_BUDGET_PROGRAM ix -> accounts ix = [] ->
    decode_compute_budget_op ix = Some (UnitLimit units) -> units <> 0 -> units <= MAX_COMPUTE_UNIT_LIMIT ->
    incidental asset payer owners ix
| sets_price price :
    runs keys COMPUTE_BUDGET_PROGRAM ix -> accounts ix = [] ->
    decode_compute_budget_op ix = Some (UnitPrice price) -> price <= max_unit_price (bool_decide (is_Some fee_payer)) ->
    incidental asset payer owners ix
| creates owner :
    creates_account payer owner asset ix -> owner ∈ owners -> incidental asset payer owners ix.

(** Each thing has an instruction of its own. *)
Definition assigned {A} (P : A -> CompiledInstruction -> Prop) (xs : list A) (indexes : list nat) : Prop :=
  Forall2 (fun x i => exists ix, ixs !! i = Some ix /\ P x ix) xs indexes.

(** Instructions taken on top of those already matched. *)
Definition taken {A} (P : A -> CompiledInstruction -> Prop) (xs : list A) (matched matched' : list nat) : Prop :=
  exists indexes, matched' = matched ++ indexes /\ assigned P xs indexes /\ (NoDup matched -> NoDup matched').

Lemma taken_nil {A} (P : A -> CompiledInstruction -> Prop) matched : taken P [] matched matched.
Proof. exists []. rewrite app_nil_r. split_and!; [done|constructor|done]. Qed.

Lemma taken_cons {A} (P : A -> CompiledInstruction -> Prop) x xs m i ix m' :
  ixs !! i = Some ix -> P x ix -> i ∉ m -> taken P xs (m ++ [i]) m' -> taken P (x :: xs) m m'.
Proof.
  intros Hix HP Hi (indexes & -> & Hall & Hnd). exists (i :: indexes). rewrite <-app_assoc in *.
  split_and!; [done|constructor; eauto|]. intros Hm. apply Hnd, NoDup_app.
  split_and!; [done|set_solver|by apply NoDup_singleton].
Qed.

Lemma find_unmatched_ok test none matched k l i :
  find_unmatched test none matched k l = Ok i ->
  exists j ix, i = (k + j)%nat /\ l !! j = Some ix /\ (i ∉ matched) /\ test ix = Ok true.
Proof.
  revert k. induction l as [|ix l IH]; intros k; simpl; [done|].
  assert (Hrec : find_unmatched test none matched (S k) l = Ok i ->
    exists j ix', i = (k + j)%nat /\ (ix :: l) !! j = Some ix' /\ (i ∉ matched) /\ test ix' = Ok true).
  { intros (j & ix' & -> & Hj & Hin & Ht)%IH. exists (S j), ix'. by rewrite Nat.add_succ_r. }
  case_decide as Hm; [done|]. intros ([|] & Ht & Hif)%rbind_ok; [|by apply Hrec].
  injection Hif as <-. exists 0%nat, ix. by rewrite Nat.add_0_r.
Qed.

Lemma found_taken {A} (P : A -> CompiledInstruction -> Prop) test none matched i x :
  (forall ix, test ix = Ok true -> P x ix) ->
  find_unmatched test none matched 0 ixs = Ok i ->
  exists ix, ixs !! i = Some ix /\ P x ix /\ i ∉ matched.
Proof. intros Htest (j & ix & -> & Hix & Hin & Ht%Htest)%find_unmatched_ok. eauto. Qed.

Lemma program_runs ix p : program_of_instruction keys ix = Ok p -> runs keys p ix.
Proof. by intros ?%ok_or_ok. Qed.

Lemma sol_lamports_ok ix amount :
  sol_lamports ix = Some amount -> data ix = le_bytes 4 2 ++ u64_bytes amount.
Proof.
  unfold sol_lamports. case_decide as Hd; [|done]. destruct Hd as [Hlen Htag]. intros [= <-].
  rewrite <-(take_drop 4 (data ix)) at 1. f_equal.
  - rewrite <-Htag. symmetry. pose proof (le_bytes_from_le (take 4 (data ix))) as Hle.
    by rewrite length_take, Hlen in Hle.
  - symmetry. unfold u64_bytes. pose proof (le_bytes_from_le (drop 4 (data ix))) as Hle.
    by rewrite length_drop, Hlen in Hle.
Qed.

Lemma spl_units_ok ix amount decimals :
  spl_units ix = Some (amount, decimals) ->
  data ix = byte_of_Z 12 :: u64_bytes amount ++ [byte_of_Z decimals].
Proof.
  unfold spl_units. destruct (tagged 12 9 (data ix)) eqn:Ht; [|done].
  apply read_amount in Ht as (a & b & -> & Ha & Hb). destruct (amount_fields a b Ha Hb) as [Hread _].
  rewrite Hread. intros [= <- <-]. repeat f_equal.
  transitivity (from_le (drop 8 (u64_bytes a ++ [byte_of_Z b]))); [|done].
  rewrite drop_app_length' by (symmetry; apply length_le_bytes). cbn. rewrite byte_to_of_Z, (Z.mod_small b) by done. lia.
Qed.

Definition funded (asset : Asset) (leg : ChargeLeg) (ix : CompiledInstruction) : Prop :=
  exists funder, pays_leg funder asset leg ix.

Lemma sol_match_pays leg ix :
  sol_transfer_matches keys fee_payer (cl_recipient leg) (cl_amount leg) ix = Ok true -> funded Lamports leg ix.
Proof.
  unfold sol_transfer_matches. intros (program & Hp%program_runs & Hif)%rbind_ok.
  case_decide; [done|]. subst program.
  destruct (sol_lamports ix) as [units|] eqn:Hu; [|done]. apply sol_lamports_ok in Hu.
  destruct (accounts ix) as [|s [|d [|]]] eqn:Hacc; try done.
  apply rbind_ok in Hif as (source & Hsource%ok_or_ok & (dest & Hdest%ok_or_ok & Hif)%rbind_ok).
  case_decide as Hd; [|done]. destruct Hd as [-> ->]. case_decide; [done|].
  exists source. by eapply pays_lamports.
Qed.

Lemma spl_match_pays mint expected prescribed leg ix :
  spl_transfer_matches keys fee_payer mint expected prescribed (cl_recipient leg) (cl_amount leg) ix = Ok true ->
  funded (TokenUnits mint expected prescribed) leg ix.
Proof.
  unfold spl_transfer_matches. intros (program & Hp%program_runs & Hif)%rbind_ok.
  case_decide as Hprog; [done|]. case_decide as Hexp; [done|]. apply agrees_intro in Hexp.
  destruct (spl_units ix) as [[units decimals]|] eqn:Hu; [|done]. apply spl_units_ok in Hu.
  destruct (accounts ix) as [|s [|m [|d [|a [|]]]]] eqn:Hacc; try done.
  case_decide; [done|]. subst units.
  case_decide as Hdec; [done|]. apply agrees_intro in Hdec.
  apply rbind_ok in Hif as (source & Hs%ok_or_ok & (dest & Hd%ok_or_ok & (m' & Hm%ok_or_ok & Hif)%rbind_ok)%rbind_ok).
  case_decide; [done|]. subst m'.
  apply rbind_ok in Hif as (funder & Ha%ok_or_ok & ([] & Hspons & Hif)%rbind_ok).
  assert (dest = find_associated_token_address (cl_recipient leg) mint program) as ->
    by (injection Hif; apply bool_decide_eq_true).
  assert (program = TOKEN_PROGRAM \/ program = TOKEN_2022_PROGRAM).
  { destruct (decide (program = TOKEN_PROGRAM)), (decide (program = TOKEN_2022_PROGRAM)); tauto. }
  exists funder. eapply pays_units; try done; unfold sponsor_funds in Hspons;
    destruct fee_payer; try done; repeat case_decide; congruence.
Qed.

(** An instruction that pays a leg counts its funder among those the signer
    check compares. *)
Lemma pays_funder_of asset leg ix funder :
  pays_leg funder asset leg ix -> funder_of keys ix = Some funder.
Proof.
  unfold runs. intros []; unfold funder_of.
  - rewrite H1. simpl. rewrite H2. done.
  - rewrite H1. simpl. rewrite decide_False by (by destruct H2 as [->| ->]).
    rewrite decide_True by done. simpl. by rewrite H4.
Qed.

Lemma pays_not_sponsor asset leg ix funder : pays_leg funder asset leg ix -> fee_payer <> Some funder.
Proof. by intros []. Qed.

Lemma assigned_impl {A} (P Q : A -> CompiledInstruction -> Prop) xs indexes :
  (forall x i ix, i ∈ indexes -> ixs !! i = Some ix -> P x ix -> Q x ix) ->
  assigned P xs indexes -> assigned Q xs indexes.
Proof.
  intros Himpl. induction 1 as [|x i xs indexes (ix & Hix & HP) _ IH]; constructor.
  - exists ix. split; [done|]. eapply Himpl; [by left|done|done].
  - apply IH. intros x' i' ix' Hi. apply Himpl. by right.
Qed.

Lemma common_funder_ok funder matched f :
  common_funder keys funder ixs matched = Ok f ->
  (forall a, funder = Some a -> f = Some a) /\
  forall i ix a, i ∈ matched -> ixs !! i = Some ix -> funder_of keys ix = Some a -> f = Some a.
Proof.
  revert funder. induction matched as [|i matched IH]; intros funder; simpl.
  { intros [= <-]. split; [done|]. set_solver. }
  assert (forall o, ixs !! i ≫= funder_of keys = o ->
    forall ix a, ixs !! i = Some ix -> funder_of keys ix = Some a -> o = Some a) as Hi.
  { intros o <- ix a Hix Ha. by rewrite Hix. }
  destruct (ixs !! i ≫= funder_of keys) as [authority|]; specialize (Hi _ eq_refl).
  - case_decide as Hc; [done|]. apply agrees_intro in Hc. intros [Hf Hall]%IH.
    specialize (Hf authority eq_refl). split; [destruct Hc; naive_solver|].
    intros j ix a [->|Hj]%elem_of_cons Hix Ha; [|by eauto]. specialize (Hi _ _ Hix Ha). congruence.
  - intros [Hf Hall]%IH. split; [done|]. intros j ix a [->|Hj]%elem_of_cons Hix Ha; [|by eauto].
    by specialize (Hi _ _ Hix Ha).
Qed.

Lemma memos_taken memos matched matched' :
  memos_loop keys ixs memos matched = Ok matched' -> taken carries_memo memos.*2 matched matched'.
Proof.
  revert matched. induction memos as [|[label memo] memos IH]; intros matched; simpl.
  { intros [= <-]. apply taken_nil. }
  case_decide; [done|]. intros (i & Hi & Hrest%IH)%rbind_ok.
  apply (found_taken carries_memo) with (x := memo) in Hi as (ix & Hix & Hm & Hin); [by eapply taken_cons|].
  intros ix (program & Hp%program_runs & Hif)%rbind_ok. injection Hif as Hif%bool_decide_eq_true.
  destruct Hif as (-> & ? & ?). done.
Qed.

Lemma creation_ok ix mint expected prescribed owners payer owner :
  validate_create_ata_idempotent_instruction keys ix (Some mint) owners expected payer = Ok owner ->
  runs keys ASSOCIATED_TOKEN_PROGRAM ix ->
  creates_account payer owner (TokenUnits mint expected prescribed) ix /\ owner ∈ owners.
Proof.
  intros Hv Hruns. simpl in Hv. case_decide as Hdata; [done|].
  destruct (accounts ix) as [|p [|a [|o [|m [|s [|t [|]]]]]]] eqn:Hacc; try done.
  apply rbind_ok in Hv as (payer' & Hp%ok_or_ok & (ata & Ha%ok_or_ok & (owner' & Ho%ok_or_ok & Hv)%rbind_ok)%rbind_ok).
  apply rbind_ok in Hv as (mint' & Hm%ok_or_ok & (system & Hs%ok_or_ok & (program & Ht%ok_or_ok & Hv)%rbind_ok)%rbind_ok).
  repeat (case_decide; [done|]). injection Hv as ->. subst.
  assert (program = TOKEN_PROGRAM \/ program = TOKEN_2022_PROGRAM).
  { destruct (decide (program = TOKEN_PROGRAM)), (decide (program = TOKEN_2022_PROGRAM)); tauto. }
  split; [|done]. eapply creates_intro; try done; by apply agrees_intro.
Qed.

Lemma budget_ok asset payer owners ix :
  validate_compute_budget_instruction ix (bool_decide (is_Some fee_payer)) = Ok tt ->
  runs keys COMPUTE_BUDGET_PROGRAM ix -> incidental asset payer owners ix.
Proof.
  unfold validate_compute_budget_instruction. intros Hv Hruns. case_decide; [done|].
  destruct (decode_compute_budget_op ix) as [[units|price|]|] eqn:Hop; try done.
  - case_decide; [done|]. case_decide; [done|]. eapply sets_limit; try done. lia.
  - simpl in Hv. case_decide; [done|]. eapply sets_price; try done. lia.
Qed.

(** What the allow list makes of an instruction no payment took. *)
Definition created_by (asset : Asset) (payer : Pubkey) (owners : list Pubkey) (owner : Pubkey)
    (ix : CompiledInstruction) : Prop :=
  creates_account payer owner asset ix /\ owner ∈ owners.

Definition mint_of (asset : Asset) : option Pubkey :=
  match asset with Lamports => None | TokenUnits mint _ _ => Some mint end.
Definition program_of (asset : Asset) : option Pubkey :=
  match asset with Lamports => None | TokenUnits _ program _ => program end.

Lemma allow_ok asset matched owners payer index ix o :
  allow_instruction keys matched (mint_of asset) owners (program_of asset) fee_payer payer index ix = Ok o ->
  (index ∈ matched \/ incidental asset payer owners ix) /\
  forall owner, o = Some owner -> created_by asset payer owners owner ix.
Proof.
  unfold allow_instruction. intros (program & Hp%program_runs & Hif)%rbind_ok.
  case_decide as Hb.
  { subst program. destruct (validate_compute_budget_instruction _ _) as [[]|] eqn:Hv; [|done].
    injection Hif as <-. split; [right; by apply budget_ok|done]. }
  assert (Hpay : forall what, (if decide (index ∈ matched) then Ok None else Err (unexpected what)) = Ok o ->
    (index ∈ matched \/ incidental asset payer owners ix) /\
    forall owner, o = Some owner -> created_by asset payer owners owner ix).
  { intros what. destruct (decide (index ∈ matched)); [|done]. intros [= <-]. split; [by left|done]. }
  destruct (decide (program = MEMO_PROGRAM)); [exact (Hpay _ Hif)|].
  destruct (decide (program = SYSTEM_PROGRAM)); [exact (Hpay _ Hif)|].
  destruct (decide (program = TOKEN_PROGRAM \/ program = TOKEN_2022_PROGRAM)); [exact (Hpay _ Hif)|].
  destruct (decide (program = ASSOCIATED_TOKEN_PROGRAM)); [|done]. subst program.
  destruct (validate_create_ata_idempotent_instruction _ _ _ _ _ _) as [owner|] eqn:Hv; [|done].
  injection Hif as <-. destruct asset as [|mint expected prescribed]; [done|].
  apply (creation_ok ix mint expected prescribed) in Hv; [|done].
  split; [right; destruct Hv; by eapply creates|by intros ? [= <-]].
Qed.

Lemma allowlist_ok asset matched owners payer k l created all :
  allowlist_loop keys matched (mint_of asset) owners (program_of asset) fee_payer payer k l created = Ok all ->
  (forall j ix, l !! j = Some ix -> (k + j)%nat ∈ matched \/ incidental asset payer owners ix) /\
  forall owner, owner ∈ all -> owner ∈ created \/ exists ix, ix ∈ l /\ created_by asset payer owners owner ix.
Proof.
  revert k created. induction l as [|ix l IH]; intros k created; simpl.
  { intros [= <-]. split; [done|]. by left. }
  intros (o & [Hix Ho]%allow_ok & [Hl Hall]%IH)%rbind_ok. split.
  - intros [|j] ix' Hj; simplify_eq/=; [by rewrite Nat.add_0_r|]. rewrite <-Nat.add_succ_comm. by apply Hl.
  - intros owner [Hin|(ix' & Hin & Hc)]%Hall; [|right; exists ix'; set_solver].
    destruct o as [o|]; [|by left]. apply elem_of_cons in Hin as [->|]; [|by left].
    right. exists ix. split; [set_solver|by apply Ho].
Qed.

Lemma allowlist_spec asset matched owners required :
  validate_instruction_allowlist keys ixs matched (mint_of asset) owners (program_of asset) fee_payer required = Ok tt ->
  exists payer, head keys = Some payer /\
    (forall i ix, ixs !! i = Some ix -> i ∈ matched \/ incidental asset (default payer fee_payer) owners ix) /\
    forall owner, owner ∈ required ->
      exists ix, ix ∈ ixs /\ creates_account (default payer fee_payer) owner asset ix.
Proof.
  intros (payer & Hpayer%ok_or_ok & (created & [Hall Hcreated]%allowlist_ok & Hreq)%rbind_ok)%rbind_ok.
  exists payer. split_and!; [done|done|]. intros owner Hin. unfold check_required_owners in Hreq.
  destruct (filter _ required) as [|o l] eqn:Hf; [|done].
  destruct (decide (owner ∈ created)) as [Hc|Hc].
  - destruct (Hcreated _ Hc) as [Hn|(ix & Hix & Hcr & _)]; [set_solver|by exists ix].
  - assert (owner ∈ filter (fun o => o ∉ created) required) as Hn by (by apply list_elem_of_filter).
    rewrite Hf in Hn. set_solver.
Qed.
End paid.

Section charge_paid.
Context {Key : Type} `{Crypto Key, Addresses} `{V1Format, Codec}.
Context (message_serialize : VersionedMessage -> list byte).
Context (signature_verify : list byte -> Pubkey -> list byte -> bool).
Context {Value : Type}.
Implicit Types (request : ChargeRequest Value) (md : MethodDetails) (tx : VersionedTransaction).

Definition split_leg (split : ChargeSplit) (leg : ChargeLeg) : Prop :=
  from_str (sp_recipient split) = Ok (cl_recipient leg) /\ parse_u64 (sp_amount split) = Some (cl_amount leg).

(** The legs: one for the recipient, which is not empty, one for each split,
    together the amount. *)
Definition charge_legs request md (legs : list ChargeLeg) : Prop :=
  exists total recipient primary rest, legs = primary :: rest /\
    parse_u64 (rq_amount request) = Some total /\ zsum (cl_amount <$> legs) = total /\ 0 < cl_amount primary /\
    rq_recipient request = Some recipient /\ from_str recipient = Ok (cl_recipient primary) /\
    (length (splits_of md) <= MAX_SPLITS)%nat /\ Forall2 split_leg (splits_of md) rest.

Definition charge_asset request md (asset : Asset) : Prop :=
  if is_native_sol request then asset = Lamports else
  exists mint program, asset = TokenUnits mint program (md_decimals md) /\
    resolve_charge_mint (rq_currency request) (md_network md) = Ok mint /\ expected_token_program md = Ok program.

(** The owners whose accounts the transaction may create. *)
Definition creatable md (sponsor : option Pubkey) (owner : Pubkey) : Prop :=
  exists split, split ∈ splits_of md /\ from_str (sp_recipient split) = Ok owner /\
    (sponsor <> None -> sp_ata_creation_required split = Some true).

Lemma sum_from_ok acc splits t : sum_from acc splits = Some t -> t = acc + zsum (lenient_amount <$> splits).
Proof.
  revert acc. induction splits as [|split splits IH]; intros acc; csimpl; [intros [= <-]; lia|].
  intros (a & Ha & Hs%IH)%bind_Some. apply u64_checked_add_some in Ha. lia.
Qed.

Lemma primary_ok request splits primary :
  primary_amount request splits = Ok primary ->
  exists total, parse_u64 (rq_amount request) = Some total /\ 0 < primary /\
    total = primary + zsum (lenient_amount <$> splits).
Proof.
  intros (total & Ht%ok_or_ok & (sum & Hs%ok_or_ok%sum_from_ok & Hif)%rbind_ok)%rbind_ok.
  case_decide; [done|]. case_decide; [done|]. injection Hif as <-. exists total. split_and!; [done|lia|lia].
Qed.

Lemma split_owner_ok split owner : split_owner split = Ok owner <-> from_str (sp_recipient split) = Ok owner.
Proof. unfold split_owner. destruct (from_str _); naive_solver. Qed.

Lemma policy_ok splits sponsor allowed required :
  expected_ata_creation_policy splits sponsor = Ok (allowed, required) ->
  (forall owner, owner ∈ allowed -> exists split, split ∈ splits /\ from_str (sp_recipient split) = Ok owner /\
     (sponsor <> None -> sp_ata_creation_required split = Some true)) /\
  forall split, split ∈ splits -> sp_ata_creation_required split = Some true ->
    exists owner, owner ∈ required /\ from_str (sp_recipient split) = Ok owner.
Proof.
  intros (owners & Hall%collect_ok & Hif)%rbind_ok. injection Hif as <- <-.
  assert (Hin : forall split owner, (split, owner) ∈ owners -> split ∈ splits /\ from_str (sp_recipient split) = Ok owner).
  { intros split owner [i Hi]%list_elem_of_lookup. destruct (Forall2_lookup_r _ _ _ _ _ Hall Hi) as (x & Hx & Hm).
    destruct (split_owner x) as [o|] eqn:Ho; [|done]. injection Hm as -> ->.
    split; [by eapply list_elem_of_lookup_2|by apply split_owner_ok]. }
  split.
  - intros owner Ho. assert (exists split, (split, owner) ∈ owners /\
      (sponsor <> None -> sp_ata_creation_required split = Some true)) as (split & Hs & Hreq).
    { destruct sponsor.
      - apply list_elem_of_omap in Ho as ([split o] & Hx & Hc). case_decide; simplify_eq. by exists split.
      - apply list_elem_of_fmap in Ho as ([split o] & -> & Hx). by exists split. }
    exists split. destruct (Hin _ _ Hs). done.
  - intros split [i Hi]%list_elem_of_lookup Hreq. destruct (Forall2_lookup_l _ _ _ _ _ Hall Hi) as (y & Hy & Hm).
    destruct (split_owner split) as [o|] eqn:Ho; [|done]. injection Hm as <-. exists o.
    split; [|by apply split_owner_ok]. apply list_elem_of_omap. exists (split, o).
    split; [by eapply list_elem_of_lookup_2|]. by rewrite decide_True.
Qed.

(** How each payment search ends: with an instruction of its own. *)
Definition pays_with (m : MessageBody) (sponsor : option Pubkey) (asset : Asset)
    (pay : Pubkey -> Z -> list nat -> result (list nat) VerificationError) : Prop :=
  forall leg matched matched', pay (cl_recipient leg) (cl_amount leg) matched = Ok matched' ->
    exists i ix, matched' = matched ++ [i] /\ instructions m !! i = Some ix /\
      funded (static_account_keys m) sponsor asset leg ix /\ i ∉ matched.

Lemma sol_pays_with m sponsor :
  pays_with m sponsor Lamports (verify_sol_transfer_instructions (static_account_keys m) sponsor (instructions m)).
Proof.
  intros leg matched matched' (i & Hi & Heq)%rbind_ok. injection Heq as <-.
  apply (found_taken _ (funded (static_account_keys m) sponsor Lamports)) with (x := leg) in Hi as (ix & ? & ? & ?);
    [by exists i, ix|]. intros ix. apply sol_match_pays.
Qed.

Lemma spl_pays_with m sponsor mint expected prescribed :
  pays_with m sponsor (TokenUnits mint expected prescribed)
    (verify_spl_transfer_instructions (static_account_keys m) sponsor (instructions m) mint expected prescribed).
Proof.
  intros leg matched matched' (i & Hi & Heq)%rbind_ok. injection Heq as <-.
  apply (found_taken _ (funded (static_account_keys m) sponsor (TokenUnits mint expected prescribed)))
    with (x := leg) in Hi as (ix & ? & ? & ?); [by exists i, ix|]. intros ix. apply spl_match_pays.
Qed.

Lemma pay_splits_taken m sponsor asset pay splits matched matched' :
  pays_with m sponsor asset pay ->
  pay_splits pay splits matched = Ok matched' ->
  exists legs, Forall2 split_leg splits legs /\ zsum (cl_amount <$> legs) = zsum (lenient_amount <$> splits) /\
    taken (instructions m) (funded (static_account_keys m) sponsor asset) legs matched matched'.
Proof.
  intros Hpay. revert matched. induction splits as [|split splits IH]; intros matched; csimpl.
  { intros [= <-]. exists []. split_and!; [constructor|done|apply taken_nil]. }
  intros (owner & Howner%split_owner_ok & (amount & Hamount%ok_or_ok & Hrest)%rbind_ok)%rbind_ok.
  apply rbind_ok in Hrest as (m1 & Hm1 & (legs & Hlegs & Hsum & Htaken)%IH).
  pose (leg := {| cl_recipient := owner; cl_amount := amount |}).
  apply (Hpay leg) in Hm1 as (i & ix & -> & Hix & Hf & Hi). exists (leg :: legs). csimpl. split_and!.
  - by constructor.
  - unfold lenient_amount at 1. rewrite Hamount. simpl. by rewrite Hsum.
  - by eapply taken_cons.
Qed.

(** What the matched instructions and the rest of the transaction are. *)
Definition settles_charge (m : MessageBody) request md (sponsor : option Pubkey) (asset : Asset)
    (legs : list ChargeLeg) (owners required : list Pubkey) : Prop :=
  let keys := static_account_keys m in
  exists funder payer paid memos, sponsor <> Some funder /\ head keys = Some payer /\ NoDup (paid ++ memos) /\
    assigned (instructions m) (pays_leg keys sponsor funder asset) legs paid /\
    assigned (instructions m) (carries_memo keys) (expected_memos (rq_external_id request) (splits_of md)).*2 memos /\
    (forall i ix, instructions m !! i = Some ix ->
      i ∈ paid ++ memos \/ incidental keys sponsor asset (default payer sponsor) owners ix) /\
    (forall owner, owner ∈ required ->
      exists ix, ix ∈ instructions m /\ creates_account keys (default payer sponsor) owner asset ix) /\
    forall key, key ∈ take (num_required_signatures m) keys -> key = payer \/ key = funder.

Lemma check_settles m request md recipient primary sponsor asset owners required pay :
  pays_with m sponsor asset pay ->
  check_instructions m request md recipient primary sponsor (mint_of asset) (program_of asset) owners required pay
    = Ok tt ->
  exists rest, Forall2 split_leg (splits_of md) rest /\
    zsum (cl_amount <$> rest) = zsum (lenient_amount <$> splits_of md) /\
    settles_charge m request md sponsor asset ({| cl_recipient := recipient; cl_amount := primary |} :: rest)
      owners required.
Proof.
  intros Hpay. unfold check_instructions, settles_charge.
  pose (leg := {| cl_recipient := recipient; cl_amount := primary |}).
  intros (m1 & Hm1 & (m2 & Hm2 & (m3 & Hm3 & ([] & Hallow & Hsigners)%rbind_ok)%rbind_ok)%rbind_ok)%rbind_ok.
  apply (Hpay leg) in Hm1 as (i & ix & -> & Hix & Hfunded & Hi).
  apply (pay_splits_taken _ _ _ _ _ _ _ Hpay) in Hm2 as (rest & Hrest & Hsum & Htaken).
  apply (taken_cons _ _ leg _ _ _ _ _ Hix Hfunded Hi) in Htaken as (paid & -> & Hpaid & Hnd).
  apply memos_taken in Hm3 as (memos & -> & Hmemos & Hnd').
  apply allowlist_spec in Hallow as (payer & Hpayer & Hall & Hreq).
  apply rbind_ok in Hsigners as (f & [_ Hf]%common_funder_ok & Hsigners).
  exists rest. split_and!; [done|done|]. simpl in *.
  assert (Hfunder : forall j ix' a, j ∈ paid -> instructions m !! j = Some ix' ->
    funder_of (static_account_keys m) ix' = Some a -> f = Some a) by (intros j ix' a Hj; apply Hf; set_solver).
  destruct (Forall2_cons_inv_l _ _ _ _ Hpaid) as (j & paid' & (ix' & Hj & (funder & Hp)) & _ & Hcons).
  assert (f = Some funder) as ->.
  { eapply Hfunder; [rewrite Hcons; by left|exact Hj|by eapply pays_funder_of]. }
  exists funder, payer, paid, memos. split_and!; try done.
  - by eapply pays_not_sponsor.
  - apply Hnd', Hnd. constructor.
  - eapply assigned_impl; [|exact Hpaid]. intros l k ixk Hk Hixk (a & Ha).
    assert (Some funder = Some a) as [= ->] by (eapply Hfunder; [done..|by eapply pays_funder_of]). done.
  - intros key Hkey. rewrite Hpayer in Hsigners. simpl in Hsigners.
    destruct (existsb _ _) eqn:Hex; [done|].
    destruct (decide (key ∈ [payer; funder])) as [Hin|Hin]; [set_solver|].
    assert (existsb (fun signer => bool_decide (signer ∉ [payer; funder]))
      (take (num_required_signatures m) (static_account_keys m)) = true) as Ht; [|by rewrite Ht in Hex].
    apply existsb_exists. exists key. rewrite <-list_elem_of_In, bool_decide_eq_true. done.
Qed.

Lemma asset_fields md asset mint program :
  asset = TokenUnits mint program (md_decimals md) -> mint_of asset = Some mint /\ program_of asset = program.
Proof. by intros ->. Qed.

Lemma pre_broadcast_ok tx request md accepted :
  verify_versioned_transaction_pre_broadcast tx request md accepted = Ok tt ->
  version_of (message tx) ∈ accepted /\
  exists legs asset sponsor owners required,
    charge_legs request md legs /\ charge_asset request md asset /\ expected_fee_payer tx md = Ok sponsor /\
    expected_ata_creation_policy (splits_of md) sponsor = Ok (owners, required) /\
    settles_charge (body (message tx)) request md sponsor asset legs owners required.
Proof.
  intros (version & Henv & (budget & _ & Hrest)%rbind_ok)%rbind_ok. cbv zeta in Hrest.
  split; [by eapply envelope_without_legacy_version, rmap_err_ok|].
  case_decide as Hlen; [done|].
  apply rbind_ok in Hrest as (primary & (total & Htotal & Hpos & Hsum)%primary_ok & Hrest).
  apply rbind_ok in Hrest as (text & Htext%ok_or_ok & (recipient & Hrec%rmap_err_ok & Hrest)%rbind_ok).
  apply rbind_ok in Hrest as (sponsor & Hsponsor & Hrest).
  destruct (is_native_sol request && requires_accounts (splits_of md)); [done|].
  apply rbind_ok in Hrest as ([owners required] & Hpolicy & (() & Hcheck & _)%rbind_ok).
  assert (Hsettled : exists asset rest, charge_asset request md asset /\ Forall2 split_leg (splits_of md) rest /\
    zsum (cl_amount <$> rest) = zsum (lenient_amount <$> splits_of md) /\
    settles_charge (body (message tx)) request md sponsor asset
      ({| cl_recipient := recipient; cl_amount := primary |} :: rest) owners required).
  { unfold charge_asset. destruct (is_native_sol request).
    - eapply (check_settles _ _ _ _ _ _ Lamports) in Hcheck as (rest & ? & ? & ?); [|apply sol_pays_with].
      by exists Lamports, rest.
    - apply rbind_ok in Hcheck as (mint & Hmint & Hcheck). destruct (_ && _); [done|].
      apply rbind_ok in Hcheck as (program & Hprogram & Hcheck).
      eapply (check_settles _ _ _ _ _ _ (TokenUnits mint program (md_decimals md))) in Hcheck
        as (rest & ? & ? & ?); [|apply spl_pays_with].
      eexists _, rest. split_and!; [by exists mint, program|done..]. }
  destruct Hsettled as (asset & rest & Hasset & Hrest' & Hzsum & Hsettled).
  exists ({| cl_recipient := recipient; cl_amount := primary |} :: rest), asset, sponsor, owners, required.
  split_and!; try done. exists total, text, {| cl_recipient := recipient; cl_amount := primary |}, rest.
  csimpl. split_and!; try done; lia.
Qed.

(** A transaction the server is about to co-sign and broadcast pays its charge:
    the recipient and every split each get their own transfer of their own
    amount, together the amount charged, all of them funded by one account that
    is not the sponsor; each memo has an instruction of its own. Its other
    instructions only set a bounded compute budget and create accounts of the
    charge's own recipients, every required one among them; nobody but its fee
    payer and the funder must sign, and all but the sponsor have signed. *)
Theorem charge_pays tx request md accepted :
  verify_client_pull_transaction message_serialize signature_verify tx request md accepted = Ok tt ->
  exists legs asset sponsor owners required,
    charge_legs request md legs /\ charge_asset request md asset /\ expected_fee_payer tx md = Ok sponsor /\
    settles_charge (body (message tx)) request md sponsor asset legs owners required /\
    (forall owner, owner ∈ owners -> creatable md sponsor owner) /\
    (forall split, split ∈ splits_of md -> sp_ata_creation_required split = Some true ->
      exists owner, owner ∈ required /\ from_str (sp_recipient split) = Ok owner) /\
    client_signed message_serialize signature_verify tx sponsor /\ version_of (message tx) ∈ accepted.
Proof.
  intros ([] & Hpre & (sponsor & Hsponsor & Hsigned)%rbind_ok)%rbind_ok.
  apply pre_broadcast_ok in Hpre as (Hv & legs & asset & sponsor' & owners & required & Hlegs & Hasset & Hsp & Hpol & Hset).
  rewrite Hsp in Hsponsor. injection Hsponsor as ->. apply policy_ok in Hpol as [Howners Hrequired].
  apply rmap_err_ok, presigned_iff in Hsigned. by exists legs, asset, sponsor, owners, required.
Qed.
End charge_paid.

(** * A charge *)
Module TransfersDemo.
Export AddressesDemo CodecDemo.

Definition mint : Pubkey := key "mint".
Definition split : ChargeSplit := {|
  sp_recipient := "platform"; sp_amount := "250"; sp_ata_creation_required := Some true; sp_label := None;
  sp_memo := Some "fee" |}.
Definition details : MethodDetails := {|
  md_channel_charge := None; md_network := Some "devnet"; md_decimals := Some 6;
  md_token_program := None; md_fee_payer := Some true; md_fee_payer_key := Some "sponsor";
  md_transaction_versions := None; md_splits := Some [split]; md_recent_blockhash := None;
  md_confidential := None; md_auditor_elgamal_pubkey := None; md_recipient_elgamal_pubkey := None |}.
Definition request : ChargeRequest unit := {|
  rq_amount := "1000"; rq_currency := "mint"; rq_recipient := Some "payee"; rq_description := None;
  rq_external_id := Some "order 7"; rq_method_details := None |}.

Definition account (owner : string) : Pubkey := find_associated_token_address (key owner) mint TOKEN_PROGRAM.
Definition keys : list Pubkey := [
  key "sponsor"; key "payer"; account "payer"; account "payee"; account "platform"; key "platform"; mint;
  COMPUTE_BUDGET_PROGRAM; TOKEN_PROGRAM; MEMO_PROGRAM; ASSOCIATED_TOKEN_PROGRAM; SYSTEM_PROGRAM].
Definition call (program : nat) (accounts : list nat) (data : list byte) : CompiledInstruction :=
  {| program_id_index := program; accounts := accounts; data := data |}.
Definition transfer (destination : nat) (amount : Z) : CompiledInstruction :=
  call 8 [2; 6; destination; 1]%nat (byte_of_Z 12 :: u64_bytes amount ++ [byte_of_Z 6]).

(** The transaction of the charge, the recipient's transfer of [amount]. *)
Definition transaction (amount : Z) (rest : list CompiledInstruction) : VersionedTransaction := {|
  signatures := [default_signature; [Byte.x01]];
  message := MessageV0 {|
    num_required_signatures := 2; num_readonly_signed_accounts := 0; num_readonly_unsigned_accounts := 5;
    static_account_keys := keys;
    instructions := [
      call 7 [] (ix_data (unit_limit_instruction 100000)); call 7 [] (ix_data (unit_price_instruction 5000));
      call 10 [0; 4; 5; 6; 11; 8]%nat [byte_of_Z 1]; transfer 4 250; transfer 3 amount;
      call 9 [] (str_bytes "fee"); call 9 [] (str_bytes "order 7")] ++ rest;
    recent_blockhash := [] |} [] |}.

Definition verify (tx : VersionedTransaction) : result unit VerificationError :=
  verify_client_pull_transaction (fun _ => []) (fun sig _ _ => bool_decide (sig = [Byte.x01])) tx request details [V0].
End TransfersDemo.

Example demo_charge_verified : TransfersDemo.verify (TransfersDemo.transaction 750 []) = Ok tt.
Proof. vm_compute. reflexivity. Qed.
Example demo_charge_short :
  TransfersDemo.verify (TransfersDemo.transaction 749 []) = Err (invalid_amount ("No matching SPL transferChecked of 750 to "
    +:+ AddressesDemo.key "payee")).
Proof. vm_compute. reflexivity. Qed.
Example demo_charge_extra :
  TransfersDemo.verify (TransfersDemo.transaction 750 [TransfersDemo.transfer 3 1]) = Err (unexpected "Token Program").
Proof. vm_compute. reflexivity. Qed.

Lemma charge_pays_witness : exists legs asset sponsor,
  charge_legs TransfersDemo.request TransfersDemo.details legs /\
  charge_asset TransfersDemo.request TransfersDemo.details asset /\
  expected_fee_payer (TransfersDemo.transaction 750 []) TransfersDemo.details = Ok sponsor.
Proof.
  destruct (charge_pays _ _ (TransfersDemo.transaction 750 []) TransfersDemo.request TransfersDemo.details [V0]
    demo_charge_verified) as (legs & asset & sponsor & _ & _ & ? & ? & ? & _).
  exists legs, asset, sponsor. split_and!; assumption.
Defined.

(** A repeated leg needs a transfer of its own. *)
Example demo_split_twice :
  let tx := TransfersDemo.transaction 750 [] in
  verify_versioned_transaction_pre_broadcast tx
    {| rq_amount := "1250"; rq_currency := "mint"; rq_recipient := Some "payee"; rq_description := None;
       rq_external_id := None; rq_method_details := @None unit |}
    {| md_channel_charge := None; md_network := Some "devnet"; md_decimals := Some 6; md_token_program := None;
       md_fee_payer := Some true; md_fee_payer_key := Some "sponsor"; md_transaction_versions := None;
       md_splits := Some [TransfersDemo.split; TransfersDemo.split]; md_recent_blockhash := None;
       md_confidential := None; md_auditor_elgamal_pubkey := None; md_recipient_elgamal_pubkey := None |} [V0] =
  Err (invalid_amount ("No matching SPL transferChecked of 250 to " +:+ AddressesDemo.key "platform")).
Proof. vm_compute. reflexivity. Qed.
