(* ===== verification/Broadcast.v ===== *)
(** Sending a transaction and learning its outcome
    (src/rust/crates/kit/src/core/rpc.rs): one broadcast, the poll of its status,
    and the classification of a failure by whether the transaction could still
    land. The node is the environment: a program asks it and takes any answer. *)
From stdpp Require Import base numbers option list strings.
From S2P Require Import Prelude Effects Bytes Voucher Tx Build Policy ChannelTx Deployments ChannelProgram.
Open Scope Z_scope.

(** [solana_rpc_client_api::client_error::Error], as far as the code tells its
    kinds apart; [client_text] is its [Display]. *)
Inductive ClientError :=
| ResponseError (code : Z) (m : string)
| TransactionError (m : string)
| Custom (m : string)
| Transport (m : string).

#[export] Instance ClientError_eq_dec : EqDecision ClientError.
Proof. solve_decision. Defined.

Class ClientText := client_text : ClientError -> string.

Definition PREFLIGHT_FAILURE : Z := -32002.

Inductive PriorBroadcast := NoPrior | Possible.
Inductive BroadcastFailure :=
| NotLanded (e : ClientError)
| FailedOnChain (e : ClientError)
| Unknown (e : ClientError).
Inductive Settled := Confirmed (signature : list byte) | AlreadyLanded (signature : list byte).

#[export] Instance PriorBroadcast_eq_dec : EqDecision PriorBroadcast.
Proof. solve_decision. Defined.

Definition into_error (f : BroadcastFailure) : ClientError :=
  match f with NotLanded e | FailedOnChain e | Unknown e => e end.

Definition failure_text `{ClientText} (f : BroadcastFailure) : string :=
  match f with
  | NotLanded e => "not landed: " +:+ client_text e
  | FailedOnChain e => "failed on-chain: " +:+ client_text e
  | Unknown e => "outcome unknown: " +:+ client_text e
  end.

Definition is_response_error (e : ClientError) : bool := match e with ResponseError _ _ => true | _ => false end.
Definition is_preflight_rejection (e : ClientError) : bool :=
  match e with ResponseError code _ => bool_decide (code = PREFLIGHT_FAILURE) | _ => false end.

(** * What the code asks a node

    A status is [None] while the node has none recorded, and an on-chain error is
    its text. [History] reads at [processed], searching the history. *)
Definition status_reply : Type := result (option (result unit string)) ClientError.

Inductive rpcE : Type -> Type :=
| SendTransaction (b64 : string) : rpcE (result string ClientError)
| Status (signature : list byte) : rpcE status_reply
| History (signature : list byte) : rpcE status_reply
| BlockhashValid (blockhash : list byte) : rpcE (result bool ClientError).

Section broadcast.
Context `{Addresses, Codec}.
(** [Signature::from_str]. *)
Context (signature_from_str : string -> result (list byte) string).

Definition send_transaction (tx : VersionedTransaction) : prog rpcE (result (list byte) ClientError) :=
  match head (signatures tx) with
  | None => Ret (Err (Custom "transaction is missing its fee-payer signature"))
  | Some local =>
      match encode tx with
      | Err e => Ret (Err (Custom ("transaction encoding failed: " +:+ core_error_text e)))
      | Ok b64 =>
          await? text := perform (SendTransaction b64) in
          match signature_from_str text with
          | Err e => Ret (Err (Custom ("invalid signature in response: " +:+ e)))
          | Ok returned =>
              if decide (returned <> local)
              then Ret (Err (Custom ("RPC returned signature " +:+ encode_64 returned
                +:+ " for a different transaction (expected " +:+ encode_64 local +:+ ")")))
              else Ret (Ok returned)
          end
      end
  end.

(** The status loop, [polls] turns of it: [None] when they are spent. *)
Fixpoint poll (polls : nat) (signature blockhash : list byte) :
    prog rpcE (option (result Settled BroadcastFailure)) :=
  match polls with
  | O => Ret None
  | S polls =>
      await status := perform (Status signature) in
      match status with
      | Err e => Ret (Some (Err (Unknown e)))
      | Ok (Some (Ok _)) => Ret (Some (Ok (Confirmed signature)))
      | Ok (Some (Err e)) => Ret (Some (Err (FailedOnChain (TransactionError e))))
      | Ok None =>
          await valid := perform (BlockhashValid blockhash) in
          match valid with
          | Err e => Ret (Some (Err (Unknown e)))
          | Ok true => poll polls signature blockhash
          | Ok false =>
              await recorded := perform (History signature) in
              match recorded with
              | Err e => Ret (Some (Err (Unknown e)))
              | Ok None => Ret (Some (Err (Unknown (Custom
                  "blockhash expired with no status recorded for the transaction"))))
              | Ok (Some (Err e)) => Ret (Some (Err (FailedOnChain (TransactionError e))))
              | Ok (Some (Ok _)) => poll polls signature blockhash
              end
          end
      end
  end.

Definition send_and_confirm_settlement (polls : nat) (tx : VersionedTransaction) (prior : PriorBroadcast) :
    prog rpcE (option (result Settled BroadcastFailure)) :=
  let blockhash := recent_blockhash (body (message tx)) in
  await sent := send_transaction tx in
  match sent with
  | Ok signature => poll polls signature blockhash
  | Err error =>
      if is_response_error error then
        match head (signatures tx) with
        | None => Ret (Some (Err (NotLanded error)))
        | Some signature =>
            let never_sent := bool_decide (prior = NoPrior) && is_preflight_rejection error in
            await recorded := perform (History signature) in
            match recorded with
            | Err e => Ret (Some (Err (Unknown e)))
            | Ok None => Ret (Some (Err (if never_sent then NotLanded error else Unknown error)))
            | Ok (Some (Err e)) => Ret (Some (Err (FailedOnChain (TransactionError e))))
            | Ok (Some (Ok _)) =>
                if never_sent then Ret (Some (Ok (AlreadyLanded signature)))
                else poll polls signature blockhash
            end
        end
      else Ret (Some (Err (Unknown error)))
  end.

Definition settled_signature (s : Settled) : list byte :=
  match s with Confirmed signature | AlreadyLanded signature => signature end.

Definition send_and_confirm_with_outcome (polls : nat) (tx : VersionedTransaction) (prior : PriorBroadcast) :
    prog rpcE (option (result (list byte) BroadcastFailure)) :=
  await o := send_and_confirm_settlement polls tx prior in Ret (option_map (rmap settled_signature) o).

Definition send_and_confirm_transaction (polls : nat) (tx : VersionedTransaction) :
    prog rpcE (option (result (list byte) ClientError)) :=
  await o := send_and_confirm_with_outcome polls tx Possible in Ret (option_map (rmap_err into_error) o).
End broadcast.

(** * What an outcome is evidence of *)

(** An operation and the node's answer. *)
Inductive exchange :=
| Sent (b64 : string) (r : result string ClientError)
| StatusRead (signature : list byte) (r : status_reply)
| HistoryRead (signature : list byte) (r : status_reply)
| ValidityRead (blockhash : list byte) (r : result bool ClientError).

Definition exchanged (X : Type) (e : rpcE X) : X -> list exchange :=
  match e with
  | SendTransaction b64 => fun r => [Sent b64 r]
  | Status s => fun r => [StatusRead s r]
  | History s => fun r => [HistoryRead s r]
  | BlockhashValid b => fun r => [ValidityRead b r]
  end.

(** Some read of the node says so. *)
Definition recorded (signature : list byte) (r : result unit string) (l : list exchange) : Prop :=
  StatusRead signature (Ok (Some r)) ∈ l \/ HistoryRead signature (Ok (Some r)) ∈ l.

(** The polls that found no status. *)
Definition is_empty_poll (e : exchange) : bool :=
  match e with StatusRead _ (Ok None) => true | _ => false end.
Definition empty_polls (l : list exchange) : nat := length (filter (fun e => is_empty_poll e = true) l).

Section evidence.
Context `{Addresses, Codec}.
Context (signature_from_str : string -> result (list byte) string).

Definition poll_evidence (polls : nat) (signature : list byte) (l : list exchange)
    (o : option (result Settled BroadcastFailure)) : Prop :=
  match o with
  | None => empty_polls l = polls
  | Some (Ok (Confirmed s)) => s = signature /\ StatusRead s (Ok (Some (Ok tt))) ∈ l
  | Some (Ok (AlreadyLanded _)) | Some (Err (NotLanded _)) => False
  | Some (Err (FailedOnChain e)) => exists text, e = TransactionError text /\ recorded signature (Err text) l
  | Some (Err (Unknown _)) => True
  end.

Lemma empty_polls_cons e l : empty_polls (e :: l) = ((if is_empty_poll e then 1 else 0) + empty_polls l)%nat.
Proof. unfold empty_polls. rewrite filter_cons. destruct (is_empty_poll e); simpl; done. Qed.

Lemma recorded_cons signature r e l : recorded signature r l -> recorded signature r (e :: l).
Proof. intros [?|?]; [left|right]; by right. Qed.

Lemma poll_evidence_cons polls signature e l o :
  poll_evidence polls signature l o ->
  poll_evidence ((if is_empty_poll e then 1 else 0) + polls)%nat signature (e :: l) o.
Proof.
  destruct o as [[[s|s]|[c|c|c]]|]; simpl; try done.
  - intros [? ?]. split; [done|]. by right.
  - intros (text & ? & ?). exists text. split; [done|]. by apply recorded_cons.
  - rewrite empty_polls_cons. lia.
Qed.

Lemma poll_traces polls signature blockhash l o :
  traces exchanged (poll polls signature blockhash) l o -> poll_evidence polls signature l o.
Proof.
  revert l. induction polls as [|polls IH]; intros l; simpl; [by intros [-> ->]|].
  assert (Hhere : forall r l', recorded signature r (StatusRead signature (Ok (Some r)) :: l'))
    by (intros; left; by left).
  intros ([[[[]|e]|]|e] & l1 & -> & Hrest); simpl in Hrest.
  - destruct Hrest as [-> ->]. split; [done|]. by left.
  - destruct Hrest as [-> ->]. exists e. split; [done|]. apply Hhere.
  - destruct Hrest as ([[|]|e] & l2 & -> & Hrest); simpl in Hrest.
    + apply IH in Hrest. by apply (poll_evidence_cons polls _ (StatusRead _ (Ok None))), (poll_evidence_cons polls _ (ValidityRead _ _)).
    + destruct Hrest as ([[[[]|e]|]|e] & l3 & -> & Hrest); simpl in Hrest.
      * apply IH in Hrest. by apply (poll_evidence_cons polls _ (StatusRead _ (Ok None))),
          (poll_evidence_cons polls _ (ValidityRead _ _)), (poll_evidence_cons polls _ (HistoryRead _ _)).
      * destruct Hrest as [-> ->]. exists e. split; [done|]. right. by do 2 right; left.
      * by destruct Hrest as [-> ->].
      * by destruct Hrest as [-> ->].
    + by destruct Hrest as [-> ->].
  - by destruct Hrest as [-> ->].
Qed.

Lemma send_traces tx l r :
  traces exchanged (send_transaction signature_from_str tx) l r ->
  empty_polls l = 0%nat /\
  match r with
  | Ok s => head (signatures tx) = Some s
  | Err e => is_response_error e = true ->
      exists b64 s, l = [Sent b64 (Err e)] /\ head (signatures tx) = Some s
  end.
Proof.
  unfold send_transaction. destruct (head (signatures tx)) as [local|]; [|by intros [-> ->]].
  destruct (encode tx) as [b64|e]; [|by intros [-> ->]].
  intros ([text|e] & l' & -> & Hrest); simpl in Hrest; [|destruct Hrest as [-> ->]; simpl; eauto].
  destruct (signature_from_str text) as [returned|]; [|by destruct Hrest as [-> ->]].
  case_decide; destruct Hrest as [-> ->]; [done|]. by subst.
Qed.

(** What is known of a transaction when the call answers [o] after [l]. *)
Definition evidence (polls : nat) (prior : PriorBroadcast) (tx : VersionedTransaction) (l : list exchange)
    (o : option (result Settled BroadcastFailure)) : Prop :=
  match o with
  | None => empty_polls l = polls
  | Some (Ok (Confirmed s)) => head (signatures tx) = Some s /\ StatusRead s (Ok (Some (Ok tt))) ∈ l
  | Some (Ok (AlreadyLanded s)) =>
      prior = NoPrior /\ head (signatures tx) = Some s /\
      exists b64 m, l = [Sent b64 (Err (ResponseError PREFLIGHT_FAILURE m)); HistoryRead s (Ok (Some (Ok tt)))]
  | Some (Err (NotLanded e)) =>
      prior = NoPrior /\ exists b64 m s, e = ResponseError PREFLIGHT_FAILURE m /\
        head (signatures tx) = Some s /\ l = [Sent b64 (Err e); HistoryRead s (Ok None)]
  | Some (Err (FailedOnChain e)) => exists s text, head (signatures tx) = Some s /\
      e = TransactionError text /\ recorded s (Err text) l
  | Some (Err (Unknown _)) => True
  end.

Lemma polled_evidence polls prior tx l' l o signature :
  head (signatures tx) = Some signature -> empty_polls l' = 0%nat ->
  traces exchanged (poll polls signature (recent_blockhash (body (message tx)))) l o ->
  evidence polls prior tx (l' ++ l) o.
Proof.
  intros Hhd He Ht%poll_traces.
  assert (Hev : poll_evidence polls signature (l' ++ l) o).
  { induction l' as [|x l' IH]; [done|]. rewrite empty_polls_cons in He.
    apply (poll_evidence_cons _ _ x) in IH; [|lia]. by destruct (is_empty_poll x). }
  destruct o as [[[s|s]|[e|e|e]]|]; simpl in *; naive_solver.
Qed.

Lemma never_sent_ok prior e :
  bool_decide (prior = NoPrior) && is_preflight_rejection e = true ->
  prior = NoPrior /\ exists m, e = ResponseError PREFLIGHT_FAILURE m.
Proof.
  intros [->%bool_decide_eq_true He]%andb_true_iff. split; [done|].
  destruct e; try done. apply bool_decide_eq_true in He as ->. eauto.
Qed.

(** C11. What each outcome is evidence of: a confirmation was read under the
    transaction's own signature; a landing by someone else, or the certainty that
    it can never land, follows a preflight refusal of the first broadcast of
    these bytes; a failure on chain was read; and a caller that is still polling
    found no status at every poll. *)
Theorem outcome_evidence polls tx prior l o :
  traces exchanged (send_and_confirm_settlement signature_from_str polls tx prior) l o ->
  evidence polls prior tx l o.
Proof.
  unfold send_and_confirm_settlement. intros Ht.
  apply traces_pbind in Ht as (sent & l1 & l2 & -> & [He Hsent]%send_traces & Hrest).
  destruct sent as [signature|error]; [by eapply polled_evidence|].
  destruct (is_response_error error) eqn:Hresp; [|by destruct Hrest as [-> ->]].
  destruct (Hsent eq_refl) as (b64 & signature & -> & Hhd). rewrite Hhd in Hrest.
  destruct Hrest as ([[[[]|e]|]|e] & l3 & -> & Hrest); simpl in Hrest.
  - destruct (bool_decide (prior = NoPrior) && is_preflight_rejection error) eqn:Hnever.
    + apply never_sent_ok in Hnever as [-> [m ->]]. destruct Hrest as [-> ->]. simpl. eauto.
    + by eapply (polled_evidence _ _ _ [Sent b64 (Err error); HistoryRead signature (Ok (Some (Ok tt)))]).
  - destruct Hrest as [-> ->]. exists signature, e. split_and!; [done|done|]. right. by right; left.
  - destruct Hrest as [-> ->]. destruct (bool_decide (prior = NoPrior) && _) eqn:Hnever; [|done].
    apply never_sent_ok in Hnever as [-> [m ->]]. split; [done|]. by eexists _, _, _.
  - by destruct Hrest as [-> ->].
Qed.
End evidence.

(** * A broadcast that confirms at its second poll *)
Module BroadcastDemo.
Export AddressesDemo.
Definition signature : list byte := replicate 64 Byte.x09.
Definition tx : VersionedTransaction := {|
  signatures := [signature]; message := MessageV0 TxDemo.v0_body [] |}.
#[global] Instance codec : Codec := {|
  compile_v0 _ _ _ := Err "unsupported"; compile_v1 _ _ _ _ := Err "unsupported";
  wincode_serialize _ := Ok [Byte.x01]; wincode_deserialize _ := Ok tx;
  b64_encode _ := "tx"; b64_decode _ := Ok [Byte.x01] |}.
Definition parse_signature (s : string) : result (list byte) string := Ok (String.list_byte_of_string s).
Definition log : list exchange := [
  Sent "tx" (Ok (encode_64 signature)); StatusRead signature (Ok None);
  ValidityRead (recent_blockhash TxDemo.v0_body) (Ok true); StatusRead signature (Ok (Some (Ok tt)))].
End BroadcastDemo.

Lemma outcome_evidence_witness :
  StatusRead BroadcastDemo.signature (Ok (Some (Ok tt))) ∈ BroadcastDemo.log.
Proof.
  refine (proj2 (outcome_evidence BroadcastDemo.parse_signature 2 BroadcastDemo.tx NoPrior BroadcastDemo.log
    (Some (Ok (Confirmed BroadcastDemo.signature))) _)).
  exists (Ok (encode_64 BroadcastDemo.signature)). eexists. split; [reflexivity|].
  exists (Ok None). eexists. split; [reflexivity|].
  exists (Ok true). eexists. split; [reflexivity|].
  exists (Ok (Some (Ok tt))). eexists. split; [reflexivity|]. split; reflexivity.
Defined.
