(* ===== verification/X402Offer.v ===== *)
(** What the x402 [exact] server offers and what comes back
    (src/rust/crates/kit/src/x402/server/exact.rs,
    x402/protocol/schemes/exact/types.rs): the requirements of a route, their JSON
    form, the choice of the requirement a credential answers, and the checks that
    bind the credential to it. *)
From Stdlib Require Import Ascii.
From stdpp Require Import base numbers option list gmap strings pretty sets sorting.
From S2P Require Import Prelude Bytes Units Voucher Tx Build Policy ChannelTx Deployments ChannelProgram X402Batch X402BatchTx X402Upto MppBase X402Open X402Exact.
Open Scope Z_scope.

(** The rest of [serde_json::Value] the offers use: numbers, flags, arrays. *)
Class JsonWire (Value : Type) := {
  #[global] wire_eq_dec :: EqDecision Value;
  as_bool : Value -> option bool;
  as_array : Value -> option (list Value);
  of_bool : bool -> Value;
  of_u64 : Z -> Value;
  of_array : list Value -> Value;
}.

Class JsonWireLaws (Value : Type) `{JsonScalar Value, JsonObject Value, JsonWire Value} := {
  #[global] wire_objects :: JsonObjectLaws Value;
  as_u64_of n : in_u64 n -> as_u64 (of_u64 n) = Some n;
  as_array_of l : as_array (of_array l) = Some l;
}.

Definition EXACT_SCHEME : string := "exact".
Definition X402_VERSION_V1 : Z := 1.
Definition X402_VERSION_V2 : Z := 2.

Definition cluster_for_caip2_network (network : string) : option string :=
  if decide (network ∈ ["solana"; "mainnet"; "mainnet-beta"; "solana:mainnet"]) then Some "mainnet-beta" else
  if decide (network ∈ ["solana-devnet"; "devnet"; "localnet"; "solana:devnet"]) then Some "devnet" else
  if decide (network ∈ ["solana-testnet"; "testnet"; "solana:testnet"]) then Some "testnet" else
  if decide (network = SOLANA_MAINNET) then Some "mainnet-beta" else
  if decide (network = SOLANA_DEVNET) then Some "devnet" else
  if decide (network = SOLANA_TESTNET) then Some "testnet" else None.

Definition normalize_network_identifier (network : string) : string :=
  if decide (network ∈ ["solana"; "mainnet"; "mainnet-beta"]) then SOLANA_MAINNET else
  if decide (network ∈ ["solana-devnet"; "devnet"; "localnet"]) then SOLANA_DEVNET else
  if decide (network ∈ ["solana-testnet"; "testnet"]) then SOLANA_TESTNET else network.

(** * The wire form of a requirement *)
Section wire.
Context {Value : Type} `{JsonScalar Value, JsonObject Value, JsonWire Value}.
Implicit Types (r : PaymentRequirements Value) (object extra : gmap string Value).

Definition is_exact_scheme r : bool :=
  match pr_accepted r ≫= json_get "scheme" with
  | Some scheme => bool_decide (as_str scheme = Some EXACT_SCHEME)
  | None => true
  end.

(** [entry(key).or_insert(value)] for an optional value. *)
Definition or_insert (key : string) (value : option Value) (extra : gmap string Value) : gmap string Value :=
  match value with
  | Some v => match extra !! key with Some _ => extra | None => <[key := v]> extra end
  | None => extra
  end.

Definition versions_value (versions : list TxVersion) : Value := of_array (of_u64 ∘ version_u8 <$> versions).

Definition canonical_extra r : gmap string Value :=
  let extra := default ∅ (pr_extra r ≫= as_object) in
  let extra := or_insert "feePayer" (of_str <$> pr_fee_payer_key r) extra in
  let extra := or_insert "recentBlockhash" (of_str <$> pr_recent_blockhash r) extra in
  let extra := or_insert "tokenProgram" (of_str <$> pr_token_program r) extra in
  let extra := or_insert "decimals" (of_u64 <$> pr_decimals r) extra in
  or_insert "transactionVersions" (versions_value <$> pr_transaction_versions r) extra.

Definition canonical_terms r : gmap string Value := {[
  "scheme" := of_str "exact"; "network" := of_str (pr_network r); "amount" := of_str (pr_amount r);
  "asset" := of_str (pr_currency r); "payTo" := of_str (pr_recipient r);
  "maxTimeoutSeconds" := of_u64 (default DEFAULT_MAX_TIMEOUT_SECONDS (pr_max_age r))]}.
Definition canonical_object r : gmap string Value :=
  <["extra" := of_object (canonical_extra r)]> (canonical_terms r).

(** [Serialize]. *)
Definition to_accepted_value r : Value :=
  match pr_accepted r with Some accepted => accepted | None => of_object (canonical_object r) end.

Definition resource_info r : option ResourceInfo :=
  match pr_resource_info r with
  | Some info => Some info
  | None =>
      if decide (pr_resource r = "") then None
      else Some {| ri_url := pr_resource r; ri_description := pr_description r; ri_mime_type := None |}
  end.

Definition string_field (object : gmap string Value) (key : string) : option string := field as_str key object.
Definition u64_field (object : gmap string Value) (key : string) : option Z := field as_u64 key object.
Definition u8_field (object : gmap string Value) (key : string) : option Z :=
  n ← u64_field object key; if decide (n <= 255) then Some n else None.
Definition bool_field (object : gmap string Value) (key : string) : option bool := field as_bool key object.

Definition version_entry (entry : Value) : result TxVersion string :=
  let n := n ← as_u64 entry; if decide (n <= 255) then Some n else None in
  ok_or (n ≫= (fun n => match version_of_u8 n with Ok v => Some v | Err _ => None end))
    ("unsupported_transaction_version: extra.transactionVersions entries must be the integers 0 or 1 (got "
      +:+ value_text entry +:+ ")").

Definition buildable_transaction_versions (value : Value) : result (list TxVersion) string :=
  let? entries := ok_or (as_array value)
    "unsupported_transaction_version: extra.transactionVersions must be an array" in
  collect version_entry entries.

(** [transpose]. *)
Definition opt_result {A B Er} (f : A -> result B Er) (o : option A) : result (option B) Er :=
  match o with Some a => rmap Some (f a) | None => Ok None end.

(** [Option::or]. *)
Definition or_else {A} (a b : option A) : option A := match a with Some _ => a | None => b end.

Definition declared_cluster object (raw_network network : string) : option string :=
  or_else (string_field object "cluster")
    ((fun cluster => if String.prefix "solana:" raw_network then raw_network else cluster)
       <$> cluster_for_caip2_network network).

Definition keeps_wire_form object : bool :=
  match object !! "scheme" with
  | Some scheme => bool_decide (as_str scheme <> Some EXACT_SCHEME)
  | None => false
  end ||
  (bool_decide (is_Some (object !! "amount")) && bool_decide (is_Some (object !! "asset")) &&
   bool_decide (is_Some (object !! "payTo"))).

(** [Deserialize]. *)
Definition requirements_of_value (value : Value) : result (PaymentRequirements Value) string :=
  let? object := ok_or (as_object value) "payment requirement must be an object" in
  let? raw_network := ok_or (string_field object "network") "payment requirement is missing network" in
  let network := normalize_network_identifier raw_network in
  let extra := object !! "extra" in
  let in_extra {A} (read : gmap string Value -> option A) : option A :=
    e ← extra; e ← as_object e; read e in
  let fee_payer_key := in_extra (fun e => string_field e "feePayer") in
  let? versions := opt_result buildable_transaction_versions
    (in_extra (fun e => e !! "transactionVersions")) in
  Ok {| pr_network := network;
        pr_cluster := declared_cluster object raw_network network;
        pr_recipient := default "" (string_field object "payTo");
        pr_amount := default "" (or_else (string_field object "amount") (string_field object "maxAmountRequired"));
        pr_currency := default "SOL" (string_field object "asset");
        pr_decimals := in_extra (fun e => u8_field e "decimals");
        pr_token_program := in_extra (fun e => string_field e "tokenProgram");
        pr_resource := default "" (string_field object "resource");
        pr_description := string_field object "description";
        pr_max_age := or_else (u64_field object "maxTimeoutSeconds") (u64_field object "maxAge");
        pr_recent_blockhash := in_extra (fun e => string_field e "recentBlockhash");
        pr_fee_payer := or_else (bool_field object "feePayer") ((fun _ => true) <$> fee_payer_key);
        pr_fee_payer_key := fee_payer_key;
        pr_transaction_versions := versions;
        pr_extra := extra;
        pr_accepted := if keeps_wire_form object then Some value else None;
        pr_resource_info := None |}.

(** ** Transient hints *)

Definition NON_SPEC_EXTRA_HINTS : list string := ["decimals"; "tokenProgram"; "transactionVersions"].

(** [get_mut("extra").and_then(as_object_mut)]. *)
Definition update_extra (f : gmap string Value -> gmap string Value) (value : Value) : Value :=
  match as_object value with
  | Some object =>
      match object !! "extra" ≫= as_object with
      | Some extra => of_object (<["extra" := of_object (f extra)]> object)
      | None => value
      end
  | None => value
  end.

Definition strip_blockhash_hints (value : Value) : Value :=
  let value :=
    match as_object value with Some object => of_object (delete "recentBlockhash" object) | None => value end in
  update_extra (fun extra => delete "lastValidBlockHeight" (delete "recentBlockhash" extra)) value.

Definition drop_hints_not_echoed (route accepted : Value) : Value :=
  let echoed := json_get "extra" accepted ≫= as_object in
  let is_echoed key := match echoed with Some e => bool_decide (is_Some (e !! key)) | None => false end in
  update_extra (fun extra =>
    foldl (fun extra key => if is_echoed key then extra else delete key extra) extra NON_SPEC_EXTRA_HINTS) route.
End wire.

(** * The payment identifier extension *)

Definition PAYMENT_IDENTIFIER_EXTENSION : string := "payment-identifier".

Inductive PaymentIdentifierPolicy := NotAdvertised | IdOptional | IdRequired.

Record PaymentIdentifierInfo := { pi_required : option bool; pi_id : option string }.

Definition ID_MIN_LEN : nat := 16.
Definition ID_MAX_LEN : nat := 128.

Definition id_char (b : byte) : bool :=
  let n := byte_to_Z b in
  bool_decide (48 <= n <= 57 \/ 65 <= n <= 90 \/ 97 <= n <= 122) || bool_decide (n = 95 \/ n = 45).

Definition payment_identifier_parse (id : string) : result string X402Error :=
  let bytes := str_bytes id in
  if negb (forallb id_char bytes)
  then Err (XPaymentIdentifierRequired
    "payment-identifier id may only contain A-Z, a-z, 0-9, '_' and '-'") else
  if decide (ID_MIN_LEN <= length bytes <= ID_MAX_LEN)%nat then Ok id
  else Err (XPaymentIdentifierRequired ("payment-identifier id must be " +:+ pretty ID_MIN_LEN +:+ "-"
    +:+ pretty ID_MAX_LEN +:+ " characters, got " +:+ pretty (length bytes))).

(** [bytes] are the sixteen random ones. *)
Definition generate_payment_identifier_id (bytes : list byte) : string :=
  "pay_" +:+ String.concat "" (hex_byte <$> bytes).

(** The extensions of a credential; [other] is what the crate does not read. *)
Record PaymentExtensions {Value : Type} := {
  pe_payment_identifier : option (PaymentIdentifierInfo * option Value);
  pe_other : gmap string Value;
}.
Arguments PaymentExtensions : clear implicits.

Inductive PaymentProof := ProofTransaction (transaction : string) | ProofSignature (signature : string).

Record PaymentSignatureEnvelope {Value : Type} := {
  en_scheme : option string;
  en_network : option string;
  en_x402_version : Z;
  en_accepted : option Value;
  en_resource : option ResourceInfo;
  en_payload : PaymentProof;
  en_extensions : option (PaymentExtensions Value);
}.
Arguments PaymentSignatureEnvelope : clear implicits.

Record PaymentRequiredEnvelope {Value : Type} := {
  rq_x402_version : Z;
  rq_resource : option ResourceInfo;
  rq_accepts : list (PaymentRequirements Value);
  rq_error : option string;
  rq_extensions : option Value;
}.
Arguments PaymentRequiredEnvelope : clear implicits.

Section extensions.
Context {Value : Type} `{JsonScalar Value, JsonObject Value, JsonWire Value}.

Definition is_empty_extensions (x : PaymentExtensions Value) : bool :=
  bool_decide (pe_payment_identifier x = None) && bool_decide (pe_other x = ∅).
Definition requires_payment_identifier (x : PaymentExtensions Value) : bool :=
  match pe_payment_identifier x with Some (info, _) => default false (pi_required info) | None => false end.
Definition with_payment_identifier_id (id : string) (x : PaymentExtensions Value) : PaymentExtensions Value :=
  let '(info, schema) := default ({| pi_required := None; pi_id := None |}, None) (pe_payment_identifier x) in {|
  pe_payment_identifier := Some ({| pi_required := pi_required info; pi_id := Some id |}, schema);
  pe_other := pe_other x |}.

Definition payment_identifier_id (envelope : PaymentSignatureEnvelope Value) : option string :=
  x ← en_extensions envelope; '(info, _) ← pe_payment_identifier x; pi_id info.

Definition object_of (fields : list (string * Value)) : Value := of_object (list_to_map fields).

Definition payment_identifier_advertisement (required : bool) : Value :=
  object_of [
    ("info", object_of [("required", of_bool required)]);
    ("schema", object_of [
      ("$schema", of_str "https://json-schema.org/draft/2020-12/schema"); ("type", of_str "object");
      ("properties", object_of [
        ("required", object_of [("type", of_str "boolean")]);
        ("id", object_of [("type", of_str "string"); ("minLength", of_u64 16); ("maxLength", of_u64 128)])]);
      ("required", of_array [of_str "required"])])].
End extensions.

(** * The server *)

Record ExactConfig := {
  xc_recipient : string;
  xc_currencies : list CurrencyConfig;
  xc_network : string;
  xc_rpc_url : option string;
  xc_resource : string;
  xc_description : option string;
  xc_max_age : option Z;
  xc_fee_payer_key : option string;
  xc_payment_identifier : PaymentIdentifierPolicy;
}.

(** The fields the checks read; the node, the blockhash cache and the replay
    store are arguments. *)
Record X402 := {
  xs_accepted_versions : list TxVersion;
  xs_advertised_versions : option (list TxVersion);
  xs_config : ExactConfig;
}.

Record ExactOptions := {
  eo_description : option string;
  eo_resource : option string;
  eo_max_age : option Z;
  eo_memo : option string;
}.

Record PaymentOption := {
  po_amount : string;
  po_currency : option string;
  po_decimals : option nat;
  po_token_program : option string;
  po_extra : ExactOptions;
}.

Record PaymentConfig := {
  pc_recipient : string;
  pc_cluster : string;
  pc_rpc_url : option string;
  pc_currency : string;
  pc_decimals : option nat;
  pc_token_program : option string;
  pc_amount : string;
  pc_resource : string;
  pc_description : option string;
  pc_max_age : option Z;
}.

Definition to_requirements {Value} (pc : PaymentConfig) : PaymentRequirements Value := {|
  pr_network := caip2_network_for_cluster (pc_cluster pc);
  pr_cluster := Some (pc_cluster pc);
  pr_recipient := pc_recipient pc;
  pr_amount := pc_amount pc;
  pr_currency := pc_currency pc;
  pr_decimals := Z.of_nat <$> pc_decimals pc;
  pr_token_program := or_else (pc_token_program pc)
    (let default_program := x402_default_token_program (pc_currency pc) (Some (pc_cluster pc)) in
     if decide (default_program <> TOKEN_PROGRAM) then Some default_program else None);
  pr_resource := pc_resource pc;
  pr_description := pc_description pc;
  pr_max_age := pc_max_age pc;
  pr_recent_blockhash := None; pr_fee_payer := None; pr_fee_payer_key := None;
  pr_transaction_versions := None; pr_extra := None; pr_accepted := None;
  pr_resource_info := Some {| ri_url := pc_resource pc; ri_description := pc_description pc; ri_mime_type := None |};
|}.

Section server.
Context {Key : Type} `{Crypto Key, Addresses} {Value : Type} `{JsonScalar Value, JsonObject Value, JsonWire Value}.
Implicit Types (r : PaymentRequirements Value) (srv : X402).

Definition new_exact (config : ExactConfig) : result X402 X402Error :=
  if decide (xc_recipient config = "") then Err (XOther "recipient is required") else
  if decide (xc_currencies config = []) then Err (XOther "at least one currency is required") else
  let? _ := x402_key "Invalid recipient pubkey" (xc_recipient config) in
  let? _ := check_currencies (xc_network config) (xc_currencies config) in
  Ok {| xs_accepted_versions := [V0]; xs_advertised_versions := None; xs_config := config |}.

Definition with_tx_v1 (mode : TxV1Mode) (get_account : Pubkey -> result Account string) srv : X402 := {|
  xs_accepted_versions := Policy.resolve mode get_account; xs_advertised_versions := None;
  xs_config := xs_config srv |}.

(** [dedup] of consecutive equal elements. *)
Fixpoint dedup (l : list TxVersion) : list TxVersion :=
  match l with
  | [] => []
  | v :: l =>
      match l with
      | w :: _ => if decide (v = w) then dedup l else v :: dedup l
      | [] => [v]
      end
  end.

Definition with_transaction_versions (versions : list TxVersion) srv : result X402 X402Error :=
  if decide (versions = []) then Err (XOther "transactionVersions must name at least one version") else
  Ok {| xs_accepted_versions := dedup (merge_sort version_le versions);
        xs_advertised_versions := Some versions; xs_config := xs_config srv |}.

(** [currencies[0]]: an empty list is refused by [new_exact], and panics here. *)
Definition primary_currency (config : ExactConfig) : result CurrencyConfig X402Error :=
  ok_or (head (xc_currencies config)) (XOther "index out of bounds").

Definition advertised_extensions srv : option Value :=
  let advertise required :=
    Some (of_object {[PAYMENT_IDENTIFIER_EXTENSION := payment_identifier_advertisement required]}) in
  match xc_payment_identifier (xs_config srv) with
  | NotAdvertised => None
  | IdOptional => advertise false
  | IdRequired => advertise true
  end.

Definition check_payment_identifier srv (envelope : PaymentSignatureEnvelope Value) :
    result (option string) X402Error :=
  match xc_payment_identifier (xs_config srv), payment_identifier_id envelope with
  | NotAdvertised, _ => Ok None
  | IdRequired, None => Err (XPaymentIdentifierRequired
      ("this route requires extensions[" +:+ in_quotes PAYMENT_IDENTIFIER_EXTENSION +:+ "].info.id"))
  | IdOptional, None => Ok None
  | _, Some id => rmap Some (payment_identifier_parse id)
  end.

(** [extra.get_or_insert_with(Object)] then [insert] where it is an object. *)
Definition insert_extra (key : string) (v : Value) (extra : option Value) : option Value :=
  let extra := default (of_object ∅) extra in
  Some (match as_object extra with Some m => of_object (<[key := v]> m) | None => extra end).

Definition embed_recent_blockhash (hint : CachedBlockhash) r : PaymentRequirements Value := {|
  pr_network := pr_network r; pr_cluster := pr_cluster r; pr_recipient := pr_recipient r;
  pr_amount := pr_amount r; pr_currency := pr_currency r; pr_decimals := pr_decimals r;
  pr_token_program := pr_token_program r; pr_resource := pr_resource r; pr_description := pr_description r;
  pr_max_age := pr_max_age r; pr_recent_blockhash := Some (cb_blockhash hint); pr_fee_payer := pr_fee_payer r;
  pr_fee_payer_key := pr_fee_payer_key r; pr_transaction_versions := pr_transaction_versions r;
  pr_extra := insert_extra "lastValidBlockHeight" (of_str (pretty (cb_last_valid_block_height hint))) (pr_extra r);
  pr_accepted := pr_accepted r; pr_resource_info := pr_resource_info r |}.

(** The fields [exact_requirements_for_option] sets on the built requirements. *)
Definition enhance (config : ExactConfig) (versions : option (list TxVersion)) (memo : option string)
    (cluster : string) r : PaymentRequirements Value := {|
  pr_network := caip2_network_for_cluster cluster; pr_cluster := Some cluster; pr_recipient := pr_recipient r;
  pr_amount := pr_amount r; pr_currency := pr_currency r; pr_decimals := pr_decimals r;
  pr_token_program := pr_token_program r; pr_resource := pr_resource r; pr_description := pr_description r;
  pr_max_age := pr_max_age r; pr_recent_blockhash := pr_recent_blockhash r;
  pr_fee_payer := if decide (is_Some (xc_fee_payer_key config)) then Some true else pr_fee_payer r;
  pr_fee_payer_key := or_else (xc_fee_payer_key config) (pr_fee_payer_key r);
  pr_transaction_versions := versions;
  pr_extra := match memo with Some memo => insert_extra "memo" (of_str memo) (pr_extra r) | None => pr_extra r end;
  pr_accepted := pr_accepted r; pr_resource_info := pr_resource_info r |}.

Definition exact_requirements_for_option srv (option : PaymentOption) :
    result (PaymentRequirements Value) X402Error :=
  let config := xs_config srv in
  let? primary := primary_currency config in
  let currency := default (cu_currency primary) (po_currency option) in
  let decimals := default (cu_decimals primary) (po_decimals option) in
  let token_program := or_else (po_token_program option)
    (if decide (is_Some (po_currency option)) then None else cu_token_program primary) in
  let? base_units := rmap_err x402_of_core
    (Units.parse_units (String.list_ascii_of_string (po_amount option)) decimals) in
  let cluster := xc_network config in
  let requirements := to_requirements {|
    pc_recipient := xc_recipient config; pc_cluster := cluster; pc_rpc_url := xc_rpc_url config;
    pc_currency := currency; pc_decimals := Some decimals; pc_token_program := token_program;
    pc_amount := String.string_of_list_ascii base_units;
    pc_resource := default (xc_resource config) (eo_resource (po_extra option));
    pc_description := or_else (eo_description (po_extra option)) (xc_description config);
    pc_max_age := or_else (eo_max_age (po_extra option)) (xc_max_age config) |} in
  let versions := or_else (xs_advertised_versions srv) (Policy.advertised (xs_accepted_versions srv)) in
  Ok (enhance config versions (eo_memo (po_extra option)) cluster requirements).

Definition option_for_currency (cc : CurrencyConfig) (amount : string) (options : ExactOptions) : PaymentOption := {|
  po_amount := amount; po_currency := Some (cu_currency cc); po_decimals := Some (cu_decimals cc);
  po_token_program := cu_token_program cc; po_extra := options |}.

Definition exact_requirements_for_currency srv (cc : CurrencyConfig) (amount : string) (options : ExactOptions) :
    result (PaymentRequirements Value) X402Error :=
  exact_requirements_for_option srv (option_for_currency cc amount options).

Definition exact_requirements srv (amount : string) (options : ExactOptions) :
    result (PaymentRequirements Value) X402Error :=
  exact_requirements_for_option srv {| po_amount := amount; po_currency := None; po_decimals := None;
    po_token_program := None; po_extra := options |}.

Definition with_hint_of (hint : option CachedBlockhash) r : PaymentRequirements Value :=
  match hint with Some hint => embed_recent_blockhash hint r | None => r end.

(** The envelope of a 402; [accepts[0]] of an empty list panics. *)
Definition required_envelope srv (accepts : list (PaymentRequirements Value)) :
    result (PaymentRequiredEnvelope Value) X402Error :=
  let? first := ok_or (head accepts) (XOther "index out of bounds") in
  Ok {| rq_x402_version := X402_VERSION_V2; rq_resource := resource_info first; rq_accepts := accepts;
        rq_error := None; rq_extensions := advertised_extensions srv |}.

(** [hint] is what [recent_blockhash_hint] answers. *)
Definition exact_with_options srv (hint : option CachedBlockhash) (amount : string) (options : ExactOptions) :
    result (PaymentRequiredEnvelope Value) X402Error :=
  let? accepts := collect (fun cc => rmap (with_hint_of hint) (exact_requirements_for_currency srv cc amount options))
    (xc_currencies (xs_config srv)) in
  required_envelope srv accepts.

Definition exact_with_payment_options srv (hint : option CachedBlockhash) (options : list PaymentOption) :
    result (PaymentRequiredEnvelope Value) X402Error :=
  if decide (options = []) then Err (XOther "at least one payment option is required") else
  let? accepts := collect (fun o => rmap (with_hint_of hint) (exact_requirements_for_option srv o)) options in
  required_envelope srv accepts.
End server.

(** * The network of a credential *)

Definition SURFPOOL_BLOCKHASH_PREFIX : string := "SURFNETxSAFEHASH".
Definition LOCALNET_NETWORK : string := "localnet".

Definition check_network_blockhash (network blockhash_b58 : string) : result unit X402Error :=
  if negb (String.prefix SURFPOOL_BLOCKHASH_PREFIX blockhash_b58) then Ok tt else
  if decide (network = LOCALNET_NETWORK) then Ok tt else Err (XWrongNetwork network LOCALNET_NETWORK).

(** [strip_prefix], [trim_start_matches] of a non-empty pattern. *)
Definition strip_prefix (p l : list byte) : option (list byte) :=
  if decide (p `prefix_of` l) then Some (drop (length p) l) else None.
Fixpoint strip_all (fuel : nat) (ps : list (list byte)) (l : list byte) : list byte :=
  match fuel with
  | O => l
  | S fuel => match omap (fun p => strip_prefix p l) ps with l :: _ => strip_all fuel ps l | [] => l end
  end.
Definition trim_start_matches (p : string) (l : list byte) : list byte :=
  strip_all (length l) [str_bytes p] l.

(** The UTF-8 encodings of [char::is_whitespace]. *)
Definition whitespace : list (list byte) :=
  ((fun n => [byte_of_Z n]) <$> [9; 10; 11; 12; 13; 32]) ++
  ((fun n => [byte_of_Z 194; byte_of_Z n]) <$> [133; 160]) ++
  [[byte_of_Z 225; byte_of_Z 154; byte_of_Z 128]] ++
  ((fun n => [byte_of_Z 226; byte_of_Z 128; byte_of_Z n]) <$>
     [128; 129; 130; 131; 132; 133; 134; 135; 136; 137; 138; 168; 169; 175]) ++
  [[byte_of_Z 226; byte_of_Z 129; byte_of_Z 159]; [byte_of_Z 227; byte_of_Z 128; byte_of_Z 128]].
Definition trim (l : list byte) : list byte :=
  let l := strip_all (length l) whitespace l in
  reverse (strip_all (length l) (reverse <$> whitespace) (reverse l)).

(** The text before the first [c]; all of it when there is none. *)
Fixpoint before (c : byte) (l : list byte) : list byte :=
  match l with
  | [] => []
  | b :: l => if decide (b = c) then [] else b :: before c l
  end.

Definition is_loopback_rpc (rpc_url : string) : bool :=
  let stripped := foldl (fun l p => trim_start_matches p l) (trim (str_bytes rpc_url))
    ["http://"; "https://"; "ws://"; "wss://"] in
  let host_and_rest := before (byte_of_Z 47) stripped in
  let host :=
    match strip_prefix [byte_of_Z 91] host_and_rest with
    | Some rest => before (byte_of_Z 93) rest
    | None => before (byte_of_Z 58) host_and_rest
    end in
  bool_decide (host ∈ (str_bytes <$> ["127.0.0.1"; "localhost"; "::1"; "0.0.0.0"])).

(** * Checking a credential *)

Inductive VerifiedExactPayment :=
| VerifiedTransaction (tx : VersionedTransaction)
| VerifiedSignature (signature : string).

(** What decodes a header: base64, then JSON; an error is its message. *)
Class ExactEnvelopeCodec (Value : Type) :=
  decode_exact_envelope : string -> result (PaymentSignatureEnvelope Value) string.

(** [contains]. *)
Fixpoint contains (needle s : string) : bool :=
  String.prefix needle s || match s with EmptyString => false | String _ s => contains needle s end.

Section credentials.
Context {Key : Type} `{Crypto Key, Addresses} `{V1Format} `{Codec}.
Context {Value : Type} `{JsonScalar Value, JsonObject Value, JsonWire Value} `{ExactEnvelopeCodec Value}.
Context (message_serialize : VersionedMessage -> list byte).
Context (signature_verify : list byte -> Pubkey -> list byte -> bool).
(** [Signature::from_str], [getTransaction], [Hash::to_string]. *)
Context (signature_from_str : string -> result (list byte) string).
Context (get_transaction : list byte -> result (ConfirmedTransaction Value) string).
Context (hash_text : list byte -> string).
Implicit Types (r : PaymentRequirements Value) (srv : X402).

Definition accepted_of (envelope_accepted : Value) : result (PaymentRequirements Value) X402Error :=
  rmap_err XInvalidPaymentRequired (requirements_of_value envelope_accepted).

Definition unsupported_version (version : Z) : X402Error :=
  XInvalidPaymentRequired ("Unsupported x402 version: " +:+ pretty version).

Definition parse_exact_signature srv (header : string) : result (PaymentSignatureEnvelope Value) X402Error :=
  let? envelope := rmap_err XInvalidPaymentRequired (decode_exact_envelope header) in
  let expected_network := caip2_network_for_cluster (xc_network (xs_config srv)) in
  let mismatch got := XOther ("Network mismatch: expected " +:+ expected_network +:+ ", got " +:+ got) in
  if decide (en_x402_version envelope = X402_VERSION_V1) then
    let scheme := default "" (en_scheme envelope) in
    if decide (scheme <> EXACT_SCHEME) then Err (XInvalidPayloadType scheme) else
    let network := default "" (en_network envelope) in
    if decide (caip2_network_for_cluster network <> expected_network) then Err (mismatch network) else Ok envelope
  else if decide (en_x402_version envelope = X402_VERSION_V2) then
    let? accepted := ok_or (en_accepted envelope) (XInvalidPaymentRequired "missing accepted") in
    let? requirements := accepted_of accepted in
    if decide (pr_network requirements <> expected_network) then Err (mismatch (pr_network requirements))
    else Ok envelope
  else Err (unsupported_version (en_x402_version envelope)).

(** A route's requirement against the JSON of an accepted one. *)
Definition same_terms (accepted : PaymentRequirements Value) r : bool :=
  let accepted_json := strip_blockhash_hints (to_accepted_value accepted) in
  bool_decide (drop_hints_not_echoed (strip_blockhash_hints (to_accepted_value r)) accepted_json = accepted_json).

Definition find_matching_requirement (available : list (PaymentRequirements Value))
    (envelope : PaymentSignatureEnvelope Value) : result (PaymentRequirements Value) X402Error :=
  if decide (en_x402_version envelope = X402_VERSION_V2) then
    let? accepted := ok_or (en_accepted envelope) (XInvalidPaymentRequired "v2 envelope missing accepted") in
    let? accepted := accepted_of accepted in
    ok_or (snd <$> list_find (fun r => same_terms accepted r = true) available) XAcceptedMismatch
  else if decide (en_x402_version envelope = X402_VERSION_V1) then
    ok_or (head available) (XOther "at least one payment option is required")
  else Err (unsupported_version (en_x402_version envelope)).

Definition is_accepted_currency srv (currency : string) : bool :=
  existsb (fun cc => bool_decide (cu_currency cc = currency)) (xc_currencies (xs_config srv)).

Definition verify_pinned_fields srv r : result unit X402Error :=
  let config := xs_config srv in
  let expected_network := caip2_network_for_cluster (xc_network config) in
  if decide (pr_network r <> expected_network)
  then Err (XOther ("Requirements network " +:+ pr_network r +:+ " does not match server-configured network "
    +:+ expected_network)) else
  if decide (pr_recipient r <> xc_recipient config)
  then Err (XOther "Requirements recipient does not match server-configured recipient") else
  if negb (is_accepted_currency srv (pr_currency r))
  then Err (XOther ("Requirements currency " +:+ pr_currency r +:+ " is not in this server's accepted-currency list"))
  else
  match xc_currencies config with
  | [cc] =>
      match cu_token_program cc, pr_token_program r with
      | Some server_token_program, Some req_token_program =>
          if decide (req_token_program <> server_token_program)
          then Err (XOther "Requirements token program does not match server-configured token program")
          else Ok tt
      | _, _ => Ok tt
      end
  | _ => Ok tt
  end.

Definition verify_resource_binding (x402_version : Z) (presented : option ResourceInfo) r : result unit X402Error :=
  match (info ← resource_info r; if decide (ri_url info = "") then None else Some info) with
  | None => Ok tt
  | Some expected =>
      if decide (x402_version <> X402_VERSION_V2) then
        match expected_memo r with
        | Some (String _ _) => Ok tt
        | _ => Err (XOther ("Resource binding missing: a v1 credential cannot name " +:+ ri_url expected
                 +:+ ", and the route sets no memo"))
        end
      else
        match presented with
        | Some resource =>
            if decide (ri_url resource = ri_url expected) then Ok tt
            else Err (XOther ("Resource mismatch: expected " +:+ ri_url expected +:+ ", got " +:+ ri_url resource))
        | None => Err (XOther ("Resource binding missing: expected " +:+ ri_url expected))
        end
  end.

Definition managed_signers_for_requirements r : result (list Pubkey) X402Error :=
  match pr_fee_payer_key r with
  | Some fee_payer => rmap (fun key => [key]) (x402_key "Invalid fee payer" fee_payer)
  | None => Ok []
  end.

Definition fetch_transaction (signature_str : string) : result (ConfirmedTransaction Value) X402Error :=
  let? signature := rmap_err (fun e => XOther ("Invalid signature: " +:+ e)) (signature_from_str signature_str) in
  rmap_err (fun e => if contains "not found" e then XTransactionNotFound else XRpc e) (get_transaction signature).

Definition exact_rpc_url srv : string :=
  default (x402_rpc_url (xc_network (xs_config srv))) (xc_rpc_url (xs_config srv)).

(** The credential's own reading of the terms, against the route's. *)
Definition check_accepted (envelope : PaymentSignatureEnvelope Value) r : result unit X402Error :=
  match en_accepted envelope with
  | None => Ok tt
  | Some accepted =>
      let? accepted := accepted_of accepted in
      let mismatch what expected got :=
        XOther (what +:+ " mismatch: expected " +:+ expected +:+ ", got " +:+ got) in
      if decide (pr_network accepted <> pr_network r)
      then Err (mismatch "Network" (pr_network r) (pr_network accepted)) else
      if decide (pr_amount accepted <> pr_amount r)
      then Err (mismatch "Amount" (pr_amount r) (pr_amount accepted)) else
      if decide (pr_recipient accepted <> pr_recipient r)
      then Err (XOther "Recipient mismatch: credential claims a different recipient") else
      if decide (pr_currency accepted <> pr_currency r)
      then Err (mismatch "Currency" (pr_currency r) (pr_currency accepted)) else
      if same_terms accepted r then Ok tt
      else Err (XOther "Credential's accepted requirements do not structurally match this route's expected requirements")
  end.

Definition payload_err {A} (m : result A Error) : result A X402Error :=
  rmap_err (fun e => XOther ("Invalid transaction payload: " +:+ core_error_text e)) m.

Definition verify_proof srv r (now_unix : Z) (proof : PaymentProof) : result VerifiedExactPayment X402Error :=
  match proof with
  | ProofTransaction transaction =>
      let? decoded := rmap_err (fun e => XOther ("Invalid transaction payload: " +:+ e)) (b64_decode transaction) in
      let? tx := payload_err (decode_bytes decoded) in
      let? _ := payload_err (check_envelope tx (xs_accepted_versions srv)) in
      let? _ := if is_loopback_rpc (exact_rpc_url srv) then Ok tt
                else check_network_blockhash (xc_network (xs_config srv))
                       (hash_text (recent_blockhash (body (message tx)))) in
      let? managed_signers := managed_signers_for_requirements r in
      let? _ := verify_exact_versioned_transaction tx r managed_signers in
      let? _ := payload_err (require_presigned message_serialize signature_verify tx (head managed_signers)) in
      Ok (VerifiedTransaction tx)
  | ProofSignature signature =>
      let? tx := fetch_transaction signature in
      let? _ := rmap_err (fun e => XOther ("Invalid transaction: " +:+ core_error_text e))
        (check_reported_version (ct_version tx) (xs_accepted_versions srv)) in
      let? _ := verify_transaction_details tx r in
      let? _ := verify_transaction_age tx r now_unix in
      Ok (VerifiedSignature signature)
  end.

Definition verify_envelope_payload srv (now_unix : Z) (envelope : PaymentSignatureEnvelope Value) r :
    result VerifiedExactPayment X402Error :=
  let? _ := verify_pinned_fields srv r in
  let? _ := check_payment_identifier srv envelope in
  let? _ := check_accepted envelope r in
  let? _ := verify_resource_binding (en_x402_version envelope) (en_resource envelope) r in
  verify_proof srv r now_unix (en_payload envelope).

Definition verify_against srv (now_unix : Z) (header : string) (available : list (PaymentRequirements Value)) :
    result VerifiedExactPayment X402Error :=
  let? envelope := parse_exact_signature srv header in
  let? matched := find_matching_requirement available envelope in
  verify_envelope_payload srv now_unix envelope matched.

Definition process_payment srv (now_unix : Z) (header amount : string) (options : ExactOptions) :
    result VerifiedExactPayment X402Error :=
  let? available := collect (fun cc => exact_requirements_for_currency srv cc amount options)
    (xc_currencies (xs_config srv)) in
  verify_against srv now_unix header available.

Definition process_payment_with_options srv (now_unix : Z) (header : string) (options : list PaymentOption) :
    result VerifiedExactPayment X402Error :=
  if decide (options = []) then Err (XOther "at least one payment option is required") else
  let? available := collect (exact_requirements_for_option srv) options in
  verify_against srv now_unix header available.

Definition verify_payment_signature_for_requirements srv (now_unix : Z) (header : string) r :
    result VerifiedExactPayment X402Error :=
  let? envelope := parse_exact_signature srv header in
  verify_envelope_payload srv now_unix envelope r.
End credentials.

(** * Reading an offer back *)
Section reading.
Context {Value : Type} `{JsonWireLaws Value}.
Implicit Types (r : PaymentRequirements Value) (m extra object : gmap string Value).

Definition SPEC_EXTRA : list string :=
  ["feePayer"; "recentBlockhash"; "tokenProgram"; "decimals"; "transactionVersions"].

(** A requirement as a server builds it: no wire form of its own, an [extra] that
    leaves the fields of the record to the record, and numbers of their width. *)
Record offer r m : Prop := {
  offer_accepted : pr_accepted r = None;
  offer_extra : default ∅ (pr_extra r ≫= as_object) = m;
  offer_fresh : forall key, key ∈ SPEC_EXTRA -> m !! key = None;
  offer_decimals : forall d, pr_decimals r = Some d -> 0 <= d <= 255;
  offer_age : in_u64 (default DEFAULT_MAX_TIMEOUT_SECONDS (pr_max_age r));
}.

Lemma lookup_or_insert key v extra k :
  or_insert key v extra !! k =
  if decide (k = key) then (match extra !! key with Some x => Some x | None => v end) else extra !! k.
Proof.
  unfold or_insert. destruct v as [v|]; [destruct (extra !! key) as [x|] eqn:Hx|];
    case_decide as Hk; subst; simplify_map_eq; try done.
  by destruct (extra !! key).
Qed.

Lemma lookup_canonical_extra r m k :
  offer r m ->
  canonical_extra r !! k =
  if decide (k = "feePayer") then of_str <$> pr_fee_payer_key r else
  if decide (k = "recentBlockhash") then of_str <$> pr_recent_blockhash r else
  if decide (k = "tokenProgram") then of_str <$> pr_token_program r else
  if decide (k = "decimals") then of_u64 <$> pr_decimals r else
  if decide (k = "transactionVersions") then versions_value <$> pr_transaction_versions r else m !! k.
Proof.
  intros Ho. unfold canonical_extra. rewrite (offer_extra _ _ Ho).
  assert (Hf : forall key, key ∈ SPEC_EXTRA -> m !! key = None) by apply Ho.
  rewrite !lookup_or_insert. repeat (case_decide; [subst; cbn|]);
    rewrite ?(Hf "feePayer"), ?(Hf "recentBlockhash"), ?(Hf "tokenProgram"), ?(Hf "decimals"),
      ?(Hf "transactionVersions") by set_solver; done.
Qed.

Lemma version_entry_of v : version_entry (of_u64 (version_u8 v)) = Ok v.
Proof. unfold version_entry. rewrite as_u64_of by (destruct v; split; done). by destruct v. Qed.

Lemma versions_read_back l : buildable_transaction_versions (versions_value l) = Ok l.
Proof.
  unfold buildable_transaction_versions, versions_value. rewrite as_array_of. cbn [ok_or rbind].
  induction l as [|v l IH]; [done|]. cbn [fmap list_fmap collect compose]. by rewrite version_entry_of, IH.
Qed.

(** What a client, or the server it answers, reads in an offer. *)
Definition reading r : PaymentRequirements Value :=
  let network := normalize_network_identifier (pr_network r) in {|
  pr_network := network;
  pr_cluster := (fun cluster => if String.prefix "solana:" (pr_network r) then pr_network r else cluster)
    <$> cluster_for_caip2_network network;
  pr_recipient := pr_recipient r; pr_amount := pr_amount r; pr_currency := pr_currency r;
  pr_decimals := pr_decimals r; pr_token_program := pr_token_program r;
  pr_resource := ""; pr_description := None;
  pr_max_age := Some (default DEFAULT_MAX_TIMEOUT_SECONDS (pr_max_age r));
  pr_recent_blockhash := pr_recent_blockhash r;
  pr_fee_payer := (fun _ => true) <$> pr_fee_payer_key r;
  pr_fee_payer_key := pr_fee_payer_key r;
  pr_transaction_versions := pr_transaction_versions r;
  pr_extra := Some (of_object (canonical_extra r));
  pr_accepted := Some (of_object (canonical_object r));
  pr_resource_info := None |}.

Lemma str_fmap (o : option string) : (of_str <$> o) ≫= (as_str (Value:=Value)) = o.
Proof. destruct o; [apply as_str_of|done]. Qed.

Lemma wire_form_kept r : keeps_wire_form (canonical_object r) = true.
Proof.
  unfold keeps_wire_form. apply orb_true_iff. right. unfold canonical_object, canonical_terms. by simplify_map_eq.
Qed.

Lemma requirements_read_back r m :
  offer r m -> requirements_of_value (to_accepted_value r) = Ok (reading r).
Proof.
  intros Ho. unfold to_accepted_value. rewrite (offer_accepted _ _ Ho).
  pose proof (fun k => lookup_canonical_extra r m k Ho) as Hx.
  unfold requirements_of_value. rewrite as_object_of. cbn [ok_or rbind].
  unfold string_field, field, declared_cluster, string_field, field, u64_field, bool_field, field.
  rewrite wire_form_kept. unfold canonical_object at 1, canonical_terms at 1. simplify_map_eq. rewrite !as_str_of. cbn [ok_or rbind].
  rewrite as_object_of. cbn [option_bind mbind].
  unfold u8_field, u64_field, field.
  assert (canonical_extra r !! "feePayer" = of_str <$> pr_fee_payer_key r) as -> by (rewrite Hx; done).
  assert (canonical_extra r !! "recentBlockhash" = of_str <$> pr_recent_blockhash r) as -> by (rewrite Hx; done).
  assert (canonical_extra r !! "tokenProgram" = of_str <$> pr_token_program r) as -> by (rewrite Hx; done).
  assert (canonical_extra r !! "decimals" = of_u64 <$> pr_decimals r) as -> by (rewrite Hx; done).
  assert (canonical_extra r !! "transactionVersions" = versions_value <$> pr_transaction_versions r) as ->
    by (rewrite Hx; done).
  rewrite as_u64_of by apply Ho. cbn [or_else default].
  assert (Hd : ((of_u64 <$> pr_decimals r) ≫= (fun v : Value => as_u64 v)) ≫=
    (fun n : Z => if decide (n <= 255) then Some n else None) = pr_decimals r).
  { destruct (pr_decimals r) as [d|] eqn:Hd; [|done]. pose proof (offer_decimals _ _ Ho d Hd). cbn.
    rewrite as_u64_of by (unfold in_u64, u64_max; lia). cbn. by rewrite decide_True by lia. }
  assert (Hs : forall o : option string, (of_str <$> o) ≫= (fun v : Value => as_str v) = o) by apply str_fmap.
  rewrite Hd, !Hs. unfold reading.
  destruct (pr_transaction_versions r) as [l|]; cbn; rewrite ?versions_read_back; done.
Qed.

(** ** Hints *)

Definition stripped_extra r : gmap string Value :=
  delete "lastValidBlockHeight" (delete "recentBlockhash" (canonical_extra r)).

Lemma update_extra_object f extra object :
  update_extra (Value:=Value) f (of_object (<["extra" := of_object extra]> object)) =
  of_object (<["extra" := of_object (f extra)]> object).
Proof.
  unfold update_extra. rewrite as_object_of, lookup_insert_eq. cbn. by rewrite as_object_of, insert_insert_eq.
Qed.

Lemma stripped_offer r :
  pr_accepted r = None ->
  strip_blockhash_hints (to_accepted_value r) =
  of_object (<["extra" := of_object (stripped_extra r)]> (canonical_terms r)).
Proof.
  intros Ha. unfold to_accepted_value, strip_blockhash_hints. rewrite Ha, as_object_of.
  rewrite delete_id by (unfold canonical_object, canonical_terms; by simplify_map_eq).
  apply update_extra_object.
Qed.

Lemma stripped_reading r :
  strip_blockhash_hints (to_accepted_value (reading r)) =
  of_object (<["extra" := of_object (stripped_extra r)]> (canonical_terms r)).
Proof.
  unfold to_accepted_value, strip_blockhash_hints. cbn [reading pr_accepted]. rewrite as_object_of.
  rewrite delete_id by (unfold canonical_object, canonical_terms; by simplify_map_eq).
  apply update_extra_object.
Qed.

(** What is kept of the route's extra when a credential carries [accepted]. *)
Definition echoed_extra (accepted_extra extra : gmap string Value) : gmap string Value :=
  foldl (fun extra key => if bool_decide (is_Some (accepted_extra !! key)) then extra else delete key extra)
    extra NON_SPEC_EXTRA_HINTS.

Lemma echoed_self extra : echoed_extra extra extra = extra.
Proof.
  unfold echoed_extra. induction NON_SPEC_EXTRA_HINTS as [|key keys IH]; [done|]. cbn.
  case_bool_decide as Hk; [done|]. rewrite delete_id; [done|]. by apply eq_None_not_Some.
Qed.

Lemma same_terms_reading x r :
  pr_accepted r = None ->
  same_terms (reading x) r =
  bool_decide (<["extra" := of_object (echoed_extra (stripped_extra x) (stripped_extra r))]> (canonical_terms r) =
               <["extra" := of_object (stripped_extra x)]> (canonical_terms x)).
Proof.
  intros Hr. unfold same_terms. rewrite (stripped_offer r) by done. rewrite stripped_reading.
  assert (Hx : forall e t, json_get "extra" (of_object (<["extra" := of_object e]> t) : Value) ≫= as_object = Some e).
  { intros e t. unfold json_get. rewrite as_object_of. cbn. rewrite lookup_insert_eq. apply as_object_of. }
  unfold drop_hints_not_echoed. rewrite update_extra_object, Hx. apply bool_decide_ext. split.
  - intros Heq%(f_equal as_object). rewrite !as_object_of in Heq. by apply (inj Some) in Heq.
  - intros Heq. apply f_equal. exact Heq.
Qed.

Lemma same_terms_agree x r :
  pr_accepted r = None -> same_terms (reading x) r = true ->
  pr_network r = pr_network x /\ pr_amount r = pr_amount x /\ pr_currency r = pr_currency x /\
  pr_recipient r = pr_recipient x.
Proof.
  intros Hr. rewrite same_terms_reading, bool_decide_eq_true by done. intros Heq.
  assert (Hk : forall k, k <> "extra" -> canonical_terms r !! k = canonical_terms x !! k).
  { intros k Hk. apply (f_equal (lookup k)) in Heq. by rewrite !lookup_insert_ne in Heq. }
  assert (Hinj : forall a b : string, Some (of_str a) = Some (of_str b : Value) -> a = b).
  { intros a b [= Hab]. apply (f_equal as_str) in Hab. rewrite !as_str_of in Hab. congruence. }
  split_and!; apply Hinj.
  - exact (Hk "network" ltac:(done)).
  - exact (Hk "amount" ltac:(done)).
  - exact (Hk "asset" ltac:(done)).
  - exact (Hk "payTo" ltac:(done)).
Qed.
End reading.

(** * Offers and credentials *)
Section exchange.
Context {Key : Type} `{Crypto Key, Addresses} `{V1Format} `{Codec}.
Context {Value : Type} `{JsonWireLaws Value} `{ExactEnvelopeCodec Value}.
Implicit Types (r : PaymentRequirements Value) (srv : X402) (m : gmap string Value).

Lemma hinted_offer hint r m :
  offer r m -> exists m', offer (with_hint_of hint r) m' /\
    stripped_extra (with_hint_of hint r) = stripped_extra r /\
    canonical_terms (with_hint_of hint r) = canonical_terms r.
Proof.
  intros Ho. destruct hint as [hint|]; [|by exists m].
  set (height := of_str (pretty (cb_last_valid_block_height hint)) : Value).
  assert (Hm : default ∅ (insert_extra "lastValidBlockHeight" height (pr_extra r) ≫= as_object) =
    <["lastValidBlockHeight" := height]> m \/
    default ∅ (insert_extra "lastValidBlockHeight" height (pr_extra r) ≫= as_object) = m).
  { unfold insert_extra. pose proof (offer_extra _ _ Ho) as Hx. destruct (pr_extra r) as [v|]; cbn in *.
    - destruct (as_object v) as [mv|] eqn:Hv; cbn in *; [left|right]; rewrite ?as_object_of, ?Hv.
      * by subst.
      * by subst.
    - left. rewrite as_object_of. cbn. rewrite as_object_of. by subst. }
  assert (Hoff : forall m', default ∅ (insert_extra "lastValidBlockHeight" height (pr_extra r) ≫= as_object) = m' ->
    (forall k, k <> "lastValidBlockHeight" -> m' !! k = m !! k) -> offer (with_hint_of (Some hint) r) m').
  { intros m' Heq Hk. split; [apply Ho|exact Heq| |apply Ho|apply Ho].
    intros key Hin. rewrite Hk; [by apply Ho|]. unfold SPEC_EXTRA in Hin. set_solver. }
  assert (exists m', offer (with_hint_of (Some hint) r) m' /\
    forall k, k <> "lastValidBlockHeight" -> m' !! k = m !! k) as (m' & Ho' & Hk).
  { destruct Hm as [Hm|Hm]; eexists; (split; [apply Hoff; [exact Hm|]|]); intros k Hne; by rewrite ?lookup_insert_ne. }
  exists m'. split; [done|]. split; [|done]. apply map_eq. intros k. unfold stripped_extra.
  destruct (decide (k = "lastValidBlockHeight")) as [->|]; [by rewrite !lookup_delete_eq|].
  destruct (decide (k = "recentBlockhash")) as [->|];
    [by rewrite !(lookup_delete_ne _ "lastValidBlockHeight"), !lookup_delete_eq by done|].
  rewrite !lookup_delete_ne by done.
  rewrite (lookup_canonical_extra _ _ _ Ho), (lookup_canonical_extra _ _ _ Ho'), Hk by done.
  repeat case_decide; done.
Qed.

(** What the server builds for an option. *)
Definition age_width srv (o : PaymentOption) : Prop :=
  forall a, or_else (eo_max_age (po_extra o)) (xc_max_age (xs_config srv)) = Some a -> in_u64 a.

Lemma built_offer srv o r :
  age_width srv o -> exact_requirements_for_option srv o = Ok r ->
  (exists m, offer r m) /\ pr_network r = caip2_network_for_cluster (xc_network (xs_config srv)) /\
  pr_recipient r = xc_recipient (xs_config srv).
Proof.
  intros Hage. unfold exact_requirements_for_option.
  intros (primary & _ & (units & Hunits%rmap_err_ok & [= <-])%rbind_ok)%rbind_ok.
  split; [|done]. unfold Units.parse_units in Hunits. case_decide as Hmax; [done|clear Hunits].
  assert (Hdec : forall d : Z, Some (Z.of_nat (default (cu_decimals primary) (po_decimals o))) = Some d ->
    0 <= d <= 255) by (intros d [= <-]; unfold MAX_DECIMALS in Hmax; lia).
  assert (Hage' : in_u64 (default DEFAULT_MAX_TIMEOUT_SECONDS (or_else (eo_max_age (po_extra o)) (xc_max_age (xs_config srv))))).
  { destruct (or_else _ _) as [a|] eqn:Ha; [by apply Hage|split; vm_compute; discriminate]. }
  destruct (eo_memo (po_extra o)) as [memo|]; [exists {["memo" := of_str memo]}|exists ∅]; split; try done.
  - cbn. unfold insert_extra. cbn. rewrite as_object_of. cbn. rewrite as_object_of. apply insert_empty.
  - intros key Hin. apply lookup_singleton_ne. unfold SPEC_EXTRA in Hin. set_solver.
Qed.

Lemma normalize_caip2 cluster :
  normalize_network_identifier (caip2_network_for_cluster cluster) = caip2_network_for_cluster cluster.
Proof. unfold caip2_network_for_cluster. repeat case_decide; reflexivity. Qed.

(** C13. A client that echoes an offer, with or without the blockhash hint the
    challenge carried, is matched with an offer of the same terms and passes every
    comparison of terms. *)
Theorem echo_accepted srv options available o r hint header envelope :
  Forall (age_width srv) options ->
  collect (exact_requirements_for_option srv) options = Ok available ->
  o ∈ options -> exact_requirements_for_option srv o = Ok r ->
  decode_exact_envelope header = Ok envelope ->
  en_x402_version envelope = X402_VERSION_V2 ->
  en_accepted envelope = Some (to_accepted_value (with_hint_of hint r)) ->
  parse_exact_signature srv header = Ok envelope /\
  exists matched, find_matching_requirement available envelope = Ok matched /\
    check_accepted envelope matched = Ok tt /\
    pr_amount matched = pr_amount r /\ pr_recipient matched = pr_recipient r /\ pr_currency matched = pr_currency r.
Proof.
  intros Hages Hav Ho Hr Hdec Hver Hacc. rewrite Forall_forall in Hages.
  destruct (built_offer srv o r (Hages o Ho) Hr) as ([m Hoff] & Hnet & Hrec).
  destruct (hinted_offer hint r m Hoff) as (m' & Hoff' & Hstrip & Hterms).
  assert (Hread : accepted_of (to_accepted_value (with_hint_of hint r)) = Ok (reading (with_hint_of hint r))).
  { unfold accepted_of. by rewrite (requirements_read_back _ _ Hoff'). }
  assert (Hcopy : forall x, pr_network (with_hint_of x r) = pr_network r /\ pr_amount (with_hint_of x r) = pr_amount r /\
    pr_currency (with_hint_of x r) = pr_currency r /\ pr_recipient (with_hint_of x r) = pr_recipient r)
    by (by intros [?|]).
  destruct (Hcopy hint) as (Hn & Ha & Hc & Hp).
  assert (Hnorm : pr_network (reading (with_hint_of hint r)) = pr_network r).
  { cbn. rewrite Hn, Hnet. apply normalize_caip2. }
  split.
  { unfold parse_exact_signature. rewrite Hdec. cbn [rmap_err rbind]. rewrite Hver, decide_False by done.
    rewrite decide_True, Hacc by done. cbn [ok_or rbind]. rewrite Hread. cbn [rbind].
    rewrite decide_False; [done|]. rewrite Hnorm, Hnet. auto. }
  unfold find_matching_requirement, check_accepted. rewrite Hver, decide_True, Hacc by done. cbn [ok_or rbind].
  rewrite Hread. cbn [rbind].
  assert (Hself : same_terms (reading (with_hint_of hint r)) r = true).
  { rewrite same_terms_reading by apply Hoff. apply bool_decide_eq_true. by rewrite Hstrip, Hterms, echoed_self. }
  apply collect_ok in Hav.
  assert (Hin : exists i, available !! i = Some r).
  { apply list_elem_of_lookup in Ho as [i Hi]. exists i.
    destruct (Forall2_lookup_l _ _ _ _ _ Hav Hi) as (r' & Hi' & Hr'). congruence. }
  destruct Hin as [i Hi].
  destruct (list_find (fun r' => same_terms (reading (with_hint_of hint r)) r' = true) available)
    as [[j matched]|] eqn:Hfind.
  2:{ apply list_find_None in Hfind. rewrite Forall_lookup in Hfind. by destruct (Hfind i r Hi). }
  apply list_find_Some in Hfind as (Hj & Hmatch & _). exists matched. split; [done|].
  destruct (Forall2_lookup_r _ _ _ _ _ Hav Hj) as (o' & Ho' & Hm').
  apply list_elem_of_lookup_2 in Ho'.
  destruct (built_offer srv o' matched (Hages o' Ho') Hm') as ([m'' Hoff''] & Hnet' & _).
  destruct (same_terms_agree _ _ (offer_accepted _ _ Hoff'') Hmatch) as (En & Ea & Ec & Er).
  rewrite Hnorm. cbn [reading pr_amount pr_currency pr_recipient].
  split; [|split_and!; congruence]. rewrite !decide_False by congruence. by rewrite Hmatch.
Qed.
End exchange.

(** * What a verified payment is *)
Section verified.
Context {Key : Type} `{Crypto Key, Addresses} `{V1Format} `{Codec}.
Context {Value : Type} `{JsonWireLaws Value} `{ExactEnvelopeCodec Value}.
Context (message_serialize : VersionedMessage -> list byte).
Context (signature_verify : list byte -> Pubkey -> list byte -> bool).
Context (signature_from_str : string -> result (list byte) string).
Context (get_transaction : list byte -> result (ConfirmedTransaction Value) string).
Context (hash_text : list byte -> string).
Implicit Types (r : PaymentRequirements Value) (srv : X402).

(** The payment a verified credential stands for, under the terms [r]. *)
Definition verified_payment srv r (now_unix : Z) (v : VerifiedExactPayment) : Prop :=
  match v with
  | VerifiedTransaction tx =>
      exists managed, managed_signers_for_requirements r = Ok managed /\
        exact_payment (message tx) r managed /\ client_signed message_serialize signature_verify tx (head managed) /\
        version_of (message tx) ∈ xs_accepted_versions srv
  | VerifiedSignature signature =>
      exists tx, fetch_transaction signature_from_str get_transaction signature = Ok tx /\
        confirmed_payment tx r /\ verify_transaction_age tx r now_unix = Ok tt
  end.

Lemma find_matching_in available (envelope : PaymentSignatureEnvelope Value) matched :
  find_matching_requirement available envelope = Ok matched -> matched ∈ available.
Proof.
  unfold find_matching_requirement. case_decide.
  - intros (accepted & _ & (a & _ & Hf%ok_or_ok)%rbind_ok)%rbind_ok.
    destruct (list_find _ available) as [[i r]|] eqn:Hl; [|done]. injection Hf as <-.
    apply list_find_Some in Hl as (Hl & _). by eapply list_elem_of_lookup_2.
  - case_decide; [|done]. intros Hh%ok_or_ok. destruct available as [|r l]; [done|].
    injection Hh as <-. by left.
Qed.

Lemma proof_verified srv r now proof v :
  verify_proof message_serialize signature_verify signature_from_str get_transaction hash_text srv r now proof = Ok v ->
  verified_payment srv r now v.
Proof.
  destruct proof as [transaction|signature]; cbn [verify_proof].
  - intros (bytes & _ & (tx & _ & (version & Hv & ([] & _ & Hrest)%rbind_ok)%rbind_ok)%rbind_ok)%rbind_ok.
    apply rbind_ok in Hrest as (managed & Hm & ([] & Hx & ([] & Hp & [= <-])%rbind_ok)%rbind_ok).
    exists managed. split_and!; [done|by apply verified_iff| |by eapply envelope_version, rmap_err_ok].
    apply rmap_err_ok, presigned_iff in Hp. exact Hp.
  - intros (tx & Hf & (version & _ & ([] & Hd%confirmed_iff & ([] & Ha & [= <-])%rbind_ok)%rbind_ok)%rbind_ok)%rbind_ok.
    exists tx. done.
Qed.

Lemma verified_against srv now header available v :
  verify_against message_serialize signature_verify signature_from_str get_transaction hash_text srv now header
    available = Ok v ->
  exists r, r ∈ available /\ verify_pinned_fields srv r = Ok tt /\ verified_payment srv r now v.
Proof.
  intros (envelope & _ & (matched & Hf%find_matching_in & Hrest)%rbind_ok)%rbind_ok.
  apply rbind_ok in Hrest as ([] & Hp & (id & _ & ([] & _ & ([] & _ & Hv%proof_verified)%rbind_ok)%rbind_ok)%rbind_ok).
  by exists matched.
Qed.

Lemma accepted_currency_in srv currency :
  is_accepted_currency srv currency = true -> exists cc, cc ∈ xc_currencies (xs_config srv) /\ cu_currency cc = currency.
Proof.
  intros (cc & Hin & Hc%bool_decide_eq_true)%existsb_exists. exists cc. by rewrite list_elem_of_In.
Qed.

(** C6. What the server serves is paid for: a credential it verifies for a route
    carries a payment of the price the server itself computed, in one of its
    currencies, to its own recipient, whatever terms the credential claims. A
    transaction it is about to co-sign is an exact payment its client has signed
    and never names the sponsor; a confirmed one settled those terms once and is
    not too old. *)
Theorem processed_payment_paid srv now header amount options v :
  process_payment message_serialize signature_verify signature_from_str get_transaction hash_text srv now header
    amount options = Ok v ->
  exists cc r units, cc ∈ xc_currencies (xs_config srv) /\
    Units.parse_units (String.list_ascii_of_string amount) (cu_decimals cc) = Ok units /\
    pr_amount r = String.string_of_list_ascii units /\ pr_currency r = cu_currency cc /\
    pr_decimals r = Some (Z.of_nat (cu_decimals cc)) /\ pr_recipient r = xc_recipient (xs_config srv) /\
    pr_fee_payer_key r = xc_fee_payer_key (xs_config srv) /\
    expected_memo r = eo_memo options /\
    verified_payment srv r now v.
Proof.
  intros (available & Hav%collect_ok & Hv%verified_against)%rbind_ok.
  destruct Hv as (r & (i & Hi)%list_elem_of_lookup & Hpin & Hv).
  destruct (Forall2_lookup_r _ _ _ _ _ Hav Hi) as (cc & Hcc & Hr).
  unfold exact_requirements_for_currency, exact_requirements_for_option, option_for_currency in Hr. cbn in Hr.
  apply rbind_ok in Hr as (primary & _ & (units & Hu%rmap_err_ok & [= Hr])%rbind_ok).
  exists cc, r, units. split; [by eapply list_elem_of_lookup_2|].
  subst r. split_and!; try done; cbn; [by unfold or_else; case_match|].
  unfold expected_memo, json_get. cbn. destruct (eo_memo options) as [memo|]; [|done]. cbn.
  rewrite as_object_of. cbn. rewrite as_object_of. cbn. rewrite lookup_insert_eq. apply as_str_of.
Qed.
End verified.

(** * A route *)
Module OfferDemo.
Export ExactDemo.

#[global] Instance json_wire : JsonWire json := {
  as_bool v := match v with GenNode 2 [] => Some true | GenNode 3 [] => Some false | _ => None end;
  as_array v := match v with GenNode 1 l => Some l | _ => None end;
  of_bool b := GenNode (if b then 2 else 3) [];
  of_u64 n := GenLeaf (inr n);
  of_array l := GenNode 1 l;
}.
#[global] Instance wire_laws : JsonWireLaws json.
Proof. split; [apply _|done|done]. Qed.

Definition config : ExactConfig := {|
  xc_recipient := "payee"; xc_currencies := [{| cu_currency := mint; cu_decimals := 6; cu_token_program := None |}];
  xc_network := "devnet"; xc_rpc_url := None; xc_resource := "/report"; xc_description := None;
  xc_max_age := Some 60; xc_fee_payer_key := Some "sponsor"; xc_payment_identifier := NotAdvertised |}.
Definition server : X402 := {|
  xs_accepted_versions := [V0; V1]; xs_advertised_versions := None; xs_config := config |}.
Definition options : ExactOptions := {|
  eo_description := None; eo_resource := None; eo_max_age := None; eo_memo := Some "order 7" |}.
Definition offer_option : PaymentOption := option_for_currency {| cu_currency := mint; cu_decimals := 6; cu_token_program := None |}
  "0.001" options.

Definition offered : list (PaymentRequirements json) :=
  match collect (exact_requirements_for_option server) [offer_option] with Ok l => l | Err _ => [] end.
Definition hint : CachedBlockhash := {| cb_blockhash := "hash"; cb_last_valid_block_height := 900; cb_slot := 800 |}.
Definition echoed : option json := (fun r => to_accepted_value (with_hint_of (Some hint) r)) <$> head offered.

Definition envelope (proof : PaymentProof) : PaymentSignatureEnvelope json := {|
  en_scheme := None; en_network := None; en_x402_version := X402_VERSION_V2; en_accepted := echoed;
  en_resource := Some {| ri_url := "/report"; ri_description := None; ri_mime_type := None |};
  en_payload := proof; en_extensions := None |}.

Definition codec (proof : PaymentProof) : ExactEnvelopeCodec json := fun _ => Ok (envelope proof).
Definition process (tx : VersionedTransaction) (proof : PaymentProof) : result VerifiedExactPayment X402Error :=
  process_payment (H2 := BatchTxDemo.codec_of tx) (H6 := codec proof) (fun _ => []) (fun _ _ _ => true)
    (fun s => Ok (str_bytes s)) (fun _ => Ok (confirmed [transfer 1500])) (fun _ => "blockhash") server 1030 "paid"
    "0.001" options.
End OfferDemo.

Example demo_processed_transaction :
  OfferDemo.process (ExactDemo.paying 1 1000) (ProofTransaction "tx") = Ok (VerifiedTransaction (ExactDemo.paying 1 1000)).
Proof. vm_compute. reflexivity. Qed.
Example demo_processed_short :
  OfferDemo.process (ExactDemo.paying 1 999) (ProofTransaction "tx") = invalid "amount_mismatch".
Proof. vm_compute. reflexivity. Qed.
Example demo_loopback : is_loopback_rpc " http://[::1]:8899/x" = true /\ is_loopback_rpc "https://127.0.0.1.evil.com" = false.
Proof. split; vm_compute; reflexivity. Qed.

Lemma processed_payment_paid_witness :
  exists cc (r : PaymentRequirements ExactDemo.json) units, cc ∈ xc_currencies OfferDemo.config /\
    Units.parse_units (String.list_ascii_of_string "0.001") (cu_decimals cc) = Ok units /\
    exact_payment (message (ExactDemo.paying 1 1000)) r [AddressesDemo.key "sponsor"].
Proof.
  destruct (processed_payment_paid (H2 := BatchTxDemo.codec_of (ExactDemo.paying 1 1000))
    (H7 := OfferDemo.codec (ProofTransaction "tx")) (fun _ => []) (fun _ _ _ => true) (fun s => Ok (str_bytes s))
    (fun _ => Ok (ExactDemo.confirmed [ExactDemo.transfer 1500])) (fun _ => "blockhash") OfferDemo.server 1030 "paid"
    "0.001" OfferDemo.options (VerifiedTransaction (ExactDemo.paying 1 1000)))
    as (cc & r & units & Hcc & Hu & _ & _ & _ & _ & Hkey & _ & Hv).
  - vm_compute. reflexivity.
  - exists cc, r, units. split_and!; [exact Hcc|exact Hu|].
    destruct Hv as (managed & Hm & Hpay & _). unfold managed_signers_for_requirements in Hm.
    rewrite Hkey in Hm. cbv in Hm. injection Hm as <-. exact Hpay.
Defined.

Lemma echo_accepted_witness :
  exists r, OfferDemo.offered = [r] /\
    find_matching_requirement OfferDemo.offered (OfferDemo.envelope (ProofTransaction "tx")) = Ok r.
Proof.
  destruct (echo_accepted
    (H7 := OfferDemo.codec (ProofTransaction "tx")) OfferDemo.server [OfferDemo.offer_option] OfferDemo.offered
    OfferDemo.offer_option (default ExactDemo.requirements (head OfferDemo.offered)) (Some OfferDemo.hint) "paid"
    (OfferDemo.envelope (ProofTransaction "tx"))) as (_ & matched & Hf & _).
  - apply Forall_singleton. intros a [= <-]. split; vm_compute; discriminate.
  - vm_compute. reflexivity.
  - by left.
  - vm_compute. reflexivity.
  - reflexivity.
  - reflexivity.
  - vm_compute. reflexivity.
  - exists (default ExactDemo.requirements (head OfferDemo.offered)). split; [vm_compute; reflexivity|].
    rewrite Hf. vm_compute in Hf. injection Hf as <-. vm_compute. reflexivity.
Defined.
