(* ===== verification/X402Settle.v ===== *)
(** Settlement of an x402 [exact] payment ([X402::settle_exact] of
    src/rust/crates/kit/src/x402/server/exact.rs): the co-signature, the claim of
    the signature in the ledger shared by every server, the broadcast, and what
    its outcome does to the claim. *)
From stdpp Require Import base numbers option list gmap strings relations.
From S2P Require Import Prelude Effects Bytes Json Store Consumed ConsumedPool Session Voucher Tx Build Policy Signing ChannelTx Deployments ChannelProgram X402Batch X402BatchTx X402Upto X402Open X402Exact X402Offer Broadcast.
Open Scope Z_scope.

(** What a settlement asks: the ledger's store and the node. *)
Inductive settleE (Value : Type) : Type -> Type :=
| OnStore X (e : storeE Value X) : settleE Value X
| OnNode X (e : rpcE X) : settleE Value X.
Arguments OnStore {Value X} e.
Arguments OnNode {Value X} e.

Section settle.
Context {Value : Type} `{SerdeJson Value}.
Context {Key : Type} `{Crypto Key, Addresses} `{Codec} `{ClientText}.
Context (signature_from_str : string -> result (list byte) string).
Abbreviation settle_prog := (prog (settleE Value)).

Definition on_store {A} (p : prog (storeE Value) A) : settle_prog A := plift (fun _ => OnStore) p.
Definition on_node {A} (p : prog rpcE A) : settle_prog A := plift (fun _ => OnNode) p.

Definition replay_err (e : StoreError) : X402Error := XOther ("x402 replay store error: " +:+ store_error_text e).

Definition consume_signature (signature : string) : settle_prog (result unit X402Error) :=
  await inserted := on_store (claim signature) in
  Ret (match inserted with
       | Ok true => Ok tt
       | Ok false => Err XSignatureConsumed
       | Err e => Err (replay_err e)
       end).

(** The co-signed transaction. *)
Definition cosigned_payment (srv : X402) (fee_payer : TransactionSigner) (tx : VersionedTransaction) :
    result VersionedTransaction X402Error :=
  let? configured := ok_or (xc_fee_payer_key (xs_config srv))
    (XOther "fee_payer_key must be configured before exact settlement") in
  let? expected := x402_key "invalid configured fee payer pubkey" configured in
  rmap_err x402_of_core (cosign_versioned_fee_payer fee_payer expected tx).

(** What the outcome of the broadcast does to the pending claim. *)
Definition conclude (signature : string) (outcome : result Settled BroadcastFailure) :
    settle_prog (result string X402Error) :=
  match outcome with
  | Ok (Confirmed confirmed) =>
      await confirmed_claim := on_store (confirm signature) in
      Ret (match confirmed_claim with
           | Ok true => Ok (encode_64 confirmed)
           | Ok false => Err XSignatureConsumed
           | Err e => Err (replay_err e)
           end)
  | Ok (AlreadyLanded _) =>
      await confirmed_claim := on_store (confirm signature) in
      Ret (match confirmed_claim with Ok _ => Err XSignatureConsumed | Err e => Err (replay_err e) end)
  | Err (Unknown _ as failure) =>
      Ret (Err (XSettlementPending ("transaction " +:+ signature +:+ " " +:+ failure_text failure
        +:+ "; retry the same payment, do not pay again")))
  | Err failure =>
      await _ := on_store (release_pending signature) in
      Ret (Err (XRpc ("exact settlement broadcast failed: " +:+ failure_text failure)))
  end.

Definition broadcast (polls : nat) (tx : VersionedTransaction) (signature : string) (prior : PriorBroadcast) :
    settle_prog (option (result string X402Error)) :=
  await outcome := on_node (send_and_confirm_settlement signature_from_str polls tx prior) in
  match outcome with
  | None => Ret None
  | Some outcome => await r := conclude signature outcome in Ret (Some r)
  end.

(** [polls] bounds the status loop; [None] is a settlement still polling. *)
Definition settle_exact (srv : X402) (polls : nat) (fee_payer : TransactionSigner) (verified : VerifiedExactPayment) :
    settle_prog (option (result string X402Error)) :=
  match verified with
  | VerifiedSignature signature =>
      await consumed := consume_signature signature in
      Ret (Some (rmap (fun _ => signature) consumed))
  | VerifiedTransaction tx =>
      match cosigned_payment srv fee_payer tx with
      | Err e => Ret (Some (Err e))
      | Ok tx =>
          match head (signatures tx) with
          | None => Ret (Some (Err (XOther "transaction has no signatures")))
          | Some signature =>
              let signature := encode_64 signature in
              await claimed := on_store (claim_pending signature) in
              match claimed with
              | Err e => Ret (Some (Err (replay_err e)))
              | Ok Consumed => Ret (Some (Err XSignatureConsumed))
              | Ok Fresh => broadcast polls tx signature NoPrior
              | Ok ResumePending => broadcast polls tx signature Possible
              end
          end
      end
  end.
End settle.

(** * Any number of servers on one ledger *)
Section interleaved.
#[local] Opaque consumed_signature_key legacy_consumed_signature_keys.
Context {Value : Type} `{SerdeJsonLaws Value}.
Context {Key : Type} `{Crypto Key, Addresses} `{Codec} `{ClientText}.
Context (signature_from_str : string -> result (list byte) string).
Implicit Types (m : gmap string Value).

(** A step of the environment: the clock and the faults of the store, and what
    the node answers. *)
Definition settle_env : Type := env * (forall X, rpcE X -> X).

Definition settle_step (X : Type) (f : settle_env) (e : settleE Value X) (m : gmap string Value) :
    X * gmap string Value :=
  match e with
  | OnStore e => store_exec _ f.1 e m
  | OnNode e => (f.2 _ e, m)
  end.

(** A task: a settlement by some server, or a call of the ledger by the other
    protocol. *)
Record SettleCall := {
  sc_server : X402;
  sc_polls : nat;
  sc_fee_payer : TransactionSigner;
  sc_verified : VerifiedExactPayment;
}.

Inductive task := TaskSettle (c : SettleCall) | TaskLedger (c : string * ledger_call).
Inductive reply := ReplySettle (r : option (result string X402Error)) | ReplyLedger (r : ledger_reply).

Definition task_prog (t : task) : prog (settleE Value) reply :=
  match t with
  | TaskSettle c =>
      await r := settle_exact signature_from_str (sc_server c) (sc_polls c) (sc_fee_payer c) (sc_verified c) in
      Ret (ReplySettle r)
  | TaskLedger c => await r := on_store (call_prog c) in Ret (ReplyLedger r)
  end.

(** The signature a settlement is about. *)
Definition settled_for (c : SettleCall) : option string :=
  match sc_verified c with
  | VerifiedSignature signature => Some signature
  | VerifiedTransaction tx =>
      match cosigned_payment (sc_server c) (sc_fee_payer c) tx with
      | Ok tx => encode_64 <$> head (signatures tx)
      | Err _ => None
      end
  end.

(** A task that may serve a request for [sig]: a settlement that succeeded, a
    direct claim, or the confirmation of a pending one. *)
Definition serves (sig : string) (t : task) (r : reply) : bool :=
  match t, r with
  | TaskSettle c, ReplySettle (Some (Ok _)) => bool_decide (settled_for c = Some sig)
  | TaskLedger c, ReplyLedger (ReplyBool (Ok true)) =>
      bool_decide (c.1 = sig /\ (c.2 = CallClaim \/ c.2 = CallConfirm))
  | _, _ => false
  end.

(** What a task may give back: only a release of a consumed signature does. *)
Definition gives_back (sig : string) (t : task) : Z :=
  match t with TaskLedger c => if bool_decide (c = (sig, CallRelease)) then 1 else 0 | TaskSettle _ => 0 end.

Definition consumed_mark (o : option Value) : Z := if decide (o = Some (json_bool true)) then 1 else 0.

Lemma consumed_range o : 0 <= consumed_mark o <= 1.
Proof. unfold consumed_mark. case_decide; lia. Qed.

Section account.
Context (sig : string).
Let key := consumed_signature_key sig.

Definition settle_gain (X : Type) (e : settleE Value X) : X -> Z :=
  match e with
  | OnStore e => key_gain key consumed_mark _ e
  | OnNode _ => fun _ => 0
  end.

Lemma settle_gain_sound X (f : settle_env) (e : settleE Value X) x m m' :
  True -> settle_step X f e m = (x, m') ->
  settle_gain X e x <= key_potential key consumed_mark m' - key_potential key consumed_mark m.
Proof.
  intros _ He. destruct e as [X e|X e]; simpl in *.
  - eapply key_gain_sound; [apply consumed_range|done|exact He].
  - injection He as <- <-. lia.
Qed.

Abbreviation funded_at post t b p :=
  (certified (may_perform (T:=task) (fun _ _ => True)) (earn settle_gain) post (t, b) p).

Lemma certified_on_store {B} (post : task * Z -> B -> Prop) t b (p : prog (storeE Value) B) :
  certified (may_perform (T:=task) (fun _ _ => True)) (earn (key_gain key consumed_mark)) post (t, b) p ->
  funded_at post t b (on_store p).
Proof. apply certified_plift; done. Qed.

Lemma certified_on_node {B} (post : task * Z -> B -> Prop) t b (p : prog rpcE B) :
  0 <= b -> (forall o, post (t, b) o) -> funded_at post t b (on_node p).
Proof.
  intros Hb Hpost. unfold on_node. induction p as [o|X e k IH]; simpl; [apply Hpost|].
  split; [done|]. intros x. unfold earn. simpl. rewrite Z.add_0_r. apply IH.
Qed.

Lemma none_worth : consumed_mark None = 0.
Proof. done. Qed.
Lemma true_worth : consumed_mark (Some (json_bool true)) = 1.
Proof. unfold consumed_mark. by rewrite decide_True. Qed.
Lemma pending_worth : consumed_mark (Some pending_marker) = 0.
Proof. unfold consumed_mark. rewrite decide_False; [done|]. intros [= Heq]. by apply true_not_pending. Qed.
Lemma released_worth : consumed_mark (Some released_marker) = 0.
Proof. unfold consumed_mark. rewrite decide_False; [done|]. intros [= Heq]. by apply true_not_released. Qed.

Lemma ledger_decide {B} s (x y : B) : (if decide (consumed_signature_key s = key) then x else y) =
  (if decide (s = sig) then x else y).
Proof. apply ledger_key_decide. Qed.

Lemma no_legacy_worth s : legacy_worth key (legacy_consumed_signature_keys s) = 0.
Proof. apply legacy_worth_ledger. Qed.

#[local] Arguments consumed_mark : simpl never.

(** Evaluates what a ledger write earns. *)
Ltac marks :=
  unfold earn, may_perform in *; simpl in *; unfold write_gain in *;
  rewrite ?ledger_decide, ?no_legacy_worth, ?none_worth, ?true_worth, ?pending_worth, ?released_worth in *;
  repeat case_decide; simpl in *; try done; try lia.

Abbreviation ledger_at post t b p :=
  (certified (may_perform (T:=task) (fun _ _ => True)) (earn (key_gain key consumed_mark)) post (t, b) p).

Definition worth (s : string) : Z := if decide (s = sig) then 1 else 0.

Lemma earns_claim (post : task * Z -> result bool StoreError -> Prop) t b s :
  0 <= b -> (forall o b', o <> Ok true -> b <= b' -> post (t, b') o) -> post (t, b + worth s) (Ok true) ->
  ledger_at post t b (claim s).
Proof.
  unfold worth. intros Hb Hno Hyes. apply certified_claim with (d := 1); try (intros []%ledger_key_not_legacy).
  - intros _ expected [->| ->]; marks.
  - marks.
  - intros o b' Ho Hb'. apply Hno; [done|]. marks.
  - rewrite no_legacy_worth, ledger_decide, Z.add_0_r. done.
Qed.

Lemma earns_claim_pending (post : task * Z -> result PendingClaim StoreError -> Prop) t b s :
  0 <= b -> (forall o b', b <= b' -> post (t, b') o) -> ledger_at post t b (claim_pending s).
Proof.
  intros Hb Hany. apply certified_ptry, certified_claim with (d := 0); try (intros []%ledger_key_not_legacy).
  - intros _ expected [->| ->]; marks.
  - marks.
  - intros [[]|e] b' Ho Hb'; [done| |apply Hany; marks].
    split; [split; marks|]. intros [cur|e]; apply Hany; marks.
  - apply Hany. marks.
Qed.

Lemma earns_confirm (post : task * Z -> result bool StoreError -> Prop) t b s :
  0 <= b -> (forall o, o <> Ok true -> post (t, b) o) -> post (t, b + worth s) (Ok true) ->
  ledger_at post t b (confirm s).
Proof.
  unfold worth. intros Hb Hno Hyes. split; [split; [exact Hb|done]|]. intros [[|]|e]; marks.
  all: rewrite ?Z.add_0_r in *; try done; try (by apply Hno).
Qed.

Lemma earns_release_pending (post : task * Z -> result bool StoreError -> Prop) t b s :
  0 <= b -> (forall o b', b <= b' -> post (t, b') o) -> ledger_at post t b (release_pending s).
Proof.
  intros Hb Hany. apply certified_release; try (intros []%ledger_key_not_legacy); try intros;
    try apply Hany; marks.
Qed.

Lemma earns_release (post : task * Z -> result bool StoreError -> Prop) t b s :
  0 <= b - worth s -> (forall o b', b - worth s <= b' -> post (t, b') o) -> ledger_at post t b (release s).
Proof.
  unfold worth. intros Hb Hany. apply certified_release; try (intros []%ledger_key_not_legacy); try intros;
    try apply Hany; revert Hb; marks.
Qed.

Lemma funded_conclude (post : task * Z -> result string X402Error -> Prop) t b s outcome :
  0 <= b -> (forall r b', (forall x, r <> Ok x) -> b <= b' -> post (t, b') r) ->
  (forall x, post (t, b + worth s) (Ok x)) -> funded_at post t b (conclude s outcome).
Proof.
  intros Hb Hno Hyes. assert (0 <= worth s) by (unfold worth; case_decide; lia).
  destruct outcome as [[confirmed|confirmed]|[e|e|e]]; unfold conclude.
  - apply certified_pbind, certified_on_store, earns_confirm; [done| |apply Hyes].
    intros [[]|] Ho; simpl; [done|apply Hno..]; done || lia.
  - apply certified_pbind, certified_on_store, earns_confirm; [done| |]; [intros [] Ho|]; apply Hno; done || lia.
  - apply certified_pbind, certified_on_store, earns_release_pending; [done|]. intros. by apply Hno.
  - apply certified_pbind, certified_on_store, earns_release_pending; [done|]. intros. by apply Hno.
  - apply Hno; [done|lia].
Qed.

Lemma funded_broadcast (post : task * Z -> option (result string X402Error) -> Prop) t b polls tx s prior :
  0 <= b -> (forall r b', (forall x, r <> Some (Ok x)) -> b <= b' -> post (t, b') r) ->
  (forall x b', b + worth s <= b' -> post (t, b') (Some (Ok x))) ->
  funded_at post t b (broadcast signature_from_str polls tx s prior).
Proof.
  intros Hb Hno Hyes. apply certified_pbind, certified_on_node; [done|]. intros [outcome|].
  - apply certified_pbind, funded_conclude; [done| |].
    + intros r b' Hr Hb'. apply Hno; [|done]. intros x [= ->]. by apply (Hr x).
    + intros x. apply Hyes. lia.
  - apply Hno; [done|lia].
Qed.

Lemma funded_exact c (post : task * Z -> option (result string X402Error) -> Prop) t :
  (forall r b', (forall x, r <> Some (Ok x)) -> 0 <= b' -> post (t, b') r) ->
  (forall x b', (if decide (settled_for c = Some sig) then 1 else 0) <= b' -> post (t, b') (Some (Ok x))) ->
  funded_at post t 0
    (settle_exact signature_from_str (sc_server c) (sc_polls c) (sc_fee_payer c) (sc_verified c)).
Proof.
  intros Hno Hyes. unfold settle_exact, settled_for in *. destruct (sc_verified c) as [tx|s].
  - destruct (cosigned_payment _ _ tx) as [tx'|e]; [|by apply Hno].
    destruct (head (signatures tx')) as [first|]; [|by apply Hno]. simpl in *.
    assert (Hb : forall b prior, 0 <= b -> funded_at post t b
      (broadcast signature_from_str (sc_polls c) tx' (encode_64 first) prior)).
    { intros b prior Hb. apply funded_broadcast; [done| |].
      - intros r b' Hr Hb'. apply Hno; [done|lia].
      - intros x b' Hb'. apply Hyes. unfold worth in Hb'. repeat case_decide; simplify_eq; lia || congruence. }
    apply certified_pbind, certified_on_store, earns_claim_pending; [done|].
    intros [[]|e] b' Hb'; try (by apply Hb); by apply Hno.
  - apply certified_pbind. unfold consume_signature. apply certified_pbind, certified_on_store, earns_claim; [done| |].
    + intros [[]|e] b' Ho Hb'; [done|by apply Hno..].
    + apply Hyes. unfold worth. repeat case_decide; simplify_eq; lia || congruence.
Qed.

Lemma funded_task t :
  funded (fun _ _ => True) settle_gain task_prog (gives_back sig) (serves sig) t.
Proof.
  unfold funded. destruct t as [c|[s c]]; unfold task_prog, gives_back.
  - apply certified_pbind, funded_exact.
    + intros r b' Hr Hb'. unfold solvent. simpl. destruct r as [[x|]|]; [by destruct (Hr x)|done..].
    + intros x b' Hb'. unfold solvent. simpl. case_bool_decide; repeat case_decide; lia || done.
  - set (b := if bool_decide ((s, c) = (sig, CallRelease)) then 1 else 0).
    assert (0 <= b) by (unfold b; case_bool_decide; lia).
    assert (Hall : forall r b', 0 <= b' -> (serves sig (TaskLedger (s, c)) r = true -> 1 <= b') ->
      solvent (serves sig) (TaskLedger (s, c), b') r).
    { intros r b' Hb' Hs. unfold solvent. simpl fst. destruct (serves _ _ _); [by apply Hs|done]. }
    apply certified_pbind, certified_on_store. unfold call_prog. cbn [fst snd].
    destruct c; try apply certified_pbind.
    + apply earns_claim; [done| |]; unfold worth; [intros [[]|] b' Ho Hb'; try done|];
        apply Hall; try done; try lia; try (case_decide; lia).
      cbn. intros [-> _]%bool_decide_eq_true. rewrite decide_True by done. lia.
    + apply earns_claim_pending; [done|]. intros o b' Hb'. apply Hall; [lia|done].
    + apply earns_confirm; [done| |]; unfold worth; [intros [[]|] Ho; try done|];
        apply Hall; try done; try lia; try (case_decide; lia).
      cbn. intros [-> _]%bool_decide_eq_true. rewrite decide_True by done. lia.
    + assert (worth s <= b).
      { unfold worth, b. case_decide; subst; [rewrite bool_decide_true by done; lia|]. case_bool_decide; lia. }
      apply earns_release; [lia|]. intros o b' Hb'. apply Hall; [lia|].
      destruct o as [[]|]; try done. cbn. intros [_ [?|?]]%bool_decide_eq_true; done.
    + apply earns_release_pending; [done|]. intros o b' Hb'. apply Hall; [lia|].
      destruct o as [[]|]; try done. cbn. intros [_ [?|?]]%bool_decide_eq_true; done.
    + destruct (_ !! legacy) as [k|] eqn:Hk; [|by apply Hall].
      assert (Hne : k <> key) by (intros ->; eapply ledger_key_not_legacy, list_elem_of_lookup_2, Hk).
      apply certified_pbind. split; [done|]. intros o. unfold earn. cbn [fst snd key_gain perform].
      rewrite write_gain_other, Z.add_0_r by done. apply Hall; [done|].
      destruct o as [[]|]; try done. cbn. intros [_ [?|?]]%bool_decide_eq_true; done.
Qed.
End account.

Implicit Types (tasks : list task).

(** C5. One payment authorizes one request. Of any number of settlements, direct
    claims and confirmations of one signature, by any servers that share the
    ledger and in any interleaving, whatever the node answers and whichever store
    operations fail, at most one succeeds, and none where the ledger already held
    the signature; a request beyond that takes a release of a consumed mark, which
    a settlement never makes. *)
Theorem payment_serves_once sig m tasks ps m' :
  rtc (pool_step settle_step) (task_prog <$> tasks, m) (ps, m') ->
  count_winners (serves sig) tasks ps <=
    1 - consumed_mark (m !! consumed_signature_key sig) + zsum (gives_back sig <$> tasks).
Proof.
  intros Hr. pose proof (pool_winners settle_step (fun _ _ => True) (settle_gain sig)
    (key_potential (consumed_signature_key sig) consumed_mark) (settle_gain_sound sig) task_prog
    (gives_back sig) (serves sig) _ _ _ _ Hr) as Hw.
  specialize (Hw ltac:(apply Forall_true, funded_task)). unfold key_potential in Hw.
  pose proof (consumed_range (m' !! consumed_signature_key sig)). lia.
Qed.
End interleaved.

(** * One settlement, alone *)
Section alone.
#[local] Opaque consumed_signature_key legacy_consumed_signature_keys.
Context {Value : Type} `{SerdeJsonLaws Value}.
Context {Key : Type} `{Crypto Key, Addresses} `{Codec} `{ClientText}.
Context (signature_from_str : string -> result (list byte) string).
Context (now : Z) (node : forall X, rpcE X -> X).
Implicit Types (m : gmap string Value).

Definition settle_run {A} (p : prog (settleE Value) A) m : A * gmap string Value :=
  run (fun X e m => settle_step X (calm now, node) e m) p m.

Lemma run_on_store {A} (p : prog (storeE Value) A) m : settle_run (on_store p) m = store_run now p m.
Proof. by apply run_plift. Qed.

(** The node's answer to a program that asks nothing else. *)
Definition asked {A} (p : prog rpcE A) : A := (run (fun X e (_ : unit) => (node X e, tt)) p tt).1.

Lemma run_on_node {A} (p : prog rpcE A) m : settle_run (on_node p) m = (asked p, m).
Proof.
  unfold settle_run, on_node, asked. induction p as [a|X e k IH]; simpl; [done|]. apply IH.
Qed.

Lemma settle_pbind {A B} (f : A -> prog (settleE Value) B) p m :
  settle_run (pbind f p) m = let '(a, m) := settle_run p m in settle_run (f a) m.
Proof. apply run_pbind. Qed.

Definition conclusion (s : string) (m : gmap string Value) (outcome : option (result Settled BroadcastFailure)) :
    option (result string X402Error) * gmap string Value :=
  match outcome with
  | None => (None, claimed s pending_marker m)
  | Some (Ok (Confirmed confirmed)) => (Some (Ok (encode_64 confirmed)), claimed s (json_bool true) m)
  | Some (Ok (AlreadyLanded _)) => (Some (Err XSignatureConsumed), claimed s (json_bool true) m)
  | Some (Err (Unknown _ as failure)) =>
      (Some (Err (XSettlementPending ("transaction " +:+ s +:+ " " +:+ failure_text failure
         +:+ "; retry the same payment, do not pay again"))), claimed s pending_marker m)
  | Some (Err failure) =>
      (Some (Err (XRpc ("exact settlement broadcast failed: " +:+ failure_text failure))),
       <[consumed_signature_key s := released_marker]> m)
  end.

Lemma claimed_twice s v w m : <[consumed_signature_key s := w]> (claimed s v m) = claimed s w m.
Proof. unfold claimed. by rewrite insert_insert_eq. Qed.

(** C12. What a settlement of a transaction does to the ledger, by the outcome of its
    broadcast: a confirmation consumes the signature and is served; a landing by
    someone else consumes it unserved; an outcome that may still change keeps the
    claim; a payment that certainly moved nothing gives it back, so that it can
    be made again. *)
Theorem settlement_outcome srv polls fee_payer tx tx' first m :
  cosigned_payment srv fee_payer tx = Ok tx' -> head (signatures tx') = Some first ->
  claimable (encode_64 first) m ->
  let outcome := asked (send_and_confirm_settlement signature_from_str polls tx' NoPrior) in
  settle_run (settle_exact signature_from_str srv polls fee_payer (VerifiedTransaction tx)) m =
    conclusion (encode_64 first) m outcome /\
  (forall failure, outcome = Some (Err failure) -> (forall e, failure <> Unknown e) ->
    claimable (encode_64 first) (conclusion (encode_64 first) m outcome).2).
Proof.
  intros Hco Hhd Hcl outcome. split.
  - unfold settle_exact. rewrite Hco, Hhd, settle_pbind, run_on_store, run_claim_pending, decide_True by done.
    unfold broadcast. rewrite settle_pbind, run_on_node. fold outcome.
    destruct outcome as [outcome|]; [|done]. rewrite settle_pbind.
    destruct outcome as [[confirmed|confirmed]|[e|e|e]]; unfold conclude; try done;
      rewrite settle_pbind, run_on_store; unfold release_pending; rewrite ?run_confirm, ?run_release_holding,
      claimed_ledger, decide_True by done; rewrite ?remove_claimed, ?claimed_twice by done; done.
  - intros failure -> Hf. destruct failure as [e|e|e]; [..|by destruct (Hf e)]; by apply released_claimable.
Qed.
End alone.

(** * Two servers and the other protocol race for one payment *)
Module SettleDemo.
Import OfferDemo.
#[global] Instance client_demo : ClientText := fun _ => "refused".

Definition signature : list byte := replicate 64 Byte.x09.
Definition text_of_signature : string := String.string_of_list_byte signature.
Definition signer : TransactionSigner := SigningDemo.signer (key "sponsor") signature.
Definition tx : VersionedTransaction := ExactDemo.paying 1 1000.
#[global] Instance codec : Codec := BatchTxDemo.codec_of tx.

Definition node (landed : option (result unit string)) (X : Type) (e : rpcE X) : X :=
  match e with
  | SendTransaction _ => Ok text_of_signature
  | Status _ | History _ => Ok landed
  | BlockhashValid _ => Ok true
  end.

Definition call : SettleCall := {|
  sc_server := server; sc_polls := 2; sc_fee_payer := signer; sc_verified := VerifiedTransaction tx |}.
Definition tasks : list task := [TaskSettle call; TaskSettle call; TaskLedger (text_of_signature, CallClaim)].
Definition parse_signature (s : string) : result (list byte) string := Ok (String.list_byte_of_string s).
Definition rounds (n : nat) (i : nat) : list (nat * settle_env) :=
  replicate n (i, (calm 7, node (Some (Ok tt)))).
Definition race := run_pool settle_step (rounds 3 0 ++ rounds 4 1 ++ rounds 2 2 ++ rounds 20 0 ++ rounds 20 1 ++ rounds 20 2)
  (task_prog parse_signature <$> tasks, ∅ : gmap string Demo.value).
End SettleDemo.

Lemma payment_serves_once_witness :
  count_winners (serves SettleDemo.text_of_signature) SettleDemo.tasks SettleDemo.race.1 = 1 /\
  count_winners (serves SettleDemo.text_of_signature) SettleDemo.tasks SettleDemo.race.1 <= 1.
Proof.
  split; [vm_compute; reflexivity|].
  exact (payment_serves_once SettleDemo.parse_signature SettleDemo.text_of_signature ∅ SettleDemo.tasks SettleDemo.race.1
    SettleDemo.race.2 (run_pool_steps _ _ _)).
Defined.

Lemma settlement_outcome_witness :
  exists tx' first,
    settle_run 7 (SettleDemo.node (Some (Ok tt)))
      (settle_exact SettleDemo.parse_signature OfferDemo.server 2 SettleDemo.signer (VerifiedTransaction SettleDemo.tx))
      (∅ : gmap string Demo.value) =
    conclusion (encode_64 first) ∅
      (asked (SettleDemo.node (Some (Ok tt))) (send_and_confirm_settlement SettleDemo.parse_signature 2 tx' NoPrior)).
Proof.
  eexists _, _. eapply settlement_outcome.
  - vm_compute. reflexivity.
  - vm_compute. reflexivity.
  - apply (bool_decide_unpack _). vm_compute. exact I.
Defined.
